(* ===== verification/_CoqProject ===== *)
-Q . S2P
Prelude.v
XCache.v
XCacheSpec.v
XCacheProps.v
Ring.v
LinkedList.v
LinkedListSpec.v
LinkedListProps.v
TTLMap.v
TTLMapSpec.v
TTLMapProps.v
Net.v
NetProps.v
IPPool.v
IPPoolProps.v
Text.v
Human.v
HumanProps.v
IPText.v
IPTextProps.v
Validator.v
Ports.v
PortsProps.v
NetFilter.v
NetFilterProps.v
TrafficControl.v
TrafficControlProps.v
IPAM.v
IPAMProps.v
IPAMShared.v
XStats.v
XStatsProps.v
XPipe.v
XPipeProps.v
Protect.v
DNSPriority.v
DNSPriorityProps.v
DNSActive.v
DNSShared.v
DNSCached.v
DNSDirect.v
DNSBuilder.v
DNSStack.v
DomainBase.v
DomainBaseProps.v
Counters.v
Effects.v
Base64.v
XError.v
XErrorProps.v
Control.v
ControlProps.v
HTTP.v
HTTPProps.v
HTTPMeasure.v
HTTPServer.v
HTTPServerProps.v
HTTPChain.v
Issuer.v
IssuerProps.v
CertMaster.v
CertMasterProps.v
XProxy.v
XProxyProps.v
Entitlements.v
EntitlementsProps.v
Limits.v
LimitsProps.v
Geo.v
GeoProps.v
Keys.v
KeysProps.v
Auth.v
AuthProps.v
Capabilities.v
Storage.v
TLSSign.v
TLSSignProps.v
DNSServer.v
Small.v
