(* ===== verification/Prelude.v ===== *)
(** * A verification development for vpnhouse/common-lib-go

    common-lib-go is the library shared by the servers of a VPN service: in-memory
    caches and containers, the management of client addresses with their packet
    filter and bandwidth limits, traffic statistics, an in-memory pipe, a DNS client
    and a filtering DNS server, an HTTP server with its certificates, a proxy, tokens
    and keys, errors and process control.  This development models those parts as Rocq functions and step
    relations, one file per component ([X.v]), and proves what makes them correct
    (in the files [XProps.v], or after the model in the same file; [XSpec.v] holds the
    refinement lemmas of the larger ones).

    ** The parts and how they interact

    - [xcache] keeps (key, value) records in 512 buckets, each a ring of 64 KB chunks
      with an index; [xstats] stores the counters of a session in it and updates
      them in place.
    - [list] is a doubly linked list, [xttlmap] an LRU map with deadlines.  The DNS
      client's [LastActiveResolver] is built on the first, [CachedResolver] on the second.
    - [xnet] defines addresses and networks; [ippool] hands out the addresses of a
      network; [ipam] adds to each address an isolation rule ([nft_linux.go]) and a
      bandwidth limit ([tc_linux.go]).
    - [xpipe] is a bounded pipe whose readers and writers wait on [xsync.Cond].
    - [xdns/client] combines resolvers: by priority, by last success, cached; the
      direct resolver protects the address it talks to through [protect.Protector].
      [xdns/server] answers requests for listed names itself.
    - [xerror] defines the errors of all the rest and how they become HTTP responses;
      [xhttp] is the HTTP server, its middleware, and the certificates it serves: issued
      ([ssl.go]) or found in a directory ([ssl_foreign.go]), chosen by [tls_master.go].
    - [xproxy] is a proxy handler that takes the credentials of a request through
      [xhttp]; [geoip] finds the country of a request; [xlimits] and [shaper] limit
      connections and rates; [control] starts, restarts and stops the services.
    - [auth] issues and checks tokens with keys kept by [xcrypto]; [keystore], [secret] and
      [tlsutils] keep other keys; [entitlements] and [capabilities] are what the claims of
      a client carry; [xstorage] builds the requests to a database.
    - [human] are the sizes and intervals of configuration files, [validator] the checks of
      their fields, a subnet among them, which is what the address pool is made of.

    ** Which file models what

    - [Prelude]: Go outcomes (value, error, panic) and their monad, [uint64], [int64] and
      [uint32] arithmetic with wrap-around, bytes, little-endian encodings, time and
      durations; the tactics [gosimp], [bcase], [bsplit] and the hint databases.
    - [XCache] ([cache.go], [cache_unix.go], [cache_other.go]): [bucket] is the Go struct with
      its chunks, index, position and generation; [getLocked], [setLocked],
      [bucket_Update], [bucket_Reset], [cleanLocked] and the methods of [Cache].
    - [Ring], [LinkedList] ([list.go]): a heap of elements with [next], [prev], [list]
      fields; every method in a state monad where a nil dereference is a panic.
    - [TTLMap] ([ttlmap.go]): the node heap, the map, and each lock section of [Get] and of
      the background cleanup as its own step.
    - [Net] ([ip.go], [private.go]), [IPPool] ([poolv4.go], [internal.go]); [IPText] is the part of
      [ip.go] that deals with text, with the parsers and printers of [net] and [net/netip].
    - [Human] ([size.go], [interval.go]), with the floating-point numbers that sizes and durations go
      through and their printing and parsing; [Validator] ([validators.go]).
    - [Text]: what the library uses of [strings], [strconv] and, in [Calendar], [time] (dates, their
      text, [AddDate] for the certificates); [Ports] ([config.go], [config_ports.go], and the interval sets of
      [nft_linux.go]); [NetFilter] ([nft_linux.go], [netfilter.go], [nft_other.go]) with the
      meaning of the generated match expressions on packets; [TrafficControl]
      ([tc_linux.go], [tc.go], [tc_noop.go]); [IPAM] ([ipam.go]), which uses the filter and the
      traffic control through type classes that stand for the Go interfaces; [IPAMShared], the
      calls of several goroutines on one IPAM, section by section.
    - [XStats] ([service.go], [utils.go]).
    - [XPipe] ([pipe.go], [waiter.go]): a step relation over the lock sections of any number
      of goroutines, with the notification channel of the condition variable.
    - [Protect] ([counter.go], [interface.go], [dummy.go], [helpers.go]): the interface as a class
      without laws; what a protector was told is read off a log that is put in front of it.
    - [DNSPriority] ([priority.go], [response.go], with Go's slices that share arrays),
      [DNSActive] ([lastactive.go]), [DNSCached] ([cached.go]), [DNSDirect] ([direct.go],
      [system.go], [options.go]), [DNSBuilder] ([builder.go]), and [DNSStack], the lookup through
      all of them with their state threaded; [DNSShared], the last-active resolver used by
      several goroutines, as [DNSCached] does for the cache in its section [shared]; on the server side
      [DomainBase] ([dnsbase/nextdns.go]), the tree of blocked domains in its table.
    - [Counters] ([connmgr], [keycounter], [statutils]): one module per package.
    - [Effects]: the state and error monad of the files that thread a world through many
      calls, with its rewriting tactic [progsimp]; [Base64]: the encodings with their
      round trips.
    - [XError] ([errors.go], [version.go]); [Control] ([service.go], [events.go],
      [runtime.go]), the services behind a class that stands for the Go interface.
    - [HTTP] ([auth.go], [ua.go], [domain_config.go], [response.go], [request.go], [log_mw.go]);
      [HTTPMeasure] ([measure.go]); [HTTPServer] ([server.go]), the goroutines of [Run] as a
      step relation; [HTTPChain], a handler inside both middlewares; [Issuer] ([ssl.go], [ssl_challenge.go]) and [CertMaster]
      ([ssl_foreign.go], [tls_master.go]) over a class for the certificate authority and the
      files.
    - [XProxy] ([query.go], [utils.go], [accounter.go], [xrand]): handlers as the sequences of
      their effects.
    - [Entitlements] ([entity.go]); [Capabilities] ([capabilities.go]); [Storage]
      ([requests.go]).
    - [Limits] ([blocker.go], [recent.go], [shaper.go]), the blocker as a step relation of
      goroutines; [Geo] ([remoteip.go], [resolver.go], [db.go], [instance.go]), reloading against
      shutting down as a step relation.
    - [Keys] ([secret.go], [keystore.go], [keys.go], [rsakeeper.go]): one module per package;
      [Auth] ([jwt.go], [master.go], [userid.go]) on top of it; [TLSSign] ([sign.go], [pem.go]).
    - [DNSServer] ([server.go], [blockreq.go], [pihole_ftl.go]).
    - [Small]: a module for each of [xtime], [xutils], [sentry], [rapidoc], [xap],
      [ip_external_unix.go], [sqlite3.go], [metrics.go] and the listings of [nft_linux.go] and
      [tc_linux.go].

    ** What the theorems show

    - Refinement: every list method acts on sequences and leaves other lists alone
      ([list_op_refines], [push_list_values]); the TTL map is a bounded LRU list of
      entries ([ttl_refines], [cleanup_exact]).
    - xcache: in every reachable bucket a lookup returns a value or "no data", never
      a corruption error or a panic ([reachable_get_total]); a stored value is what is
      read back and other keys are at worst lost ([set_then_get], [cache_set_get],
      [update_in_place], [reset_reports_contents]); statistics add up modulo [2^64]
      ([session_accumulates], [report_stats]).
    - Addresses: an address is handed out once until it is released, the server's, which
      counts as handed out from the start, included ([pool_contract], [pool_alloc_unique], [new_pool]); allocation is all or
      nothing for the pool ([ipam_alloc], [ipam_set], [ipam_unset]), and goroutines that share an
      IPAM never hold the same address ([ipam_shared]); the isolation rules drop
      exactly the traffic between clients for byte-aligned subnets ([isolation_exact]);
      port sets contain only configured ports, and all of them when the ranges do not
      overlap ([ports_covered]); limits are
      recorded exactly when they are in force ([limits_recorded]).
    - Configuration: addresses, networks, intervals and sizes survive being written as text, the
      last up to their precision ([address_roundtrip], [network_text], [network_roundtrip], [interval_roundtrip],
      [size_roundtrip]); what is parsed is well formed ([parsed_network], [parsed_values_fit]); a
      subnet that is valid can be unwrapped and given to the pool ([valid_subnet_usable]), and a
      text is valid when it can be parsed ([valid_values]).
    - The pipe delivers the written bytes in order in every interleaving and stays
      within its bound ([pipe_fifo], [write_accepts_prefix], [close_drains]); with one reader
      no wake-up is lost ([no_lost_wakeup]); what destroying a condition does is [destroy_releases].
    - DNS: which resolver answers, what is cached and for how long, what is
      protected meanwhile ([priority_lookup], [last_active_lookup], [cached_until_expiry],
      [direct_answer], [direct_protection], [builder_servers], [protect_counter]); a lookup through
      everything a builder put together returns and invents nothing
      ([lookup_from_registered], for the builders of [built]); lookups that share a resolver,
      whose locks are released while a server is asked, answer only their own question
      ([last_active_shared], [cached_shared]); alone they are the sequential ones
      ([lookup_sequential]).  The loop that evicts entries holds the lock round by round, so
      that the lookups that wait for it, for ever if it does not end, are seen ([store_hangs]).
    - Domains that are written are found with their categories and disturb no
      other ([domain_roundtrip], [domain_write_keeps]); connection ids are unique
      ([conn_register]), counts and moving averages mean what they say
      ([key_counter_balance], [avg_window]).
    - Tokens and keys: an accepted token carries a right signature of a stored key
      ([checked_token]); an issued token is accepted while its key is stored and refused
      after ([issued_token_life]), with errors of one kind ([checker_errors]); keys, sealed
      texts and certificates come back as they were stored ([keeper_write_read],
      [seal_roundtrip], [keystore_authorize], [sign_store_load], [sign_issuer]),
      and a certificate is valid until the same date of the next year ([sign_validity]).
    - HTTP: internal errors reveal nothing ([secretive_responses], [error_response]); a
      server that is shut down ends once its connections are idle ([shutdown_terminates],
      [active_connection_waits]); an issuer always has a
      certificate, also after a restart ([certificate_served], [issued_survives_restart],
      [backoff]); the directory watcher serves what the files say ([sync_spec],
      [master_serves]); paths and results are counted under bounded labels
      ([normalize_path], [measure_counts]), and the middlewares together leave the response
      as the handler made it and count it once ([middleware_chain]); a handler that writes
      nothing is counted as unknown ([empty_success_unknown]).
    - The proxy lets nobody through without credentials, except for the method OPTIONS, releases each session once and
      passes bytes on in order ([unauthenticated_refused], [session_released_once],
      [forward_conserves]); countries cannot be forged with headers
      by who does not know a secret ([country_not_forgeable]); at most the limit hold a place ([blocker_limit],
      [shape_rate]); readers of databases are never used closed ([geo_readers]);
      services stop in reverse order ([shutdown_order]); listed names are never passed
      on ([filter_exact]).
    - Texts: entitlements, capabilities, user ids and requests mean what they print
      ([settings_roundtrip], [set_roundtrip], [userid_spec], [request_texts]).
    - Limits of the code, each with a concrete run or a general proof, for example
      [clean_evicts_nothing], [get_race_orphans], [get_race_hangs], [release_overtaken], [isolation_gap], [close_loses_reader],
      [priority_add_broken], [name_error_not_seen].

    ** Parameters, bounds and fuel

    Code of other packages is a parameter: the hash function, the allocation of
    chunks, nftables and netlink connections (state types with the operations the
    code calls), the DNS exchange, the system's resolver, the growth of slices, the
    order in which [sort.Slice] leaves equal elements, the text of an address, ciphers, signatures and certificate formats, the JSON encoder,
    the token library, file systems and certificate authorities, the transport of
    the proxy.  What a theorem needs of them is a hypothesis or the law of
    a class, and its witness instantiates them.

    Loops that are not structural have fuel, and the theorems include that it is
    enough: [evict_fuel] (one round per item), [scan_fuel] (one round per address of
    the pool), two rounds of [write_section] between two waits, the free space in
    [carve], the number of elements of a list in [findTag] and [findActive], one round
    more than there are connections in [Register], the length of the text in [durationLoop],
    nine groups in [parseIPv6Loop].  Integers are
    [Z] with wrap-around written out where the code can overflow; a theorem that needs
    no overflow says so (for example [small], fewer than [2^63 - 1] list elements).

    ** What is not modelled

    Logging, apart from what errors report; the real clock (times are arguments); the
    memory model below the locks; what the parameters above stand for; texts beyond ASCII in
    the case and space functions; conversions of floating-point numbers that do not fit (a
    parameter, as Go leaves them open); the Go syntax of values in debug listings (a
    parameter).  The concurrent models interleave lock sections: what the race detector would
    report of unlocked accesses is named in the findings, not given a meaning. *)
From Stdlib Require Export ZArith Lia.
From stdpp Require Export base numbers strings gmap list.

#[export] Set Default Goal Selector "!".
#[export] Set Warnings "-clear-no-such-hyp".

(** Machine arithmetic is never unfolded by [simpl]. *)
#[global] Arguments Z.add : simpl never.
#[global] Arguments Z.sub : simpl never.
#[global] Arguments Z.mul : simpl never.
#[global] Arguments Z.div : simpl never.
#[global] Arguments Z.modulo : simpl never.
#[global] Arguments Z.pow : simpl never.
#[global] Arguments Z.shiftl : simpl never.
#[global] Arguments Z.shiftr : simpl never.
#[global] Arguments Z.land : simpl never.
#[global] Arguments Z.lor : simpl never.
#[global] Arguments Z.lxor : simpl never.
#[global] Arguments Z.to_nat : simpl never.
#[global] Arguments Z.of_nat : simpl never.

(** ** Outcomes of Go calls *)

(** A call returns a value, returns an error, or does not return normally
    (a run-time panic, [panic(...)] or [zap.L().Fatal(...)]). *)
Inductive go (E A : Type) : Type :=
  | Ok (a : A)
  | Err (e : E)
  | Panic.
Arguments Ok {E A} _.
Arguments Err {E A} _.
Arguments Panic {E A}.

#[global] Instance go_ret (E : Type) : MRet (go E) := λ A a, Ok a.
#[global] Instance go_bind (E : Type) : MBind (go E) := λ A B f x,
  match x with
  | Ok a => f a
  | Err e => Err e
  | Panic => Panic
  end.

(** Reduction of the monad's plumbing only. *)
Ltac gosimp := cbn [mbind go_bind mret go_ret default from_option id fst snd].

#[global] Instance go_eq_dec (E A : Type) `{EqDecision E, EqDecision A} : EqDecision (go E A).
Proof. solve_decision. Defined.

(** ** Machine integers

    Values of a Go integer type are kept as [Z] within the type's range, and
    every operation that can leave the range is wrapped explicitly. *)
Definition u8 (z : Z) : Z := z mod 2 ^ 8.
Definition u16 (z : Z) : Z := z mod 2 ^ 16.
Definition u32 (z : Z) : Z := z mod 2 ^ 32.
Definition u64 (z : Z) : Z := z mod 2 ^ 64.
(** Go's [int] and [int64] on the 64-bit targets the library is built for. *)
Definition i64 (z : Z) : Z := (z + 2 ^ 63) mod 2 ^ 64 - 2 ^ 63.

Definition in_u8 (z : Z) : Prop := (0 ≤ z < 2 ^ 8)%Z.
Definition in_u16 (z : Z) : Prop := (0 ≤ z < 2 ^ 16)%Z.
Definition in_u32 (z : Z) : Prop := (0 ≤ z < 2 ^ 32)%Z.
Definition in_u64 (z : Z) : Prop := (0 ≤ z < 2 ^ 64)%Z.
Definition in_i64 (z : Z) : Prop := (- 2 ^ 63 ≤ z < 2 ^ 63)%Z.

#[global] Instance in_u8_dec z : Decision (in_u8 z) := _.
#[global] Instance in_u16_dec z : Decision (in_u16 z) := _.
#[global] Instance in_u32_dec z : Decision (in_u32 z) := _.
#[global] Instance in_u64_dec z : Decision (in_u64 z) := _.
#[global] Instance in_i64_dec z : Decision (in_i64 z) := _.

Lemma u8_small z : in_u8 z → u8 z = z.
Proof. apply Z.mod_small. Qed.
Lemma u16_small z : in_u16 z → u16 z = z.
Proof. apply Z.mod_small. Qed.
Lemma u32_small z : in_u32 z → u32 z = z.
Proof. apply Z.mod_small. Qed.
Lemma u64_small z : in_u64 z → u64 z = z.
Proof. apply Z.mod_small. Qed.
Lemma i64_small z : in_i64 z → i64 z = z.
Proof. unfold in_i64, i64. intros H. rewrite Z.mod_small; lia. Qed.
Lemma u8_range z : in_u8 (u8 z).
Proof. apply Z.mod_pos_bound. lia. Qed.
Lemma u16_range z : in_u16 (u16 z).
Proof. apply Z.mod_pos_bound. lia. Qed.
Lemma u32_range z : in_u32 (u32 z).
Proof. apply Z.mod_pos_bound. lia. Qed.
Lemma u64_range z : in_u64 (u64 z).
Proof. apply Z.mod_pos_bound. lia. Qed.
Lemma i64_add_l a b : (i64 (i64 a + b) = i64 (a + b))%Z.
Proof.
  unfold i64. replace ((a + 2 ^ 63) mod 2 ^ 64 - 2 ^ 63 + b + 2 ^ 63)%Z with ((a + 2 ^ 63) mod 2 ^ 64 + b)%Z by lia.
  rewrite Zplus_mod_idemp_l. do 2 f_equal. lia.
Qed.
Lemma i64_range z : in_i64 (i64 z).
Proof. unfold in_i64, i64. pose proof (Z.mod_pos_bound (z + 2 ^ 63) (2 ^ 64)). lia. Qed.

(** ** Boolean tests as propositions *)

(** [bsplit] turns every boolean test on [Z] and every boolean connective among
    the hypotheses into its proposition; [bcase] does the case analysis on the
    condition of a conditional. *)
Ltac bnorm1 :=
  match goal with
  | H : context [ (_ && _)%bool = true ] |- _ => rewrite andb_true_iff in H
  | H : context [ (_ && _)%bool = false ] |- _ => rewrite andb_false_iff in H
  | H : context [ (_ || _)%bool = true ] |- _ => rewrite orb_true_iff in H
  | H : context [ (_ || _)%bool = false ] |- _ => rewrite orb_false_iff in H
  | H : context [ negb _ = true ] |- _ => rewrite negb_true_iff in H
  | H : context [ negb _ = false ] |- _ => rewrite negb_false_iff in H
  | H : context [ (_ <? _)%Z = true ] |- _ => rewrite Z.ltb_lt in H
  | H : context [ (_ <? _)%Z = false ] |- _ => rewrite Z.ltb_ge in H
  | H : context [ (_ <=? _)%Z = true ] |- _ => rewrite Z.leb_le in H
  | H : context [ (_ <=? _)%Z = false ] |- _ => rewrite Z.leb_gt in H
  | H : context [ (_ =? _)%Z = true ] |- _ => rewrite Z.eqb_eq in H
  | H : context [ (_ =? _)%Z = false ] |- _ => rewrite Z.eqb_neq in H
  | H : _ ∧ _ |- _ => destruct H
  end.
Ltac bsplit := repeat bnorm1.
Ltac bcase := match goal with |- context [ if ?b then _ else _ ] => destruct b eqn:?; bsplit end.
Ltac bcase_in H := match type of H with context [ if ?b then _ else _ ] => destruct b eqn:?; bsplit end.

(** ** Byte sequences and slices *)

Abbreviation bytes := (list Z).
Definition is_bytes (l : bytes) : Prop := Forall in_u8 l.

Definition zlen {A} (l : list A) : Z := Z.of_nat (length l).

(** [l[lo:hi]], for [0 <= lo <= hi <= len l]. *)
Definition slice {A} (lo hi : Z) (l : list A) : list A :=
  take (Z.to_nat (hi - lo)) (drop (Z.to_nat lo) l).

(** The memory [l] after [bs] was copied to it at offset [off]. *)
Definition overwrite {A} (off : Z) (bs l : list A) : list A :=
  take (Z.to_nat off) l ++ bs ++ drop (Z.to_nat off + length bs) l.

#[global] Arguments zlen : simpl never.
#[global] Arguments slice : simpl never.
#[global] Arguments overwrite : simpl never.
#[global] Arguments u8 : simpl never.
#[global] Arguments u16 : simpl never.
#[global] Arguments u32 : simpl never.
#[global] Arguments u64 : simpl never.
#[global] Arguments i64 : simpl never.

Lemma zlen_nonneg {A} (l : list A) : (0 ≤ zlen l)%Z.
Proof. unfold zlen. lia. Qed.
Lemma zlen_app {A} (l k : list A) : zlen (l ++ k) = (zlen l + zlen k)%Z.
Proof. unfold zlen. rewrite length_app. lia. Qed.
Lemma zlen_cons {A} (x : A) (l : list A) : zlen (x :: l) = (1 + zlen l)%Z.
Proof. unfold zlen. simpl. lia. Qed.
Lemma zlen_nil {A} : zlen (@nil A) = 0%Z.
Proof. done. Qed.
Lemma zlen_0_nil {A} (l : list A) : zlen l = 0%Z ↔ l = [].
Proof. unfold zlen. destruct l; simpl; split; (done || lia). Qed.

Section slices.
Context {A : Type}.
Implicit Types (l bs : list A) (lo hi off : Z).
Local Open Scope Z_scope.

Lemma zlen_slice lo hi l : 0 ≤ lo ≤ hi → hi ≤ zlen l → zlen (slice lo hi l) = hi - lo.
Proof. unfold zlen, slice. intros. rewrite length_take, length_drop. lia. Qed.

Lemma zlen_overwrite off bs l :
  0 ≤ off → off + zlen bs ≤ zlen l → zlen (overwrite off bs l) = zlen l.
Proof.
  unfold zlen, overwrite. intros.
  rewrite !length_app, length_take, length_drop. lia.
Qed.

Lemma lookup_slice lo hi l (i : nat) :
  0 ≤ lo → slice lo hi l !! i =
    if decide (Z.of_nat i < hi - lo) then l !! (Z.to_nat lo + i)%nat else None.
Proof.
  intros. unfold slice. case_decide.
  - rewrite lookup_take_lt by lia. by rewrite lookup_drop.
  - by rewrite lookup_take_ge by lia.
Qed.

Lemma lookup_overwrite off bs l (i : nat) :
  0 ≤ off → off + zlen bs ≤ zlen l → overwrite off bs l !! i =
    if decide (off ≤ Z.of_nat i < off + zlen bs) then bs !! (i - Z.to_nat off)%nat else l !! i.
Proof.
  unfold overwrite, zlen. intros.
  destruct (decide (i < Z.to_nat off)%nat).
  - rewrite lookup_app_l by (rewrite length_take; lia).
    rewrite lookup_take_lt by lia. case_decide; [lia | done].
  - rewrite lookup_app_r by (rewrite length_take; lia).
    rewrite length_take. replace (Z.to_nat off `min` length l)%nat with (Z.to_nat off) by lia.
    case_decide.
    + by rewrite lookup_app_l by lia.
    + rewrite lookup_app_r by lia. rewrite lookup_drop. f_equal. lia.
Qed.

(** What a copy wrote is what is read back, and nothing else changes. *)
Lemma slice_overwrite_eq off bs l :
  0 ≤ off → off + zlen bs ≤ zlen l → slice off (off + zlen bs) (overwrite off bs l) = bs.
Proof.
  intros. apply list_eq. intros i. rewrite lookup_slice by lia.
  case_decide as Hi.
  - rewrite lookup_overwrite by lia. rewrite decide_True by (unfold zlen in *; lia).
    f_equal. lia.
  - symmetry. apply lookup_ge_None_2. unfold zlen in *. lia.
Qed.

Lemma slice_overwrite_ne off bs l lo hi :
  0 ≤ off → off + zlen bs ≤ zlen l → 0 ≤ lo ≤ hi →
  hi ≤ off ∨ off + zlen bs ≤ lo →
  slice lo hi (overwrite off bs l) = slice lo hi l.
Proof.
  intros ? ? ? Hd. apply list_eq. intros i. rewrite !lookup_slice by lia.
  case_decide; [| done]. rewrite lookup_overwrite by lia.
  by rewrite decide_False by lia.
Qed.

Lemma slice_app lo mid hi l :
  0 ≤ lo ≤ mid → mid ≤ hi → hi ≤ zlen l → slice lo hi l = slice lo mid l ++ slice mid hi l.
Proof.
  intros ? ? ?. apply list_eq. intros i. rewrite lookup_slice by lia.
  assert (length (slice lo mid l) = Z.to_nat (mid - lo)) as Hlen
    by (apply Nat2Z.inj; fold (zlen (slice lo mid l)); rewrite zlen_slice; lia).
  destruct (decide (Z.of_nat i < mid - lo)).
  - rewrite lookup_app_l by lia. rewrite lookup_slice by lia.
    by rewrite !decide_True by lia.
  - rewrite lookup_app_r by lia. rewrite lookup_slice by lia. rewrite Hlen.
    repeat case_decide; try lia; [| done]. f_equal. lia.
Qed.

Lemma slice_of_app_l lo hi l bs :
  0 ≤ lo ≤ hi → hi ≤ zlen l → slice lo hi (l ++ bs) = slice lo hi l.
Proof.
  intros ? ?. apply list_eq. intros i. rewrite !lookup_slice by lia.
  case_decide; [| done]. apply lookup_app_l. unfold zlen in *. lia.
Qed.

Lemma slice_full l : slice 0 (zlen l) l = l.
Proof. unfold slice, zlen. rewrite drop_0, Z.sub_0_r, Nat2Z.id. by apply take_ge. Qed.

Lemma slice_slice lo hi a b l :
  0 ≤ a ≤ b → b ≤ hi - lo → 0 ≤ lo → slice a b (slice lo hi l) = slice (lo + a) (lo + b) l.
Proof.
  intros. apply list_eq. intros i. rewrite !lookup_slice by lia.
  repeat case_decide; try lia; [f_equal; lia | done].
Qed.
End slices.

Lemma filter_all {A} (P : A → Prop) `{!∀ x, Decision (P x)} (l : list A) :
  Forall P l → filter P l = l.
Proof. induction 1 as [|x l Hx _ IH]; [done|]. rewrite filter_cons_True by done. by rewrite IH. Qed.

Lemma filter_none {A} (P : A → Prop) `{!∀ x, Decision (P x)} (l : list A) :
  Forall (λ x, ¬ P x) l → filter P l = [].
Proof. induction 1 as [|x l Hx _ IH]; [done|]. by rewrite filter_cons_False. Qed.

Lemma filter_ext_in {A} (P Q : A → Prop) `{!∀ x, Decision (P x), !∀ x, Decision (Q x)} (l : list A) :
  (∀ x, x ∈ l → P x ↔ Q x) → filter P l = filter Q l.
Proof.
  induction l as [|x l IH]; intros Hpq; [done|].
  assert (filter P l = filter Q l) as E by (apply IH; intros y Hy; apply Hpq; by right).
  pose proof (Hpq x ltac:(by left)) as Hx. rewrite !filter_cons, E.
  destruct (decide (P x)), (decide (Q x)); tauto || done.
Qed.

Create HintDb golib.
Create Rewrite HintDb zlen.
#[export] Hint Resolve zlen_nonneg u8_range u16_range u32_range u64_range i64_range : golib.
#[export] Hint Rewrite @zlen_app @zlen_cons @zlen_nil : zlen.

(** ** Time

    A [time.Time] is the number of nanoseconds since the zero [Time] (so
    [IsZero] is [= 0]); a [time.Duration] is an [int64] number of nanoseconds. *)
Definition time := Z.
Definition time_zero : time := 0%Z.
Definition IsZero (t : time) : bool := (t =? 0)%Z.
(** [a.After(b)] *)
Definition After (a b : time) : bool := (b <? a)%Z.
(** [a.Sub(b)] saturates at the bounds of [Duration]. *)
Definition Sub (a b : time) : Z := Z.max (- 2 ^ 63) (Z.min (2 ^ 63 - 1) (a - b)).
Definition Second : Z := 1000000000%Z.
