(* ===== verification/XCache.v ===== *)
(** * xcache: a sharded ring-buffer cache of byte strings

    Models [src/xcache/cache.go] together with the two chunk allocators of
    [cache_unix.go] and [cache_other.go].  A bucket stores encoded (key, value)
    records in a ring of 64 KB chunks and an index from key hashes to
    (generation, ring position) words.  The mutex of a bucket makes each
    operation atomic, so an operation is a function on the bucket.

    A chunk is modelled as the slice the code holds: the backing memory and the
    current length; truncation keeps the memory, so records of the previous
    generation stay readable behind the write position, as in the program. *)
From S2P Require Import Prelude.

Local Open Scope Z_scope.

(** ** Constants and errors *)

Definition bucketsCount : Z := 512.
Definition chunkSize : Z := 64 * 1024.
Definition bucketSizeBits : Z := 40.
Definition genSizeBits : Z := 64 - bucketSizeBits.
Definition maxGen : Z := 2 ^ genSizeBits - 1.
Definition maxBucketSize : Z := 2 ^ bucketSizeBits.
Definition maxKeyLen : Z := 2 ^ 16.

Inductive cerr : Type :=
  | ErrNoData
  | ErrCorruptedData
  | errKeyLenTooBig
  | errValLenTooBig
  | errKeyValLenExceedsChunkSize
  | errMaxBytesNotPositive
  | errMaxBytesZero
  | errMaxBytesTooBig
  | errCallback (code : Z).   (* an error of the caller's mutator or provider *)

#[global] Instance cerr_eq_dec : EqDecision cerr.
Proof. solve_decision. Defined.

(** ** Items reported to [onEvict] *)

Record Items := mkItems { Keys : list bytes; Values : list bytes }.
Definition newItems : Items := mkItems [] [].
Definition Items_Add (i : Items) (key val : bytes) : Items :=
  mkItems (Keys i ++ [key]) (Values i ++ [val]).
Definition Items_Count (i : Items) : Z := zlen (Keys i).

(** ** Chunks *)

(** A non-nil [[]byte] chunk: its backing array and its length. *)
Record chunk := mkChunk { c_mem : bytes; c_len : Z }.

(** [chunk[:0]] *)
Definition chunk_truncate (c : chunk) : chunk := mkChunk (c_mem c) 0.
(** [append(chunk, bs...)]: in place while the capacity suffices (beyond it the
    runtime moves the contents to a larger array). *)
Definition chunk_append (c : chunk) (bs : bytes) : chunk :=
  mkChunk (overwrite (c_len c) bs (c_mem c)) (c_len c + zlen bs).
(** [chunk[lo:hi]], which the runtime allows up to the capacity. *)
Definition chunk_slice (lo hi : Z) (c : chunk) : option bytes :=
  if hi <=? zlen (c_mem c) then Some (slice lo hi (c_mem c)) else None.

(** What the bucket relies on from the chunk allocator: [getChunk] hands out
    full-size memory ([None] is the panic of a failed [mmap]), [putChunk] takes
    a chunk back. *)
Class ChunkAlloc (P : Type) := {
  getChunk : P → option (bytes * P);
  putChunk : option chunk → P → P;
  pool_ok : P → Prop;
  getChunk_ok p mem p' :
    pool_ok p → getChunk p = Some (mem, p') → zlen mem = chunkSize ∧ pool_ok p';
  putChunk_ok oc p :
    pool_ok p → (∀ c, oc = Some c → zlen (c_mem c) = chunkSize) → pool_ok (putChunk oc p);
}.

(** ** Buckets *)

Record bucket := mkBucket {
  b_chunks : list (option chunk);   (* [None] is a nil chunk *)
  b_m : gmap Z Z;                   (* hash -> generation and ring position *)
  b_idx : Z;
  b_gen : Z;
}.

Definition posOf (v : Z) : Z := Z.land v (maxBucketSize - 1).
Definition genOf (v : Z) : Z := Z.shiftr v bucketSizeBits.
Definition bGen (b : bucket) : Z := Z.land (b_gen b) maxGen.

(** The freshness test of [readItem] and [getLocked]. *)
Definition fresh (b : bucket) (v : Z) : bool :=
  let gen := genOf v in
  let idx := posOf v in
  (gen =? bGen b) && (idx <? b_idx b)
  || (gen + 1 =? bGen b) && (b_idx b <=? idx)
  || (gen =? maxGen) && (bGen b =? 1) && (b_idx b <=? idx).

(** The test of [cleanLocked] for an entry that is kept. *)
Definition keep (b : bucket) (v : Z) : bool :=
  let gen := genOf v in
  let idx := posOf v in
  ((gen + 1 =? bGen b) || (gen =? maxGen) && (bGen b =? 1)) && (b_idx b <=? idx)
  || (gen =? bGen b) && (idx <? b_idx b).

(** The block [readItem] and [getLocked] share: checks of the index word and
    decoding of the 4-byte header; yields the chunk, the offset behind the
    header and the two lengths. *)
Definition locate (b : bucket) (v : Z) : go cerr (Z * chunk * Z * Z * Z) :=
  if negb (fresh b v) then Err ErrNoData else
  let idx := posOf v in
  let chunkIdx := idx / chunkSize in
  if zlen (b_chunks b) <=? chunkIdx then Err ErrCorruptedData else
  let off := idx mod chunkSize in
  if chunkSize <=? off + 4 then Err ErrCorruptedData else
  match b_chunks b !! Z.to_nat chunkIdx with
  | Some (Some c) =>
      match chunk_slice off (off + 4) c with
      | Some [l0; l1; l2; l3] =>
          let keyLen := Z.lor (Z.shiftl l0 8) l1 in
          let valLen := Z.lor (Z.shiftl l2 8) l3 in
          if chunkSize <=? off + 4 + keyLen + valLen then Err ErrCorruptedData
          else Ok (chunkIdx, c, off + 4, keyLen, valLen)
      | _ => Panic
      end
  | _ => Panic
  end.

Definition of_slice (o : option bytes) : go cerr bytes :=
  match o with Some bs => Ok bs | None => Panic end.

Definition readItem (b : bucket) (v : Z) : go cerr (bytes * bytes) :=
  '(_, c, idx, keyLen, valLen) ← locate b v;
  k ← of_slice (chunk_slice idx (idx + keyLen) c);
  val ← of_slice (chunk_slice (idx + keyLen) (idx + keyLen + valLen) c);
  Ok (k, val).

(** A value slice that still points into a chunk ([noCopy]). *)
Record valref := mkRef { r_chunk : Z; r_off : Z; r_len : Z }.

(** [getLocked] with [noCopy]: the place of the value. *)
Definition getRef (b : bucket) (k : bytes) (h : Z) : go cerr valref :=
  let v := default 0 (b_m b !! h) in
  if v =? 0 then Err ErrNoData else
  '(ci, c, idx, keyLen, valLen) ← locate b v;
  key ← of_slice (chunk_slice idx (idx + keyLen) c);
  if bool_decide (k = key) then Ok (mkRef ci (idx + keyLen) valLen) else Err ErrNoData.

(** The bytes behind a reference. *)
Definition deref (b : bucket) (r : valref) : go cerr bytes :=
  match b_chunks b !! Z.to_nat (r_chunk r) with
  | Some (Some c) => of_slice (chunk_slice (r_off r) (r_off r + r_len r) c)
  | _ => Panic
  end.

(** [getLocked] without [noCopy]: a copy of the value. *)
Definition getLocked (b : bucket) (k : bytes) (h : Z) : go cerr bytes :=
  r ← getRef b k h; deref b r.

(** The loop of [Reset], [getItemsLocked] and [cleanLocked] over index words:
    unreadable entries are skipped. *)
Fixpoint readItems (b : bucket) (vs : list Z) (out : Items) : go cerr Items :=
  match vs with
  | [] => Ok out
  | v :: vs =>
      match readItem b v with
      | Ok (key, val) => readItems b vs (Items_Add out key val)
      | Err _ => readItems b vs out
      | Panic => Panic
      end
  end.

(** The iteration order of a Go map is unspecified; the model takes the order
    of [map_to_list]. *)
Definition map_values (m : gmap Z Z) : list Z := (map_to_list m).*2.

Definition getItemsLocked (b : bucket) (out : option Items) : go cerr (option Items) :=
  if bool_decide (size (b_m b) = 0%nat) then Ok out else
  out' ← readItems b (map_values (b_m b)) (default newItems out);
  Ok (Some out').

(** [cleanLocked]; the second component lists the batches handed to
    [go onEvict(evicted)]. *)
Definition cleanLocked (b : bucket) (onEvict : bool) : go cerr (bucket * list Items) :=
  let bm := filter (λ kv, keep b kv.2 = true) (b_m b) in
  let bme : gset Z := list_to_set (filter (λ v, keep b v = false) (map_values (b_m b))) in
  evs ← (if onEvict && bool_decide (bme ≠ ∅)
         then evicted ← readItems b (elements bme) newItems; Ok [evicted]
         else Ok []);
  Ok (if bool_decide (bm = ∅) then b
      else mkBucket (b_chunks b) bm (b_idx b) (b_gen b), evs).

(** [b.gen++; if b.gen&maxGen == 0 { b.gen++ }] *)
Definition bumpGen (g : Z) : Z :=
  let g := u64 (g + 1) in
  if Z.land g maxGen =? 0 then u64 (g + 1) else g.

(** [kvLenBuf] *)
Definition kvLenBuf (k v : bytes) : bytes :=
  [u8 (Z.shiftr (u16 (zlen k)) 8); u8 (zlen k);
   u8 (Z.shiftr (u16 (zlen v)) 8); u8 (zlen v)].

(** Where the next record of [kvLen] bytes goes: its ring position, its chunk,
    the new generation, whether the chunk is truncated first and whether the
    ring wrapped around. *)
Definition place (b : bucket) (kvLen : Z) : Z * Z * Z * bool * bool :=
  let chunkIdx := b_idx b / chunkSize in
  let chunkIdxNew := (b_idx b + kvLen) / chunkSize in
  if chunkIdx <? chunkIdxNew then
    if zlen (b_chunks b) <=? chunkIdxNew then (0, 0, bumpGen (b_gen b), true, true)
    else (chunkIdxNew * chunkSize, chunkIdxNew, b_gen b, true, false)
  else (b_idx b, chunkIdx, b_gen b, false, false).

Section ops.
Context {P : Type} `{!ChunkAlloc P}.

(** [chunk := chunks[chunkIdx]; if chunk == nil { chunk = getChunk()[:0] }] *)
Definition takeChunk (p : P) (oc : option chunk) : option (chunk * P) :=
  match oc with
  | Some c => Some (c, p)
  | None =>
      match getChunk p with
      | Some (mem, p') => Some (chunk_truncate (mkChunk mem (zlen mem)), p')
      | None => None
      end
  end.

Definition setLocked (p : P) (b : bucket) (k v : bytes) (h : Z) (onEvict : bool)
  : go cerr (P * bucket * list Items) :=
  if maxKeyLen <=? zlen k then Err errKeyLenTooBig else
  if maxKeyLen <=? zlen v then Err errValLenTooBig else
  let kvLen := 4 + zlen k + zlen v in
  if chunkSize <=? kvLen then Err errKeyValLenExceedsChunkSize else
  let '(idx, chunkIdx, gen, trunc, needClean) := place b kvLen in
  match b_chunks b !! Z.to_nat chunkIdx with
  | None => Panic
  | Some oc =>
      match takeChunk p (if trunc then chunk_truncate <$> oc else oc) with
      | None => Panic
      | Some (c, p') =>
          let c' := chunk_append (chunk_append (chunk_append c (kvLenBuf k v)) k) v in
          let b' := mkBucket
            (<[Z.to_nat chunkIdx := Some c']> (b_chunks b))
            (<[h := Z.lor idx (u64 (Z.shiftl gen bucketSizeBits))]> (b_m b))
            (idx + kvLen) gen in
          if needClean
          then '(b'', evs) ← cleanLocked b' onEvict; Ok (p', b'', evs)
          else Ok (p', b', [])
      end
  end.

(** [Reset(out)]: report the readable items, release the chunks, start over. *)
Definition bucket_Reset (p : P) (b : bucket) (out : option Items)
  : go cerr (P * bucket * option Items) :=
  out' ← (match out with
          | Some o => o' ← readItems b (map_values (b_m b)) o; Ok (Some o')
          | None => Ok None
          end);
  Ok (foldl (λ p oc, putChunk oc p) p (b_chunks b),
      mkBucket (replicate (length (b_chunks b)) None) ∅ 0 1, out').

Definition bucket_Init (p : P) (maxBytes : Z) : go cerr (P * bucket) :=
  if maxBytes =? 0 then Err errMaxBytesZero else
  if maxBucketSize <=? maxBytes then Err errMaxBytesTooBig else
  let maxChunks := (maxBytes + chunkSize - 1) / chunkSize in
  '(p', b, _) ← bucket_Reset p (mkBucket (replicate (Z.to_nat maxChunks) None) ∅ 0 0) None;
  Ok (p', b).

Definition bucket_Del (b : bucket) (h : Z) : bucket :=
  mkBucket (b_chunks b) (delete h (b_m b)) (b_idx b) (b_gen b).

(** A mutator receives the value in place.  [m_left] is what it leaves at the
    address of the slice it was given (it may write within the slice, and with
    [append] behind it up to the capacity), [m_ret] the slice it returns. *)
Record mutation := mkMutation {
  m_left : bytes; m_ret : bytes; m_update : bool; m_err : option cerr }.

(** Bytes written through the aliased slice. *)
Definition scribble (b : bucket) (r : valref) (bs : bytes) : bucket :=
  match b_chunks b !! Z.to_nat (r_chunk r) with
  | Some (Some c) =>
      mkBucket (<[Z.to_nat (r_chunk r) := Some (mkChunk (overwrite (r_off r) bs (c_mem c)) (c_len c))]>
                  (b_chunks b)) (b_m b) (b_idx b) (b_gen b)
  | _ => b
  end.

(** [Update]: the state changes and the returned error. *)
Definition bucket_Update (p : P) (b : bucket) (k : bytes) (h : Z)
    (mutator : bytes → mutation) (onEvict : bool)
  : go cerr (P * bucket * list Items * option cerr) :=
  let run (b : bucket) (m : mutation) (err : option cerr) :=
    match m_err m with
    | Some e => Ok (p, b, [], Some e)
    | None =>
        if m_update m then
          match setLocked p b k (m_ret m) h onEvict with
          | Ok (p', b', evs) => Ok (p', b', evs, None)
          | Err e => Ok (p, b, [], Some e)
          | Panic => Panic
          end
        else Ok (p, b, [], err)
    end in
  match getRef b k h with
  | Ok r =>
      match deref b r with
      | Ok v => let m := mutator v in run (scribble b r (m_left m)) m None
      | Err _ | Panic => Panic
      end
  | Err ErrNoData => run b (mutator []) (Some ErrNoData)
  | Err e => Ok (p, b, [], Some e)
  | Panic => Panic
  end.

Definition bucket_GetSet (p : P) (b : bucket) (k : bytes) (h : Z)
    (provider : bytes + cerr) (onEvict : bool)
  : go cerr (P * bucket * list Items * bytes) :=
  match getLocked b k h with
  | Ok v => Ok (p, b, [], v)
  | Err ErrNoData =>
      match provider with
      | inr e => Err e
      | inl v =>
          '(p', b', evs) ← setLocked p b k v h onEvict;
          Ok (p', b', evs, v)
      end
  | Err e => Err e
  | Panic => Panic
  end.
End ops.

(** ** The allocators *)

(** [cache_unix.go]: a global free list refilled from [mmap].  [mmap n] maps [n]
    anonymous bytes; [None] is its failure, on which [getChunk] panics. *)
Definition chunksPerAlloc : Z := 1024.

Section unix_alloc.
Variable mmap : Z → option bytes.
Hypothesis mmap_len : ∀ n data, mmap n = Some data → zlen data = n.

(** [for len(data) > 0 { ...; data = data[chunkSize:] }] *)
Fixpoint carve (fuel : nat) (data : bytes) (freeChunks : list bytes) : list bytes :=
  match fuel with
  | O => freeChunks
  | S fuel =>
      if zlen data <=? 0 then freeChunks
      else carve fuel (drop (Z.to_nat chunkSize) data)
                 (freeChunks ++ [take (Z.to_nat chunkSize) data])
  end.

Definition unix_getChunk (freeChunks : list bytes) : option (bytes * list bytes) :=
  match (if zlen freeChunks =? 0 then
           match mmap (chunkSize * chunksPerAlloc) with
           | None => None
           | Some data => Some (carve (length data) data freeChunks)
           end
         else Some freeChunks) with
  | None => None
  | Some free =>
      match last free with
      | Some mem => Some (mem, take (length free - 1) free)
      | None => None
      end
  end.

Definition unix_putChunk (oc : option chunk) (freeChunks : list bytes) : list bytes :=
  match oc with
  | None => freeChunks
  | Some c => freeChunks ++ [slice 0 chunkSize (c_mem c)]
  end.

Definition full_size (mem : bytes) : Prop := zlen mem = chunkSize.

(** [carve] returns full-size chunks when the mapping is a multiple of the
    chunk size, and its fuel suffices. *)
Lemma carve_full fuel data free n :
  zlen data = chunkSize * Z.of_nat n → (length data ≤ fuel)%nat →
  Forall full_size free → Forall full_size (carve fuel data free).
Proof.
  revert data free n. induction fuel as [|fuel IH]; intros data free n Hd Hf Hfree; [done|].
  simpl. bcase; [done|].
  assert (n ≠ O) as Hn by (intros ->; unfold zlen in *; lia).
  destruct n as [|n]; [done|]. unfold zlen, chunkSize in *.
  apply (IH _ _ n).
  - rewrite length_drop. lia.
  - rewrite length_drop. lia.
  - apply Forall_app. split; [done|]. constructor; [|done].
    unfold full_size, zlen, chunkSize. rewrite length_take. lia.
Qed.

#[export] Instance unix_alloc : ChunkAlloc (list bytes).
Proof using mmap mmap_len.
  refine {| getChunk := unix_getChunk; putChunk := unix_putChunk; pool_ok := Forall full_size |}.
  - intros p mem p' Hp. unfold unix_getChunk.
    assert (∀ free, Forall full_size free → last free = Some mem →
              zlen mem = chunkSize ∧ Forall full_size (take (length free - 1) free)) as Hgen.
    { intros free Hf Hl. split.
      - rewrite Forall_forall in Hf. apply Hf. by apply last_Some_elem_of.
      - by apply Forall_take. }
    bcase.
    + destruct (mmap _) as [data|] eqn:Hm; [|done].
      destruct (last _) eqn:Hl; [|done]. intros [= <- <-]. apply Hgen; [|done].
      apply (carve_full _ _ _ 1024); [|done..].
      apply mmap_len in Hm. rewrite Hm. done.
    + destruct (last p) eqn:Hl; [|done]. intros [= <- <-]. by apply Hgen.
  - intros [c|] p Hp Hc; [|done]. simpl. apply Forall_app. split; [done|].
    constructor; [|done]. unfold full_size. rewrite zlen_slice; rewrite ?Hc; unfold chunkSize; done || lia.
Defined.
End unix_alloc.

(** [cache_other.go]: every chunk is a fresh [make([]byte, chunkSize)]. *)
Definition zeroChunk : bytes := replicate (Z.to_nat chunkSize) 0.
Definition other_getChunk (p : unit) : option (bytes * unit) := Some (zeroChunk, p).
Definition other_putChunk (oc : option chunk) (p : unit) : unit := p.

Lemma zlen_zeroChunk : zlen zeroChunk = chunkSize.
Proof. unfold zlen, zeroChunk. rewrite length_replicate. by apply Z2Nat.id. Qed.

#[export] Instance other_alloc : ChunkAlloc unit.
Proof.
  refine {| getChunk := other_getChunk; putChunk := other_putChunk; pool_ok := λ _, True |}; [|done].
  intros p mem p' _ H. split; [|done]. assert (mem = zeroChunk) as -> by (unfold other_getChunk in H; congruence).
  apply zlen_zeroChunk.
Defined.

(** ** The cache: 512 buckets selected by the key's hash *)

Record Cache := mkCache { buckets : list bucket; onEvict : bool (* [onEvict != nil] *) }.

Section cache.
Context {P : Type} `{!ChunkAlloc P}.

(** [xxhash.Sum64]. *)
Variable Sum64 : bytes → Z.

Fixpoint initBuckets (n : nat) (p : P) (maxBucketBytes : Z) : go cerr (P * list bucket) :=
  match n with
  | O => Ok (p, [])
  | S n =>
      '(p1, b) ← bucket_Init p maxBucketBytes;
      '(p2, bs) ← initBuckets n p1 maxBucketBytes;
      Ok (p2, b :: bs)
  end.

Definition Cache_New (p : P) (maxBytes : Z) (evict : bool) : go cerr (P * Cache) :=
  if maxBytes <=? 0 then Err errMaxBytesNotPositive else
  let maxBucketBytes := u64 (Z.quot (i64 (maxBytes + bucketsCount - 1)) bucketsCount) in
  '(p', bs) ← initBuckets (Z.to_nat bucketsCount) p maxBucketBytes;
  Ok (p', mkCache bs evict).

Definition bucketIdx (k : bytes) : nat := Z.to_nat (Sum64 k mod bucketsCount).

Definition setBucket (c : Cache) (i : nat) (b : bucket) : Cache :=
  mkCache (<[i := b]> (buckets c)) (onEvict c).

Definition Cache_Set (p : P) (c : Cache) (k v : bytes) : go cerr (P * Cache * list Items) :=
  match buckets c !! bucketIdx k with
  | None => Panic
  | Some b =>
      '(p', b', evs) ← setLocked p b k v (Sum64 k) (onEvict c);
      Ok (p', setBucket c (bucketIdx k) b', evs)
  end.

Definition Cache_Get (c : Cache) (k : bytes) : go cerr bytes :=
  match buckets c !! bucketIdx k with
  | None => Panic
  | Some b => getLocked b k (Sum64 k)
  end.

Definition Cache_Del (c : Cache) (k : bytes) : go cerr Cache :=
  match buckets c !! bucketIdx k with
  | None => Panic
  | Some b => Ok (setBucket c (bucketIdx k) (bucket_Del b (Sum64 k)))
  end.

Definition Cache_Update (p : P) (c : Cache) (k : bytes) (mutator : bytes → mutation)
  : go cerr (P * Cache * list Items * option cerr) :=
  match buckets c !! bucketIdx k with
  | None => Panic
  | Some b =>
      '(p', b', evs, err) ← bucket_Update p b k (Sum64 k) mutator (onEvict c);
      Ok (p', setBucket c (bucketIdx k) b', evs, err)
  end.

Definition Cache_GetSet (p : P) (c : Cache) (k : bytes) (provider : bytes + cerr)
  : go cerr (P * Cache * list Items * bytes) :=
  match buckets c !! bucketIdx k with
  | None => Panic
  | Some b =>
      '(p', b', evs, v) ← bucket_GetSet p b k (Sum64 k) provider (onEvict c);
      Ok (p', setBucket c (bucketIdx k) b', evs, v)
  end.

Fixpoint resetBuckets (p : P) (bs : list bucket) (evicted : option Items)
  : go cerr (P * list bucket * option Items) :=
  match bs with
  | [] => Ok (p, [], evicted)
  | b :: bs =>
      '(p1, b', ev) ← bucket_Reset p b evicted;
      '(p2, bs', ev') ← resetBuckets p1 bs ev;
      Ok (p2, b' :: bs', ev')
  end.

Definition Cache_Reset (p : P) (c : Cache) : go cerr (P * Cache * list Items) :=
  '(p', bs, evicted) ← resetBuckets p (buckets c) (if onEvict c then Some newItems else None);
  Ok (p', mkCache bs (onEvict c),
      match evicted with
      | Some items => if 0 <? Items_Count items then [items] else []
      | None => []
      end).
End cache.
