(* ===== verification/XCacheSpec.v ===== *)
(** * xcache: invariant, abstraction and correctness

    The abstract contract of a bucket is a lossy map: a stored record may be
    dropped by a later store, and is never altered or confused with another. *)
From S2P Require Import Prelude XCache.

Local Open Scope Z_scope.

Ltac consts := unfold maxBucketSize, maxGen, genSizeBits, bucketSizeBits, chunkSize, maxKeyLen, in_u64 in *.
Ltac clia := consts; lia.

#[local] Arguments locate : simpl never.
#[local] Arguments fresh : simpl never.
#[local] Arguments keep : simpl never.
#[local] Arguments posOf : simpl never.
#[local] Arguments genOf : simpl never.
#[local] Arguments bGen : simpl never.
#[local] Arguments chunk_slice : simpl never.
#[local] Arguments readItem : simpl never.
#[local] Arguments getRef : simpl never.
#[local] Arguments place : simpl never.
#[local] Arguments kvLenBuf : simpl never.

(** ** Index words *)

Lemma maxGen_ones : maxGen = Z.ones 24.
Proof. done. Qed.

Lemma land_maxGen g : Z.land g maxGen = g mod 2 ^ 24.
Proof. rewrite maxGen_ones. by apply Z.land_ones. Qed.

(** [b.gen << 40] keeps the low 24 bits of the generation. *)
Lemma u64_shiftl_gen g : u64 (Z.shiftl g bucketSizeBits) = Z.land g maxGen * 2 ^ 40.
Proof.
  rewrite land_maxGen. unfold u64, bucketSizeBits. rewrite Z.shiftl_mul_pow2 by lia.
  change (2 ^ 64) with (2 ^ 24 * 2 ^ 40). by rewrite Z.mul_mod_distr_r.
Qed.

Lemma word_sum i g :
  0 ≤ i < maxBucketSize →
  Z.lor i (u64 (Z.shiftl g bucketSizeBits)) = i + Z.land g maxGen * 2 ^ 40.
Proof.
  intros Hi. rewrite u64_shiftl_gen, <- Z.shiftl_mul_pow2 by lia.
  rewrite <- Z.lxor_lor, Z.add_nocarry_lxor; [done| |].
  all: apply Z.bits_inj'; intros n Hn; rewrite Z.land_spec, Z.shiftl_spec, Z.bits_0 by done;
    destruct (decide (n < 40)); [by rewrite (Z.testbit_neg_r _ (n - 40)), andb_false_r by lia|];
    rewrite (Z.bits_above_log2 i n), ?andb_false_l; try done; try clia;
    (destruct (decide (i = 0)) as [->|]; [simpl; lia|]);
    apply Z.log2_lt_pow2; [clia|]; apply Z.lt_le_trans with (2 ^ 40); [clia|];
    apply Z.pow_le_mono_r; lia.
Qed.

Lemma genOf_word i g :
  0 ≤ i < maxBucketSize → genOf (Z.lor i (u64 (Z.shiftl g bucketSizeBits))) = Z.land g maxGen.
Proof.
  intros Hi. rewrite word_sum by done. unfold genOf, bucketSizeBits.
  rewrite Z.shiftr_div_pow2, Z.div_add by lia. rewrite Z.div_small by clia. lia.
Qed.

Lemma posOf_word i g :
  0 ≤ i < maxBucketSize → posOf (Z.lor i (u64 (Z.shiftl g bucketSizeBits))) = i.
Proof.
  intros Hi. rewrite word_sum by done. unfold posOf.
  change (maxBucketSize - 1) with (Z.ones 40). rewrite Z.land_ones by lia.
  rewrite Z.mod_add by lia. apply Z.mod_small. clia.
Qed.

Lemma posOf_range v : 0 ≤ posOf v < maxBucketSize.
Proof.
  unfold posOf. change (maxBucketSize - 1) with (Z.ones 40). rewrite Z.land_ones by lia.
  apply Z.mod_pos_bound. clia.
Qed.

Lemma keep_fresh b v : keep b v = fresh b v.
Proof.
  unfold keep, fresh. cbv zeta.
  destruct (genOf v =? bGen b), (genOf v + 1 =? bGen b), (genOf v =? maxGen), (bGen b =? 1),
    (posOf v <? b_idx b), (b_idx b <=? posOf v); done.
Qed.

(** ** The record header *)

Lemma kvLenBuf_decode n :
  0 ≤ n < maxKeyLen → Z.lor (Z.shiftl (u8 (Z.shiftr (u16 n) 8)) 8) (u8 n) = n.
Proof.
  intros Hn. rewrite u16_small by (unfold in_u16; clia).
  rewrite (u8_small (Z.shiftr n 8)).
  2:{ unfold in_u8. rewrite Z.shiftr_div_pow2 by lia. split; [apply Z.div_pos; clia|].
      apply Z.div_lt_upper_bound; clia. }
  unfold u8. rewrite <- (Z.land_ones n 8) by lia.
  apply Z.bits_inj'. intros i Hi.
  rewrite Z.lor_spec, Z.shiftl_spec, Z.land_spec by done.
  destruct (decide (i < 8)).
  - rewrite Z.testbit_neg_r by lia. rewrite Z.ones_spec_low by lia. by rewrite andb_true_r.
  - rewrite Z.shiftr_spec by lia. rewrite Z.ones_spec_high by lia.
    rewrite andb_false_r, orb_false_r. f_equal. lia.
Qed.

Lemma zlen_kvLenBuf k v : zlen (kvLenBuf k v) = 4.
Proof. done. Qed.

(** ** Records in chunks *)

Definition recLen (k v : bytes) : Z := 4 + zlen k + zlen v.

(** The chunk holds the encoded record of [(k, v)] at offset [off]. *)
Definition stored (c : chunk) (off : Z) (k v : bytes) : Prop :=
  0 ≤ off ∧ off + recLen k v < chunkSize ∧ zlen (c_mem c) = chunkSize ∧
  slice off (off + recLen k v) (c_mem c) = kvLenBuf k v ++ k ++ v.

(** The ring holds the record of [(k, v)] at position [i]. *)
Definition rec_at (b : bucket) (i : Z) (k v : bytes) : Prop :=
  ∃ c, b_chunks b !! Z.to_nat (i / chunkSize) = Some (Some c) ∧ stored c (i mod chunkSize) k v.

Ltac lens := unfold recLen in *;
  repeat match goal with
  | |- context [ zlen ?l ] => lazymatch goal with H : 0 ≤ zlen l |- _ => fail | _ => pose proof (zlen_nonneg l) end
  | H : context [ zlen ?l ] |- _ => lazymatch goal with H : 0 ≤ zlen l |- _ => fail | _ => pose proof (zlen_nonneg l) end
  end; clia.

Lemma slice_app_part {A} (a b c : list A) :
  slice (zlen a) (zlen a + zlen b) (a ++ b ++ c) = b.
Proof.
  unfold slice, zlen. rewrite drop_app_length' by lia. apply take_app_length'. lia.
Qed.

Lemma stored_slice c off k v lo hi :
  stored c off k v → 0 ≤ lo ≤ hi → hi ≤ recLen k v →
  chunk_slice (off + lo) (off + hi) c = Some (slice lo hi (kvLenBuf k v ++ k ++ v)).
Proof.
  intros (? & ? & Hm & Hs) ? ?. unfold chunk_slice. rewrite Hm.
  rewrite (proj2 (Z.leb_le _ _)) by lia. f_equal. rewrite <- Hs. rewrite slice_slice by lia. done.
Qed.

Lemma stored_parts c off k v :
  stored c off k v →
  chunk_slice off (off + 4) c = Some (kvLenBuf k v) ∧
  chunk_slice (off + 4) (off + 4 + zlen k) c = Some k ∧
  chunk_slice (off + 4 + zlen k) (off + 4 + zlen k + zlen v) c = Some v.
Proof.
  intros Hs. split_and!.
  - rewrite <- (Z.add_0_r off) at 1. rewrite (stored_slice _ _ k v) by (done || lens).
    done.
  - rewrite <- Z.add_assoc. rewrite (stored_slice _ _ k v) by (done || lens).
    f_equal. apply (slice_app_part (kvLenBuf k v)).
  - rewrite <- !Z.add_assoc. rewrite (stored_slice _ _ k v) by (done || lens). f_equal.
    pose proof (slice_app_part (kvLenBuf k v ++ k) v []) as H.
    rewrite zlen_app, zlen_kvLenBuf, app_nil_r, <- (app_assoc _ k v) in H. rewrite Z.add_assoc. done.
Qed.

Lemma locate_ok b w k v :
  fresh b w = true → rec_at b (posOf w) k v →
  ∃ c, b_chunks b !! Z.to_nat (posOf w / chunkSize) = Some (Some c) ∧
       stored c (posOf w mod chunkSize) k v ∧
       locate b w = Ok (posOf w / chunkSize, c, posOf w mod chunkSize + 4, zlen k, zlen v).
Proof.
  intros Hf (c & Hc & Hs). exists c. split_and!; [done..|].
  pose proof (posOf_range w) as Hp.
  pose proof (lookup_lt_Some _ _ _ Hc) as Hlt.
  destruct (stored_parts _ _ _ _ Hs) as (Hh & _ & _). destruct Hs as (? & ? & ? & _).
  unfold locate. rewrite Hf. simpl negb. cbv iota zeta.
  rewrite (proj2 (Z.leb_gt _ _)) by (unfold zlen; lens).
  rewrite (proj2 (Z.leb_gt _ _)) by lens. rewrite Hc, Hh.
  unfold kvLenBuf at 1. rewrite !kvLenBuf_decode by lens.
  by rewrite (proj2 (Z.leb_gt _ _)) by lens.
Qed.

Lemma locate_stale b w : fresh b w = false → locate b w = Err ErrNoData.
Proof. intros Hf. unfold locate. by rewrite Hf. Qed.

Lemma readItem_ok b w k v :
  fresh b w = true → rec_at b (posOf w) k v → readItem b w = Ok (k, v).
Proof.
  intros Hf Hr. destruct (locate_ok _ _ _ _ Hf Hr) as (c & _ & Hs & Hl).
  destruct (stored_parts _ _ _ _ Hs) as (_ & Hk & Hv).
  unfold readItem. rewrite Hl. gosimp. rewrite Hk. cbn [of_slice]. gosimp. by rewrite Hv.
Qed.

Lemma readItem_stale b w : fresh b w = false → readItem b w = Err ErrNoData.
Proof. intros Hf. unfold readItem. by rewrite locate_stale. Qed.

(** [getLocked] on an index word whose record is in place. *)
Lemma getRef_ok b h w k v k' :
  b_m b !! h = Some w → w ≠ 0 → fresh b w = true → rec_at b (posOf w) k v →
  getRef b k' h = if bool_decide (k' = k)
    then Ok (mkRef (posOf w / chunkSize) (posOf w mod chunkSize + 4 + zlen k) (zlen v))
    else Err ErrNoData.
Proof.
  intros Hm Hw Hf Hr. destruct (locate_ok _ _ _ _ Hf Hr) as (c & _ & Hs & Hl).
  destruct (stored_parts _ _ _ _ Hs) as (_ & Hk & _).
  unfold getRef. rewrite Hm. gosimp. rewrite (proj2 (Z.eqb_neq _ _)) by done.
  rewrite Hl. gosimp. by rewrite Hk.
Qed.

Lemma getLocked_ok b h w k v k' :
  b_m b !! h = Some w → w ≠ 0 → fresh b w = true → rec_at b (posOf w) k v →
  getLocked b k' h = if bool_decide (k' = k) then Ok v else Err ErrNoData.
Proof.
  intros Hm Hw Hf Hr. unfold getLocked. rewrite (getRef_ok _ _ _ _ _ _ Hm Hw Hf Hr).
  case_bool_decide; [|done]. gosimp.
  destruct Hr as (c & Hc & Hs). unfold deref. cbn [r_chunk r_off r_len]. rewrite Hc.
  destruct (stored_parts _ _ _ _ Hs) as (_ & _ & Hv). by rewrite Hv.
Qed.

(** ** The bucket invariant *)

Definition prevGen (g : Z) : Z := if g =? 1 then maxGen else g - 1.

(** An index word belongs to the current generation and its record lies before
    the write position, or it belongs to the previous generation and its record
    is intact unless the write position has passed it. *)
Definition entry_ok (b : bucket) (w : Z) : Prop :=
  (genOf w = bGen b ∧ ∃ k v, rec_at b (posOf w) k v ∧ posOf w + recLen k v ≤ b_idx b) ∨
  (genOf w = prevGen (bGen b) ∧ (b_idx b ≤ posOf w → ∃ k v, rec_at b (posOf w) k v)).

(** The write position is the end of the current chunk's slice. *)
Definition cur_ok (b : bucket) : Prop :=
  match b_chunks b !! Z.to_nat (b_idx b / chunkSize) with
  | Some (Some c) => c_len c = b_idx b mod chunkSize
  | Some None => b_idx b = 0
  | None => False
  end.

(** Two ring intervals do not overlap. *)
Definition apart (i n j m : Z) : Prop := i + n ≤ j ∨ j + m ≤ i.

(** The readable records of different hashes occupy disjoint parts of the ring. *)
Definition disjoint_recs (b : bucket) : Prop :=
  ∀ h1 h2 w1 w2 k1 v1 k2 v2, h1 ≠ h2 →
    b_m b !! h1 = Some w1 → b_m b !! h2 = Some w2 →
    readItem b w1 = Ok (k1, v1) → readItem b w2 = Ok (k2, v2) →
    apart (posOf w1) (recLen k1 v1) (posOf w2) (recLen k2 v2).

Record bucket_wf (b : bucket) : Prop := {
  wf_n : 1 ≤ zlen (b_chunks b) ≤ 2 ^ 24;
  wf_idx : 0 ≤ b_idx b < zlen (b_chunks b) * chunkSize;
  wf_gen : 1 ≤ bGen b ≤ maxGen;
  wf_chunks : ∀ i c, b_chunks b !! i = Some (Some c) → zlen (c_mem c) = chunkSize;
  wf_cur : cur_ok b;
  wf_m : map_Forall (λ _ w, entry_ok b w) (b_m b);
  wf_disj : disjoint_recs b;
}.

Ltac dm x :=
  pose proof (Z.div_mod x chunkSize ltac:(done));
  pose proof (Z.mod_pos_bound x chunkSize ltac:(done)).

Lemma fresh_true b w :
  fresh b w = true ↔
  (genOf w = bGen b ∧ posOf w < b_idx b) ∨
  (b_idx b ≤ posOf w ∧ (genOf w + 1 = bGen b ∨ genOf w = maxGen ∧ bGen b = 1)).
Proof.
  unfold fresh. cbv zeta.
  rewrite !orb_true_iff, !andb_true_iff, !Z.eqb_eq, Z.ltb_lt, Z.leb_le. tauto.
Qed.

(** A fresh entry can be read. *)
Lemma entry_fresh b w :
  bucket_wf b → entry_ok b w → fresh b w = true → ∃ k v, rec_at b (posOf w) k v.
Proof.
  intros Hwf [(Hg & k & v & Hr & _)|(Hg & Hr)] Hf; [by eauto|].
  apply Hr. apply fresh_true in Hf. pose proof (wf_gen _ Hwf).
  unfold prevGen in Hg. bcase_in Hg; clia.
Qed.

Lemma entry_nonzero b w : bucket_wf b → entry_ok b w → w ≠ 0.
Proof.
  intros Hwf He ->. pose proof (wf_gen _ Hwf). change (genOf 0) with 0 in He.
  destruct He as [(Hg & _)|(Hg & _)].
  - change (genOf 0) with 0 in Hg. lia.
  - change (genOf 0) with 0 in Hg. unfold prevGen in Hg. bcase_in Hg; clia.
Qed.

(** ** Abstraction: the readable records by hash *)

Definition contents (b : bucket) : gmap Z (bytes * bytes) :=
  omap (λ w, match readItem b w with Ok kv => Some kv | _ => None end) (b_m b).

Lemma contents_lookup b h :
  contents b !! h = w ← b_m b !! h; match readItem b w with Ok kv => Some kv | _ => None end.
Proof. unfold contents. by rewrite lookup_omap. Qed.

Lemma readItem_wf b h w :
  bucket_wf b → b_m b !! h = Some w →
  (fresh b w = false ∧ readItem b w = Err ErrNoData) ∨
  (∃ k v, fresh b w = true ∧ rec_at b (posOf w) k v ∧ readItem b w = Ok (k, v)).
Proof.
  intros Hwf Hm. pose proof (wf_m _ Hwf _ _ Hm) as He. simpl in He.
  destruct (fresh b w) eqn:Hf.
  - right. destruct (entry_fresh _ _ Hwf He Hf) as (k & v & Hr).
    exists k, v. eauto using readItem_ok.
  - left. eauto using readItem_stale.
Qed.

(** Reading from a well-formed bucket is a lookup in its contents: the value of
    exactly this key, or "no data"; never corruption, never a panic. *)
Lemma getLocked_contents b k h :
  bucket_wf b →
  getLocked b k h =
    match contents b !! h with
    | Some (k', v) => if bool_decide (k = k') then Ok v else Err ErrNoData
    | None => Err ErrNoData
    end.
Proof.
  intros Hwf. rewrite contents_lookup. destruct (b_m b !! h) as [w|] eqn:Hm.
  - pose proof (entry_nonzero _ _ Hwf (wf_m _ Hwf _ _ Hm)) as Hw. cbn [mbind option_bind].
    destruct (readItem_wf _ _ _ Hwf Hm) as [(Hf & ->)|(k' & v & Hf & Hr & ->)].
    + unfold getLocked, getRef. rewrite Hm. gosimp.
      rewrite (proj2 (Z.eqb_neq _ _)) by done. by rewrite locate_stale.
    + by rewrite (getLocked_ok _ _ _ _ _ _ Hm Hw Hf Hr).
  - unfold getLocked, getRef. rewrite Hm. done.
Qed.

(** ** Storing a record *)

Lemma overwrite_overwrite {A} off (a b l : list A) :
  0 ≤ off → off + zlen a + zlen b ≤ zlen l →
  overwrite (off + zlen a) b (overwrite off a l) = overwrite off (a ++ b) l.
Proof.
  intros. pose proof (zlen_nonneg a). pose proof (zlen_nonneg b).
  apply list_eq. intros i.
  rewrite !lookup_overwrite by (rewrite ?zlen_overwrite, ?zlen_app by lia; lia).
  rewrite zlen_app. repeat case_decide; try lia; try done.
  - rewrite lookup_app_r by (unfold zlen in *; lia). f_equal. unfold zlen in *. lia.
  - by rewrite lookup_app_l by (unfold zlen in *; lia).
Qed.

Lemma chunk_append_app c a b :
  0 ≤ c_len c → c_len c + zlen a + zlen b ≤ zlen (c_mem c) →
  chunk_append (chunk_append c a) b = chunk_append c (a ++ b).
Proof.
  intros. unfold chunk_append. cbn [c_mem c_len].
  rewrite overwrite_overwrite, zlen_app by done. f_equal. lia.
Qed.

(** [b'] has the chunks of [b] with [bs] written at ring position [idx]. *)
Definition writes (b b' : bucket) (idx : Z) (bs : bytes) : Prop :=
  0 ≤ idx ∧ idx mod chunkSize + zlen bs < chunkSize ∧
  ∃ oc mem len, b_chunks b !! Z.to_nat (idx / chunkSize) = Some oc ∧
    (∀ c, oc = Some c → c_mem c = mem) ∧ zlen mem = chunkSize ∧
    b_chunks b' = <[Z.to_nat (idx / chunkSize) :=
      Some (mkChunk (overwrite (idx mod chunkSize) bs mem) len)]> (b_chunks b).

Definition recBytes (k v : bytes) : bytes := kvLenBuf k v ++ k ++ v.

Lemma zlen_recBytes k v : zlen (recBytes k v) = recLen k v.
Proof. unfold recBytes, recLen. rewrite !zlen_app, zlen_kvLenBuf. lia. Qed.

Lemma writes_new b b' idx k v : writes b b' idx (recBytes k v) → rec_at b' idx k v.
Proof.
  intros (Hi & Hfit & oc & mem & len & Hoc & _ & Hmem & Hw).
  dm idx. rewrite zlen_recBytes in Hfit. unfold rec_at. rewrite Hw.
  rewrite list_lookup_insert_eq by (eapply lookup_lt_Some; eassumption).
  eexists. split; [done|]. unfold stored. cbn [c_mem].
  pose proof (zlen_recBytes k v).
  rewrite zlen_overwrite by lens. split_and!; [lens..|].
  rewrite <- (zlen_recBytes k v). apply (slice_overwrite_eq _ (recBytes k v)); lens.
Qed.

Lemma writes_frame b b' idx bs j k v :
  writes b b' idx bs → 0 ≤ j → rec_at b j k v →
  j + recLen k v ≤ idx ∨ idx + zlen bs ≤ j → rec_at b' j k v.
Proof.
  intros (Hi & Hfit & oc & mem & len & Hoc & Hc & Hmem & Hw) Hj (c & Hl & Hs) Hd.
  unfold rec_at. rewrite Hw. dm j. dm idx.
  destruct (decide (j / chunkSize = idx / chunkSize)) as [E|E].
  - rewrite E in *. rewrite Hoc in Hl. injection Hl as ->.
    pose proof (Hc c eq_refl) as <-.
    rewrite list_lookup_insert_eq by (eapply lookup_lt_Some; eassumption).
    eexists. split; [done|]. destruct Hs as (? & ? & ? & Hs). unfold stored. cbn [c_mem].
    rewrite zlen_overwrite by lens. split_and!; [lens..|].
    rewrite slice_overwrite_ne; [done|lens..].
  - rewrite list_lookup_insert_ne; [by eauto|].
    assert (0 ≤ j / chunkSize) by (by apply Z.div_pos).
    assert (0 ≤ idx / chunkSize) by (by apply Z.div_pos). lia.
Qed.

Lemma writes_length b b' idx bs : writes b b' idx bs → length (b_chunks b') = length (b_chunks b).
Proof. intros (_ & _ & oc & mem & len & _ & _ & _ & ->). apply length_insert. Qed.

Lemma writes_chunks b b' idx bs :
  writes b b' idx bs → (∀ i c, b_chunks b !! i = Some (Some c) → zlen (c_mem c) = chunkSize) →
  ∀ i c, b_chunks b' !! i = Some (Some c) → zlen (c_mem c) = chunkSize.
Proof.
  intros (? & ? & oc & mem & len & Hoc & _ & Hmem & ->) Hall i c. dm idx.
  rewrite list_lookup_insert. case_decide; [|apply Hall].
  intros [= <-]. cbn [c_mem]. rewrite zlen_overwrite; [done|lia|lens].
Qed.

Lemma bGen_bump g : 1 ≤ Z.land g maxGen ≤ maxGen →
  Z.land (bumpGen g) maxGen = if Z.land g maxGen =? maxGen then 1 else Z.land g maxGen + 1.
Proof.
  assert (∀ z, u64 z mod 2 ^ 24 = z mod 2 ^ 24) as Hu.
  { intros z. unfold u64. apply Z.mod_mod_divide. by exists (2 ^ 40). }
  unfold bumpGen. rewrite !land_maxGen, Hu. intros Hg.
  rewrite <- (Z.add_mod_idemp_l g) by lia.
  destruct (g mod 2 ^ 24 =? maxGen) eqn:E; bsplit.
  - rewrite E. change ((maxGen + 1) mod 2 ^ 24) with 0. cbn [Z.eqb].
    rewrite Hu. rewrite <- Z.add_mod_idemp_l, Hu by lia.
    rewrite <- (Z.add_mod_idemp_l g), E by lia. done.
  - pose proof (Z.mod_pos_bound g (2 ^ 24)). rewrite (Z.mod_small (g mod 2 ^ 24 + 1)) by clia.
    rewrite (proj2 (Z.eqb_neq _ _)) by lia. rewrite Hu.
    rewrite <- Z.add_mod_idemp_l by lia. apply Z.mod_small. clia.
Qed.

(** The three placements of a record: behind the previous one, at the start of
    the next chunk, or at the start of the ring with a new generation. *)
Inductive placed (b : bucket) (n : Z) : Z → Z → bool → bool → Prop :=
  | placed_here : placed b n (b_idx b) (b_gen b) false false
  | placed_next idx :
      b_idx b ≤ idx → idx mod chunkSize = 0 → placed b n idx (b_gen b) true false
  | placed_wrap : placed b n 0 (bumpGen (b_gen b)) true true.

Lemma place_spec b n :
  bucket_wf b → 0 ≤ n < chunkSize →
  ∃ idx gen trunc clean,
    place b n = (idx, idx / chunkSize, gen, trunc, clean) ∧ placed b n idx gen trunc clean ∧
    0 ≤ idx ∧ idx mod chunkSize + n < chunkSize ∧ idx / chunkSize < zlen (b_chunks b) ∧
    idx + n < zlen (b_chunks b) * chunkSize.
Proof.
  intros Hwf Hn. pose proof (wf_idx _ Hwf). pose proof (wf_n _ Hwf).
  dm (b_idx b). dm (b_idx b + n). unfold place. repeat bcase.
  - exists 0, (bumpGen (b_gen b)), true, true.
    rewrite Z.mod_0_l, Z.div_0_l by done. split_and!; [done|constructor|clia..].
  - set (q := (b_idx b + n) / chunkSize) in *.
    exists (q * chunkSize), (b_gen b), true, false.
    rewrite Z.div_mul, Z.mod_mul by done.
    split_and!; [done|constructor; rewrite ?Z.mod_mul by done; clia|clia..].
  - exists (b_idx b), (b_gen b), false, false. split_and!; [done|constructor|clia..].
Qed.

Lemma readItems_stale b vs out :
  Forall (λ w, fresh b w = false) vs → readItems b vs out = Ok out.
Proof. induction 1 as [|w vs Hw _ IH]; [done|]. cbn [readItems]. by rewrite readItem_stale. Qed.

Definition stale_words (b : bucket) : gset Z :=
  list_to_set (filter (λ w, keep b w = false) (map_values (b_m b))).

(** [cleanLocked] keeps exactly the fresh entries (all entries when none is
    fresh); since the entries it drops are not fresh, [readItem] refuses them
    and the batch reported to [onEvict] is empty. *)
Lemma cleanLocked_eq b oe :
  cleanLocked b oe = Ok
    (let bm := filter (λ kv, keep b kv.2 = true) (b_m b) in
     if bool_decide (bm = ∅) then b else mkBucket (b_chunks b) bm (b_idx b) (b_gen b),
     if oe && bool_decide (stale_words b ≠ ∅) then [newItems] else []).
Proof.
  unfold cleanLocked. cbv zeta. fold (stale_words b).
  destruct (oe && _); [|done]. rewrite readItems_stale; [done|].
  apply Forall_forall. intros w Hw. apply elem_of_elements in Hw.
  unfold stale_words in Hw. apply elem_of_list_to_set, list_elem_of_filter in Hw.
  rewrite <- keep_fresh. by destruct Hw.
Qed.

Section with_alloc.
Context {P : Type} `{!ChunkAlloc P}.
Implicit Types (p : P) (b : bucket).

Lemma takeChunk_spec p oc c p' :
  pool_ok p → (∀ c0, oc = Some c0 → zlen (c_mem c0) = chunkSize) →
  takeChunk p oc = Some (c, p') →
  pool_ok p' ∧ zlen (c_mem c) = chunkSize ∧
  match oc with Some c0 => c = c0 | None => c_len c = 0 end.
Proof.
  intros Hp Hoc. destruct oc as [c0|]; simpl.
  - intros [= -> ->]. eauto.
  - destruct (getChunk p) as [[mem p1]|] eqn:Hg; [|done]. intros [= <- <-].
    destruct (getChunk_ok _ _ _ Hp Hg). done.
Qed.

Definition word (idx gen : Z) : Z := Z.lor idx (u64 (Z.shiftl gen bucketSizeBits)).

Definition fits (k v : bytes) : Prop :=
  zlen k < maxKeyLen ∧ zlen v < maxKeyLen ∧ recLen k v < chunkSize.

Lemma setLocked_fits p b k v h oe r : setLocked p b k v h oe = Ok r → fits k v.
Proof. unfold setLocked, fits, recLen. repeat bcase; done || lia. Qed.

(** The result of [setLocked] before and after cleaning. *)
Definition set_step b k v h oe b' evs : Prop :=
  ∃ b1 idx gen trunc clean,
    placed b (recLen k v) idx gen trunc clean ∧ writes b b1 idx (recBytes k v) ∧
    b_m b1 = <[h := word idx gen]> (b_m b) ∧ b_idx b1 = idx + recLen k v ∧ b_gen b1 = gen ∧
    idx + recLen k v < zlen (b_chunks b) * chunkSize ∧ cur_ok b1 ∧
    if clean : bool then cleanLocked b1 oe = Ok (b', evs) else b' = b1 ∧ evs = [].

Lemma setLocked_run p b k v h oe :
  bucket_wf b → pool_ok p → fits k v →
  (∃ p' b' evs, setLocked p b k v h oe = Ok (p', b', evs) ∧ pool_ok p' ∧ set_step b k v h oe b' evs)
  ∨ (getChunk p = None ∧ setLocked p b k v h oe = Panic).
Proof.
  intros Hwf Hp (Hk & Hv & Hkv).
  destruct (place_spec b (recLen k v) Hwf ltac:(lens))
    as (idx & gen & trunc & clean & Hpl & Hpd & Hi & Hfit & Hci & Hend).
  unfold setLocked. rewrite !(proj2 (Z.leb_gt _ _)) by (unfold recLen in *; lia).
  fold (recLen k v). cbv zeta. rewrite Hpl.
  assert (0 ≤ idx / chunkSize) by (by apply Z.div_pos).
  destruct (lookup_lt_is_Some_2 (b_chunks b) (Z.to_nat (idx / chunkSize))) as [oc Hoc];
    [unfold zlen in *; lia|]. rewrite Hoc.
  destruct (takeChunk _ _) as [[c p']|] eqn:Ht.
  2:{ right. destruct oc, trunc; simpl in Ht; try done;
      destruct (getChunk p) as [[]|]; done. }
  left.
  apply takeChunk_spec in Ht as (Hp' & Hmem & Hc); [|done|].
  2:{ intros c0 E. destruct oc as [c1|]; [|by destruct trunc].
      pose proof (wf_chunks _ Hwf _ _ Hoc). destruct trunc; injection E as <-; done. }
  assert (c_len c = idx mod chunkSize) as Hlen.
  { destruct Hpd; destruct oc as [c0|]; simpl in Hc; subst; simpl; rewrite ?Hc; try done.
    - pose proof (wf_cur _ Hwf) as Hcur. unfold cur_ok in Hcur. by rewrite Hoc in Hcur.
    - pose proof (wf_cur _ Hwf) as Hcur. unfold cur_ok in Hcur. rewrite Hoc in Hcur. by rewrite Hcur. }
  assert (∀ c0, oc = Some c0 → c_mem c0 = c_mem c) as Hsame.
  { intros c0 ->. destruct trunc; simpl in Hc; by subst c. }
  dm idx. rewrite (chunk_append_app c (kvLenBuf k v) k) by (rewrite ?zlen_kvLenBuf; lens).
  rewrite (chunk_append_app c (kvLenBuf k v ++ k) v)
    by (rewrite ?zlen_app, ?zlen_kvLenBuf; lens).
  rewrite <- app_assoc. fold (recBytes k v). unfold chunk_append. rewrite Hlen.
  set (b1 := mkBucket _ _ _ _).
  assert (writes b b1 idx (recBytes k v)) as Hw.
  { unfold writes. rewrite zlen_recBytes. split_and!; [done..|].
    eexists oc, (c_mem c), _. done. }
  assert (cur_ok b1) as Hcur.
  { unfold cur_ok. cbn [b_chunks b_idx b1]. pose proof (zlen_recBytes k v).
    pose proof (zlen_nonneg k). pose proof (zlen_nonneg v). unfold recLen in *.
    dm (idx + (4 + zlen k + zlen v)).
    assert ((idx + (4 + zlen k + zlen v)) / chunkSize = idx / chunkSize) as -> by clia.
    rewrite list_lookup_insert_eq by (eapply lookup_lt_Some; eassumption).
    cbn [c_len]. clia. }
  destruct clean.
  - rewrite cleanLocked_eq. gosimp. eexists _, _, _. split_and!; [done..|].
    exists b1, idx, gen, trunc, true. split_and!; try done. apply cleanLocked_eq.
  - eexists _, _, _. split_and!; [done..|]. exists b1, idx, gen, trunc, false. done.
Qed.

Lemma setLocked_step p b k v h oe p' b' evs :
  bucket_wf b → pool_ok p → setLocked p b k v h oe = Ok (p', b', evs) →
  pool_ok p' ∧ set_step b k v h oe b' evs.
Proof.
  intros Hwf Hp H. destruct (setLocked_run p b k v h oe Hwf Hp (setLocked_fits _ _ _ _ _ _ _ H))
    as [(p1 & b1 & e1 & E & ? & ?)|[_ E]]; rewrite E in H; by simplify_eq.
Qed.
End with_alloc.

(** ** What a store does to the entries that were there *)

(** The entry is readable in both buckets, as the same record, which lies apart
    from the [n] bytes written at [idx]. *)
Definition same_record (b b1 : bucket) (idx n w : Z) : Prop :=
  fresh b w = true ∧
  ∃ k v, rec_at b (posOf w) k v ∧ rec_at b1 (posOf w) k v ∧ apart idx n (posOf w) (recLen k v).

Lemma entry_advance b b1 idx bs w :
  bucket_wf b → writes b b1 idx bs → b_idx b ≤ idx → bGen b1 = bGen b →
  b_idx b1 = idx + zlen bs → entry_ok b w →
  entry_ok b1 w ∧ (fresh b1 w = true → same_record b b1 idx (zlen bs) w).
Proof.
  intros Hwf Hw Hi Hg Hx He. pose proof (wf_gen _ Hwf). pose proof (posOf_range w) as [Hp _].
  pose proof (zlen_nonneg bs).
  unfold same_record. rewrite !fresh_true, Hg, Hx. unfold entry_ok. rewrite Hg, Hx.
  destruct He as [(Hgen & k & v & Hr & Hend)|(Hgen & Hr)].
  - assert (rec_at b1 (posOf w) k v) as Hr1 by (eapply writes_frame; eauto; lia).
    split; [left; split; [done|]; exists k, v; split; [done|lia]|].
    intros _. split; [left; lens|]. exists k, v. unfold apart. auto with lia.
  - assert (idx + zlen bs ≤ posOf w → ∃ k v, rec_at b (posOf w) k v ∧ rec_at b1 (posOf w) k v ∧
              apart idx (zlen bs) (posOf w) (recLen k v)) as Hb.
    { intros Hle. destruct Hr as (k & v & Hr); [lia|]. exists k, v. split_and!; [done| |by left].
      eapply writes_frame; eauto. }
    split; [right; split; [done|]; intros Hle; destruct (Hb Hle) as (k & v & _ & ? & _); eauto|].
    intros Hf. assert (idx + zlen bs ≤ posOf w) by (unfold prevGen in Hgen; bcase_in Hgen; clia).
    split; [right; lia|eauto].
Qed.

Lemma entry_wrap b b1 bs w :
  bucket_wf b → writes b b1 0 bs →
  bGen b1 = (if bGen b =? maxGen then 1 else bGen b + 1) →
  b_idx b1 = zlen bs → entry_ok b w → fresh b1 w = true →
  entry_ok b1 w ∧ same_record b b1 0 (zlen bs) w.
Proof.
  intros Hwf Hw Hg Hx He Hf. pose proof (wf_gen _ Hwf). pose proof (posOf_range w) as [Hp _].
  apply fresh_true in Hf. unfold same_record. rewrite fresh_true. unfold entry_ok. rewrite Hx in *.
  destruct He as [(Hgen & k & v & Hr & Hend)|(Hgen & Hr)].
  - assert (zlen bs ≤ posOf w) by (bcase_in Hg; clia).
    assert (rec_at b1 (posOf w) k v) as Hr1 by (eapply writes_frame; eauto; lia).
    split; [|split; [left; lens|]; exists k, v; split_and!; [done..|by left]]. right.
    split; [|eauto]. unfold prevGen. bcase_in Hg; bcase; clia.
  - exfalso. unfold prevGen in Hgen. bcase_in Hgen; bcase_in Hg; clia.
Qed.

(** The bucket after the write and before cleaning is well-formed but for its
    index. *)
Lemma step_wf b b1 idx bs m' :
  bucket_wf b → writes b b1 idx bs → b_idx b1 = idx + zlen bs → 1 ≤ bGen b1 ≤ maxGen →
  idx + zlen bs < zlen (b_chunks b) * chunkSize →
  cur_ok b1 → map_Forall (λ _ w, entry_ok b1 w) m' →
  disjoint_recs (mkBucket (b_chunks b1) m' (b_idx b1) (b_gen b1)) →
  bucket_wf (mkBucket (b_chunks b1) m' (b_idx b1) (b_gen b1)).
Proof.
  intros Hwf Hw Hx Hg Hend Hcur Hm Hd. pose proof (wf_n _ Hwf). pose proof (zlen_nonneg bs).
  assert (zlen (b_chunks b1) = zlen (b_chunks b)) as Hn
    by (unfold zlen; by rewrite (writes_length _ _ _ _ Hw)).
  assert (0 ≤ idx) by apply Hw.
  split; cbn [b_chunks b_m b_idx b_gen]; rewrite ?Hn.
  - done.
  - lia.
  - done.
  - eapply writes_chunks; [done|]. apply wf_chunks. done.
  - done.
  - done.
  - done.
Qed.

Lemma word_entry b b1 idx k v :
  writes b b1 idx (recBytes k v) → b_idx b1 = idx + recLen k v →
  idx + recLen k v < maxBucketSize →
  genOf (word idx (b_gen b1)) = bGen b1 ∧ posOf (word idx (b_gen b1)) = idx ∧
  entry_ok b1 (word idx (b_gen b1)) ∧ fresh b1 (word idx (b_gen b1)) = true ∧
  readItem b1 (word idx (b_gen b1)) = Ok (k, v).
Proof.
  intros Hw Hx Hend. assert (0 ≤ idx) by apply Hw. unfold word.
  assert (0 ≤ idx < maxBucketSize) as Hi by lens.
  pose proof (genOf_word _ (b_gen b1) Hi) as E1. pose proof (posOf_word _ (b_gen b1) Hi) as E2.
  pose proof (writes_new _ _ _ _ _ Hw) as Hr. fold (bGen b1) in E1.
  assert (fresh b1 (Z.lor idx (u64 (Z.shiftl (b_gen b1) bucketSizeBits))) = true) as Hf
    by (apply fresh_true; left; rewrite E1, E2; lens).
  split_and!; try done.
  - left. rewrite E1, E2. split; [done|]. exists k, v. split; [done|lia].
  - apply readItem_ok; [done|]. by rewrite E2.
Qed.

Lemma same_record_read b b1 idx n w :
  same_record b b1 idx n w → fresh b1 w = true →
  ∃ k v, readItem b1 w = Ok (k, v) ∧ readItem b w = Ok (k, v) ∧ apart idx n (posOf w) (recLen k v).
Proof. intros (Hf & k & v & Hr & Hr1 & Ha) Hf1. exists k, v. auto using readItem_ok. Qed.

(** The contract of a store: the new record is there, every other record is
    unchanged or gone. *)
Definition stores (b b' : bucket) (h : Z) (k v : bytes) : Prop :=
  contents b' !! h = Some (k, v) ∧
  ∀ h', h' ≠ h → contents b' !! h' = contents b !! h' ∨ contents b' !! h' = None.

(** The entries of [m'] other than [h] come from [b], and those still fresh are
    the same records, away from the [n] bytes written at [idx]. *)
Definition inherits (b b1 : bucket) (idx n h : Z) (m' : gmap Z Z) : Prop :=
  ∀ h' w', h' ≠ h → m' !! h' = Some w' →
    b_m b !! h' = Some w' ∧ (fresh b1 w' = true → same_record b b1 idx n w').

Lemma inherits_read b b1 idx n h m' h' w' kv :
  inherits b b1 idx n h m' → h' ≠ h → m' !! h' = Some w' → readItem b1 w' = Ok kv →
  b_m b !! h' = Some w' ∧ readItem b w' = Ok kv ∧ apart idx n (posOf w') (recLen kv.1 kv.2).
Proof.
  intros Hin Hne Hm Hr. destruct (Hin _ _ Hne Hm) as [Hb Hs].
  destruct (fresh b1 w') eqn:Hf; [|by rewrite readItem_stale in Hr].
  destruct (same_record_read _ _ _ _ _ (Hs eq_refl) Hf) as (k & v & E & E' & Ha).
  rewrite E in Hr. injection Hr as <-. done.
Qed.

Lemma apart_sym i n j m : apart i n j m → apart j m i n.
Proof. unfold apart. tauto. Qed.

Lemma inherits_disj b b1 idx h k v m' w :
  disjoint_recs b → inherits b b1 idx (recLen k v) h m' →
  m' !! h = Some w → posOf w = idx → readItem b1 w = Ok (k, v) →
  disjoint_recs (mkBucket (b_chunks b1) m' (b_idx b1) (b_gen b1)).
Proof.
  intros Hd Hin Hh Hp Hread h1 h2 w1 w2 k1 v1 k2 v2 Hne Hm1 Hm2 Hr1 Hr2. cbn [b_m] in *.
  change (readItem b1 w1 = Ok (k1, v1)) in Hr1. change (readItem b1 w2 = Ok (k2, v2)) in Hr2.
  destruct (decide (h1 = h)) as [->|H1], (decide (h2 = h)) as [->|H2]; [done|..].
  - simplify_eq. destruct (inherits_read _ _ _ _ _ _ _ _ _ Hin H2 Hm2 Hr2) as (_ & _ & Ha).
    rewrite Hr1 in Hread. by simplify_eq.
  - simplify_eq. destruct (inherits_read _ _ _ _ _ _ _ _ _ Hin H1 Hm1 Hr1) as (_ & _ & Ha).
    rewrite Hr2 in Hread. simplify_eq. by apply apart_sym.
  - destruct (inherits_read _ _ _ _ _ _ _ _ _ Hin H1 Hm1 Hr1) as (? & ? & _).
    destruct (inherits_read _ _ _ _ _ _ _ _ _ Hin H2 Hm2 Hr2) as (? & ? & _). eauto.
Qed.

Lemma stores_intro b b1 idx n h k v m' w :
  m' !! h = Some w → readItem b1 w = Ok (k, v) → inherits b b1 idx n h m' →
  stores b (mkBucket (b_chunks b1) m' (b_idx b1) (b_gen b1)) h k v.
Proof.
  intros Hh Hread Hin. set (b2 := mkBucket _ _ _ _).
  assert (∀ x, readItem b2 x = readItem b1 x) as E by done.
  split.
  - rewrite contents_lookup. cbn [b_m b2]. rewrite Hh. cbn [mbind option_bind]. by rewrite E, Hread.
  - intros h' Hne. rewrite !contents_lookup. cbn [b_m b2].
    destruct (m' !! h') as [w'|] eqn:Hw'; [|by right]. cbn [mbind option_bind]. rewrite E.
    destruct (readItem b1 w') as [kv| |] eqn:Hr; [|by right..]. left.
    destruct (inherits_read _ _ _ _ _ _ _ _ _ Hin Hne Hw' Hr) as (-> & Hb & _).
    cbn [mbind option_bind]. by rewrite Hb.
Qed.

Lemma mkBucket_eta b : mkBucket (b_chunks b) (b_m b) (b_idx b) (b_gen b) = b.
Proof. by destruct b. Qed.

(** The index after cleaning holds the new word, and the fresh old ones. *)
Lemma wrap_index b b1 k v h gen m' :
  bucket_wf b → writes b b1 0 (recBytes k v) → b_idx b1 = recLen k v →
  bGen b1 = (if bGen b =? maxGen then 1 else bGen b + 1) →
  b_m b1 = <[h := word 0 gen]> (b_m b) → fresh b1 (word 0 gen) = true →
  m' = filter (λ kv, keep b1 kv.2 = true) (b_m b1) →
  m' !! h = Some (word 0 gen) ∧ inherits b b1 0 (recLen k v) h m' ∧
  (entry_ok b1 (word 0 gen) → map_Forall (λ _ w, entry_ok b1 w) m').
Proof.
  intros Hwf Hw Hx Hg Hm Hf ->. rewrite <- (zlen_recBytes k v) in Hx |- *.
  assert (∀ h' w', h' ≠ h → filter (λ kv, keep b1 kv.2 = true) (b_m b1) !! h' = Some w' →
            b_m b !! h' = Some w' ∧ entry_ok b1 w' ∧ same_record b b1 0 (zlen (recBytes k v)) w') as Hold.
  { intros h' w' Hne Hl. apply map_lookup_filter_Some in Hl as [Hl Hk].
    cbn [snd] in Hk. rewrite keep_fresh in Hk. rewrite Hm, lookup_insert_ne in Hl by done.
    split; [done|]. apply entry_wrap; try done. apply (wf_m _ Hwf _ _ Hl). }
  assert (filter (λ kv, keep b1 kv.2 = true) (b_m b1) !! h = Some (word 0 gen)) as Hh.
  { apply map_lookup_filter_Some. rewrite Hm, lookup_insert_eq. split; [done|].
    cbn [snd]. by rewrite keep_fresh. }
  split_and!; [done| |].
  - intros h' w' Hne Hl. by destruct (Hold _ _ Hne Hl) as (? & _ & ?).
  - intros He h' w' Hl. destruct (decide (h' = h)) as [->|Hne]; [by simplify_eq|]. by apply (Hold h').
Qed.

(** Without a wrap every old entry stays in the index. *)
Lemma advance_index b b1 idx k v h gen :
  bucket_wf b → writes b b1 idx (recBytes k v) → b_idx b1 = idx + recLen k v →
  b_idx b ≤ idx → bGen b1 = bGen b → b_m b1 = <[h := word idx gen]> (b_m b) →
  inherits b b1 idx (recLen k v) h (b_m b1) ∧
  (entry_ok b1 (word idx gen) → map_Forall (λ _ w, entry_ok b1 w) (b_m b1)).
Proof.
  intros Hwf Hw Hx Hi Hg Hm. rewrite <- (zlen_recBytes k v) in Hx |- *.
  assert (∀ h' w', h' ≠ h → b_m b1 !! h' = Some w' → b_m b !! h' = Some w' ∧
            entry_ok b1 w' ∧ (fresh b1 w' = true → same_record b b1 idx (zlen (recBytes k v)) w')) as Hold.
  { intros h' w' Hne Hl. rewrite Hm, lookup_insert_ne in Hl by done. split; [done|].
    apply entry_advance; try done. apply (wf_m _ Hwf _ _ Hl). }
  split.
  - intros h' w' Hne Hl. by destruct (Hold _ _ Hne Hl) as (? & _ & ?).
  - intros He h' w' Hl. destruct (decide (h' = h)) as [->|Hne]; [|by apply (Hold h')].
    rewrite Hm, lookup_insert_eq in Hl. by simplify_eq.
Qed.

Lemma set_step_spec b k v h oe b' evs :
  bucket_wf b → set_step b k v h oe b' evs →
  bucket_wf b' ∧ stores b b' h k v ∧ Forall (λ it, it = newItems) evs.
Proof.
  intros Hwf (b1 & idx & gen & trunc & clean & Hpd & Hw & Hm & Hx & Hg & Hend & Hcur & Hfin).
  pose proof (wf_n _ Hwf). pose proof (wf_gen _ Hwf) as Hgen. pose proof (wf_disj _ Hwf) as Hdj.
  destruct (word_entry b b1 idx k v Hw Hx ltac:(clia)) as (_ & Hpos & Hent & Hfr & Hread).
  pose proof (zlen_recBytes k v) as Hrl. rewrite Hg in *.
  destruct clean.
  - assert (idx = 0 ∧ bGen b1 = if bGen b =? maxGen then 1 else bGen b + 1) as [-> Hb1].
    { unfold bGen. rewrite Hg. inversion Hpd. split; [done|]. by apply bGen_bump. }
    destruct (wrap_index b b1 k v h gen _ Hwf Hw ltac:(lia) Hb1 Hm Hfr eq_refl) as (Hh & Hin & Hall).
    rewrite cleanLocked_eq in Hfin. cbv zeta in Hfin. injection Hfin as Hb' <-.
    rewrite bool_decide_eq_false_2 in Hb' by (intros E; by rewrite E in Hh). subst b'.
    split_and!.
    + eapply (step_wf b); eauto using inherits_disj; [lia|rewrite Hb1; bcase; clia|lia].
    + eapply stores_intro; eauto.
    + destruct (_ && _); by repeat constructor.
  - destruct Hfin as [-> ->].
    assert (b_idx b ≤ idx ∧ bGen b1 = bGen b) as [Hi Hb1].
    { unfold bGen. rewrite Hg. by inversion Hpd. }
    destruct (advance_index b b1 idx k v h gen Hwf Hw Hx Hi Hb1 Hm) as [Hin Hall].
    assert (b_m b1 !! h = Some (word idx gen)) as Hh by (by rewrite Hm, lookup_insert_eq).
    rewrite <- (mkBucket_eta b1). split_and!; [| |constructor].
    + eapply (step_wf b); eauto using inherits_disj; [lia|by rewrite Hb1|lia].
    + eapply stores_intro; eauto.
Qed.

(** ** Writing through an aliased value slice *)

Lemma scribble_writes b h w k v left :
  bucket_wf b → b_m b !! h = Some w → rec_at b (posOf w) k v → zlen left = zlen v →
  let r := mkRef (posOf w / chunkSize) (posOf w mod chunkSize + 4 + zlen k) (zlen v) in
  writes b (scribble b r left) (posOf w + 4 + zlen k) left ∧
  rec_at (scribble b r left) (posOf w) k left.
Proof.
  intros Hwf Hm (c & Hc & Hs) Hlen r. destruct (stored_parts _ _ _ _ Hs) as (_ & _ & _).
  pose proof (posOf_range w). dm (posOf w). dm (posOf w + 4 + zlen k).
  pose proof (zlen_nonneg k). pose proof (zlen_nonneg v).
  destruct Hs as (Ho & Hfit & Hmem & Hs).
  assert ((posOf w + 4 + zlen k) / chunkSize = posOf w / chunkSize) as Hdiv by lens.
  assert ((posOf w + 4 + zlen k) mod chunkSize = posOf w mod chunkSize + 4 + zlen k) as Hmod by lens.
  unfold scribble. cbn [r_chunk r_off r]. rewrite Hc. split.
  - unfold writes. rewrite Hdiv, Hmod. cbn [b_chunks]. split_and!; [lia|lens|].
    exists (Some c), (c_mem c), (c_len c). split_and!; try done. by intros ? [= ->].
  - unfold rec_at. cbn [b_chunks].
    rewrite list_lookup_insert_eq by (eapply lookup_lt_Some; eassumption).
    eexists. split; [done|]. unfold stored. cbn [c_mem].
    rewrite zlen_overwrite by lens. split_and!; [lens..|].
    assert (recLen k left = recLen k v) as Hrl by (unfold recLen; lia).
    assert (kvLenBuf k left = kvLenBuf k v) as -> by (unfold kvLenBuf; by rewrite Hlen).
    rewrite Hrl. set (o := posOf w mod chunkSize) in *.
    rewrite (slice_app o (o + 4 + zlen k)) by (rewrite ?zlen_overwrite by lens; lens).
    rewrite slice_overwrite_ne by lens.
    assert (slice o (o + 4 + zlen k) (c_mem c) = kvLenBuf k v ++ k) as ->.
    { rewrite (slice_app o (o + 4 + zlen k)) in Hs by lens. rewrite app_assoc in Hs.
      apply app_inj_1 in Hs as [-> _]; [done|]. apply Nat2Z.inj.
      change (zlen (slice o (o + 4 + zlen k) (c_mem c)) = zlen (kvLenBuf k v ++ k)).
      rewrite zlen_slice, zlen_app, zlen_kvLenBuf by lens. lia. }
    rewrite <- app_assoc. do 2 f_equal.
    replace (o + recLen k v) with (o + 4 + zlen k + zlen left) by lens.
    apply slice_overwrite_eq; lens.
Qed.

Lemma scribble_same b r bs :
  b_m (scribble b r bs) = b_m b ∧ b_idx (scribble b r bs) = b_idx b ∧ b_gen (scribble b r bs) = b_gen b.
Proof. unfold scribble. by destruct (b_chunks b !! _) as [[?|]|]. Qed.

Lemma scribble_cur b r bs : cur_ok b → cur_ok (scribble b r bs).
Proof.
  unfold cur_ok, scribble. destruct (b_chunks b !! Z.to_nat (r_chunk r)) as [[c|]|] eqn:Hc; try done.
  cbn [b_chunks b_idx]. rewrite list_lookup_insert. case_decide as E; [|done].
  destruct E as [E _]. by rewrite <- E, Hc.
Qed.

(** Everything but the record at [h] reads as before; [h] reads the new bytes. *)
Lemma scribble_reads b h w k v left r :
  bucket_wf b → b_m b !! h = Some w → fresh b w = true → rec_at b (posOf w) k v → zlen left = zlen v →
  r = mkRef (posOf w / chunkSize) (posOf w mod chunkSize + 4 + zlen k) (zlen v) →
  ∀ h' w', b_m b !! h' = Some w' → fresh b w' = true →
    ∃ k1 v1 v2, rec_at b (posOf w') k1 v1 ∧ rec_at (scribble b r left) (posOf w') k1 v2 ∧
      zlen v2 = zlen v1 ∧ (if decide (h' = h) then k1 = k ∧ v1 = v ∧ v2 = left else v2 = v1).
Proof.
  intros Hwf Hm Hf Hr Hlen -> h' w' Hm' Hf'.
  destruct (scribble_writes b h w k v left Hwf Hm Hr Hlen) as [Hw Hnew].
  case_decide as E; [subst; simplify_eq; eauto 10|].
  destruct (entry_fresh _ _ Hwf (wf_m _ Hwf _ _ Hm') Hf') as (k1 & v1 & Hr1).
  exists k1, v1, v1. split_and!; try done.
  pose proof (posOf_range w') as [? _].
  eapply writes_frame; [done..|].
  pose proof (wf_disj _ Hwf h h' w w' k v k1 v1) as Hd.
  pose proof (readItem_ok _ _ _ _ Hf Hr). pose proof (readItem_ok _ _ _ _ Hf' Hr1).
  destruct Hd as [Hd|Hd]; [done..| |]; [right|left]; lens.
Qed.

Section scribble.
Variables (b : bucket) (h w : Z) (k v left : bytes) (r : valref).
Hypothesis Hwf : bucket_wf b.
Hypothesis Hm : b_m b !! h = Some w.
Hypothesis Hf : fresh b w = true.
Hypothesis Hr : rec_at b (posOf w) k v.
Hypothesis Hlen : zlen left = zlen v.
Hypothesis Er : r = mkRef (posOf w / chunkSize) (posOf w mod chunkSize + 4 + zlen k) (zlen v).

Local Abbreviation b' := (scribble b r left).

Lemma scribble_fresh x : fresh b' x = fresh b x.
Proof using. destruct (scribble_same b r left) as (_ & Ei & Eg). unfold fresh, bGen. by rewrite Ei, Eg. Qed.

Lemma scribble_readItem h' w' :
  b_m b !! h' = Some w' →
  (readItem b w' = Err ErrNoData ∧ readItem b' w' = Err ErrNoData) ∨
  ∃ k1 v1 v2, rec_at b' (posOf w') k1 v2 ∧ readItem b w' = Ok (k1, v1) ∧
    readItem b' w' = Ok (k1, v2) ∧
    recLen k1 v1 = recLen k1 v2 ∧ (if decide (h' = h) then k1 = k ∧ v2 = left else v2 = v1).
Proof using Hwf Hm Hf Hr Hlen Er.
  intros Hm'. destruct (fresh b w') eqn:Hf'.
  - right. destruct (scribble_reads b h w k v left r Hwf Hm Hf Hr Hlen Er _ _ Hm' Hf')
      as (k1 & v1 & v2 & Hr1 & Hr2 & E & Hd).
    exists k1, v1, v2. split_and!; [done|by apply readItem_ok| |lens|].
    + apply readItem_ok; [by rewrite scribble_fresh|done].
    + case_decide; [by destruct Hd as (? & _ & ?)|done].
  - left. by rewrite !readItem_stale by (by rewrite ?scribble_fresh).
Qed.

Lemma scribble_entry h' w' : b_m b !! h' = Some w' → entry_ok b' w'.
Proof using Hwf Hm Hf Hr Hlen Er.
  intros Hm'. pose proof (wf_m _ Hwf _ _ Hm') as He. simpl in He. pose proof (wf_gen _ Hwf).
  destruct (scribble_same b r left) as (_ & Ei & Eg).
  assert (bGen b' = bGen b) as Ebg by (unfold bGen; by rewrite Eg).
  unfold entry_ok. rewrite Ei, Ebg. destruct He as [(Hg & k1 & v1 & Hr1 & Hend)|(Hg & Hr1)].
  - left. split; [done|]. assert (fresh b w' = true) as Hf' by (apply fresh_true; left; lens).
    destruct (scribble_readItem _ _ Hm') as [[E _]|(k2 & v2 & v3 & Hr3 & E & _ & El & _)];
      rewrite (readItem_ok _ _ _ _ Hf' Hr1) in E; simplify_eq.
    exists k2, v3. split; [done|]. lia.
  - right. split; [done|]. intros Hle. destruct (Hr1 Hle) as (k1 & v1 & Hr1').
    assert (fresh b w' = true) as Hf' by (apply fresh_true; right; unfold prevGen in Hg; bcase_in Hg; clia).
    destruct (scribble_readItem _ _ Hm') as [[E _]|(k2 & v2 & v3 & Hr3 & _)]; [|by eauto].
    by rewrite (readItem_ok _ _ _ _ Hf' Hr1') in E.
Qed.

Lemma scribble_disj : disjoint_recs b'.
Proof using Hwf Hm Hf Hr Hlen Er.
  intros h1 h2 w1 w2 k1 v1 k2 v2 Hne Hm1 Hm2 Hr1 Hr2.
  destruct (scribble_same b r left) as (Em & _). rewrite Em in Hm1, Hm2.
  pose proof (wf_disj _ Hwf h1 h2) as Hd.
  pose proof (scribble_readItem _ _ Hm1) as D1. pose proof (scribble_readItem _ _ Hm2) as D2.
  destruct D1 as [[_ E]|(? & u1 & ? & _ & R1 & E & L1 & _)]; rewrite E in Hr1; simplify_eq.
  destruct D2 as [[_ E']|(? & u2 & ? & _ & R2 & E' & L2 & _)]; rewrite E' in Hr2; simplify_eq.
  rewrite <- L1, <- L2. by apply Hd.
Qed.

(** Writing [left] over the value of [h], with the same length, keeps the
    bucket well-formed and changes the value of [h] only. *)
Lemma scribble_spec : bucket_wf b' ∧ contents b' = <[h := (k, left)]> (contents b).
Proof using Hwf Hm Hf Hr Hlen Er.
  destruct (scribble_writes b h w k v left Hwf Hm Hr Hlen) as [Hw _]. rewrite <- Er in Hw.
  destruct (scribble_same b r left) as (Em & Ei & Eg).
  assert (bGen b' = bGen b) as Ebg by (unfold bGen; by rewrite Eg).
  assert (zlen (b_chunks b') = zlen (b_chunks b)) as En
    by (unfold zlen; by rewrite (writes_length _ _ _ _ Hw)).
  split.
  - split; rewrite ?Em, ?Ei, ?Ebg, ?En.
    + apply (wf_n _ Hwf).
    + apply (wf_idx _ Hwf).
    + apply (wf_gen _ Hwf).
    + eapply writes_chunks; [done|]. apply (wf_chunks _ Hwf).
    + apply scribble_cur, (wf_cur _ Hwf).
    + exact scribble_entry.
    + exact scribble_disj.
  - apply map_eq. intros h'. rewrite contents_lookup, Em.
    destruct (decide (h' = h)) as [->|Hne].
    + rewrite lookup_insert_eq, Hm. cbn [mbind option_bind].
      destruct (scribble_readItem _ _ Hm) as [[E _]|(? & u & ? & _ & E & -> & _ & D)].
      * by rewrite (readItem_ok _ _ _ _ Hf Hr) in E.
      * rewrite decide_True in D by done. by destruct D as [-> ->].
    + rewrite lookup_insert_ne, contents_lookup by done.
      destruct (b_m b !! h') as [w'|] eqn:Hm'; [|done]. cbn [mbind option_bind].
      destruct (scribble_readItem _ _ Hm') as [[-> ->]|(? & u & ? & _ & -> & -> & _ & D)]; [done|].
      rewrite decide_False in D by done. by subst.
Qed.
End scribble.

(** ** The other operations *)

Lemma empty_wf n : (1 ≤ n)%nat → Z.of_nat n ≤ 2 ^ 24 →
  bucket_wf (mkBucket (replicate n None) ∅ 0 1).
Proof.
  intros Hn1 Hn2. assert (zlen (replicate n (@None chunk)) = Z.of_nat n) as En
    by (unfold zlen; by rewrite length_replicate).
  split; cbn [b_chunks b_m b_idx b_gen]; rewrite ?En.
  - lia.
  - clia.
  - done.
  - intros i c Hi. by apply lookup_replicate in Hi as [? _].
  - unfold cur_ok. cbn [b_chunks b_idx]. rewrite lookup_replicate_2; [done|].
    change (Z.to_nat (0 / chunkSize)) with O. lia.
  - apply map_Forall_empty.
  - intros ? ? ? ? ? ? ? ? _ E. cbn [b_m] in E. by rewrite lookup_empty in E.
Qed.

Lemma bucket_Del_spec b h :
  bucket_wf b → bucket_wf (bucket_Del b h) ∧ contents (bucket_Del b h) = delete h (contents b).
Proof.
  intros Hwf. split.
  - destruct Hwf as [? ? ? ? ? Hm Hd]. split; try done.
    + intros h' w Hl. cbn [b_m bucket_Del] in Hl. apply lookup_delete_Some in Hl as [_ Hl].
      apply (Hm _ _ Hl).
    + intros h1 h2 w1 w2 k1 v1 k2 v2 Hne H1 H2. cbn [b_m bucket_Del] in H1, H2.
      apply lookup_delete_Some in H1 as [_ H1]. apply lookup_delete_Some in H2 as [_ H2].
      by apply (Hd h1 h2).
  - apply map_eq. intros h'. rewrite contents_lookup. cbn [b_m bucket_Del].
    destruct (decide (h' = h)) as [->|Hne].
    + by rewrite !lookup_delete_eq.
    + by rewrite !lookup_delete_ne, contents_lookup by done.
Qed.

(** The items a batch lists, as pairs. *)
Definition item_pairs (i : Items) : list (bytes * bytes) := zip (Keys i) (Values i).
Definition items_wf (i : Items) : Prop := length (Keys i) = length (Values i).

Lemma items_add i k v : items_wf i →
  items_wf (Items_Add i k v) ∧ item_pairs (Items_Add i k v) = item_pairs i ++ [(k, v)].
Proof.
  unfold items_wf, item_pairs, Items_Add. cbn [Keys Values]. intros E. rewrite !length_app. split; [by rewrite E|].
  by rewrite zip_with_app.
Qed.

Lemma readItems_spec b vs out :
  items_wf out → (∀ w, w ∈ vs → readItem b w ≠ Panic) →
  ∃ out', readItems b vs out = Ok out' ∧ items_wf out' ∧
    ∀ kv, kv ∈ item_pairs out' ↔ kv ∈ item_pairs out ∨ ∃ w, w ∈ vs ∧ readItem b w = Ok kv.
Proof.
  revert out. induction vs as [|w vs IH]; intros out Ho Hnp; cbn [readItems].
  - exists out. split_and!; [done..|]. intros kv. split; [by left|].
    intros [?|(w & Hw & _)]; [done|]. by apply not_elem_of_nil in Hw.
  - assert (∀ w0, w0 ∈ vs → readItem b w0 ≠ Panic) as Hnp' by (intros; apply Hnp; by right).
    pose proof (Hnp w ltac:(by left)) as Hw.
    assert (∀ kv, (∃ w0, w0 ∈ w :: vs ∧ readItem b w0 = Ok kv) ↔
              readItem b w = Ok kv ∨ ∃ w0, w0 ∈ vs ∧ readItem b w0 = Ok kv) as Hsplit.
    { intros kv. setoid_rewrite elem_of_cons. naive_solver. }
    destruct (readItem b w) as [[k v]|e|] eqn:Hr; [| |done].
    + destruct (items_add out k v Ho) as [Ho' Hp].
      destruct (IH _ Ho' Hnp') as (out' & E & Hwf' & Hin). exists out'. split_and!; [done..|].
      intros kv. rewrite Hin, Hp, Hsplit, elem_of_app, list_elem_of_singleton. naive_solver.
    + destruct (IH _ Ho Hnp') as (out' & E & Hwf' & Hin). exists out'. split_and!; [done..|].
      intros kv. rewrite Hin, Hsplit. naive_solver.
Qed.

Lemma map_values_elem (m : gmap Z Z) w : w ∈ map_values m ↔ ∃ h, m !! h = Some w.
Proof.
  unfold map_values. rewrite list_elem_of_fmap. split.
  - intros ([h w'] & -> & Hin). exists h. by apply elem_of_map_to_list.
  - intros [h Hl]. exists (h, w). split; [done|]. by apply elem_of_map_to_list.
Qed.

(** Reading all index words of a well-formed bucket lists its contents. *)
Lemma readItems_all b out :
  bucket_wf b → items_wf out →
  ∃ out', readItems b (map_values (b_m b)) out = Ok out' ∧ items_wf out' ∧
    ∀ kv, kv ∈ item_pairs out' ↔ kv ∈ item_pairs out ∨ ∃ h, contents b !! h = Some kv.
Proof.
  intros Hwf Ho. destruct (readItems_spec b (map_values (b_m b)) out Ho) as (out' & E & Ho' & Hin).
  { intros w (h & Hl)%map_values_elem.
    destruct (readItem_wf _ _ _ Hwf Hl) as [[_ ->]|(? & ? & _ & _ & ->)]; done. }
  exists out'. split_and!; [done..|]. intros kv. rewrite Hin.
  assert ((∃ w, w ∈ map_values (b_m b) ∧ readItem b w = Ok kv) ↔ ∃ h, contents b !! h = Some kv) as ->;
    [|done].
  setoid_rewrite map_values_elem. setoid_rewrite contents_lookup. split.
  - intros (w & (h & Hl) & Hr). exists h. rewrite Hl. cbn [mbind option_bind]. by rewrite Hr.
  - intros (h & Hc). destruct (b_m b !! h) as [w|] eqn:Hl; [|done]. cbn [mbind option_bind] in Hc.
    exists w. split; [by exists h|]. by destruct (readItem b w); simplify_eq.
Qed.

Section with_alloc2.
Context {P : Type} `{!ChunkAlloc P}.

Lemma putChunks_ok (p : P) cs :
  pool_ok p → (∀ i c, cs !! i = Some (Some c) → zlen (c_mem c) = chunkSize) →
  pool_ok (foldl (λ p oc, putChunk oc p) p cs).
Proof.
  revert p. induction cs as [|oc cs IH]; intros p Hp Hcs; [done|]. simpl. apply IH.
  - apply putChunk_ok; [done|]. intros c ->. by apply (Hcs O).
  - intros i c Hi. by apply (Hcs (S i)).
Qed.

Lemma bucket_Reset_spec (p : P) b out :
  bucket_wf b → pool_ok p → (∀ o, out = Some o → items_wf o) →
  ∃ p' out', bucket_Reset p b out =
      Ok (p', mkBucket (replicate (length (b_chunks b)) None) ∅ 0 1, out') ∧
    pool_ok p' ∧ bucket_wf (mkBucket (replicate (length (b_chunks b)) None) ∅ 0 1) ∧
    match out, out' with
    | None, None => True
    | Some o, Some o' => items_wf o' ∧
        ∀ kv, kv ∈ item_pairs o' ↔ kv ∈ item_pairs o ∨ ∃ h, contents b !! h = Some kv
    | _, _ => False
    end.
Proof.
  intros Hwf Hp Ho. pose proof (wf_n _ Hwf) as Hn. unfold zlen in Hn.
  assert (bucket_wf (mkBucket (replicate (length (b_chunks b)) None) ∅ 0 1)) by (apply empty_wf; lia).
  assert (pool_ok (foldl (λ p oc, putChunk oc p) p (b_chunks b)))
    by (apply putChunks_ok; [done|apply (wf_chunks _ Hwf)]).
  unfold bucket_Reset. destruct out as [o|].
  - destruct (readItems_all b o Hwf (Ho _ eq_refl)) as (o' & -> & ? & ?). gosimp. eauto 10.
  - gosimp. eauto 10.
Qed.

Lemma bucket_Init_spec (p : P) maxBytes :
  0 < maxBytes < maxBucketSize → pool_ok p →
  ∃ p' b, bucket_Init p maxBytes = Ok (p', b) ∧ pool_ok p' ∧ bucket_wf b ∧ contents b = ∅ ∧
          maxBytes ≤ zlen (b_chunks b) * chunkSize < maxBytes + chunkSize.
Proof.
  intros Hm Hp. unfold bucket_Init. rewrite (proj2 (Z.eqb_neq _ _)), (proj2 (Z.leb_gt _ _)) by lia.
  cbv zeta. set (n := (maxBytes + chunkSize - 1) / chunkSize).
  dm (maxBytes + chunkSize - 1). fold n in H.
  assert (1 ≤ n ≤ 2 ^ 24) as Hn by clia.
  unfold bucket_Reset. gosimp. cbn [b_chunks]. rewrite length_replicate.
  eexists _, _. split_and!; [done| |apply empty_wf; lia|by apply map_eq|..].
  - apply putChunks_ok; [done|]. intros i c Hi. by apply lookup_replicate in Hi as [? _].
  - unfold zlen. cbn [b_chunks]. rewrite length_replicate, Z2Nat.id by lia. clia.
  - unfold zlen. cbn [b_chunks]. rewrite length_replicate, Z2Nat.id by lia. clia.
Qed.

(** Where [getLocked] finds a value, it is the value of an index word in place. *)
Lemma getLocked_inv b k h v :
  bucket_wf b → getLocked b k h = Ok v →
  ∃ w, b_m b !! h = Some w ∧ fresh b w = true ∧ rec_at b (posOf w) k v ∧
    getRef b k h = Ok (mkRef (posOf w / chunkSize) (posOf w mod chunkSize + 4 + zlen k) (zlen v)).
Proof.
  intros Hwf Hg. destruct (b_m b !! h) as [w|] eqn:Hm.
  2:{ unfold getLocked, getRef in Hg. by rewrite Hm in Hg. }
  pose proof (entry_nonzero _ _ Hwf (wf_m _ Hwf _ _ Hm)) as Hw.
  destruct (readItem_wf _ _ _ Hwf Hm) as [(Hf & _)|(k' & v' & Hf & Hr & _)].
  - unfold getLocked, getRef in Hg. rewrite Hm in Hg. cbn [default] in Hg.
    change (default 0 (Some w)) with w in Hg. rewrite (proj2 (Z.eqb_neq _ _)) in Hg by done.
    by rewrite locate_stale in Hg.
  - rewrite (getLocked_ok _ _ _ _ _ _ Hm Hw Hf Hr) in Hg. case_bool_decide; [|done]. simplify_eq.
    exists w. split_and!; [done..|]. rewrite (getRef_ok _ _ _ _ _ _ Hm Hw Hf Hr).
    by rewrite bool_decide_eq_true_2.
Qed.

Lemma bucket_Update_inplace (p : P) b k h v mutator oe :
  bucket_wf b → getLocked b k h = Ok v →
  zlen (m_left (mutator v)) = zlen v → m_update (mutator v) = false →
  ∃ b', bucket_Update p b k h mutator oe = Ok (p, b', [], m_err (mutator v)) ∧ bucket_wf b' ∧
    contents b' = <[h := (k, m_left (mutator v))]> (contents b).
Proof.
  intros Hwf Hg Hlen Hupd.
  destruct (getLocked_inv _ _ _ _ Hwf Hg) as (w & Hm & Hf & Hr & Href).
  destruct (scribble_spec b h w k v (m_left (mutator v)) _ Hwf Hm Hf Hr Hlen eq_refl) as [Hwf' Hc].
  unfold bucket_Update. unfold getLocked in Hg. rewrite Href in Hg |- *. cbn [mbind go_bind] in Hg.
  rewrite Hg. cbv zeta. rewrite Hupd. destruct (m_err (mutator v)); eauto.
Qed.
End with_alloc2.
