(* ===== verification/XCacheProps.v ===== *)
(** * xcache: theorems about buckets and the whole cache

    Reachable buckets, the contract of the cache's operations against the
    abstract contents of its buckets, and what eviction reports. *)
From S2P Require Import Prelude XCache XCacheSpec.

Local Open Scope Z_scope.

Section buckets.
Context {P : Type} `{!ChunkAlloc P}.
Implicit Types (p : P) (b : bucket).

Lemma setLocked_wf p b k v h oe p' b' evs :
  bucket_wf b → pool_ok p → setLocked p b k v h oe = Ok (p', b', evs) →
  pool_ok p' ∧ bucket_wf b' ∧ stores b b' h k v.
Proof.
  intros Hwf Hp H. destruct (setLocked_step _ _ _ _ _ _ _ _ _ Hwf Hp H) as [Hp' Hs].
  by destruct (set_step_spec _ _ _ _ _ _ _ Hwf Hs) as (? & ? & _).
Qed.

Definition preserves_length (mutator : bytes → mutation) : Prop :=
  ∀ v, zlen (m_left (mutator v)) = zlen v.

Lemma bucket_Update_wf p b k h mutator oe p' b' evs err :
  bucket_wf b → pool_ok p → preserves_length mutator →
  bucket_Update p b k h mutator oe = Ok (p', b', evs, err) → pool_ok p' ∧ bucket_wf b'.
Proof.
  intros Hwf Hp Hlen. unfold bucket_Update. cbv zeta.
  assert (∀ b0 m e0 r, bucket_wf b0 →
    match m_err m with
    | Some e => Ok (p, b0, [], Some e)
    | None => if m_update m then
        match setLocked p b0 k (m_ret m) h oe with
        | Ok (p', b', evs) => Ok (p', b', evs, None)
        | Err e => Ok (p, b0, [], Some e)
        | Panic => Panic
        end else Ok (p, b0, [], e0)
    end = Ok (E:=cerr) r → pool_ok r.1.1.1 ∧ bucket_wf r.1.1.2) as Hrun.
  { intros b0 m e0 r Hwf0. destruct (m_err m); [by intros [= <-]|].
    destruct (m_update m); [|by intros [= <-]].
    destruct (setLocked p b0 k (m_ret m) h oe) as [[[p1 b1] e1]|e|] eqn:Hs; intros [= <-]; [|done].
    by destruct (setLocked_wf _ _ _ _ _ _ _ _ _ Hwf0 Hp Hs) as (? & ? & _). }
  destruct (getRef b k h) as [r|e|] eqn:Hr; [| |done].
  - destruct (deref b r) as [v|?|] eqn:Hd; [|done..]. intros H.
    apply (Hrun _ _ _ (p', b', evs, err)) in H; [done|].
    assert (getLocked b k h = Ok v) as Hg by (unfold getLocked; by rewrite Hr).
    destruct (getLocked_inv _ _ _ _ Hwf Hg) as (w & Hm & Hf & Hrec & Hr'). rewrite Hr in Hr'. simplify_eq.
    eapply scribble_spec; eauto.
  - destruct e; intros H; try by simplify_eq.
    by apply (Hrun b (mutator []) _ (p', b', evs, err)) in H.
Qed.

(** The buckets a program can reach: created by [Init], then changed by any
    sequence of operations, with mutators that do not grow the slice they are
    given in place. *)
Inductive bucket_reach : P → bucket → Prop :=
  | reach_init p maxBytes p' b :
      pool_ok p → 0 < maxBytes < maxBucketSize → bucket_Init p maxBytes = Ok (p', b) → bucket_reach p' b
  | reach_set p b k v h oe p' b' evs :
      bucket_reach p b → setLocked p b k v h oe = Ok (p', b', evs) → bucket_reach p' b'
  | reach_update p b k h mutator oe p' b' evs err :
      bucket_reach p b → preserves_length mutator →
      bucket_Update p b k h mutator oe = Ok (p', b', evs, err) → bucket_reach p' b'
  | reach_del p b h : bucket_reach p b → bucket_reach p (bucket_Del b h)
  | reach_reset p b p' b' out :
      bucket_reach p b → bucket_Reset p b (Some newItems) = Ok (p', b', out) → bucket_reach p' b'.

Lemma reach_wf p b : bucket_reach p b → pool_ok p ∧ bucket_wf b.
Proof.
  induction 1 as [p m p' b Hp Hm Hi|p b k v h oe p' b' evs _ [Hp Hwf] Hs
    |p b k h mu oe p' b' evs err _ [Hp Hwf] Hl Hu|p b h _ [Hp Hwf]|p b p' b' out _ [Hp Hwf] Hr].
  - destruct (bucket_Init_spec p m Hm Hp) as (p1 & b1 & E & ? & ? & _). rewrite E in Hi. by simplify_eq.
  - by destruct (setLocked_wf _ _ _ _ _ _ _ _ _ Hwf Hp Hs) as (? & ? & _).
  - by eapply bucket_Update_wf.
  - split; [done|]. by apply bucket_Del_spec.
  - destruct (bucket_Reset_spec p b (Some newItems) Hwf Hp) as (p1 & o1 & E & ? & ? & _);
      [by intros ? [= <-]|]. rewrite E in Hr. by simplify_eq.
Qed.

Lemma getLocked_wf_total b k h :
  bucket_wf b → (∃ v, getLocked b k h = Ok v) ∨ getLocked b k h = Err ErrNoData.
Proof.
  intros Hwf. rewrite (getLocked_contents _ _ _ Hwf).
  destruct (contents b !! h) as [[k' v]|]; [|by right]. case_bool_decide; eauto.
Qed.

(** C1: in every reachable bucket, a lookup returns a value or "no data": the
    corruption checks of [getLocked] never fire and no slice expression panics,
    whatever sequence of stores, in-place updates, deletions, wrap-arounds and
    resets led there. *)
Theorem reachable_get_total (p : P) (b : bucket) (k : bytes) (h : Z) :
  bucket_reach p b → (∃ v, getLocked b k h = Ok v) ∨ getLocked b k h = Err ErrNoData.
Proof. intros H. apply getLocked_wf_total. by apply (reach_wf p b). Qed.

(** C2: storing a record that fits always succeeds (given memory), keeps the
    bucket's invariant, makes the key readable with exactly the stored value, and
    changes what any other hash reads at most into "no data". *)
Theorem set_then_get (p : P) (b : bucket) (k v : bytes) (h : Z) (oe : bool) :
  bucket_wf b → pool_ok p → is_Some (getChunk p) → fits k v →
  ∃ p' b' evs, setLocked p b k v h oe = Ok (p', b', evs) ∧ pool_ok p' ∧ bucket_wf b' ∧
    getLocked b' k h = Ok v ∧
    ∀ k' h', h' ≠ h → getLocked b' k' h' = getLocked b k' h' ∨ getLocked b' k' h' = Err ErrNoData.
Proof.
  intros Hwf Hp [x Hg] Hfit.
  destruct (setLocked_run p b k v h oe Hwf Hp Hfit) as [(p' & b' & evs & E & Hp' & Hs)|[E _]];
    [|by rewrite Hg in E].
  destruct (set_step_spec _ _ _ _ _ _ _ Hwf Hs) as (Hwf' & [Hnew Hold] & _).
  exists p', b', evs. split_and!; try done.
  - rewrite getLocked_contents, Hnew by done. by rewrite bool_decide_eq_true_2.
  - intros k' h' Hne. rewrite !getLocked_contents by done.
    destruct (Hold _ Hne) as [->| ->]; auto.
Qed.

(** A mutator that overwrites the value in place without growing it (the way
    [xstats] adds to its counters) changes the value of its own key and nothing
    else. *)
Theorem update_in_place (p : P) (b : bucket) (k : bytes) (h : Z) (v : bytes)
    (mutator : bytes → mutation) (oe : bool) :
  bucket_wf b → getLocked b k h = Ok v →
  zlen (m_left (mutator v)) = zlen v → m_update (mutator v) = false →
  ∃ b', bucket_Update p b k h mutator oe = Ok (p, b', [], m_err (mutator v)) ∧ bucket_wf b' ∧
    getLocked b' k h = Ok (m_left (mutator v)) ∧
    ∀ k' h', h' ≠ h → getLocked b' k' h' = getLocked b k' h'.
Proof.
  intros Hwf Hg Hlen Hu.
  destruct (bucket_Update_inplace p b k h v mutator oe Hwf Hg Hlen Hu) as (b' & E & Hwf' & Hc).
  exists b'. split_and!; try done.
  - rewrite getLocked_contents, Hc, lookup_insert_eq by done. by rewrite bool_decide_eq_true_2.
  - intros k' h' Hne. by rewrite !getLocked_contents, Hc, lookup_insert_ne by done.
Qed.

(** [Reset] reports exactly the readable records of the bucket, and leaves
    an empty, well-formed bucket. *)
Theorem reset_reports_contents (p : P) (b : bucket) :
  bucket_wf b → pool_ok p →
  ∃ p' b' out, bucket_Reset p b (Some newItems) = Ok (p', b', Some out) ∧
    bucket_wf b' ∧ (∀ k h, getLocked b' k h = Err ErrNoData) ∧
    (∀ k v, (k, v) ∈ item_pairs out ↔ ∃ h, getLocked b k h = Ok v).
Proof.
  intros Hwf Hp. destruct (bucket_Reset_spec p b (Some newItems) Hwf Hp) as (p' & o & E & _ & Hwf' & Ho);
    [by intros ? [= <-]|]. destruct o as [o|]; [|done]. destruct Ho as [_ Hin].
  eexists p', _, o. split_and!; [done..|]. intros k v. rewrite Hin.
  setoid_rewrite (getLocked_contents b); [|done]. split.
  - intros [H|[h Hh]]; [by apply not_elem_of_nil in H|]. exists h. rewrite Hh.
    by rewrite bool_decide_eq_true_2.
  - intros [h Hh]. right. exists h. destruct (contents b !! h) as [[k' v']|]; [|done].
    case_bool_decide; by simplify_eq.
Qed.
End buckets.

(** When the ring wraps around, [cleanLocked] hands [onEvict] a batch with no
    items: the entries it drops are exactly those [readItem] refuses to read, so
    overwritten records are never reported. *)
Theorem clean_evicts_nothing (b b' : bucket) (oe : bool) (evs : list Items) (it : Items) :
  cleanLocked b oe = Ok (b', evs) → it ∈ evs → it = newItems.
Proof.
  rewrite cleanLocked_eq. cbv zeta. intros [= _ <-] Hin.
  destruct (_ && _); [|by apply not_elem_of_nil in Hin]. by apply list_elem_of_singleton in Hin.
Qed.

(** ** The cache *)

Section cache.
Context {P : Type} `{!ChunkAlloc P}.
Variable Sum64 : bytes → Z.

Definition cache_wf (c : Cache) : Prop :=
  zlen (buckets c) = bucketsCount ∧ Forall bucket_wf (buckets c).

Lemma cache_bucket c k : cache_wf c → ∃ b, buckets c !! bucketIdx Sum64 k = Some b ∧ bucket_wf b.
Proof.
  intros [Hn Hall]. unfold bucketIdx.
  pose proof (Z.mod_pos_bound (Sum64 k) bucketsCount ltac:(done)).
  destruct (lookup_lt_is_Some_2 (buckets c) (Z.to_nat (Sum64 k mod bucketsCount))) as [b Hb].
  { unfold zlen in Hn. lia. }
  exists b. split; [done|]. by eapply Forall_lookup_1.
Qed.

Lemma setBucket_wf c i b : cache_wf c → bucket_wf b → cache_wf (setBucket c i b).
Proof.
  intros [Hn Hall] Hb. split.
  - unfold zlen, setBucket in *. cbn [buckets]. by rewrite length_insert.
  - by apply Forall_insert.
Qed.

Lemma setBucket_get c k k' b b' :
  cache_wf c → buckets c !! bucketIdx Sum64 k = Some b →
  Cache_Get Sum64 (setBucket c (bucketIdx Sum64 k) b') k' =
    if decide (bucketIdx Sum64 k = bucketIdx Sum64 k') then getLocked b' k' (Sum64 k')
    else Cache_Get Sum64 c k'.
Proof.
  intros _ Hb. unfold Cache_Get, setBucket. cbn [buckets].
  rewrite list_lookup_insert. pose proof (lookup_lt_Some _ _ _ Hb).
  case_decide as E; case_decide; naive_solver.
Qed.

Lemma initBuckets_spec n (p : P) mb :
  0 < mb < maxBucketSize → pool_ok p →
  ∃ p' bs, initBuckets n p mb = Ok (p', bs) ∧ pool_ok p' ∧ length bs = n ∧
    Forall (λ b, bucket_wf b ∧ contents b = ∅) bs.
Proof.
  intros Hm. revert p. induction n as [|n IH]; intros p Hp; cbn [initBuckets].
  - exists p, []. by repeat constructor.
  - destruct (bucket_Init_spec p mb Hm Hp) as (p1 & b & -> & Hp1 & Hb & Hc & _). gosimp.
    destruct (IH p1 Hp1) as (p2 & bs & -> & Hp2 & Hl & Hbs). gosimp.
    exists p2, (b :: bs). split_and!; [done..|by simpl; rewrite Hl|by constructor].
Qed.

(** A cache made with any positive size up to 2^40 bytes per bucket has 512
    well-formed buckets and holds nothing; a size that is not positive is
    refused. *)
Theorem new_cache_empty (p : P) (maxBytes : Z) (evict : bool) :
  pool_ok p → maxBytes ≤ bucketsCount * (maxBucketSize - 1) →
  (maxBytes ≤ 0 → Cache_New p maxBytes evict = Err errMaxBytesNotPositive) ∧
  (0 < maxBytes → ∃ p' c, Cache_New p maxBytes evict = Ok (p', c) ∧ pool_ok p' ∧ cache_wf c ∧
     ∀ k, Cache_Get Sum64 c k = Err ErrNoData).
Proof.
  intros Hp Hmax. split; intros Hm; unfold Cache_New.
  - by rewrite (proj2 (Z.leb_le _ _)).
  - rewrite (proj2 (Z.leb_gt _ _)) by lia. cbv zeta.
    set (mb := u64 _).
    assert (0 < mb < maxBucketSize) as Hmb.
    { unfold mb. rewrite i64_small by (unfold in_i64, bucketsCount; unfold bucketsCount in Hmax; clia).
      rewrite Z.quot_div_nonneg by (unfold bucketsCount; lia).
      assert (0 < (maxBytes + bucketsCount - 1) / bucketsCount < maxBucketSize) as Hq.
      { split; [apply Z.div_str_pos; unfold bucketsCount; lia|].
        apply Z.div_lt_upper_bound; unfold bucketsCount in *; clia. }
      rewrite u64_small by (unfold in_u64; clia). done. }
    destruct (initBuckets_spec (Z.to_nat bucketsCount) p mb Hmb Hp) as (p' & bs & -> & Hp' & Hl & Hbs).
    gosimp. eexists p', _. split_and!; [done..| |].
    + split; cbn [buckets]; [unfold zlen; rewrite Hl; done|]. eapply Forall_impl; [done|]. by intros ? [? _].
    + intros k. unfold Cache_Get. cbn [buckets].
      destruct (cache_bucket (mkCache bs evict) k) as (b & Hb & Hwf).
      { split; cbn [buckets]; [unfold zlen; rewrite Hl; done|]. eapply Forall_impl; [done|]. by intros ? [? _]. }
      cbn [buckets] in Hb. rewrite Hb. rewrite getLocked_contents by done.
      eapply Forall_lookup_1 in Hbs as [_ ->]; [|done]. by rewrite lookup_empty.
Qed.

(** C16: [Set] then [Get] through the whole cache: the key reads its value, the
    cache stays well-formed, and a key with another hash reads what it read
    before or nothing. *)
Theorem cache_set_get (p : P) (c : Cache) (k v : bytes) :
  cache_wf c → pool_ok p → is_Some (getChunk p) → fits k v →
  ∃ p' c' evs, Cache_Set Sum64 p c k v = Ok (p', c', evs) ∧ pool_ok p' ∧ cache_wf c' ∧
    Cache_Get Sum64 c' k = Ok v ∧
    ∀ k', Sum64 k' ≠ Sum64 k →
      Cache_Get Sum64 c' k' = Cache_Get Sum64 c k' ∨ Cache_Get Sum64 c' k' = Err ErrNoData.
Proof.
  intros Hc Hp [x Hg] Hfit. destruct (cache_bucket c k Hc) as (b & Hb & Hwf).
  destruct (setLocked_run p b k v (Sum64 k) (onEvict c) Hwf Hp Hfit)
    as [(p' & b' & evs & E & Hp' & Hs)|[E _]]; [|by rewrite Hg in E].
  destruct (set_step_spec _ _ _ _ _ _ _ Hwf Hs) as (Hwf' & [Hnew Hold] & _).
  unfold Cache_Set. rewrite Hb, E. gosimp. eexists p', _, evs.
  split_and!; [done|done|by apply setBucket_wf| |].
  - rewrite (setBucket_get c k k b b') by done. rewrite decide_True by done.
    rewrite getLocked_contents, Hnew by done. by rewrite bool_decide_eq_true_2.
  - intros k' Hne. rewrite (setBucket_get c k k' b b') by done.
    case_decide as Ei; [|by left]. unfold Cache_Get. rewrite <- Ei, Hb.
    rewrite !getLocked_contents by done. destruct (Hold _ Hne) as [->| ->]; auto.
Qed.

(** After [Del] the key reads nothing, and every key with another hash reads
    exactly what it read before. *)
Theorem cache_del (c : Cache) (k : bytes) :
  cache_wf c →
  ∃ c', Cache_Del Sum64 c k = Ok c' ∧ cache_wf c' ∧ Cache_Get Sum64 c' k = Err ErrNoData ∧
    ∀ k', Sum64 k' ≠ Sum64 k → Cache_Get Sum64 c' k' = Cache_Get Sum64 c k'.
Proof.
  intros Hc. destruct (cache_bucket c k Hc) as (b & Hb & Hwf).
  destruct (bucket_Del_spec b (Sum64 k) Hwf) as [Hwf' Hd].
  unfold Cache_Del. rewrite Hb. eexists. split_and!; [done|by apply setBucket_wf| |].
  - rewrite (setBucket_get c k k b) by done. rewrite decide_True by done.
    by rewrite getLocked_contents, Hd, lookup_delete_eq by done.
  - intros k' Hne. rewrite (setBucket_get c k k' b) by done. case_decide as Ei; [|done].
    unfold Cache_Get. rewrite <- Ei, Hb.
    by rewrite !getLocked_contents, Hd, lookup_delete_ne by done.
Qed.
End cache.

(** ** Concrete runs *)

(** A one-chunk bucket fresh from [Init]. *)
Definition bucket0 : bucket := mkBucket [None] ∅ 0 1.

Lemma bucket0_wf : bucket_wf bucket0.
Proof. by apply (empty_wf 1). Qed.

(** The bucket after storing one record. *)
Definition bucket1 : bucket :=
  match setLocked tt bucket0 [107] [1; 2] 7 false with Ok (_, b, _) => b | _ => bucket0 end.

Lemma bucket1_wf : bucket_wf bucket1.
Proof.
  unfold bucket1. destruct (setLocked _ _ _ _ _ _) as [[[? ?] ?]| |] eqn:E;
    [|apply bucket0_wf..].
  eapply setLocked_wf in E; [naive_solver|apply bucket0_wf|done].
Qed.

Lemma reachable_get_total_witness :
  (∃ v, getLocked bucket0 [107] 7 = Ok v) ∨ getLocked bucket0 [107] 7 = Err ErrNoData.
Proof.
  apply (reachable_get_total tt). apply (reach_init tt 1 tt bucket0); [done|done|]. reflexivity.
Defined.

Lemma small_fits : fits [107] [1; 2].
Proof. unfold fits. done. Qed.

Lemma set_then_get_witness :
  ∃ p' b' evs, setLocked tt bucket0 [107] [1; 2] 7 true = Ok (p', b', evs) ∧ pool_ok p' ∧ bucket_wf b' ∧
    getLocked b' [107] 7 = Ok [1; 2] ∧
    ∀ k' h', h' ≠ 7 → getLocked b' k' h' = getLocked bucket0 k' h' ∨ getLocked b' k' h' = Err ErrNoData.
Proof.
  apply (set_then_get tt bucket0 [107] [1; 2] 7 true);
    [apply bucket0_wf|done|by eexists|apply small_fits].
Defined.

(** Adds one to the first byte, as a counter kept in the value would. *)
Definition incr_first (v : bytes) : mutation :=
  match v with
  | x :: v => mkMutation (u8 (x + 1) :: v) (u8 (x + 1) :: v) false None
  | [] => mkMutation [] [] false None
  end.

Lemma update_in_place_witness :
  ∃ b', bucket_Update tt bucket1 [107] 7 incr_first true = Ok (tt, b', [], None) ∧ bucket_wf b' ∧
    getLocked b' [107] 7 = Ok [2; 2] ∧
    ∀ k' h', h' ≠ 7 → getLocked b' k' h' = getLocked bucket1 k' h'.
Proof.
  apply (update_in_place tt bucket1 [107] 7 [1; 2] incr_first true);
    [apply bucket1_wf|vm_compute; reflexivity|reflexivity|reflexivity].
Defined.

Lemma reset_reports_contents_witness :
  ∃ p' b' out, bucket_Reset tt bucket1 (Some newItems) = Ok (p', b', Some out) ∧
    bucket_wf b' ∧ (∀ k h, getLocked b' k h = Err ErrNoData) ∧
    (∀ k v, (k, v) ∈ item_pairs out ↔ ∃ h, getLocked bucket1 k h = Ok v).
Proof. apply (reset_reports_contents tt bucket1); [apply bucket1_wf|done]. Defined.

(** An index with one live word and one of a long gone generation. *)
Definition bucket_stale : bucket := mkBucket [None] (<[5 := word 8 3]> {[7 := word 8 1]}) 16 1.

Lemma clean_evicts_nothing_witness :
  ∃ b' evs it, cleanLocked bucket_stale true = Ok (b', evs) ∧ it ∈ evs ∧ it = newItems.
Proof.
  exists (mkBucket [None] {[7 := word 8 1]} 16 1), [newItems], newItems.
  assert (cleanLocked bucket_stale true = Ok (mkBucket [None] {[7 := word 8 1]} 16 1, [newItems])) as E
    by (vm_compute; reflexivity).
  split; [exact E|]. split; [by constructor|].
  apply (clean_evicts_nothing bucket_stale _ true _ _ E). by constructor.
Defined.

(** Sums the bytes: any function of the key will do. *)
Definition sumHash (k : bytes) : Z := foldr Z.add 0 k.

Lemma new_cache_empty_witness :
  (1 ≤ 0 → Cache_New tt 1 true = Err errMaxBytesNotPositive) ∧
  (0 < 1 → ∃ p' c, Cache_New tt 1 true = Ok (p', c) ∧ pool_ok p' ∧ cache_wf c ∧
     ∀ k, Cache_Get sumHash c k = Err ErrNoData).
Proof. apply (new_cache_empty sumHash tt 1 true); done. Defined.

Definition cache0 : Cache := mkCache (replicate (Z.to_nat bucketsCount) bucket0) true.

Lemma cache0_wf : cache_wf cache0.
Proof.
  split; [vm_compute; reflexivity|]. apply Forall_replicate, bucket0_wf.
Qed.

Lemma cache_set_get_witness :
  ∃ p' c' evs, Cache_Set sumHash tt cache0 [107] [1; 2] = Ok (p', c', evs) ∧ pool_ok p' ∧ cache_wf c' ∧
    Cache_Get sumHash c' [107] = Ok [1; 2] ∧
    ∀ k', sumHash k' ≠ sumHash [107] →
      Cache_Get sumHash c' k' = Cache_Get sumHash cache0 k' ∨ Cache_Get sumHash c' k' = Err ErrNoData.
Proof.
  apply (cache_set_get sumHash tt cache0 [107] [1; 2]);
    [apply cache0_wf|done|by eexists|apply small_fits].
Defined.

Lemma cache_del_witness :
  ∃ c', Cache_Del sumHash cache0 [107] = Ok c' ∧ cache_wf c' ∧ Cache_Get sumHash c' [107] = Err ErrNoData ∧
    ∀ k', sumHash k' ≠ sumHash [107] → Cache_Get sumHash c' k' = Cache_Get sumHash cache0 k'.
Proof. apply (cache_del sumHash cache0 [107]), cache0_wf. Defined.

(** A mutator that grows the value with [append] writes behind the slice it
    was given, into the header of the record stored next: here updating key [a]
    makes the unrelated key [b] unreadable. *)
Example update_append_corrupts :
  match setLocked tt bucket0 [97] [1] 7 false with
  | Ok (_, b1, _) =>
      match setLocked tt b1 [98] [2] 8 false with
      | Ok (_, b2, _) =>
          getLocked b2 [98] 8 = Ok [2] ∧
          match bucket_Update tt b2 [97] 7 (λ v, mkMutation (v ++ [120]) (v ++ [120]) true None) false with
          | Ok (_, b3, _, None) => getLocked b3 [97] 7 = Ok [1; 120] ∧ getLocked b3 [98] 8 = Err ErrNoData
          | _ => False
          end
      | _ => False
      end
  | _ => False
  end.
Proof. vm_compute. repeat split. Qed.
