(* ===== verification/Ring.v ===== *)
(** * Doubly linked rings, independently of their memory layout

    [nxt] and [prv] are the two pointer fields as partial functions on addresses.
    A ring through the sentinel [p] with elements [xs] is a chain from [p] back to
    [p].  The lemmas say what relinking does to the sequence of elements; they are
    used for [src/list/list.go] (sentinel element) and [src/xttlmap/ttlmap.go]
    (the map's [head] and [tail] fields play the sentinel). *)
From S2P Require Import Prelude.

Section ring.
Context {A : Type} `{!EqDecision A}.
Implicit Types (nxt prv : A → option A) (p q e : A) (xs l r : list A).

Definition link nxt prv p q : Prop := nxt p = Some q ∧ prv q = Some p.

Fixpoint chain nxt prv p xs q : Prop :=
  match xs with
  | [] => link nxt prv p q
  | x :: xs => link nxt prv p x ∧ chain nxt prv x xs q
  end.

(** The neighbours of a position in a chain from [p] to [q]. *)
Definition before p l : A := default p (last l).
Definition after r q : A := default q (head r).

Lemma chain_app nxt prv p l e r q :
  chain nxt prv p (l ++ e :: r) q ↔ chain nxt prv p l e ∧ chain nxt prv e r q.
Proof. revert p. induction l as [|x l IH]; intros p; simpl; [done|]. rewrite IH. tauto. Qed.

Lemma chain_frame nxt prv nxt' prv' p xs q :
  (∀ a, a ∈ p :: xs → nxt' a = nxt a) → (∀ a, a ∈ xs ++ [q] → prv' a = prv a) →
  chain nxt prv p xs q → chain nxt' prv' p xs q.
Proof.
  revert p. induction xs as [|x xs IH]; intros p Hn Hp; simpl.
  - intros [? ?]. split; [rewrite Hn|rewrite Hp]; done || set_solver.
  - intros [[? ?] ?]. split; [split; [rewrite Hn|rewrite Hp]; done || set_solver|].
    apply IH; [set_solver..|done].
Qed.

(** The pointers at a split point. *)
Lemma chain_split nxt prv p l r q :
  chain nxt prv p (l ++ r) q → link nxt prv (before p l) (after r q).
Proof.
  revert p. induction l as [|x l IH]; intros p; simpl.
  - destruct r; simpl; tauto.
  - intros [_ H]. apply IH in H. unfold before in *. rewrite last_cons.
    by destruct (last l).
Qed.

Lemma before_snoc p l x : before p (l ++ [x]) = x.
Proof. unfold before. by rewrite last_snoc. Qed.

Lemma before_elem p l : before p l ∈ p :: l.
Proof.
  destruct l as [|x l] using rev_ind; [by constructor|]. rewrite before_snoc. set_solver.
Qed.

Lemma after_elem r q : after r q ∈ r ++ [q].
Proof. destruct r; simpl; by constructor. Qed.

Lemma before_in p l r : before p l ∈ p :: l ++ r.
Proof.
  pose proof (before_elem p l) as [E|?]%elem_of_cons; [rewrite E; by left|].
  right. apply elem_of_app. by left.
Qed.

Lemma after_in p l r : after r p ∈ p :: l ++ r.
Proof.
  pose proof (after_elem r p) as [?|E%list_elem_of_singleton]%elem_of_app; [|rewrite E; by left].
  right. apply elem_of_app. by right.
Qed.

Lemma elem_mid l e r : e ∈ l ++ e :: r.
Proof. apply elem_of_app. right. by left. Qed.

Lemma elem_skip a l e r : a ∈ l ++ e :: r ↔ a = e ∨ a ∈ l ++ r.
Proof. rewrite !elem_of_app, elem_of_cons. tauto. Qed.

(** Everything to the left of a split point, with its right end relinked. *)
Lemma chain_relink_l nxt prv nxt' prv' p l q q' :
  chain nxt prv p l q → NoDup (p :: l) →
  link nxt' prv' (before p l) q' →
  (∀ a, a ∈ p :: l → a ≠ before p l → nxt' a = nxt a) → (∀ a, a ∈ l → prv' a = prv a) →
  chain nxt' prv' p l q'.
Proof.
  destruct l as [|x l _] using rev_ind; [done|]. rewrite before_snoc.
  rewrite !chain_app. intros [Hc _] Hnd Hlink Hn Hp. split; [|done].
  eapply chain_frame; [| |done].
  - intros a Ha. apply Hn; [set_solver|]. intros ->.
    apply NoDup_cons in Hnd as [Hp1 Hnd]. apply NoDup_app in Hnd as (_ & Hd & _). set_solver.
  - intros a Ha. apply Hp. set_solver.
Qed.

(** Unlinking [e]. *)
Lemma ring_remove nxt prv nxt' prv' p l e r :
  chain nxt prv p (l ++ e :: r) p → NoDup (p :: l ++ e :: r) →
  link nxt' prv' (before p l) (after r p) →
  (∀ a, a ∈ p :: l ++ r → a ≠ before p l → nxt' a = nxt a) →
  (∀ a, a ∈ p :: l ++ r → a ≠ after r p → prv' a = prv a) →
  chain nxt' prv' p (l ++ r) p.
Proof.
  rewrite chain_app. intros [Hl Hr] Hnd Hlink Hn Hp.
  apply NoDup_cons in Hnd as [Hpn Hnd]. apply NoDup_app in Hnd as (Hndl & Hd & Hndr).
  apply NoDup_cons in Hndr as [Her Hndr].
  assert (before p l ∉ r) as Hbr.
  { intros Hin. pose proof (before_elem p l) as [E|E]%elem_of_cons.
    - rewrite E in Hin. apply Hpn, elem_of_app. right. by right.
    - apply (Hd _ E). by right. }
  assert (∀ a, a ∈ l → a ≠ after r p) as Hla.
  { intros a Ha ->. pose proof (after_elem r p) as [E|E]%elem_of_app.
    - apply (Hd _ Ha). by right.
    - apply list_elem_of_singleton in E. rewrite E in Ha. apply Hpn, elem_of_app. by left. }
  assert (NoDup (p :: l)) as Hndp by (constructor; [set_solver|done]).
  destruct r as [|x r].
  - rewrite app_nil_r in *. eapply chain_relink_l; [done..| |].
    + intros a Ha Hne. by apply Hn.
    + intros a Ha. apply Hp; [by right|by apply Hla].
  - rewrite chain_app. simpl in Hr, Hlink. destruct Hr as [_ Hr].
    assert (x ∉ r) by (by apply NoDup_cons in Hndr as [? _]). split.
    + eapply chain_relink_l; [done..| |].
      * intros a Ha Hne. apply Hn; [set_solver|done].
      * intros a Ha. apply Hp; [set_solver|by apply Hla].
    + eapply chain_frame; [| |done].
      * intros a Ha. apply Hn; [set_solver|]. intros ->. by apply Hbr.
      * intros a Ha. apply Hp; [set_solver|]. simpl. intros ->.
        apply elem_of_app in Ha as [?|?]; set_solver.
Qed.

(** Linking a new element [e] between two neighbours. *)
Lemma ring_insert nxt prv nxt' prv' p l e r :
  chain nxt prv p (l ++ r) p → NoDup (p :: l ++ r) → e ∉ p :: l ++ r →
  link nxt' prv' (before p l) e → link nxt' prv' e (after r p) →
  (∀ a, a ∈ p :: l ++ r → a ≠ before p l → nxt' a = nxt a) →
  (∀ a, a ∈ p :: l ++ r → a ≠ after r p → prv' a = prv a) →
  chain nxt' prv' p (l ++ e :: r) p.
Proof.
  intros Hc Hnd He Hl1 Hl2 Hn Hp. rewrite chain_app.
  apply NoDup_cons in Hnd as [Hpn Hnd]. apply NoDup_app in Hnd as (Hndl & Hd & Hndr).
  assert (before p l ∉ r) as Hbr.
  { intros Hin. pose proof (before_elem p l) as [E|E]%elem_of_cons.
    - rewrite E in Hin. apply Hpn, elem_of_app. by right.
    - by apply (Hd _ E). }
  assert (∀ a, a ∈ l → a ≠ after r p) as Hla.
  { intros a Ha ->. pose proof (after_elem r p) as [E|E]%elem_of_app.
    - by apply (Hd _ Ha).
    - apply list_elem_of_singleton in E. rewrite E in Ha. apply Hpn, elem_of_app. by left. }
  assert (chain nxt prv p l (after r p)) as Hcl.
  { destruct r; [by rewrite app_nil_r in Hc|]. by apply chain_app in Hc as [? _]. }
  split.
  - eapply chain_relink_l; [done|constructor; [set_solver|done]|done| |].
    + intros a Ha Hne. apply Hn; [set_solver|done].
    + intros a Ha. apply Hp; [set_solver|by apply Hla].
  - destruct r as [|x r]; [done|]. simpl in Hl2. split; [done|].
    apply chain_app in Hc as [_ Hcr].
    apply NoDup_cons in Hndr as [Hx Hndr].
    eapply chain_frame; [| |done].
    + intros a Ha. apply Hn; [set_solver|]. intros ->. by apply Hbr.
    + intros a Ha. apply Hp; [set_solver|]. simpl. intros ->.
      apply elem_of_app in Ha as [?|?]; set_solver.
Qed.
End ring.
