(* ===== verification/LinkedList.v ===== *)
(** * list: the generic doubly linked list

    Models [src/list/list.go] on an explicit heap: an element lives at an address
    (the sentinel of list [l] at [Root l]), its [next], [prev] and [list] fields are
    pointers that may be nil, and a nil dereference is a panic.  Several lists live
    in one heap, so an element of one list can be passed to the methods of
    another, as callers may do. *)
From S2P Require Import Prelude Ring.

Local Open Scope Z_scope.

Inductive addr : Type :=
  | Root (l : nat)   (* &l.root *)
  | Elem (n : nat).

#[global] Instance addr_eq_dec : EqDecision addr.
Proof. solve_decision. Defined.
#[global] Instance addr_countable : Countable addr.
Proof.
  refine (inj_countable' (λ a, match a with Root l => inl l | Elem n => inr n end)
                         (λ s, match s with inl l => Root l | inr n => Elem n end) _).
  by intros [].
Defined.

Section list.
Context {V : Type}.

Record Element := mkElement {
  e_next : option addr; e_prev : option addr; e_list : option nat; e_value : V }.

(** The heap: elements, the [len] field of each list, and the next free address. *)
Record heap := mkHeap { h_elems : gmap addr Element; h_lens : gmap nat Z; h_new : nat }.

(** Stateful code that may panic. *)
Definition M (A : Type) : Type := heap → option (A * heap).
#[global] Instance M_ret : MRet M := λ A a h, Some (a, h).
#[global] Instance M_bind : MBind M := λ A B f m h,
  match m h with Some (a, h') => f a h' | None => None end.

Definition panic {A} : M A := λ _, None.
(** A pointer that is about to be dereferenced. *)
Definition deref (o : option addr) : M addr :=
  match o with Some a => mret a | None => panic end.
Definition load (a : addr) : M Element := λ h,
  match h_elems h !! a with Some e => Some (e, h) | None => None end.
Definition update (a : addr) (f : Element → Element) : M unit := λ h,
  match h_elems h !! a with
  | Some e => Some (tt, mkHeap (<[a := f e]> (h_elems h)) (h_lens h) (h_new h))
  | None => None
  end.
Definition set_next (a : addr) (n : option addr) : M unit :=
  update a (λ e, mkElement n (e_prev e) (e_list e) (e_value e)).
Definition set_prev (a : addr) (p : option addr) : M unit :=
  update a (λ e, mkElement (e_next e) p (e_list e) (e_value e)).
Definition set_list (a : addr) (l : option nat) : M unit :=
  update a (λ e, mkElement (e_next e) (e_prev e) l (e_value e)).
Definition get_len (l : nat) : M Z := λ h,
  match h_lens h !! l with Some n => Some (n, h) | None => None end.
Definition set_len (l : nat) (n : Z) : M unit := λ h,
  Some (tt, mkHeap (h_elems h) (<[l := n]> (h_lens h)) (h_new h)).
(** [&Element[V]{Value: v}] *)
Definition alloc (v : V) : M addr := λ h,
  let a := Elem (h_new h) in
  Some (a, mkHeap (<[a := mkElement None None None v]> (h_elems h)) (h_lens h) (S (h_new h))).

(** [e.Next()] *)
Definition Next (e : addr) : M (option addr) :=
  x ← load e;
  match e_list x with
  | Some l => if bool_decide (e_next x = Some (Root l)) then mret None else mret (e_next x)
  | None => mret None
  end.

(** [e.Prev()] *)
Definition Prev (e : addr) : M (option addr) :=
  x ← load e;
  match e_list x with
  | Some l => if bool_decide (e_prev x = Some (Root l)) then mret None else mret (e_prev x)
  | None => mret None
  end.

Definition Init (l : nat) : M unit :=
  _ ← set_next (Root l) (Some (Root l));
  _ ← set_prev (Root l) (Some (Root l));
  set_len l 0.

(** [New()]: [new(List[V])] is a zero sentinel; then [Init]. *)
Definition New (zero : V) (l : nat) : M nat :=
  _ ← (λ h, Some (tt, mkHeap (<[Root l := mkElement None None None zero]> (h_elems h))
                             (<[l := 0]> (h_lens h)) (h_new h))) : M unit;
  _ ← Init l;
  mret l.

Definition Len (l : nat) : M Z := get_len l.

Definition Front (l : nat) : M (option addr) :=
  n ← get_len l;
  if n =? 0 then mret None else (r ← load (Root l); mret (e_next r)).

Definition Back (l : nat) : M (option addr) :=
  n ← get_len l;
  if n =? 0 then mret None else (r ← load (Root l); mret (e_prev r)).

Definition lazyInit (l : nat) : M unit :=
  r ← load (Root l);
  match e_next r with None => Init l | Some _ => mret tt end.

Definition insert (l : nat) (e at' : addr) : M addr :=
  _ ← set_prev e (Some at');
  a ← load at';
  _ ← set_next e (e_next a);
  x ← load e; p ← deref (e_prev x);
  _ ← set_next p (Some e);
  x ← load e; n ← deref (e_next x);
  _ ← set_prev n (Some e);
  _ ← set_list e (Some l);
  len ← get_len l;
  _ ← set_len l (i64 (len + 1));
  mret e.

Definition insertValue (l : nat) (v : V) (at' : addr) : M addr :=
  e ← alloc v; insert l e at'.

Definition remove (l : nat) (e : addr) : M unit :=
  x ← load e; p ← deref (e_prev x);
  _ ← set_next p (e_next x);
  x ← load e; n ← deref (e_next x);
  _ ← set_prev n (e_prev x);
  _ ← set_next e None;
  _ ← set_prev e None;
  _ ← set_list e None;
  len ← get_len l;
  set_len l (i64 (len - 1)).

Definition move (e at' : addr) : M unit :=
  if bool_decide (e = at') then mret tt else
  x ← load e; p ← deref (e_prev x);
  _ ← set_next p (e_next x);
  x ← load e; n ← deref (e_next x);
  _ ← set_prev n (e_prev x);
  _ ← set_prev e (Some at');
  a ← load at';
  _ ← set_next e (e_next a);
  x ← load e; p ← deref (e_prev x);
  _ ← set_next p (Some e);
  x ← load e; n ← deref (e_next x);
  set_prev n (Some e).

Definition Remove (l : nat) (e : addr) : M V :=
  x ← load e;
  _ ← (if bool_decide (e_list x = Some l) then remove l e else mret tt);
  x ← load e;
  mret (e_value x).

Definition PushFront (l : nat) (v : V) : M addr :=
  _ ← lazyInit l; insertValue l v (Root l).

Definition PushBack (l : nat) (v : V) : M addr :=
  _ ← lazyInit l;
  r ← load (Root l); p ← deref (e_prev r);
  insertValue l v p.

Definition InsertBefore (l : nat) (v : V) (mark : addr) : M (option addr) :=
  m ← load mark;
  if bool_decide (e_list m = Some l) then
    p ← deref (e_prev m); e ← insertValue l v p; mret (Some e)
  else mret None.

Definition InsertAfter (l : nat) (v : V) (mark : addr) : M (option addr) :=
  m ← load mark;
  if bool_decide (e_list m = Some l) then (e ← insertValue l v mark; mret (Some e))
  else mret None.

Definition MoveToFront (l : nat) (e : addr) : M unit :=
  x ← load e; r ← load (Root l);
  if bool_decide (e_list x ≠ Some l) || bool_decide (e_next r = Some e) then mret tt
  else move e (Root l).

Definition MoveToBack (l : nat) (e : addr) : M unit :=
  x ← load e; r ← load (Root l);
  if bool_decide (e_list x ≠ Some l) || bool_decide (e_prev r = Some e) then mret tt
  else (p ← deref (e_prev r); move e p).

Definition MoveBefore (l : nat) (e mark : addr) : M unit :=
  x ← load e; m ← load mark;
  if bool_decide (e_list x ≠ Some l) || bool_decide (e = mark) || bool_decide (e_list m ≠ Some l)
  then mret tt
  else (p ← deref (e_prev m); move e p).

Definition MoveAfter (l : nat) (e mark : addr) : M unit :=
  x ← load e; m ← load mark;
  if bool_decide (e_list x ≠ Some l) || bool_decide (e = mark) || bool_decide (e_list m ≠ Some l)
  then mret tt
  else move e mark.

(** The loop of [PushBackList]: [i] runs from [other.Len()] to 0. *)
Fixpoint pushBackLoop (l : nat) (i : nat) (e : option addr) : M unit :=
  match i with
  | O => mret tt
  | S i =>
      a ← deref e; x ← load a;
      r ← load (Root l); p ← deref (e_prev r);
      _ ← insertValue l (e_value x) p;
      e' ← Next a;
      pushBackLoop l i e'
  end.

Definition PushBackList (l other : nat) : M unit :=
  _ ← lazyInit l;
  n ← Len other; e ← Front other;
  pushBackLoop l (Z.to_nat n) e.

Fixpoint pushFrontLoop (l : nat) (i : nat) (e : option addr) : M unit :=
  match i with
  | O => mret tt
  | S i =>
      a ← deref e; x ← load a;
      _ ← insertValue l (e_value x) (Root l);
      e' ← Prev a;
      pushFrontLoop l i e'
  end.

Definition PushFrontList (l other : nat) : M unit :=
  _ ← lazyInit l;
  n ← Len other; e ← Back other;
  pushFrontLoop l (Z.to_nat n) e.
End list.

Arguments Element : clear implicits.
Arguments heap : clear implicits.
