(* ===== verification/LinkedListSpec.v ===== *)
(** * list: refinement to sequences

    The abstract state of a heap maps every list to the sequence of its elements;
    each operation is proved to change the sequence of its own list as a list
    operation would, and to leave all the other lists alone. *)
From S2P Require Import Prelude Ring LinkedList.

Local Open Scope Z_scope.

Section spec.
Context {V : Type}.
Implicit Types (h : heap V) (a e : addr) (l : nat).

Definition nxt h a : option addr := x ← h_elems h !! a; e_next x.
Definition prv h a : option addr := x ← h_elems h !! a; e_prev x.
Definition own h a : option nat := x ← h_elems h !! a; e_list x.
Definition val h a : option V := e_value <$> h_elems h !! a.

(** The fields of [h'] are those of [h], but for the pointers given. *)
Definition relinked h h' (n : addr → option addr) (p : addr → option addr) (o : addr → option nat) : Prop :=
  (∀ a, nxt h' a = n a) ∧ (∀ a, prv h' a = p a) ∧ (∀ a, own h' a = o a) ∧ (∀ a, val h' a = val h a) ∧
  h_new h' = h_new h.

(** Runs straight-line code on a heap whose relevant cells are known. *)
Ltac run := unfold mbind, M_bind, mret, M_ret, deref, load, set_next, set_prev, set_list, update,
  get_len, set_len; repeat (cbn [h_elems h_lens h_new e_next e_prev e_list e_value]; simplify_map_eq).
Ltac fields := unfold nxt, prv, own, val; intros ?; cbn [h_elems];
  rewrite ?lookup_insert; repeat case_decide; simplify_map_eq; try done.

Lemma insert_run h l e at' nx n :
  nxt h at' = Some nx → is_Some (h_elems h !! e) → is_Some (h_elems h !! nx) →
  e ≠ at' → e ≠ nx → h_lens h !! l = Some n →
  ∃ h', insert l e at' h = Some (e, h') ∧
    relinked h h'
      (λ a, if decide (a = at') then Some e else if decide (a = e) then Some nx else nxt h a)
      (λ a, if decide (a = nx) then Some e else if decide (a = e) then Some at' else prv h a)
      (λ a, if decide (a = e) then Some l else own h a) ∧
    h_lens h' = <[l := i64 (n + 1)]> (h_lens h).
Proof.
  intros Hn [xe Hxe] [xn Hxn] Hea Hen Hl. unfold nxt in Hn.
  destruct (h_elems h !! at') as [xa|] eqn:Hxa; [|done]. simpl in Hn.
  destruct (decide (at' = nx)) as [->|Hne].
  - unfold insert. run. eexists. split; [reflexivity|].
    split; [|done]. unfold relinked. split_and!; try done; fields.
  - unfold insert. run. eexists. split; [reflexivity|].
    split; [|done]. unfold relinked. split_and!; try done; fields.
Qed.

Lemma remove_run h l e p nx n :
  nxt h e = Some nx → prv h e = Some p → is_Some (h_elems h !! p) → is_Some (h_elems h !! nx) →
  e ≠ p → e ≠ nx → h_lens h !! l = Some n →
  ∃ h', remove l e h = Some (tt, h') ∧
    relinked h h'
      (λ a, if decide (a = e) then None else if decide (a = p) then Some nx else nxt h a)
      (λ a, if decide (a = e) then None else if decide (a = nx) then Some p else prv h a)
      (λ a, if decide (a = e) then None else own h a) ∧
    h_lens h' = <[l := i64 (n - 1)]> (h_lens h).
Proof.
  intros Hn Hp [xp Hxp] [xn Hxn] Hep Hen Hl. unfold nxt, prv in Hn, Hp.
  destruct (h_elems h !! e) as [xe|] eqn:Hxe; [|done]. simpl in Hn, Hp.
  destruct (decide (p = nx)) as [->|Hne].
  - unfold remove. run. eexists. split; [reflexivity|].
    split; [|done]. unfold relinked. split_and!; try done; fields.
  - unfold remove. run. eexists. split; [reflexivity|].
    split; [|done]. unfold relinked. split_and!; try done; fields.
Qed.

(** [move] in two halves: unlinking [e], then linking it behind [at']. *)
Definition unlink e : M (V:=V) unit :=
  x ← load e; p ← deref (e_prev x);
  _ ← set_next p (e_next x);
  x ← load e; n ← deref (e_next x);
  set_prev n (e_prev x).

Definition relink e at' : M (V:=V) unit :=
  _ ← set_prev e (Some at');
  a ← load at';
  _ ← set_next e (e_next a);
  x ← load e; p ← deref (e_prev x);
  _ ← set_next p (Some e);
  x ← load e; n ← deref (e_next x);
  set_prev n (Some e).

Lemma move_split h e at' : e ≠ at' → move e at' h = (unlink e ≫= λ _, relink e at') h.
Proof.
  intros Hne. unfold move. rewrite bool_decide_eq_false_2 by done.
  unfold unlink, mbind, M_bind. destruct (load e h) as [[x1 h1]|]; [|done].
  destruct (deref (e_prev x1) h1) as [[p h2]|]; [|done].
  destruct (set_next p (e_next x1) h2) as [[[] h3]|]; [|done].
  destruct (load e h3) as [[x2 h4]|]; [|done].
  destruct (deref (e_next x2) h4) as [[n h5]|]; [|done].
  by destruct (set_prev n (e_prev x2) h5) as [[[] h6]|].
Qed.

Lemma unlink_run h e p nx :
  nxt h e = Some nx → prv h e = Some p → is_Some (h_elems h !! p) → is_Some (h_elems h !! nx) →
  e ≠ p → e ≠ nx →
  ∃ h', unlink e h = Some (tt, h') ∧
    relinked h h'
      (λ a, if decide (a = p) then Some nx else nxt h a)
      (λ a, if decide (a = nx) then Some p else prv h a) (own h) ∧
    h_lens h' = h_lens h.
Proof.
  intros Hn Hp [xp Hxp] [xn Hxn] Hep Hen. unfold nxt, prv in Hn, Hp.
  destruct (h_elems h !! e) as [xe|] eqn:Hxe; [|done]. simpl in Hn, Hp.
  unfold unlink. destruct (decide (p = nx)) as [->|Hne].
  all: run; eexists; split; [reflexivity|]; unfold relinked; split_and!; try done; fields.
Qed.

Lemma relink_run h e at' nx :
  nxt h at' = Some nx → is_Some (h_elems h !! e) → is_Some (h_elems h !! nx) →
  e ≠ at' → e ≠ nx →
  ∃ h', relink e at' h = Some (tt, h') ∧
    relinked h h'
      (λ a, if decide (a = at') then Some e else if decide (a = e) then Some nx else nxt h a)
      (λ a, if decide (a = nx) then Some e else if decide (a = e) then Some at' else prv h a) (own h) ∧
    h_lens h' = h_lens h.
Proof.
  intros Hn [xe Hxe] [xn Hxn] Hea Hen. unfold nxt in Hn.
  destruct (h_elems h !! at') as [xa|] eqn:Hxa; [|done]. simpl in Hn.
  unfold relink. destruct (decide (at' = nx)) as [->|Hne].
  all: run; eexists; split; [reflexivity|]; unfold relinked; split_and!; try done; fields.
Qed.

(** ** Abstraction *)

(** Every list is a ring through its sentinel, knows its length, and owns
    exactly its elements. *)
Definition lists_ok h (σ : gmap nat (list nat)) : Prop :=
  (∀ l xs, σ !! l = Some xs →
     chain (nxt h) (prv h) (Root l) (Elem <$> xs) (Root l) ∧ NoDup xs ∧ h_lens h !! l = Some (zlen xs)) ∧
  (∀ x l, own h (Elem x) = Some l ↔ ∃ xs, σ !! l = Some xs ∧ x ∈ xs) ∧
  (∀ l, own h (Root l) = None) ∧
  (∀ x, is_Some (h_elems h !! Elem x) → (x < h_new h)%nat).

Lemma nxt_present h a b : nxt h a = Some b → is_Some (h_elems h !! a).
Proof. unfold nxt. destruct (h_elems h !! a); [by eexists|done]. Qed.
Lemma prv_present h a b : prv h a = Some b → is_Some (h_elems h !! a).
Proof. unfold prv. destruct (h_elems h !! a); [by eexists|done]. Qed.
Lemma own_present h a l : own h a = Some l → is_Some (h_elems h !! a).
Proof. unfold own. destruct (h_elems h !! a); [by eexists|done]. Qed.

Lemma chain_present h p xs q : chain (nxt h) (prv h) p xs q → ∀ a, a ∈ p :: xs ++ [q] → is_Some (h_elems h !! a).
Proof.
  revert p. induction xs as [|x xs IH]; intros p; simpl; intros Hc a.
  - destruct Hc as [H1 H2]. intros [->|Hin]%elem_of_cons; [by eapply nxt_present|].
    apply list_elem_of_singleton in Hin as ->. by eapply prv_present.
  - destruct Hc as [[H1 _] Hc]. intros [->|Ha]%elem_of_cons; [by eapply nxt_present|by apply (IH x)].
Qed.

Lemma ring_nodup l xs : NoDup xs → NoDup (Root l :: (Elem <$> xs)).
Proof.
  intros Hnd. constructor.
  - rewrite list_elem_of_fmap. by intros (? & ? & _).
  - apply NoDup_fmap_2; [|done]. by intros ? ? [= ->].
Qed.

(** The lists other than [l] do not reach an address [l] owns, nor a new one. *)
Lemma lists_step h h' σ l xs xs' :
  lists_ok h σ → σ !! l = Some xs →
  (∀ a, a ≠ Root l → own h a ≠ Some l → is_Some (h_elems h !! a) →
     nxt h' a = nxt h a ∧ prv h' a = prv h a) →
  chain (nxt h') (prv h') (Root l) (Elem <$> xs') (Root l) → NoDup xs' →
  h_lens h' = <[l := zlen xs']> (h_lens h) →
  (∀ x l', own h' (Elem x) = Some l' ↔ if decide (l' = l) then x ∈ xs' else own h (Elem x) = Some l') →
  (∀ l', own h' (Root l') = None) →
  (∀ x, is_Some (h_elems h' !! Elem x) → (x < h_new h')%nat) →
  lists_ok h' (<[l := xs']> σ).
Proof.
  intros (Hlist & Hown & Hroot & Hnew) Hl Hframe Hc Hnd Hlen Hown' Hroot' Hnew'. split_and!; [| |done..].
  - intros l' ys. rewrite lookup_insert, Hlen, lookup_insert.
    case_decide as E; [intros [= <-]; by subst|]. intros Hys.
    destruct (Hlist _ _ Hys) as (Hc' & Hnd' & Hlen'). split_and!; [|done..].
    assert (∀ a, a ∈ Root l' :: (Elem <$> ys) ++ [Root l'] → nxt h' a = nxt h a ∧ prv h' a = prv h a) as Hf.
    { intros a Ha. pose proof (chain_present _ _ _ _ Hc' _ Ha) as Hp.
      apply Hframe; [| |done].
      - intros ->. rewrite elem_of_cons, elem_of_app, list_elem_of_singleton, list_elem_of_fmap in Ha.
        destruct Ha as [?|[(? & ? & _)|?]]; congruence.
      - intros Ho. rewrite elem_of_cons, elem_of_app, list_elem_of_singleton, list_elem_of_fmap in Ha.
        destruct Ha as [->|[(x & -> & Hx)| ->]].
        2:{ assert (own h (Elem x) = Some l') as Hx' by (apply Hown; eauto). congruence. }
        all: by rewrite Hroot in Ho. }
    eapply chain_frame; [| |done]; intros a Ha; apply Hf.
    + apply elem_of_cons in Ha as [->|Ha]; [by left|]. right. apply elem_of_app. by left.
    + by right.
  - intros x l'. rewrite Hown'. case_decide as E.
    + subst. rewrite lookup_insert_eq. naive_solver.
    + rewrite Hown, lookup_insert_ne by done. done.
Qed.
(** ** The three primitive changes *)

Definition small h : Prop := Z.of_nat (h_new h) < 2 ^ 63 - 1.

Lemma nodup_bounded (xs : list nat) n : NoDup xs → (∀ x, x ∈ xs → (x < n)%nat) → (length xs ≤ n)%nat.
Proof.
  intros Hnd Hlt. rewrite <- (length_seq n 0). apply submseteq_length, NoDup_submseteq; [done|].
  intros x Hx. apply elem_of_seq. split; [lia|]. simpl. by apply Hlt.
Qed.

Lemma lists_bounded h σ l xs : lists_ok h σ → σ !! l = Some xs → zlen xs ≤ Z.of_nat (h_new h).
Proof.
  intros (Hlist & Hown & _ & Hnew) Hl. destruct (Hlist _ _ Hl) as (_ & Hnd & _).
  assert (length xs ≤ h_new h)%nat; [|unfold zlen; lia]. apply nodup_bounded; [done|].
  intros x Hx. apply Hnew. eapply own_present, Hown; eauto.
Qed.

Lemma owned_not_elem h σ l xs a :
  lists_ok h σ → σ !! l = Some xs → a ≠ Root l → own h a ≠ Some l → a ∉ Root l :: (Elem <$> xs).
Proof.
  intros (_ & Hown & _ & _) Hl Hr Ho [->|Ha]%elem_of_cons; [done|].
  apply list_elem_of_fmap in Ha as (x & -> & Hx). apply Ho, Hown. eauto.
Qed.

Lemma val_some h a : is_Some (val h a) ↔ is_Some (h_elems h !! a).
Proof. unfold val. by rewrite fmap_is_Some. Qed.

(** The effect of linking and unlinking on the ring and on everything else. *)
Lemma link_effect h h' p (l1 l2 : list addr) e :
  chain (nxt h) (prv h) p (l1 ++ l2) p → NoDup (p :: l1 ++ l2) → e ∉ p :: l1 ++ l2 →
  let at' := before p l1 in
  let nx := after l2 p in
  (∀ a, nxt h' a = if decide (a = at') then Some e else if decide (a = e) then Some nx else nxt h a) →
  (∀ a, prv h' a = if decide (a = nx) then Some e else if decide (a = e) then Some at' else prv h a) →
  chain (nxt h') (prv h') p (l1 ++ e :: l2) p ∧
  ∀ a, a ∉ p :: l1 ++ l2 → a ≠ e → nxt h' a = nxt h a ∧ prv h' a = prv h a.
Proof.
  intros Hc Hnd He at' nx Rn Rp.
  assert (at' ∈ p :: l1 ++ l2) as Hat by apply before_in.
  assert (nx ∈ p :: l1 ++ l2) as Hnx by apply after_in.
  assert (∀ a, a ∈ p :: l1 ++ l2 → a ≠ e) as Hne by (intros a Ha ->; done).
  split.
  - eapply (ring_insert (nxt h) (prv h)); try done.
    + split; [by rewrite Rn, decide_True|].
      rewrite Rp, decide_False, decide_True; [done..|]. by apply not_eq_sym, Hne.
    + split; [|by rewrite Rp, decide_True].
      rewrite Rn, decide_False, decide_True; [done..|]. by apply not_eq_sym, Hne.
    + intros a Ha Hna. rewrite Rn, !decide_False; [done|by apply Hne|done].
    + intros a Ha Hna. rewrite Rp, !decide_False; [done|by apply Hne|done].
  - intros a Ha Hae. rewrite Rn, Rp, !decide_False; [done|..]; try done; intros ->; done.
Qed.

Lemma neighbours h p (l1 l2 : list addr) e :
  chain (nxt h) (prv h) p (l1 ++ e :: l2) p → NoDup (p :: l1 ++ e :: l2) →
  let at' := before p l1 in
  let nx := after l2 p in
  nxt h e = Some nx ∧ prv h e = Some at' ∧ e ≠ at' ∧ e ≠ nx ∧
  at' ∈ p :: l1 ++ e :: l2 ∧ nx ∈ p :: l1 ++ e :: l2.
Proof.
  intros Hc Hnd at' nx. pose proof (chain_split _ _ _ _ _ _ Hc) as [_ Hp].
  apply chain_app in Hc as [_ Hc]. pose proof (chain_split _ _ _ [] _ _ Hc) as [Hn _].
  apply NoDup_cons in Hnd as [Hpn Hnd].
  apply NoDup_app in Hnd as (_ & Hd & [He2 _]%NoDup_cons).
  assert (at' = p ∨ at' ∈ l1) as Hat by apply elem_of_cons, before_elem.
  assert (nx ∈ l2 ∨ nx = p) as Hnx by (rewrite <- (list_elem_of_singleton nx p); apply elem_of_app, after_elem).
  assert (e ∈ l1 ++ e :: l2) as He by (apply elem_of_app; right; by left).
  assert (e ≠ p) as Hep by (intros ->; done).
  split_and!; [done..| | |set_solver|set_solver].
  - intros E. rewrite <- E in Hat. destruct Hat as [?|Hat]; [done|]. apply (Hd _ Hat). by left.
  - intros E. rewrite <- E in Hnx. by destruct Hnx.
Qed.

Lemma unlink_effect h h' p (l1 l2 : list addr) e :
  chain (nxt h) (prv h) p (l1 ++ e :: l2) p → NoDup (p :: l1 ++ e :: l2) →
  let at' := before p l1 in
  let nx := after l2 p in
  (∀ a, a ≠ e → nxt h' a = if decide (a = at') then Some nx else nxt h a) →
  (∀ a, a ≠ e → prv h' a = if decide (a = nx) then Some at' else prv h a) →
  chain (nxt h') (prv h') p (l1 ++ l2) p ∧
  ∀ a, a ∉ p :: l1 ++ e :: l2 → nxt h' a = nxt h a ∧ prv h' a = prv h a.
Proof.
  intros Hc Hnd at' nx Rn Rp.
  destruct (neighbours _ _ _ _ _ Hc Hnd) as (_ & _ & Hea & Hen & Hat & Hnx). fold at' nx in Hea, Hen, Hat, Hnx.
  assert (e ∉ p :: l1 ++ l2) as He.
  { apply NoDup_cons in Hnd as [Hpn Hnd]. apply NoDup_app in Hnd as (_ & Hd & [He2 _]%NoDup_cons).
    intros [->|[Hl|Hl]%elem_of_app]%elem_of_cons; [apply Hpn; set_solver| |done].
    apply (Hd _ Hl). by left. }
  split.
  - eapply (ring_remove (nxt h) (prv h)); [done..| | |].
    + split; [by rewrite Rn, decide_True by done|by rewrite Rp, decide_True by done].
    + intros a Ha Hna. rewrite Rn, decide_False; [done..|]. intros ->. done.
    + intros a Ha Hna. rewrite Rp, decide_False; [done..|]. intros ->. done.
  - intros a Ha. assert (a ≠ e) by (intros ->; apply Ha; right; apply elem_of_app; right; by left).
    rewrite Rn, Rp by done. rewrite !decide_False; [done| |]; intros ->; done.
Qed.

Lemma ring_of h σ l xs :
  lists_ok h σ → σ !! l = Some xs →
  chain (nxt h) (prv h) (Root l) (Elem <$> xs) (Root l) ∧ NoDup (Root l :: (Elem <$> xs)) ∧
  (∀ a, a ∈ Root l :: (Elem <$> xs) → is_Some (h_elems h !! a)).
Proof.
  intros (Hlist & _) Hl. destruct (Hlist _ _ Hl) as (Hc & Hnd & _).
  split_and!; [done|by apply ring_nodup|]. intros a Ha. eapply chain_present; [done|].
  apply elem_of_cons in Ha as [->|Ha]; [by left|]. right. apply elem_of_app. by left.
Qed.

Lemma owners_insert h σ l (l1 l2 : list nat) x :
  lists_ok h σ → σ !! l = Some (l1 ++ l2) → own h (Elem x) = None → ∀ y l',
  (if decide (Elem y = Elem x) then Some l else own h (Elem y)) = Some l' ↔
  if decide (l' = l) then y ∈ l1 ++ x :: l2 else own h (Elem y) = Some l'.
Proof.
  intros (_ & Hown & _) Hl Hx y l'. case_decide as E.
  - injection E as ->. rewrite Hx. case_decide; [subst|].
    + split; [intros _; apply elem_mid|done].
    + split; congruence.
  - assert (y ≠ x) by congruence. case_decide; [subst|done]. rewrite Hown, Hl, elem_skip. split.
    + intros (xs & [= <-] & ?). by right.
    + intros [?|?]; [done|eauto].
Qed.

Lemma insertValue_spec h σ l (l1 l2 : list nat) (v : V) :
  lists_ok h σ → σ !! l = Some (l1 ++ l2) → small h →
  ∃ h', insertValue l v (before (Root l) (Elem <$> l1)) h = Some (Elem (h_new h), h') ∧
    lists_ok h' (<[l := l1 ++ h_new h :: l2]> σ) ∧ h_new h' = S (h_new h) ∧
    val h' (Elem (h_new h)) = Some v ∧ (∀ a, a ≠ Elem (h_new h) → val h' a = val h a).
Proof.
  intros Hok Hl Hsm. pose proof Hok as (Hlist & Hown & Hroot & Hnew).
  destruct (ring_of _ _ _ _ Hok Hl) as (Hc & Hndr & Hpres).
  destruct (Hlist _ _ Hl) as (_ & Hnd & Hlen).
  rewrite fmap_app in Hc, Hndr, Hpres. pose proof (chain_split _ _ _ _ _ _ Hc) as [Hn _].
  set (e := Elem (h_new h)).
  set (h0 := mkHeap (<[e := mkElement None None None v]> (h_elems h)) (h_lens h) (S (h_new h))).
  assert (h_elems h !! e = None) as Hfresh.
  { destruct (h_elems h !! e) eqn:E; [|done]. specialize (Hnew (h_new h) ltac:(by eexists)). lia. }
  assert (∀ a, is_Some (h_elems h !! a) → e ≠ a) as Hne by (intros a [x Hx] <-; congruence).
  assert ((∀ a, nxt h0 a = nxt h a) ∧ (∀ a, prv h0 a = prv h a) ∧ (∀ a, own h0 a = own h a)) as (En & Ep & Eo).
  { split_and!; intros a; unfold nxt, prv, own; cbn [h_elems h0]; rewrite lookup_insert;
      case_decide; subst; by rewrite ?Hfresh. }
  assert (is_Some (h_elems h !! after (Elem <$> l2) (Root l))) as Hnx by apply Hpres, after_in.
  destruct (insert_run h0 l e (before (Root l) (Elem <$> l1)) (after (Elem <$> l2) (Root l)) (zlen (l1 ++ l2)))
    as (h' & Hrun & (Rn & Rp & Ro & Rv & Rnew) & Hlens); [by rewrite En|..|done|].
  { cbn [h_elems h0]. rewrite lookup_insert_eq. by eexists. }
  { cbn [h_elems h0]. by rewrite lookup_insert_ne by (by apply Hne). }
  { apply Hne. by eapply nxt_present. } { by apply Hne. }
  destruct (link_effect h h' (Root l) (Elem <$> l1) (Elem <$> l2) e Hc Hndr) as [Hc' Hfr];
    [|intros a; by rewrite Rn, En|intros a; by rewrite Rp, Ep|].
  { intros Hin. by apply (Hne e); [apply Hpres|]. }
  assert (h_new h ∉ l1 ++ l2) as Hnin.
  { intros Hin. apply (Hne e); [|done]. apply own_present with l. apply Hown. eauto. }
  exists h'. split; [exact Hrun|]. split_and!; [|by rewrite Rnew|..].
  - pose proof (lists_bounded _ _ _ _ Hok Hl) as Hbd. apply (lists_step h h' σ l (l1 ++ l2)); try done.
    + intros a Ha1 Ha2 Ha3. apply Hfr; [rewrite <- fmap_app; by eapply owned_not_elem|by apply not_eq_sym, Hne].
    + by rewrite fmap_app, fmap_cons.
    + apply NoDup_Permutation_proper with (h_new h :: l1 ++ l2); [by rewrite <- Permutation_middle|].
      by constructor.
    + rewrite Hlens. f_equal. rewrite zlen_app in Hbd. rewrite !zlen_app, zlen_cons. pose proof (zlen_nonneg l1).
      pose proof (zlen_nonneg l2). unfold small in Hsm. rewrite i64_small; [lia|unfold in_i64; lia].
    + intros x l'. rewrite Ro, Eo. apply (owners_insert h σ); [done..|]. unfold own. fold e. by rewrite Hfresh.
    + intros l'. by rewrite Ro, Eo, decide_False.
    + intros x Hx. rewrite Rnew. cbn [h_new h0]. apply val_some in Hx. rewrite Rv, val_some in Hx.
      cbn [h_elems h0] in Hx. rewrite lookup_insert in Hx. case_decide as E; [by injection E as ->; lia|].
      specialize (Hnew x Hx). lia.
  - rewrite Rv. unfold val. cbn [h_elems h0]. by rewrite lookup_insert_eq.
  - intros a Ha. rewrite Rv. unfold val. cbn [h_elems h0]. by rewrite lookup_insert_ne.
Qed.

(** The elements left when [x] is taken out. *)
Lemma owners_remove h σ l (l1 l2 : list nat) x :
  lists_ok h σ → σ !! l = Some (l1 ++ x :: l2) →
  NoDup (l1 ++ l2) ∧ (x ∉ l1 ++ l2) ∧
  ∀ y l', (y ≠ x ∧ own h (Elem y) = Some l') ↔
          if decide (l' = l) then y ∈ l1 ++ l2 else own h (Elem y) = Some l'.
Proof.
  intros (Hlist & Hown & _) Hl. destruct (Hlist _ _ Hl) as (_ & Hnd & _).
  assert (NoDup (x :: l1 ++ l2)) as [Hx Hnd']%NoDup_cons by (by rewrite Permutation_middle).
  split_and!; [done..|]. intros y l'.
  assert (own h (Elem x) = Some l) as Hox by (apply Hown; eexists; split; [done|]; apply elem_mid).
  case_decide as E.
  - subst. rewrite Hown, Hl. split.
    + intros (Hne & xs & [= <-] & [?|?]%elem_skip); done.
    + intros Hy. split; [by intros ->|]. eexists. split; [done|]. apply elem_skip. by right.
  - split; [tauto|]. intros Hy. split; [|done]. intros ->. congruence.
Qed.

Lemma remove_spec h σ l (l1 l2 : list nat) x :
  lists_ok h σ → σ !! l = Some (l1 ++ x :: l2) → small h →
  ∃ h', remove l (Elem x) h = Some (tt, h') ∧
    lists_ok h' (<[l := l1 ++ l2]> σ) ∧ h_new h' = h_new h ∧ (∀ a, val h' a = val h a).
Proof.
  intros Hok Hl Hsm. pose proof Hok as (Hlist & Hown & Hroot & Hnew).
  destruct (owners_remove _ _ _ _ _ _ Hok Hl) as (Hnd' & Hx & Howns).
  destruct (Hlist _ _ Hl) as (_ & _ & Hlen). pose proof (lists_bounded _ _ _ _ Hok Hl) as Hbd.
  destruct (ring_of _ _ _ _ Hok Hl) as (Hc & Hndr & Hpres).
  rewrite fmap_app, fmap_cons in Hc, Hndr, Hpres.
  destruct (neighbours _ _ _ _ _ Hc Hndr) as (Hn & Hp & Hea & Hen & Hat & Hnx).
  destruct (remove_run h l (Elem x) _ _ _ Hn Hp (Hpres _ Hat) (Hpres _ Hnx) Hea Hen Hlen)
    as (h' & Hrun & (Rn & Rp & Ro & Rv & Rnew) & Hlens).
  destruct (unlink_effect h h' _ _ _ _ Hc Hndr) as [Hc' Hfr];
    [intros a Ha; by rewrite Rn, decide_False|intros a Ha; by rewrite Rp, decide_False|].
  exists h'. split_and!; [done| |done..].
  apply (lists_step h h' σ l (l1 ++ x :: l2)); try done.
  - intros a Ha1 Ha2 Ha3. apply Hfr. rewrite <- fmap_cons, <- fmap_app. by eapply owned_not_elem.
  - by rewrite fmap_app.
  - rewrite Hlens. f_equal. rewrite zlen_app, zlen_cons in Hbd. rewrite !zlen_app, zlen_cons.
    pose proof (zlen_nonneg l1). pose proof (zlen_nonneg l2). unfold small in Hsm.
    rewrite i64_small; [lia|unfold in_i64; lia].
  - intros y l'. rewrite <- Howns, Ro. case_decide as E; [injection E as ->; split; [done|tauto]|].
    split; [|tauto]. split; [|done]. intros ->. done.
  - intros l'. rewrite Ro. by case_decide.
  - intros y Hy. rewrite Rnew. apply Hnew. apply val_some. apply val_some in Hy. by rewrite Rv in Hy.
Qed.

(** The ring after the first half of [move]. *)
Lemma unlink_spec h σ l (l1 l2 : list nat) x :
  lists_ok h σ → σ !! l = Some (l1 ++ x :: l2) →
  ∃ h1, unlink (Elem x) h = Some (tt, h1) ∧
    chain (nxt h1) (prv h1) (Root l) (Elem <$> (l1 ++ l2)) (Root l) ∧
    (∀ a, a ∉ Root l :: (Elem <$> l1 ++ x :: l2) → nxt h1 a = nxt h a ∧ prv h1 a = prv h a) ∧
    (∀ a, own h1 a = own h a) ∧ (∀ a, val h1 a = val h a) ∧ h_new h1 = h_new h ∧ h_lens h1 = h_lens h.
Proof.
  intros Hok Hl. destruct (ring_of _ _ _ _ Hok Hl) as (Hc & Hndr & Hpres).
  rewrite fmap_app, fmap_cons in Hc, Hndr, Hpres.
  destruct (neighbours _ _ _ _ _ Hc Hndr) as (Hn & Hp & Hea & Hen & Hat & Hnx).
  destruct (unlink_run h (Elem x) _ _ Hn Hp (Hpres _ Hat) (Hpres _ Hnx) Hea Hen)
    as (h1 & Hrun1 & (Rn & Rp & Ro & Rv & Rnew) & Hlens).
  destruct (unlink_effect h h1 _ _ _ _ Hc Hndr) as [Hc1 Hfr1];
    [intros a _; apply Rn|intros a _; apply Rp|].
  exists h1. rewrite !fmap_app, fmap_cons. done.
Qed.

(** The second half of [move], for an element outside the ring. *)
Lemma relink_spec h1 l (m1 m2 : list nat) x :
  chain (nxt h1) (prv h1) (Root l) (Elem <$> (m1 ++ m2)) (Root l) → NoDup (m1 ++ m2) →
  x ∉ m1 ++ m2 → is_Some (h_elems h1 !! Elem x) →
  Elem x ≠ before (Root l) (Elem <$> m1) ∧
  ∃ h', relink (Elem x) (before (Root l) (Elem <$> m1)) h1 = Some (tt, h') ∧
    chain (nxt h') (prv h') (Root l) (Elem <$> (m1 ++ x :: m2)) (Root l) ∧
    (∀ a, a ∉ Root l :: (Elem <$> m1 ++ x :: m2) → nxt h' a = nxt h1 a ∧ prv h' a = prv h1 a) ∧
    (∀ a, own h' a = own h1 a) ∧ (∀ a, val h' a = val h1 a) ∧ h_new h' = h_new h1 ∧ h_lens h' = h_lens h1.
Proof.
  intros Hc Hnd Hx Hxp. pose proof (ring_nodup l _ Hnd) as Hnd1.
  rewrite !fmap_app, fmap_cons in *.
  assert (Elem x ∉ Root l :: (Elem <$> m1) ++ (Elem <$> m2)) as Hex.
  { rewrite <- fmap_app, elem_of_cons, list_elem_of_fmap. intros [?|(y & [= <-] & ?)]; done. }
  assert (∀ a, a ∈ Root l :: (Elem <$> m1) ++ (Elem <$> m2) → Elem x ≠ a) as Hne by (intros a Ha <-; done).
  pose proof (chain_split _ _ _ _ _ _ Hc) as [Hn1 _].
  split; [apply Hne, before_in|].
  destruct (relink_run h1 (Elem x) _ _ Hn1 Hxp) as (h' & Hrun & (Rn & Rp & Ro & Rv & Rnew) & Hlens).
  { eapply chain_present; [done|]. apply elem_of_cons.
    pose proof (after_in (Root l) (Elem <$> m1) (Elem <$> m2)) as [?|?]%elem_of_cons; [by left|].
    right. apply elem_of_app. by left. }
  { apply Hne, before_in. } { apply Hne, after_in. }
  destruct (link_effect h1 h' _ _ _ _ Hc Hnd1 Hex Rn Rp) as [Hc' Hfr].
  exists h'. split_and!; try done. intros a Ha. apply Hfr.
  - intros Hin. apply Ha. rewrite elem_of_cons, elem_skip. apply elem_of_cons in Hin. tauto.
  - intros ->. apply Ha. right. apply elem_mid.
Qed.

Lemma move_spec h σ l (l1 l2 m1 m2 : list nat) x :
  lists_ok h σ → σ !! l = Some (l1 ++ x :: l2) → l1 ++ l2 = m1 ++ m2 →
  ∃ h', move (Elem x) (before (Root l) (Elem <$> m1)) h = Some (tt, h') ∧
    lists_ok h' (<[l := m1 ++ x :: m2]> σ) ∧ h_new h' = h_new h ∧ (∀ a, val h' a = val h a).
Proof.
  intros Hok Hl Hm. pose proof Hok as (Hlist & Hown & Hroot & Hnew).
  destruct (owners_remove _ _ _ _ _ _ Hok Hl) as (Hnd' & Hx & _).
  destruct (Hlist _ _ Hl) as (_ & _ & Hlen).
  destruct (unlink_spec _ _ _ _ _ _ Hok Hl) as (h1 & Hrun1 & Hc1 & Hfr1 & Ro & Rv & Rnew & Hlens).
  rewrite Hm in Hc1, Hnd', Hx.
  assert (∀ a, is_Some (h_elems h1 !! a) ↔ is_Some (h_elems h !! a)) as Hsame
    by (intros a; rewrite <- !val_some; by rewrite Rv).
  assert (is_Some (h_elems h1 !! Elem x)) as Hxp.
  { apply Hsame. eapply own_present, Hown. eexists. split; [done|]. apply elem_mid. }
  destruct (relink_spec h1 l m1 m2 x Hc1 Hnd' Hx Hxp)
    as (Hne & h' & Hrun2 & Hc' & Hfr2 & Ro' & Rv' & Rnew' & Hlens').
  assert (∀ y, y ∈ l1 ++ x :: l2 ↔ y ∈ m1 ++ x :: m2) as Hiff
    by (intros y; by rewrite !elem_skip, Hm).
  exists h'. split_and!; [| |by rewrite Rnew', Rnew|by intros a; rewrite Rv', Rv].
  { rewrite move_split by done. unfold mbind, M_bind. by rewrite Hrun1. }
  apply (lists_step h h' σ l (l1 ++ x :: l2)); try done.
  - intros a Ha1 Ha2 Ha3. pose proof (owned_not_elem _ _ _ _ _ Hok Hl Ha1 Ha2) as Hout.
    destruct (Hfr1 _ Hout) as [<- <-]. apply Hfr2.
    rewrite elem_of_cons, list_elem_of_fmap in Hout |- *. setoid_rewrite <- Hiff. done.
  - by rewrite <- Permutation_middle; constructor.
  - rewrite Hlens', Hlens. symmetry. apply insert_id. rewrite Hlen. f_equal.
    apply (f_equal zlen) in Hm. rewrite !zlen_app in Hm. rewrite !zlen_app, !zlen_cons. lia.
  - intros y l'. rewrite Ro', Ro. case_decide as E; [subst|done]. rewrite Hown, Hl, <- Hiff.
    split; [by intros (xs & [= <-] & ?)|eauto].
  - intros l'. by rewrite Ro', Ro.
  - intros y Hy. rewrite Rnew', Rnew. apply Hnew. apply val_some. apply val_some in Hy. by rewrite Rv', Rv in Hy.
Qed.
End spec.
