(* ===== verification/LinkedListProps.v ===== *)
(** * list: every method refines its sequence operation *)
From S2P Require Import Prelude Ring LinkedList LinkedListSpec.

Local Open Scope Z_scope.

(** ** The abstract list: a sequence of element identities *)
Definition without (x : nat) (xs : list nat) : list nat := filter (λ y, y ≠ x) xs.
Definition insert_before (mark x : nat) (xs : list nat) : list nat :=
  xs ≫= λ y, if decide (y = mark) then [x; y] else [y].
Definition insert_after (mark x : nat) (xs : list nat) : list nat :=
  xs ≫= λ y, if decide (y = mark) then [y; x] else [y].

Lemma bind_single (f : nat → list nat) (xs : list nat) :
  (∀ y, y ∈ xs → f y = [y]) → xs ≫= f = xs.
Proof.
  induction xs as [|y xs IH]; intros Hf; [done|]. rewrite bind_cons, Hf, IH; [done| |by left].
  intros z Hz. apply Hf. by right.
Qed.

Lemma without_app x (l r : list nat) : x ∉ l → x ∉ r → without x (l ++ x :: r) = l ++ r.
Proof.
  intros Hl Hr. unfold without. rewrite filter_app, filter_cons_False by (intros H; by apply H).
  f_equal; apply filter_all; apply Forall_forall; intros y Hy ->; done.
Qed.

Lemma without_none x (xs : list nat) : x ∉ xs → without x xs = xs.
Proof. intros Hx. apply filter_all, Forall_forall. by intros y Hy ->. Qed.

Lemma insert_before_none mark x (xs : list nat) : mark ∉ xs → insert_before mark x xs = xs.
Proof. intros Hx. apply bind_single. intros y Hy. rewrite decide_False; [done|]. by intros ->. Qed.

Lemma insert_after_none mark x (xs : list nat) : mark ∉ xs → insert_after mark x xs = xs.
Proof. intros Hx. apply bind_single. intros y Hy. rewrite decide_False; [done|]. by intros ->. Qed.

Lemma insert_before_app mark x (l r : list nat) :
  mark ∉ l → mark ∉ r → insert_before mark x (l ++ mark :: r) = l ++ x :: mark :: r.
Proof.
  intros Hl Hr. unfold insert_before. rewrite bind_app, bind_cons, decide_True by done.
  rewrite !bind_single; [done|..]; intros y Hy; rewrite decide_False; (done || by intros ->).
Qed.

Lemma insert_after_app mark x (l r : list nat) :
  mark ∉ l → mark ∉ r → insert_after mark x (l ++ mark :: r) = l ++ mark :: x :: r.
Proof.
  intros Hl Hr. unfold insert_after. rewrite bind_app, bind_cons, decide_True by done.
  rewrite !bind_single; [done|..]; intros y Hy; rewrite decide_False; (done || by intros ->).
Qed.

(** ** The methods *)
Inductive lop (V : Type) : Type :=
  | OPushFront (l : nat) (v : V) | OPushBack (l : nat) (v : V)
  | OInsertBefore (l : nat) (v : V) (mark : nat) | OInsertAfter (l : nat) (v : V) (mark : nat)
  | ORemove (l e : nat)
  | OMoveToFront (l e : nat) | OMoveToBack (l e : nat)
  | OMoveBefore (l e mark : nat) | OMoveAfter (l e mark : nat).
Arguments OPushFront {V} _ _. Arguments OPushBack {V} _ _.
Arguments OInsertBefore {V} _ _ _. Arguments OInsertAfter {V} _ _ _.
Arguments ORemove {V} _ _. Arguments OMoveToFront {V} _ _. Arguments OMoveToBack {V} _ _.
Arguments OMoveBefore {V} _ _ _. Arguments OMoveAfter {V} _ _ _.

Section refinement.
Context {V : Type}.
Implicit Types (h : heap V) (op : lop V).

Definition drop_result {A} (m : M (V:=V) A) : M (V:=V) unit := _ ← m; mret tt.

Definition exec op : M (V:=V) unit :=
  match op with
  | OPushFront l v => drop_result (PushFront l v)
  | OPushBack l v => drop_result (PushBack l v)
  | OInsertBefore l v m => drop_result (InsertBefore l v (Elem m))
  | OInsertAfter l v m => drop_result (InsertAfter l v (Elem m))
  | ORemove l e => drop_result (Remove l (Elem e))
  | OMoveToFront l e => MoveToFront l (Elem e)
  | OMoveToBack l e => MoveToBack l (Elem e)
  | OMoveBefore l e m => MoveBefore l (Elem e) (Elem m)
  | OMoveAfter l e m => MoveAfter l (Elem e) (Elem m)
  end.

Definition op_list op : nat :=
  match op with
  | OPushFront l _ | OPushBack l _ | OInsertBefore l _ _ | OInsertAfter l _ _ | ORemove l _
  | OMoveToFront l _ | OMoveToBack l _ | OMoveBefore l _ _ | OMoveAfter l _ _ => l
  end.

(** The elements passed by pointer. *)
Definition op_elems op : list nat :=
  match op with
  | OPushFront _ _ | OPushBack _ _ => []
  | OInsertBefore _ _ m | OInsertAfter _ _ m => [m]
  | ORemove _ e | OMoveToFront _ e | OMoveToBack _ e => [e]
  | OMoveBefore _ e m | OMoveAfter _ e m => [e; m]
  end.

(** What the method does to the sequence of its list; [new] is the element that
    an insertion creates.  An element that is not in the list is ignored. *)
Definition abs_op op (new : nat) (xs : list nat) : list nat :=
  match op with
  | OPushFront _ _ => new :: xs
  | OPushBack _ _ => xs ++ [new]
  | OInsertBefore _ _ m => insert_before m new xs
  | OInsertAfter _ _ m => insert_after m new xs
  | ORemove _ e => without e xs
  | OMoveToFront _ e => if decide (e ∈ xs) then e :: without e xs else xs
  | OMoveToBack _ e => if decide (e ∈ xs) then without e xs ++ [e] else xs
  | OMoveBefore _ e m =>
      if decide (e ∈ xs ∧ m ∈ xs ∧ e ≠ m) then insert_before m e (without e xs) else xs
  | OMoveAfter _ e m =>
      if decide (e ∈ xs ∧ m ∈ xs ∧ e ≠ m) then insert_after m e (without e xs) else xs
  end.

(** ** Lemmas: the checks of the methods decide membership *)

Lemma before_elem_snoc p (l1 : list nat) x : before p (Elem <$> l1 ++ [x]) = Elem x.
Proof. rewrite fmap_app. apply before_snoc. Qed.

Lemma load_own h a : is_Some (h_elems h !! a) → ∃ x, load a h = Some (x, h) ∧ h_elems h !! a = Some x ∧
  e_list x = own h a ∧ e_next x = nxt h a ∧ e_prev x = prv h a.
Proof.
  intros [x Hx]. exists x. unfold load, own, nxt, prv. rewrite Hx. done.
Qed.

Lemma own_member h σ l xs x :
  lists_ok h σ → σ !! l = Some xs → (own h (Elem x) = Some l ↔ x ∈ xs).
Proof.
  intros (_ & Hown & _) Hl. rewrite Hown, Hl. split; [by intros (? & [= <-] & ?)|eauto].
Qed.

Lemma root_load h σ l xs :
  lists_ok h σ → σ !! l = Some xs →
  ∃ r, load (Root l) h = Some (r, h) ∧
    e_next r = Some (after (Elem <$> xs) (Root l)) ∧ e_prev r = Some (before (Root l) (Elem <$> xs)).
Proof.
  intros Hok Hl. destruct (ring_of _ _ _ _ Hok Hl) as (Hc & _ & Hpres).
  destruct (load_own h (Root l)) as (r & Hr & _ & _ & En & Ep); [apply Hpres; by left|].
  exists r. rewrite En, Ep. split; [done|].
  pose proof (chain_split _ _ _ [] _ _ Hc) as [? _].
  rewrite <- (app_nil_r (Elem <$> xs)) in Hc. by pose proof (chain_split _ _ _ _ _ _ Hc) as [_ ?].
Qed.

Lemma lazyInit_noop h σ l xs : lists_ok h σ → σ !! l = Some xs → lazyInit l h = Some (tt, h).
Proof.
  intros Hok Hl. destruct (root_load _ _ _ _ Hok Hl) as (r & Hr & En & _).
  unfold lazyInit, mbind, M_bind. rewrite Hr, En. done.
Qed.

(** The pointers of an element at a known position. *)
Lemma elem_load h σ l (l1 l2 : list nat) x :
  lists_ok h σ → σ !! l = Some (l1 ++ x :: l2) →
  (x ∉ l1) ∧ (x ∉ l2) ∧
  ∃ e, load (Elem x) h = Some (e, h) ∧ e_list e = Some l ∧
    e_prev e = Some (before (Root l) (Elem <$> l1)) ∧ e_next e = Some (after (Elem <$> l2) (Root l)).
Proof.
  intros Hok Hl. destruct (ring_of _ _ _ _ Hok Hl) as (Hc & Hnd & Hpres).
  destruct (owners_remove _ _ _ _ _ _ Hok Hl) as (_ & Hx & _).
  rewrite elem_of_app in Hx.
  destruct (load_own h (Elem x)) as (e & He & _ & Eo & En & Ep).
  { apply Hpres. right. apply list_elem_of_fmap. exists x. split; [done|]. apply elem_mid. }
  rewrite fmap_app, fmap_cons in Hc, Hnd.
  destruct (neighbours _ _ _ _ _ Hc Hnd) as (Hn & Hp & _).
  split_and!; [tauto..|]. exists e. rewrite Eo, En, Ep. split_and!; try done.
  apply (own_member _ _ _ _ _ Hok Hl), elem_mid.
Qed.

(** The result of a method that leaves the heap alone. *)
Lemma unchanged h σ l (xs xs' : list nat) :
  lists_ok h σ → σ !! l = Some xs → xs' = xs →
  lists_ok h (<[l := xs']> σ) ∧ (∀ a, a ≠ Elem (h_new h) → val h a = val h a).
Proof. intros Hok Hl ->. by rewrite insert_id. Qed.

Definition refines h σ op : Prop :=
  ∀ l xs, op_list op = l → lists_ok h σ → σ !! l = Some xs → small h →
  Forall (λ e, is_Some (h_elems h !! Elem e)) (op_elems op) →
  ∃ h', exec op h = Some (tt, h') ∧ lists_ok h' (<[l := abs_op op (h_new h) xs]> σ) ∧
    (∀ a, a ≠ Elem (h_new h) → val h' a = val h a).

Lemma push_refines h σ l v : refines h σ (OPushFront l v) ∧ refines h σ (OPushBack l v).
Proof.
  split; intros l' xs <- Hok Hl Hsm _; cbn [op_list] in Hl; cbn [exec abs_op]; unfold drop_result, mbind, M_bind.
  - destruct (insertValue_spec h σ l [] xs v Hok Hl Hsm) as (h' & Hrun & Hok' & _ & _ & Hv).
    exists h'. unfold PushFront, mbind, M_bind. rewrite (lazyInit_noop _ _ _ _ Hok Hl).
    change (before (Root l) (Elem <$> [])) with (Root l) in Hrun. rewrite Hrun. done.
  - destruct (root_load _ _ _ _ Hok Hl) as (r & Hr & _ & Ep).
    rewrite <- (app_nil_r xs) in Hl.
    destruct (insertValue_spec h σ l xs [] v Hok Hl Hsm) as (h' & Hrun & Hok' & _ & _ & Hv).
    rewrite app_nil_r in Hl. exists h'. unfold PushBack, mbind, M_bind.
    rewrite (lazyInit_noop _ _ _ _ Hok Hl), Hr, Ep. cbn [deref mret M_ret]. unfold mret, M_ret. rewrite Hrun. done.
Qed.

(** Membership splits the sequence; non-membership is what the check sees. *)
Lemma member_cases h σ l xs x :
  lists_ok h σ → σ !! l = Some xs → is_Some (h_elems h !! Elem x) →
  (∃ l1 l2 e, xs = l1 ++ x :: l2 ∧ (x ∉ l1) ∧ (x ∉ l2) ∧ load (Elem x) h = Some (e, h) ∧ e_list e = Some l ∧
     e_prev e = Some (before (Root l) (Elem <$> l1)) ∧ e_next e = Some (after (Elem <$> l2) (Root l))) ∨
  ((x ∉ xs) ∧ ∃ e, load (Elem x) h = Some (e, h) ∧ e_list e ≠ Some l).
Proof.
  intros Hok Hl Hp. destruct (decide (x ∈ xs)) as [Hin|Hnin].
  - left. apply list_elem_of_split in Hin as (l1 & l2 & ->).
    destruct (elem_load _ _ _ _ _ _ Hok Hl) as (? & ? & e & ? & ? & ? & ?). by exists l1, l2, e.
  - right. split; [done|]. destruct (load_own h _ Hp) as (e & He & _ & Eo & _). exists e. split; [done|].
    rewrite Eo. by rewrite (own_member _ _ _ _ _ Hok Hl).
Qed.

Lemma insert_refines h σ l v m : refines h σ (OInsertBefore l v m) ∧ refines h σ (OInsertAfter l v m).
Proof.
  split; intros l' xs <- Hok Hl Hsm Hel; cbn [op_list op_elems] in *; cbn [exec abs_op];
    apply Forall_cons in Hel as [Hm _]; unfold drop_result, InsertBefore, InsertAfter, mbind, M_bind;
    destruct (member_cases _ _ _ _ _ Hok Hl Hm)
      as [(l1 & l2 & e & -> & Hn1 & Hn2 & He & Eo & Ep & _)|(Hnin & e & He & Eo)]; rewrite He.
  - rewrite bool_decide_eq_true_2, Ep by done. unfold deref, mret, M_ret.
    destruct (insertValue_spec h σ l l1 (m :: l2) v Hok Hl Hsm) as (h' & Hrun & Hok' & _ & _ & Hv).
    rewrite Hrun. exists h'. by rewrite insert_before_app.
  - rewrite bool_decide_eq_false_2 by done. unfold mret, M_ret. exists h. split; [done|].
    by apply (unchanged h σ l xs), insert_before_none.
  - rewrite bool_decide_eq_true_2 by done. unfold mret, M_ret.
    replace (l1 ++ m :: l2) with ((l1 ++ [m]) ++ l2) in Hl by (by rewrite <- app_assoc).
    destruct (insertValue_spec h σ l (l1 ++ [m]) l2 v Hok Hl Hsm) as (h' & Hrun & Hok' & _ & _ & Hv).
    rewrite before_elem_snoc in Hrun. rewrite Hrun. exists h'.
    rewrite <- app_assoc in Hok'. by rewrite insert_after_app.
  - rewrite bool_decide_eq_false_2 by done. unfold mret, M_ret. exists h. split; [done|].
    by apply (unchanged h σ l xs), insert_after_none.
Qed.

Lemma remove_refines h σ l x : refines h σ (ORemove l x).
Proof.
  intros l' xs <- Hok Hl Hsm Hel; cbn [op_list op_elems] in *; cbn [exec abs_op].
  apply Forall_cons in Hel as [Hx _]. unfold drop_result, Remove, mbind, M_bind.
  destruct (member_cases _ _ _ _ _ Hok Hl Hx)
    as [(l1 & l2 & e & -> & Hn1 & Hn2 & He & Eo & _)|(Hnin & e & He & Eo)]; rewrite He.
  - rewrite bool_decide_eq_true_2 by done.
    destruct (remove_spec h σ l l1 l2 x Hok Hl Hsm) as (h' & Hrun & Hok' & _ & Hv). rewrite Hrun.
    destruct (load_own h' (Elem x)) as (e' & He' & _).
    { apply val_some. rewrite Hv. by apply val_some. }
    rewrite He'. unfold mret, M_ret. exists h'. by rewrite without_app.
  - rewrite bool_decide_eq_false_2 by done. unfold mret, M_ret. rewrite He. exists h. split; [done|].
    by apply (unchanged h σ l xs), without_none.
Qed.

Lemma move_end_refines h σ l x : refines h σ (OMoveToFront l x) ∧ refines h σ (OMoveToBack l x).
Proof.
  split; intros l' xs <- Hok Hl Hsm Hel; cbn [op_list op_elems] in *; cbn [exec abs_op];
    apply Forall_cons in Hel as [Hx _]; unfold MoveToFront, MoveToBack, mbind, M_bind;
    destruct (root_load _ _ _ _ Hok Hl) as (r & Hr & En & Ep);
    destruct (member_cases _ _ _ _ _ Hok Hl Hx)
      as [(l1 & l2 & e & -> & Hn1 & Hn2 & He & Eo & _)|(Hnin & e & He & Eo)]; rewrite He, Hr.
  2,4: rewrite bool_decide_eq_true_2, decide_False by done; exists h; split; [done|];
    by apply (unchanged h σ l xs).
  - rewrite (bool_decide_eq_false_2 (e_list e ≠ Some l)) by (intros Hf; by apply Hf).
    rewrite decide_True by apply elem_mid. rewrite without_app by done. cbn [orb]. case_bool_decide as E.
    + exists h. split; [done|]. apply (unchanged h σ l (l1 ++ x :: l2)); [done..|].
      rewrite En in E. destruct l1 as [|y l1]; [done|]. cbn in E. injection E as ->. destruct Hn1. by left.
    + destruct (move_spec h σ l l1 l2 [] (l1 ++ l2) x Hok Hl eq_refl) as (h' & Hrun & Hok' & _ & Hv).
      change (before (Root l) (Elem <$> [])) with (Root l) in Hrun. rewrite Hrun. by exists h'.
  - rewrite (bool_decide_eq_false_2 (e_list e ≠ Some l)) by (intros Hf; by apply Hf).
    rewrite decide_True by apply elem_mid. rewrite without_app by done. cbn [orb]. case_bool_decide as E.
    + exists h. split; [done|]. apply (unchanged h σ l (l1 ++ x :: l2)); [done..|].
      rewrite Ep in E. destruct l2 as [|y l2 _] using rev_ind; [by rewrite app_nil_r|].
      rewrite app_comm_cons, app_assoc, before_elem_snoc in E. injection E as ->.
      destruct Hn2. apply elem_of_app. right. by left.
    + rewrite Ep. unfold deref, mret, M_ret.
      assert (l2 ≠ []) as Hne.
      { intros ->. rewrite Ep, before_elem_snoc in E. done. }
      destruct (move_spec h σ l l1 l2 (l1 ++ l2) [] x Hok Hl) as (h' & Hrun & Hok' & _ & Hv);
        [by rewrite app_nil_r|].
      replace (before (Root l) (Elem <$> l1 ++ x :: l2)) with (before (Root l) (Elem <$> l1 ++ l2)).
      { rewrite Hrun. by exists h'. }
      destruct l2 as [|y l2 _] using rev_ind; [done|].
      by rewrite app_comm_cons, !app_assoc, !before_elem_snoc.
Qed.

(** Two distinct members: where the mark is once the moved element is taken out. *)
Lemma two_members (xs : list nat) e m :
  NoDup xs → e ∈ xs → m ∈ xs → e ≠ m →
  ∃ l1 l2 m1 m2, xs = l1 ++ e :: l2 ∧ l1 ++ l2 = m1 ++ m :: m2 ∧
    (e ∉ l1) ∧ (e ∉ l2) ∧ (m ∉ m1) ∧ (m ∉ m2) ∧
    ((∃ r, l1 = m1 ++ m :: r ∧ xs = m1 ++ m :: r ++ e :: l2) ∨
     (∃ r, m1 = l1 ++ r ∧ xs = (l1 ++ e :: r) ++ m :: m2)).
Proof.
  intros Hnd He Hm Hne. apply list_elem_of_split in He as (l1 & l2 & ->).
  apply NoDup_app in Hnd as (Hnd1 & Hd & Hnd2%NoDup_cons). destruct Hnd2 as [He2 Hnd2].
  assert (e ∉ l1) as He1 by (intros H; apply (Hd _ H); by left).
  assert (∀ y, y ∈ l1 → y ∉ l2) as Hd' by (intros y Hy H; apply (Hd _ Hy); by right).
  apply elem_skip in Hm as [->|Hm]; [done|]. apply elem_of_app in Hm as [Hm|Hm];
    apply list_elem_of_split in Hm as (a & b & ->); apply NoDup_app in Hnd1 as Ha || idtac.
  - destruct Ha as (_ & Hda & [Hb _]%NoDup_cons). exists (a ++ m :: b), l2, a, (b ++ l2).
    split_and!; try done.
    + by rewrite <- app_assoc.
    + intros H. apply (Hda _ H). by left.
    + intros [H|H]%elem_of_app; [done|]. apply (Hd' m); [apply elem_mid|done].
    + left. exists b. by rewrite <- app_assoc.
  - apply NoDup_app in Hnd2 as (_ & Hda & [Hb _]%NoDup_cons). exists l1, (a ++ m :: b), (l1 ++ a), b.
    split_and!; try done.
    + by rewrite app_assoc.
    + intros [H|H]%elem_of_app; [apply (Hd' m H), elem_mid|]. apply (Hda _ H). by left.
    + right. exists a. by rewrite <- app_assoc.
Qed.

Lemma move_mark_refines h σ l x m : refines h σ (OMoveBefore l x m) ∧ refines h σ (OMoveAfter l x m).
Proof.
  split; intros l' xs <- Hok Hl Hsm Hel; cbn [op_list op_elems] in *; cbn [exec abs_op];
    apply Forall_cons in Hel as [Hx [Hm _]%Forall_cons]; unfold MoveBefore, MoveAfter, mbind, M_bind;
    destruct (load_own h _ Hx) as (e & He & _ & Eo & _); destruct (load_own h _ Hm) as (k & Hk & _ & Ko & _ & Kp);
    rewrite He, Hk;
    pose proof (own_member _ _ _ _ x Hok Hl) as Mx; pose proof (own_member _ _ _ _ m Hok Hl) as Mm;
    rewrite <- Eo in Mx; rewrite <- Ko in Mm;
    (destruct (decide (x ∈ xs ∧ m ∈ xs ∧ x ≠ m)) as [(Hxi & Hmi & Hne)|Hno];
     [|exists h; split; [|by apply (unchanged h σ l xs)];
       rewrite (bool_decide_ext _ (x ∉ xs)) by (by rewrite Mx);
       rewrite (bool_decide_ext (e_list k ≠ Some l) (m ∉ xs)) by (by rewrite Mm);
       rewrite (bool_decide_ext (Elem x = Elem m) (x = m)) by (split; congruence);
       repeat case_bool_decide; try done; destruct Hno; split_and!; try done;
       by apply dec_stable]).
  all: rewrite (bool_decide_eq_false_2 (e_list e ≠ Some l)) by (rewrite Mx; intros H; by apply H);
       rewrite (bool_decide_eq_false_2 (e_list k ≠ Some l)) by (rewrite Mm; intros H; by apply H);
       rewrite (bool_decide_eq_false_2 (Elem x = Elem m)) by congruence; cbn [orb].
  all: destruct (two_members xs x m) as (l1 & l2 & m1 & m2 & -> & Hsp & Hx1 & Hx2 & Hm1 & Hm2 & Hpos);
    [by eapply Hok|done..|]; rewrite without_app, Hsp by done.
  - rewrite insert_before_app by done.
    destruct Hpos as [(r & -> & Ex)|(r & -> & Ex)].
    + rewrite Ex in Hl. destruct (elem_load _ _ _ _ _ _ Hok Hl) as (_ & _ & k' & Hk' & _ & Kp' & _).
      rewrite <- Ex in Hl. rewrite Hk in Hk'. injection Hk' as <-. rewrite Kp'. unfold deref, mret, M_ret.
      destruct (move_spec h σ l _ l2 m1 (m :: m2) x Hok Hl Hsp) as (h' & Hrun & Hok' & _ & Hv).
      exists h'. by rewrite Hrun.
    + rewrite Ex in Hl. destruct (elem_load _ _ _ _ _ _ Hok Hl) as (_ & _ & k' & Hk' & _ & Kp' & _).
      rewrite <- Ex in Hl. rewrite Hk in Hk'. injection Hk' as <-. rewrite Kp'. unfold deref, mret, M_ret.
      destruct r as [|y r _] using rev_ind.
      * rewrite before_elem_snoc. unfold move. rewrite bool_decide_eq_true_2 by done. exists h.
        split; [done|]. apply (unchanged h σ l (l1 ++ x :: l2)); [done..|]. rewrite Ex, app_nil_r, <- app_assoc. done.
      * rewrite app_comm_cons, app_assoc, before_elem_snoc.
        destruct (move_spec h σ l l1 l2 (l1 ++ r ++ [y]) (m :: m2) x Hok Hl Hsp) as (h' & Hrun & Hok' & _ & Hv).
        rewrite app_assoc, before_elem_snoc in Hrun. exists h'. by rewrite Hrun.
  - rewrite insert_after_app by done.
    destruct (move_spec h σ l l1 l2 (m1 ++ [m]) m2 x Hok Hl) as (h' & Hrun & Hok' & _ & Hv).
    { rewrite <- app_assoc. done. }
    rewrite before_elem_snoc in Hrun. rewrite <- app_assoc in Hok'. exists h'. by rewrite Hrun.
Qed.

(** ** Copying a list *)

(** The values of a sequence of elements. *)
Definition values h (xs : list nat) : list V := omap (λ x, val h (Elem x)) xs.

Lemma values_ext h h' (xs : list nat) :
  (∀ x, x ∈ xs → val h' (Elem x) = val h (Elem x)) → values h' xs = values h xs.
Proof.
  unfold values. induction xs as [|x xs IH]; intros Hx; [done|]. cbn [omap list_omap].
  rewrite Hx, IH; [done| |by left]. intros y Hy. apply Hx. by right.
Qed.

Lemma member_below h σ l xs x : lists_ok h σ → σ !! l = Some xs → x ∈ xs → (x < h_new h)%nat.
Proof.
  intros Hok Hl Hx. apply Hok. eapply own_present. by apply (own_member _ _ _ _ _ Hok Hl).
Qed.

(** The list that is copied, seen after an insertion into the target. *)
Lemma lookup_after (σ : gmap nat (list nat)) (l other : nat) (xs ys xs' : list nat) :
  σ !! l = Some xs → σ !! other = Some ys →
  <[l := xs']> σ !! other = Some (if decide (l = other) then xs' else ys) ∧ (l = other → xs = ys).
Proof. intros Hl Ho. rewrite lookup_insert. case_decide; subst; split; congruence. Qed.

Lemma next_in h σ l (ys ws : list nat) x y :
  lists_ok h σ → σ !! l = Some (ys ++ x :: y :: ws) →
  Next (Elem x) h = Some (Some (Elem y), h) ∧ Prev (Elem y) h = Some (Some (Elem x), h).
Proof.
  intros Hok Hl. unfold Next, Prev, mbind, M_bind, mret, M_ret.
  destruct (elem_load _ _ _ _ _ _ Hok Hl) as (_ & _ & e & -> & -> & _ & ->).
  change (ys ++ x :: y :: ws) with (ys ++ [x] ++ y :: ws) in Hl. rewrite app_assoc in Hl.
  destruct (elem_load _ _ _ _ _ _ Hok Hl) as (_ & _ & e' & -> & -> & -> & _).
  rewrite before_elem_snoc. cbn. by rewrite !bool_decide_eq_false_2.
Qed.

Lemma next_total h σ l xs x :
  lists_ok h σ → σ !! l = Some xs → x ∈ xs →
  (∃ o, Next (Elem x) h = Some (o, h)) ∧ (∃ o, Prev (Elem x) h = Some (o, h)).
Proof.
  intros Hok Hl (l1 & l2 & ->)%list_elem_of_split. unfold Next, Prev, mbind, M_bind, mret, M_ret.
  destruct (elem_load _ _ _ _ _ _ Hok Hl) as (_ & _ & e & -> & -> & -> & ->).
  split; case_bool_decide; eauto.
Qed.

Definition starts (e : option addr) (zs : list nat) : Prop :=
  match zs with [] => True | z :: _ => e = Some (Elem z) end.

Lemma pushBackLoop_spec (zs : list nat) : ∀ h σ l other (xs ys ws : list nat) e,
  lists_ok h σ → σ !! l = Some xs → σ !! other = Some (ys ++ zs ++ ws) → starts e zs →
  Z.of_nat (h_new h) + zlen zs < 2 ^ 63 →
  ∃ h', pushBackLoop l (length zs) e h = Some (tt, h') ∧
    lists_ok h' (<[l := xs ++ seq (h_new h) (length zs)]> σ) ∧
    values h' (seq (h_new h) (length zs)) = values h zs ∧
    (∀ x, (x < h_new h)%nat → val h' (Elem x) = val h (Elem x)).
Proof.
  induction zs as [|z zs IH]; intros h σ l other xs ys ws e Hok Hl Ho He Hb; cbn [length pushBackLoop seq].
  { exists h. rewrite app_nil_r, insert_id by done. done. }
  rewrite He, zlen_cons in *. unfold deref, mbind, M_bind, mret, M_ret.
  destruct (elem_load _ _ _ _ _ _ Hok Ho) as (_ & _ & el & Hel & _).
  assert (val h (Elem z) = Some (e_value el)) as Hvz.
  { unfold load in Hel. unfold val. destruct (h_elems h !! Elem z); [|done]. by injection Hel as ->. }
  rewrite Hel. destruct (root_load _ _ _ _ Hok Hl) as (r & Hr & _ & Ep). rewrite Hr, Ep.
  assert (small h) as Hsm by (unfold small; pose proof (zlen_nonneg zs); lia).
  rewrite <- (app_nil_r xs) in Hl.
  destruct (insertValue_spec h σ l xs [] (e_value el) Hok Hl Hsm) as (h1 & Hrun & Hok1 & Hnew & Hv & Hfr).
  rewrite app_nil_r in Hl. rewrite Hrun.
  destruct (lookup_after σ l other _ _ (xs ++ [h_new h]) Hl Ho) as [Ho1 Hsame].
  assert (∃ ws', <[l := xs ++ [h_new h]]> σ !! other = Some (ys ++ (z :: zs) ++ ws')) as [ws' Ho'].
  { case_decide; [|eauto]. exists (ws ++ [h_new h]). rewrite Ho1, (Hsame ltac:(done)). by rewrite <- !app_assoc. }
  assert (∃ e', Next (Elem z) h1 = Some (e', h1) ∧ starts e' zs) as (e' & Hn & He').
  { destruct zs as [|z' zs].
    - destruct (proj1 (next_total _ _ _ _ z Hok1 Ho' ltac:(apply elem_mid))) as [o ?]. by exists o.
    - destruct (next_in _ _ _ _ _ _ _ Hok1 Ho') as [? _]. by exists (Some (Elem z')). }
  rewrite Hn.
  destruct (IH h1 (<[l := xs ++ [h_new h]]> σ) l other (xs ++ [h_new h]) (ys ++ [z]) ws' e')
    as (h' & Hrun' & Hok' & Hvals & Hfr'); [done|by rewrite lookup_insert_eq| |done|rewrite Hnew; lia|].
  { by rewrite <- app_assoc. }
  rewrite Hrun', Hnew in *. exists h'. split; [done|]. split_and!.
  - by rewrite insert_insert_eq, <- app_assoc in Hok'.
  - unfold values at 1. cbn [omap list_omap]. fold (values h' (seq (S (h_new h)) (length zs))).
    rewrite Hfr' by lia. rewrite Hv, Hvals. unfold values at 2. cbn [omap list_omap]. rewrite Hvz.
    f_equal. apply values_ext. intros x Hx. apply Hfr.
    assert (x < h_new h)%nat; [|intros [= ->]; lia].
    eapply member_below; [done|apply Ho|]. apply elem_of_app. right. right. apply elem_of_app. by left.
  - intros x Hx. rewrite Hfr' by lia. apply Hfr. intros [= ->]. lia.
Qed.

(** [zs] is read backwards: the loop follows [Prev] and pushes to the front. *)
Lemma pushFrontLoop_spec (zs : list nat) : ∀ h σ l other (xs ys ws : list nat) e,
  lists_ok h σ → σ !! l = Some xs → σ !! other = Some (ys ++ reverse zs ++ ws) → starts e zs →
  Z.of_nat (h_new h) + zlen zs < 2 ^ 63 →
  ∃ h', pushFrontLoop l (length zs) e h = Some (tt, h') ∧
    lists_ok h' (<[l := reverse (seq (h_new h) (length zs)) ++ xs]> σ) ∧
    values h' (seq (h_new h) (length zs)) = values h zs ∧
    (∀ x, (x < h_new h)%nat → val h' (Elem x) = val h (Elem x)).
Proof.
  induction zs as [|z zs IH]; intros h σ l other xs ys ws e Hok Hl Ho He Hb; cbn [length pushFrontLoop seq].
  { exists h. rewrite reverse_nil, app_nil_l, insert_id by done. done. }
  rewrite He, zlen_cons in *. unfold deref, mbind, M_bind, mret, M_ret.
  rewrite reverse_cons, <- (app_assoc (reverse zs)), app_assoc in Ho. cbn [app] in Ho.
  destruct (elem_load _ _ _ _ _ _ Hok Ho) as (_ & _ & el & Hel & _).
  assert (val h (Elem z) = Some (e_value el)) as Hvz.
  { unfold load in Hel. unfold val. destruct (h_elems h !! Elem z); [|done]. by injection Hel as ->. }
  rewrite Hel. assert (small h) as Hsm by (unfold small; pose proof (zlen_nonneg zs); lia).
  destruct (insertValue_spec h σ l [] xs (e_value el) Hok Hl Hsm) as (h1 & Hrun & Hok1 & Hnew & Hv & Hfr).
  change (before (Root l) (Elem <$> [])) with (Root l) in Hrun. cbn [app] in Hok1. rewrite Hrun.
  destruct (lookup_after σ l other _ _ (h_new h :: xs) Hl Ho) as [Ho1 Hsame].
  assert (∃ ys', <[l := h_new h :: xs]> σ !! other = Some ((ys' ++ reverse zs) ++ z :: ws)) as [ys' Ho'].
  { case_decide; [|eauto]. exists (h_new h :: ys). rewrite Ho1, (Hsame ltac:(done)). done. }
  assert (∃ e', Prev (Elem z) h1 = Some (e', h1) ∧ starts e' zs) as (e' & Hn & He').
  { destruct zs as [|z' zs].
    - destruct (proj2 (next_total _ _ _ _ z Hok1 Ho' ltac:(apply elem_mid))) as [o ?]. by exists o.
    - exists (Some (Elem z')). split; [|done].
      rewrite reverse_cons, app_assoc, <- (app_assoc _ [z']) in Ho'. by apply (next_in _ _ _ _ _ _ _ Hok1 Ho'). }
  rewrite Hn.
  destruct (IH h1 (<[l := h_new h :: xs]> σ) l other (h_new h :: xs) ys' (z :: ws) e')
    as (h' & Hrun' & Hok' & Hvals & Hfr'); [done|by rewrite lookup_insert_eq| |done|rewrite Hnew; lia|].
  { by rewrite app_assoc. }
  rewrite Hrun', Hnew in *. exists h'. split; [done|]. split_and!.
  - by rewrite insert_insert_eq in Hok'; rewrite reverse_cons, <- app_assoc.
  - unfold values at 1. cbn [omap list_omap]. fold (values h' (seq (S (h_new h)) (length zs))).
    rewrite Hfr' by lia. rewrite Hv, Hvals. unfold values at 2. cbn [omap list_omap]. rewrite Hvz.
    f_equal. apply values_ext. intros x Hx. apply Hfr.
    assert (x < h_new h)%nat; [|intros [= ->]; lia].
    eapply member_below; [done|apply Ho|]. apply elem_of_app. left. apply elem_of_app. right. by apply elem_of_reverse.
  - intros x Hx. rewrite Hfr' by lia. apply Hfr. intros [= ->]. lia.
Qed.

Lemma len_read h σ l xs : lists_ok h σ → σ !! l = Some xs → get_len l h = Some (zlen xs, h).
Proof. intros Hok Hl. unfold get_len. by destruct Hok as (H & _); destruct (H _ _ Hl) as (_ & _ & ->). Qed.

Lemma front_back h σ l xs :
  lists_ok h σ → σ !! l = Some xs →
  (∃ e, Front l h = Some (e, h) ∧ starts e xs) ∧ (∃ e, Back l h = Some (e, h) ∧ starts e (reverse xs)).
Proof.
  intros Hok Hl. unfold Front, Back, mbind, M_bind, mret, M_ret. rewrite (len_read _ _ _ _ Hok Hl).
  destruct (root_load _ _ _ _ Hok Hl) as (r & Hr & En & Ep).
  destruct xs as [|x xs]; [by split; exists None|].
  rewrite (proj2 (Z.eqb_neq _ 0)) by (rewrite zlen_cons; pose proof (zlen_nonneg xs); lia).
  rewrite Hr, En, Ep. split; [by eexists|].
  destruct (x :: xs) as [|y zs _] using rev_ind; [by eexists|].
  rewrite before_elem_snoc, reverse_snoc. by eexists.
Qed.

Lemma values_app h (xs ys : list nat) : values h (xs ++ ys) = values h xs ++ values h ys.
Proof. unfold values. apply omap_app. Qed.

Lemma values_reverse h (xs : list nat) : values h (reverse xs) = reverse (values h xs).
Proof.
  induction xs as [|x xs IH]; [done|]. rewrite reverse_cons, values_app, IH. unfold values. cbn [omap list_omap].
  destruct (val h (Elem x)); [by rewrite reverse_cons|apply app_nil_r].
Qed.

Lemma values_kept h h' σ l xs :
  lists_ok h σ → σ !! l = Some xs → (∀ x, (x < h_new h)%nat → val h' (Elem x) = val h (Elem x)) →
  values h' xs = values h xs.
Proof. intros Hok Hl Hfr. apply values_ext. intros x Hx. eapply Hfr, member_below; eauto. Qed.

(** [New] on a list that does not exist yet. *)
Lemma New_spec (zero : V) h σ l :
  lists_ok h σ → σ !! l = None →
  ∃ h', New zero l h = Some (l, h') ∧ lists_ok h' (<[l := []]> σ) ∧ h_new h' = h_new h ∧
    (∀ x, val h' (Elem x) = val h (Elem x)).
Proof.
  intros (Hlist & Hown & Hroot & Hnew) Hl. eexists. split.
  { unfold New, Init, set_next, set_prev, update, set_len, mbind, M_bind, mret, M_ret.
    cbn [h_elems h_lens h_new]. rewrite lookup_insert_eq. cbn [h_elems h_lens h_new].
    by rewrite lookup_insert_eq. }
  cbn [h_elems h_lens h_new e_list e_value e_next e_prev]. rewrite !insert_insert_eq.
  split; [|split; [done|intros x; unfold val; cbn; by rewrite lookup_insert_ne]]. split_and!.
  - intros l' xs'. destruct (decide (l = l')) as [<-|Hne].
    + rewrite lookup_insert_eq. intros [= <-]. split_and!; [|constructor|apply lookup_insert_eq].
      split; unfold nxt, prv; cbn; by rewrite lookup_insert_eq.
    + rewrite lookup_insert_ne by done. intros Hl'. destruct (Hlist _ _ Hl') as (Hc & Hnd & Hlen).
      cbn. rewrite lookup_insert_ne by done. split_and!; [|done..].
      eapply chain_frame; [..|exact Hc]; intros a Ha; unfold nxt, prv; cbn; (rewrite lookup_insert_ne; [done|]);
        intros <-.
      * apply elem_of_cons in Ha as [?|(? & ? & ?)%list_elem_of_fmap]; congruence.
      * apply elem_of_app in Ha as [(? & ? & ?)%list_elem_of_fmap|?%list_elem_of_singleton]; congruence.
  - intros x l'. unfold own. cbn. rewrite lookup_insert_ne by done. fold (own h (Elem x)). rewrite Hown.
    destruct (decide (l = l')) as [<-|Hne]; [|by rewrite lookup_insert_ne].
    rewrite lookup_insert_eq, Hl. split; intros (? & [= <-] & Hx). by apply not_elem_of_nil in Hx.
  - intros l'. unfold own. cbn. rewrite lookup_insert. case_decide; [done|apply Hroot].
  - intros x. cbn. rewrite lookup_insert_ne by done. apply Hnew.
Qed.

(** C3: every method of [List] that changes a list (pushes, insertions, removal and
    the four moves) runs without a nil dereference on well-formed lists, performs the
    corresponding operation on the sequence of its list (ignoring elements of
    other lists, as the documentation promises), leaves every other list and
    the values of the existing elements alone, and keeps all lists well formed. *)
Theorem list_op_refines h σ op (xs : list nat) :
  lists_ok h σ → σ !! op_list op = Some xs → small h →
  Forall (λ e, is_Some (h_elems h !! Elem e)) (op_elems op) →
  ∃ h', exec op h = Some (tt, h') ∧ lists_ok h' (<[op_list op := abs_op op (h_new h) xs]> σ) ∧
    (∀ a, a ≠ Elem (h_new h) → val h' a = val h a).
Proof.
  intros Hok Hl Hsm Hel. assert (refines h σ op) as Href; [|by apply (Href _ xs)].
  destruct op.
  - apply push_refines. - apply push_refines.
  - apply insert_refines. - apply insert_refines.
  - apply remove_refines.
  - apply move_end_refines. - apply move_end_refines.
  - apply move_mark_refines. - apply move_mark_refines.
Qed.

(** [PushBackList] and [PushFrontList] append and prepend the values the other
    list had when they were called, also when the list is copied onto itself. *)
Theorem push_list_values h σ l other (xs ys : list nat) :
  lists_ok h σ → σ !! l = Some xs → σ !! other = Some ys → Z.of_nat (h_new h) + zlen ys < 2 ^ 63 →
  (∃ h' new, PushBackList l other h = Some (tt, h') ∧ lists_ok h' (<[l := xs ++ new]> σ) ∧
     values h' (xs ++ new) = values h xs ++ values h ys) ∧
  (∃ h' new, PushFrontList l other h = Some (tt, h') ∧ lists_ok h' (<[l := new ++ xs]> σ) ∧
     values h' (new ++ xs) = values h ys ++ values h xs).
Proof.
  intros Hok Hl Ho Hb. destruct (front_back _ _ _ _ Hok Ho) as [(f & Hf & Sf) (b & Hbk & Sb)].
  unfold PushBackList, PushFrontList, Len, mbind, M_bind. rewrite (lazyInit_noop _ _ _ _ Hok Hl).
  rewrite (len_read _ _ _ _ Hok Ho), Hf, Hbk. unfold zlen at 1 2. rewrite Nat2Z.id. split.
  - destruct (pushBackLoop_spec ys h σ l other xs [] [] f) as (h' & Hrun & Hok' & Hv & Hfr); try done.
    { by rewrite app_nil_r. }
    exists h', (seq (h_new h) (length ys)). split_and!; [done..|].
    rewrite values_app, Hv. by rewrite (values_kept h h' σ l).
  - rewrite <- length_reverse.
    destruct (pushFrontLoop_spec (reverse ys) h σ l other xs [] [] b) as (h' & Hrun & Hok' & Hv & Hfr); try done.
    { by rewrite reverse_involutive, app_nil_r. } { unfold zlen. by rewrite length_reverse. }
    exists h', (reverse (seq (h_new h) (length (reverse ys)))). split_and!; [done..|].
    rewrite values_app, values_reverse, Hv, values_reverse, reverse_involutive. by rewrite (values_kept h h' σ l).
Qed.

(** [New] yields an empty list and disturbs no other list. *)
Theorem list_new (zero : V) h σ l :
  lists_ok h σ → σ !! l = None →
  ∃ h', New zero l h = Some (l, h') ∧ lists_ok h' (<[l := []]> σ) ∧
    (∀ l' (xs : list nat), σ !! l' = Some xs → values h' xs = values h xs).
Proof.
  intros Hok Hl. destruct (New_spec zero h σ l Hok Hl) as (h' & Hrun & Hok' & Hn & Hv).
  exists h'. split_and!; [done..|]. intros l' xs Hl'. by eapply values_kept.
Qed.
End refinement.

(** ** A concrete heap: two lists, three elements *)
Definition empty_heap {V : Type} : heap V := mkHeap ∅ ∅ 0.

Lemma empty_heap_ok {V : Type} : lists_ok (V := V) empty_heap ∅.
Proof. split_and!; try done. - intros x l. split; [done|by intros (? & ? & ?)]. - by intros x [? ?]. Qed.

Definition sample_heap : heap Z :=
  match (_ ← New 0 0%nat; _ ← New 0 1%nat; _ ← PushBack 0 10; _ ← PushBack 0 11; PushFront 1 12) empty_heap with
  | Some (_, h) => h
  | None => empty_heap
  end.

Lemma sample_heap_ok : lists_ok sample_heap {[ 0%nat := [0; 1]%nat; 1%nat := [2]%nat ]}.
Proof.
  destruct (New_spec 0 empty_heap ∅ 0) as (h1 & R1 & Hok1 & N1 & _); [apply empty_heap_ok|done|].
  destruct (New_spec 0 h1 (<[0%nat := []]> ∅) 1) as (h2 & R2 & Hok2 & N2 & _); [done|done|].
  destruct (proj2 (push_refines h2 _ 0 10) 0%nat [] eq_refl Hok2) as (h3 & R3 & Hok3 & _);
    [done| |constructor|].
  { unfold small. rewrite N2, N1. done. }
  pose proof R1 as E1. vm_compute in E1. injection E1 as E1. subst h1.
  pose proof R2 as E2. vm_compute in E2. injection E2 as E2. subst h2.
  pose proof R3 as E3. vm_compute in E3. injection E3 as E3. subst h3.
  destruct (proj2 (push_refines _ _ 0 11) 0%nat [0%nat] eq_refl Hok3) as (h4 & R4 & Hok4 & _);
    [done|done|constructor|].
  vm_compute in R4. injection R4 as R4. subst h4.
  destruct (proj1 (push_refines _ _ 1 12) 1%nat [] eq_refl Hok4) as (h5 & R5 & Hok5 & _);
    [done|done|constructor|].
  vm_compute in R5. injection R5 as R5. subst h5.
  vm_compute in Hok5 |- *. exact Hok5.
Qed.

Lemma list_op_refines_witness :
  ∃ h', exec (OMoveBefore 0 1 0) sample_heap = Some (tt, h') ∧
    lists_ok h' (<[0%nat := [1; 0]%nat]> {[ 0%nat := [0; 1]%nat; 1%nat := [2]%nat ]}).
Proof.
  destruct (list_op_refines sample_heap _ (OMoveBefore 0 1 0) [0; 1]%nat sample_heap_ok) as (h' & Hr & Hok & _).
  - reflexivity.
  - reflexivity.
  - constructor; [|constructor; [|constructor]]; vm_compute; eexists; reflexivity.
  - exists h'. split; [exact Hr|exact Hok].
Defined.

Lemma push_list_values_witness :
  ∃ h' new, PushBackList 0 0 sample_heap = Some (tt, h') ∧
    values h' ([0; 1]%nat ++ new) = values sample_heap [0; 1]%nat ++ values sample_heap [0; 1]%nat.
Proof.
  destruct (push_list_values sample_heap _ 0 0 [0; 1]%nat [0; 1]%nat sample_heap_ok) as [(h' & new & Hr & _ & Hv) _].
  - reflexivity.
  - reflexivity.
  - reflexivity.
  - exists h', new. split; [exact Hr|exact Hv].
Defined.

Lemma list_new_witness :
  ∃ h', New 0 5%nat sample_heap = Some (5%nat, h') ∧
    lists_ok h' (<[5%nat := []]> {[ 0%nat := [0; 1]%nat; 1%nat := [2]%nat ]}).
Proof.
  destruct (list_new 0 sample_heap _ 5 sample_heap_ok) as (h' & Hr & Hok & _).
  - reflexivity.
  - exists h'. split; [exact Hr|exact Hok].
Defined.
