(* ===== verification/TTLMap.v ===== *)
(** * xttlmap: a bounded map with deadlines and LRU eviction

    Models [src/xttlmap/ttlmap.go].  Nodes live in a heap and are linked through
    [prev]/[next]; the map and the list share them.  Time is an argument (one per
    [time.Now()] the code evaluates).  The atomic sections of [Get] and of
    [cleanupExpired] (what runs under one lock acquisition) are definitions of
    their own, so that interleavings can be written out. *)
From S2P Require Import Prelude.

Local Open Scope Z_scope.

Section ttlmap.
Context {K V : Type} `{Countable K}.

(** A node of the heap; [item] is flattened into value and deadline. *)
Record node := mkNode {
  n_key : K; n_value : V; n_deadline : time; n_prev : option nat; n_next : option nat }.

Record TTLMap := mkTTLMap {
  heap : gmap nat node; newLoc : nat;   (* the nodes allocated so far *)
  items : gmap K nat;
  s_head : option nat; s_tail : option nat;
  lastCleanup : time; cleaning : bool; maxSize : Z }.

(** [item.expired] *)
Definition expired (n : node) (now : time) : bool :=
  if IsZero (n_deadline n) then false else After now (n_deadline n).

(** ** Field writes *)
Definition on_node (l : nat) (f : node → node) (s : TTLMap) : TTLMap :=
  mkTTLMap (alter f l (heap s)) (newLoc s) (items s) (s_head s) (s_tail s) (lastCleanup s) (cleaning s) (maxSize s).
Definition set_prev (l : nat) (p : option nat) : TTLMap → TTLMap :=
  on_node l (λ n, mkNode (n_key n) (n_value n) (n_deadline n) p (n_next n)).
Definition set_next (l : nat) (x : option nat) : TTLMap → TTLMap :=
  on_node l (λ n, mkNode (n_key n) (n_value n) (n_deadline n) (n_prev n) x).
Definition set_item (l : nat) (v : V) (d : time) : TTLMap → TTLMap :=
  on_node l (λ n, mkNode (n_key n) v d (n_prev n) (n_next n)).
Definition set_head (h : option nat) (s : TTLMap) : TTLMap :=
  mkTTLMap (heap s) (newLoc s) (items s) h (s_tail s) (lastCleanup s) (cleaning s) (maxSize s).
Definition set_tail (t : option nat) (s : TTLMap) : TTLMap :=
  mkTTLMap (heap s) (newLoc s) (items s) (s_head s) t (lastCleanup s) (cleaning s) (maxSize s).
Definition set_items (m : gmap K nat) (s : TTLMap) : TTLMap :=
  mkTTLMap (heap s) (newLoc s) m (s_head s) (s_tail s) (lastCleanup s) (cleaning s) (maxSize s).
Definition set_cleanup (t : time) (c : bool) (s : TTLMap) : TTLMap :=
  mkTTLMap (heap s) (newLoc s) (items s) (s_head s) (s_tail s) t c (maxSize s).
Definition set_maxSize (m : Z) (s : TTLMap) : TTLMap :=
  mkTTLMap (heap s) (newLoc s) (items s) (s_head s) (s_tail s) (lastCleanup s) (cleaning s) m.
Definition alloc (k : K) (v : V) (d : time) (s : TTLMap) : nat * TTLMap :=
  (newLoc s, mkTTLMap (<[newLoc s := mkNode k v d None None]> (heap s)) (S (newLoc s)) (items s)
     (s_head s) (s_tail s) (lastCleanup s) (cleaning s) (maxSize s)).

(** [node.prev] and [node.next]. *)
Definition prevOf (s : TTLMap) (l : nat) : option nat := n ← heap s !! l; n_prev n.
Definition nextOf (s : TTLMap) (l : nat) : option nat := n ← heap s !! l; n_next n.

(** ** The list *)
Definition addToFront (x : nat) (s : TTLMap) : TTLMap :=
  let s := set_next x (s_head s) s in
  let s := set_prev x None s in
  let s := match s_head s with Some h => set_prev h (Some x) s | None => s end in
  let s := set_head (Some x) s in
  match s_tail s with None => set_tail (Some x) s | Some _ => s end.

Definition removeNode (x : nat) (s : TTLMap) : TTLMap :=
  let s := match prevOf s x with
           | Some p => set_next p (nextOf s x) s
           | None => set_head (nextOf s x) s
           end in
  match nextOf s x with
  | Some n => set_prev n (prevOf s x) s
  | None => set_tail (prevOf s x) s
  end.

Definition moveToFront (x : nat) (s : TTLMap) : TTLMap :=
  if bool_decide (Some x = s_head s) then s else addToFront x (removeNode x s).

(** [delete(s.items, node.key); s.removeNode(node)] *)
Definition drop (x : nat) (s : TTLMap) : TTLMap :=
  match heap s !! x with
  | Some n => removeNode x (set_items (delete (n_key n) (items s)) s)
  | None => s
  end.

Definition removeOldest (s : TTLMap) : TTLMap :=
  match s_tail s with Some t => drop t s | None => s end.

(** ** The operations *)
Definition New (m : Z) (now : time) : TTLMap := mkTTLMap ∅ 0 ∅ None None now false m.

Definition len (s : TTLMap) : Z := Z.of_nat (size (items s)).

(** [for limit < len(s.items) { s.removeOldest() }]; [None]: the loop is still
    running when the fuel ends. *)
Fixpoint evict (fuel : nat) (limit : Z) (s : TTLMap) : option TTLMap :=
  if limit <? len s then
    match fuel with
    | O => None
    | S fuel => evict fuel limit (removeOldest s)
    end
  else Some s.

(** One round per item is enough when the list links the nodes of the map. *)
Definition evict_fuel (s : TTLMap) : nat := size (items s).

Definition Resize (m : Z) (s : TTLMap) : option TTLMap :=
  s' ← (if m <? maxSize s then evict (evict_fuel s) m s else Some s);
  Some (set_maxSize m s').

(** The tail of [Set] and [Delete]: start a cleanup; the flag says whether the
    goroutine was started.  [t1] is read by [time.Since], [t2] is the new
    [lastCleanup]. *)
Definition maybeCleanup (t1 t2 : time) (s : TTLMap) : TTLMap * bool :=
  if (Second <? Sub t1 (lastCleanup s)) && negb (cleaning s) then (set_cleanup t2 true s, true)
  else (s, false).

(** A new key, when there is room. *)
Definition insertNew (k : K) (v : V) (d t1 t2 : time) (s : TTLMap) : TTLMap * bool :=
  let '(x, s) := alloc k v d s in
  let s := addToFront x s in
  let s := set_items (<[k := x]> (items s)) s in
  maybeCleanup t1 t2 s.

Definition Set_ (k : K) (v : V) (d t1 t2 : time) (s : TTLMap) : option (TTLMap * bool) :=
  match items s !! k with
  | Some x => Some (moveToFront x (set_item x v d s), false)
  | None =>
      s ← evict (evict_fuel s) (maxSize s - 1) s;
      Some (insertNew k v d t1 t2 s)
  end.

(** The atomic sections of [Get]. *)
Definition get_lookup (k : K) (s : TTLMap) : option nat := items s !! k.
(** [node.item.expired(now)], read without a lock. *)
Definition get_expired (x : nat) (now : time) (s : TTLMap) : bool :=
  match heap s !! x with Some n => expired n now | None => false end.
(** [exists && node.item.expired(now)]: delete and unlink. *)
Definition dropExpired (k : K) (now : time) (s : TTLMap) : TTLMap :=
  match items s !! k with
  | Some x => if get_expired x now s then drop x s else s
  | None => s
  end.
Definition get_value (x : nat) (s : TTLMap) : option V := n_value <$> heap s !! x.

(** [Get] when nothing runs between its sections; [None] is [(zero, false)]. *)
Definition Get (k : K) (now : time) (s : TTLMap) : TTLMap * option V :=
  match get_lookup k s with
  | None => (s, None)
  | Some x =>
      if get_expired x now s then (dropExpired k now s, None)
      else let s := moveToFront x s in (s, get_value x s)
  end.

Definition Delete (k : K) (t1 t2 : time) (s : TTLMap) : TTLMap * bool :=
  let s := match items s !! k with Some x => drop x s | None => s end in
  maybeCleanup t1 t2 s.

(** The atomic sections of [cleanupExpired]. *)
Definition cleanup_scan (now : time) (s : TTLMap) : list K :=
  (filter (λ p, get_expired p.2 now s = true) (map_to_list (items s))).*1.
Definition cleanup_sweep (keys : list K) (now : time) (s : TTLMap) : TTLMap :=
  foldl (λ s k, dropExpired k now s) s keys.
Definition cleanup_done (s : TTLMap) : TTLMap := set_cleanup (lastCleanup s) false s.

Definition cleanupExpired (now : time) (s : TTLMap) : TTLMap :=
  let keys := cleanup_scan now s in
  cleanup_done (match keys with [] => s | _ => cleanup_sweep keys now s end).
End ttlmap.

Arguments node : clear implicits.
Arguments TTLMap K V {_ _}.
