(* ===== verification/TTLMapSpec.v ===== *)
(** * xttlmap: the list and the map stay in step *)
From S2P Require Import Prelude Ring TTLMap.

Local Open Scope Z_scope.

Section spec.
Context {K V : Type} `{Countable K}.
Implicit Types (s : TTLMap K V) (xs : list nat) (x : nat).

(** The two pointer fields; [None] stands for the [TTLMap] itself, whose [head]
    and [tail] close the ring. *)
Definition nxt s (a : option nat) : option (option nat) :=
  match a with None => Some (s_head s) | Some l => n_next <$> heap s !! l end.
Definition prv s (a : option nat) : option (option nat) :=
  match a with None => Some (s_tail s) | Some l => n_prev <$> heap s !! l end.

(** What the nodes hold, links apart. *)
Definition data s (l : nat) : option (K * V * time) :=
  (λ n, (n_key n, n_value n, n_deadline n)) <$> heap s !! l.

(** Everything but links and list ends. *)
Definition same s s' : Prop :=
  (∀ l, data s' l = data s l) ∧ newLoc s' = newLoc s ∧ items s' = items s ∧
  lastCleanup s' = lastCleanup s ∧ cleaning s' = cleaning s ∧ maxSize s' = maxSize s.

#[global] Instance same_equiv : Equivalence same.
Proof.
  split.
  - by intros s.
  - intros s s' (? & ? & ? & ? & ? & ?). split_and!; done.
  - intros s1 s2 s3 (D & ? & ? & ? & ? & ?) (D' & ? & ? & ? & ? & ?).
    split_and!; [|congruence..]. intros l. by rewrite D', D.
Qed.

(** Writing one pointer field of a node or of the map. *)
Definition write_next (a v : option nat) s : TTLMap K V :=
  match a with Some l => set_next l v s | None => set_head v s end.
Definition write_prev (a v : option nat) s : TTLMap K V :=
  match a with Some l => set_prev l v s | None => set_tail v s end.

Lemma write_next_spec s a v :
  is_Some (nxt s a) →
  (∀ b, nxt (write_next a v s) b = if decide (b = a) then Some v else nxt s b) ∧
  (∀ b, prv (write_next a v s) b = prv s b) ∧ same s (write_next a v s).
Proof.
  intros Ha. destruct a as [l|]; cbn [write_next].
  - destruct Ha as [o Ha]. cbn in Ha. destruct (heap s !! l) as [n|] eqn:E; [|done].
    split_and!.
    + intros [b|]; [|done]. cbn. rewrite lookup_alter. destruct (decide (l = b)) as [<-|Hne].
      * rewrite E, decide_True by done. done.
      * by rewrite decide_False by congruence.
    + intros [b|]; [|done]. cbn. rewrite lookup_alter. destruct (decide (l = b)) as [<-|Hne]; [|done]. by rewrite E.
    + split_and!; try done. intros b. unfold data. cbn. rewrite lookup_alter.
      destruct (decide (l = b)) as [<-|Hne]; [|done]. by rewrite E.
  - split_and!; [by intros [b|]|by intros [b|]|done].
Qed.

Lemma write_prev_spec s a v :
  is_Some (nxt s a) →
  (∀ b, prv (write_prev a v s) b = if decide (b = a) then Some v else prv s b) ∧
  (∀ b, nxt (write_prev a v s) b = nxt s b) ∧ same s (write_prev a v s).
Proof.
  intros Ha. destruct a as [l|]; cbn [write_prev].
  - destruct Ha as [o Ha]. cbn in Ha. destruct (heap s !! l) as [n|] eqn:E; [|done].
    split_and!.
    + intros [b|]; [|done]. cbn. rewrite lookup_alter. destruct (decide (l = b)) as [<-|Hne].
      * rewrite E, decide_True by done. done.
      * by rewrite decide_False by congruence.
    + intros [b|]; [|done]. cbn. rewrite lookup_alter. destruct (decide (l = b)) as [<-|Hne]; [|done]. by rewrite E.
    + split_and!; try done. intros b. unfold data. cbn. rewrite lookup_alter.
      destruct (decide (l = b)) as [<-|Hne]; [|done]. by rewrite E.
  - split_and!; [by intros [b|]|by intros [b|]|done].
Qed.

Lemma present s l : is_Some (nxt s (Some l)) ↔ is_Some (heap s !! l).
Proof. cbn. rewrite fmap_is_Some. done. Qed.

Lemma present_data s l : is_Some (data s l) ↔ is_Some (heap s !! l).
Proof. unfold data. rewrite fmap_is_Some. done. Qed.

Lemma present_same s s' a : same s s' → is_Some (nxt s a) → is_Some (nxt s' a).
Proof.
  intros (D & _). destruct a as [l|]; [|by eexists]. rewrite !present, <- !present_data. by rewrite D.
Qed.

(** The list of [s], most recent first. *)
Definition linked s xs : Prop :=
  chain (nxt s) (prv s) None (Some <$> xs) None ∧ NoDup xs ∧
  (∀ l, is_Some (heap s !! l) → (l < newLoc s)%nat).

Lemma some_nodup xs : NoDup xs → NoDup (None :: (Some <$> xs)).
Proof.
  intros Hnd. constructor; [by intros (? & ? & ?)%list_elem_of_fmap|]. by apply NoDup_fmap_2; [apply _|].
Qed.

Lemma bounds_same s s' :
  same s s' → (∀ l, is_Some (heap s !! l) → (l < newLoc s)%nat) → ∀ l, is_Some (heap s' !! l) → (l < newLoc s')%nat.
Proof. intros (D & -> & _) Hb l Hl. apply Hb. rewrite <- present_data, <- D, present_data. done. Qed.

Lemma some_elem_mid (l1 l2 : list nat) x : Some x ∈ (Some <$> l1 ++ x :: l2).
Proof. apply list_elem_of_fmap. exists x. split; [done|apply elem_mid]. Qed.

(** Present nodes of a linked list. *)
Lemma linked_next_present s xs a : linked s xs → a ∈ None :: (Some <$> xs) → is_Some (nxt s a).
Proof.
  intros (Hc & _ & _) Ha. apply elem_of_cons in Ha as [->|Ha]; [by eexists|].
  apply list_elem_of_split in Ha as (l & r & E). rewrite E in Hc. apply chain_app in Hc as [_ Hc].
  destruct r; simpl in Hc; destruct Hc as [? ?]; unfold link in *; naive_solver.
Qed.

Lemma before_some_snoc (l : list nat) x : before None (Some <$> l ++ [x]) = Some x.
Proof. rewrite fmap_app. apply before_snoc. Qed.

Lemma linked_at s (l1 l2 : list nat) x :
  linked s (l1 ++ x :: l2) →
  (x ∉ l1) ∧ (x ∉ l2) ∧ is_Some (heap s !! x) ∧
  prevOf s x = before None (Some <$> l1) ∧ nextOf s x = after (Some <$> l2) None.
Proof.
  intros Hl. pose proof (linked_next_present s _ (Some x) Hl) as Hp.
  destruct Hl as (Hc & Hnd & _). apply NoDup_app in Hnd as (_ & Hd & [Hx2 _]%NoDup_cons).
  split_and!; [intros H1; apply (Hd x H1); by left|done| | |].
  - apply present, Hp. right. apply some_elem_mid.
  - rewrite fmap_app, fmap_cons in Hc. pose proof (chain_split _ _ _ _ _ _ Hc) as [_ Hv].
    unfold prevOf. cbn in Hv. destruct (heap s !! x); [|done]. cbn in *. congruence.
  - replace (l1 ++ x :: l2) with ((l1 ++ [x]) ++ l2) in Hc by (by rewrite <- app_assoc).
    rewrite fmap_app in Hc. pose proof (chain_split _ _ _ _ _ _ Hc) as [Hv _].
    rewrite before_some_snoc in Hv. unfold nextOf. cbn in Hv.
    destruct (heap s !! x); [|done]. cbn in *. congruence.
Qed.

Lemma prevOf_prv s x : is_Some (heap s !! x) → prv s (Some x) = Some (prevOf s x).
Proof. intros [n Hn]. unfold prevOf. cbn. by rewrite Hn. Qed.
Lemma nextOf_nxt s x : is_Some (heap s !! x) → nxt s (Some x) = Some (nextOf s x).
Proof. intros [n Hn]. unfold nextOf. cbn. by rewrite Hn. Qed.

(** Unlinking and linking a node. *)
Lemma removeNode_spec s (l1 l2 : list nat) x :
  linked s (l1 ++ x :: l2) → linked (removeNode x s) (l1 ++ l2) ∧ same s (removeNode x s).
Proof.
  intros Hl. destruct (linked_at _ _ _ _ Hl) as (Hx1 & Hx2 & Hx & Hp & Hn).
  pose proof Hl as (Hc & Hnd & Hb).
  set (p := before None (Some <$> l1)) in *. set (n := after (Some <$> l2) None) in *.
  assert (p ∈ None :: (Some <$> l1 ++ l2)) as Hpin by (rewrite fmap_app; apply before_in).
  assert (n ∈ None :: (Some <$> l1 ++ l2)) as Hnin by (rewrite fmap_app; apply after_in).
  assert (∀ a, a ∈ None :: (Some <$> l1 ++ l2) → a ≠ Some x ∧ is_Some (nxt s a)) as Hin.
  { intros a [->|(y & -> & Hy)%list_elem_of_fmap]%elem_of_cons; [split; [done|by eexists]|]. split.
    - intros [= ->]. apply elem_of_app in Hy as [?|?]; done.
    - apply (linked_next_present _ _ _ Hl). right. apply list_elem_of_fmap. exists y. split; [done|].
      apply elem_skip. by right. }
  set (s1 := write_next p n s).
  destruct (write_next_spec s p n) as (N1 & P1 & S1); [by apply Hin|]. fold s1 in N1, P1, S1.
  assert (is_Some (heap s1 !! x)) as Hx' by (apply present, (present_same s), present; done).
  assert (prevOf s1 x = p ∧ nextOf s1 x = n) as [Hp1 Hn1].
  { pose proof (P1 (Some x)) as E1. pose proof (N1 (Some x)) as E2.
    rewrite (prevOf_prv s1), prevOf_prv, Hp in E1 by done. injection E1 as ->.
    rewrite decide_False in E2 by (intros E; destruct (Hin p); done).
    rewrite (nextOf_nxt s1), nextOf_nxt, Hn in E2 by done. by injection E2 as ->. }
  assert (removeNode x s = write_prev n p s1) as ->.
  { unfold removeNode. rewrite Hp, Hn.
    replace (match p with Some p0 => set_next p0 n s | None => set_head n s end) with s1
      by (unfold s1, write_next; by destruct p).
    rewrite Hp1, Hn1. unfold write_prev. by destruct n. }
  destruct (write_prev_spec s1 n p) as (P2 & N2 & S2).
  { apply (present_same s); [done|]. by apply Hin. }
  assert (same s (write_prev n p s1)) as HS by (etrans; [exact S1|exact S2]).
  split; [|done]. split_and!.
  - rewrite fmap_app in *. rewrite fmap_cons in Hc. apply (ring_remove (nxt s) (prv s) _ _ None _ (Some x)).
    + done.
    + rewrite <- fmap_cons, <- fmap_app. by apply some_nodup.
    + split; fold p n; [rewrite N2, N1|rewrite P2]; by rewrite decide_True.
    + intros a Ha Hne. rewrite N2, N1. by rewrite decide_False.
    + intros a Ha Hne. rewrite P2, P1. by rewrite decide_False.
  - eapply sublist_NoDup; [done|]. apply sublist_app; [done|]. by apply sublist_cons.
  - by apply (bounds_same s).
Qed.

Lemma addToFront_spec s xs x :
  linked s xs → x ∉ xs → is_Some (heap s !! x) →
  linked (addToFront x s) (x :: xs) ∧ same s (addToFront x s).
Proof.
  intros Hl Hx Hpx. pose proof Hl as (Hc & Hnd & Hb).
  pose proof (chain_split _ _ None [] _ _ Hc) as [Hhead _]. cbn in Hhead. injection Hhead as Hhead.
  assert (s_tail s = None ↔ xs = []) as Htail.
  { pose proof Hc as Hc'. rewrite <- (app_nil_r (Some <$> xs)) in Hc'.
    pose proof (chain_split _ _ None _ _ _ Hc') as [_ Ht]. cbn in Ht. injection Ht as ->.
    destruct xs as [|y ys _] using rev_ind; [done|]. rewrite before_some_snoc.
    split; [done|]. by destruct ys. }
  set (n := after (Some <$> xs) None) in *.
  assert (n ∈ None :: (Some <$> xs)) as Hnin by apply (after_in None []).
  assert (∀ a, a ∈ None :: (Some <$> xs) → a ≠ Some x) as Hin.
  { intros a [->|(y & -> & Hy)%list_elem_of_fmap]%elem_of_cons; [done|]. by intros [= ->]. }
  set (s1 := write_next (Some x) n s).
  destruct (write_next_spec s (Some x) n) as (N1 & P1 & S1); [by apply present|]. fold s1 in N1, P1, S1.
  set (s2 := write_prev (Some x) None s1).
  destruct (write_prev_spec s1 (Some x) None) as (P2 & N2 & S2); [by apply (present_same s), present|].
  fold s2 in P2, N2, S2.
  set (s3 := write_next None (Some x) s2).
  destruct (write_next_spec s2 None (Some x)) as (N3 & P3 & S3); [by eexists|]. fold s3 in N3, P3, S3.
  set (s4 := write_prev n (Some x) s3).
  destruct (write_prev_spec s3 n (Some x)) as (P4 & N4 & S4).
  { apply (present_same s2); [done|]. apply (present_same s1); [done|]. apply (present_same s); [done|].
    by apply (linked_next_present _ xs). }
  fold s4 in P4, N4, S4.
  assert (addToFront x s = s4) as ->.
  { unfold addToFront. rewrite Hhead. fold (write_next (Some x) n s). fold s1.
    fold (write_prev (Some x) None s1). fold s2. change (s_head s2) with (s_head s). rewrite Hhead.
    unfold s4, s3. destruct n as [h|] eqn:En; cbn [write_prev write_next].
    - change (s_tail (set_head (Some x) (set_prev h (Some x) s2))) with (s_tail s).
      destruct (s_tail s) eqn:Et; [done|]. destruct Htail as [Htail _]. unfold n in En; by rewrite Htail in En.
    - change (s_tail (set_head (Some x) s2)) with (s_tail s).
      destruct xs; [|done]. by rewrite (proj2 Htail). }
  assert (same s s4) as HS by (do 3 (etrans; [done|]); done).
  split; [|done]. split_and!; [|by constructor|by apply (bounds_same s)].
  rewrite fmap_cons. apply (ring_insert (nxt s) (prv s) (nxt s4) (prv s4) None [] (Some x) (Some <$> xs)).
  - done.
  - by apply some_nodup.
  - intros Ha. by apply (Hin _ Ha).
  - split; cbn [before last default]; [rewrite N4, N3; by rewrite decide_True|].
    rewrite P4, P3, P2. rewrite decide_False by (intros E; by apply (Hin n)). by rewrite decide_True.
  - split; fold n; [rewrite N4, N3, N2, N1; by rewrite decide_False, decide_True|].
    rewrite P4. by rewrite decide_True.
  - intros a Ha Hne. cbn in Hne. rewrite N4, N3, N2, N1. rewrite decide_False by done.
    by rewrite decide_False by (by apply Hin).
  - intros a Ha Hne. fold n in Hne. rewrite P4, P3, P2, P1. rewrite decide_False by done.
    by rewrite decide_False by (by apply Hin).
Qed.

(** ** The map indexes exactly the nodes of the list *)
Definition keyOf s l : option K := (λ e, e.1.1) <$> data s l.

Definition indexed s xs : Prop :=
  (∀ k l, items s !! k = Some l ↔ l ∈ xs ∧ keyOf s l = Some k) ∧ size (items s) = length xs.

Definition ttl_ok s xs : Prop := linked s xs ∧ indexed s xs.

(** The entries, most recently used first. *)
Definition view s xs : list (K * V * time) := omap (data s) xs.

Lemma member_data s xs x : linked s xs → x ∈ xs → ∃ k v d, data s x = Some (k, v, d).
Proof.
  intros Hl Hx. pose proof (linked_next_present s xs (Some x) Hl) as Hp.
  destruct (proj2 (present_data s x)) as [[[k v] d] ?]; [|by eauto].
  apply present, Hp. right. apply list_elem_of_fmap. eauto.
Qed.

Lemma key_unique s xs x y k :
  ttl_ok s xs → x ∈ xs → y ∈ xs → keyOf s x = Some k → keyOf s y = Some k → x = y.
Proof.
  intros [_ [Hi _]] Hx Hy Ex Ey. assert (items s !! k = Some x) as E by (by apply Hi).
  assert (items s !! k = Some y) as E' by (by apply Hi). congruence.
Qed.

Lemma view_app s (l1 l2 : list nat) : view s (l1 ++ l2) = view s l1 ++ view s l2.
Proof. apply omap_app. Qed.

Lemma view_ext s s' xs : (∀ x, x ∈ xs → data s' x = data s x) → view s' xs = view s xs.
Proof.
  unfold view. induction xs as [|x xs IH]; intros Hx; [done|]. cbn [omap list_omap].
  rewrite Hx, IH; [done| |by left]. intros y Hy. apply Hx. by right.
Qed.

Lemma view_same s s' xs : same s s' → view s' xs = view s xs.
Proof. intros (D & _). apply view_ext. intros x _. apply D. Qed.

Lemma view_elem s xs k v d : (k, v, d) ∈ view s xs ↔ ∃ x, x ∈ xs ∧ data s x = Some (k, v, d).
Proof. unfold view. rewrite list_elem_of_omap. naive_solver. Qed.

(** Deleting a key from a list of entries. *)
Definition adel (k : K) (es : list (K * V * time)) : list (K * V * time) := filter (λ e, e.1.1 ≠ k) es.

Lemma view_without s (l1 l2 : list nat) x k v d :
  ttl_ok s (l1 ++ x :: l2) → data s x = Some (k, v, d) →
  view s (l1 ++ x :: l2) = view s l1 ++ (k, v, d) :: view s l2 ∧
  adel k (view s (l1 ++ x :: l2)) = view s (l1 ++ l2).
Proof.
  intros Hok Hx. destruct (linked_at _ _ _ _ (proj1 Hok)) as (Hx1 & Hx2 & _).
  assert (view s (l1 ++ x :: l2) = view s l1 ++ (k, v, d) :: view s l2) as E.
  { rewrite view_app. f_equal. unfold view. cbn [omap list_omap]. by rewrite Hx. }
  split; [done|]. rewrite E, view_app. unfold adel. rewrite filter_app, filter_cons_False by (intros Hf; by apply Hf).
  assert (∀ l, (∀ y, y ∈ l → y ∈ l1 ++ l2) → filter (λ e : K * V * time, e.1.1 ≠ k) (view s l) = view s l) as Hall.
  { intros l Hl. apply filter_all, Forall_forall. intros [[k' v'] d'] (y & Hy & Ey)%view_elem. cbn. intros ->.
    specialize (Hl _ Hy). assert (y = x) as ->.
    { apply (key_unique s (l1 ++ x :: l2) y x k Hok); [apply elem_skip; by right|apply elem_mid|..]; unfold keyOf;
        by rewrite ?Ey, ?Hx. }
    apply elem_of_app in Hl as [?|?]; done. }
  rewrite !Hall; [done|..]; intros y Hy; apply elem_of_app; tauto.
Qed.

Lemma adel_absent s xs k : indexed s xs → items s !! k = None → adel k (view s xs) = view s xs.
Proof.
  intros [Hi _] Hk. apply filter_all, Forall_forall. intros [[k' v] d] (x & Hx & E)%view_elem. cbn. intros ->.
  assert (items s !! k = Some x) as E'; [|congruence]. apply Hi. split; [done|]. unfold keyOf. by rewrite E.
Qed.

(** The key of a present item splits the list. *)
Lemma item_split s xs k x :
  ttl_ok s xs → items s !! k = Some x →
  ∃ l1 l2 v d, xs = l1 ++ x :: l2 ∧ data s x = Some (k, v, d).
Proof.
  intros [Hl [Hi _]] [Hx Hk]%Hi. destruct (member_data _ _ _ Hl Hx) as (k' & v & d & E).
  unfold keyOf in Hk. rewrite E in Hk. injection Hk as ->.
  apply list_elem_of_split in Hx as (l1 & l2 & ->). by exists l1, l2, v, d.
Qed.

Lemma linked_items s xs m : linked (set_items m s) xs ↔ linked s xs.
Proof.
  assert (∀ a, nxt (set_items m s) a = nxt s a) as En by (by intros []).
  assert (∀ a, prv (set_items m s) a = prv s a) as Ep by (by intros []).
  unfold linked. split; intros (Hc & Hnd & Hb); split_and!; try done; (eapply chain_frame; [..|exact Hc]);
    intros; by rewrite ?En, ?Ep.
Qed.

Lemma same_link_indexed s s' xs xs' :
  same s s' → indexed s xs → (∀ x, x ∈ xs' ↔ x ∈ xs) → length xs' = length xs → indexed s' xs'.
Proof.
  intros (D & _ & Hit & _) [Hi Hs] Hx Hlen. split; [|by rewrite Hit, Hs].
  intros k l. rewrite Hit, Hi, Hx. unfold keyOf. by rewrite D.
Qed.

(** The fields that list surgery leaves alone. *)
Definition kept s s' : Prop :=
  (∀ l, data s' l = data s l) ∧ newLoc s' = newLoc s ∧
  lastCleanup s' = lastCleanup s ∧ cleaning s' = cleaning s ∧ maxSize s' = maxSize s.

Lemma drop_spec s (l1 l2 : list nat) x k v d :
  ttl_ok s (l1 ++ x :: l2) → data s x = Some (k, v, d) →
  ttl_ok (drop x s) (l1 ++ l2) ∧ kept s (drop x s).
Proof.
  intros Hok Hd. pose proof Hok as [Hl [Hi Hs]]. destruct (linked_at _ _ _ _ Hl) as (Hx1 & Hx2 & [n Hn] & _).
  assert (n_key n = k) as Hk by (unfold data in Hd; rewrite Hn in Hd; cbn in Hd; congruence).
  unfold drop. rewrite Hn, Hk. set (s1 := set_items (delete k (items s)) s).
  destruct (removeNode_spec s1 l1 l2 x) as [Hl' (D & E1 & E2 & E3 & E4 & E5)]; [by apply linked_items|].
  assert (keyOf s x = Some k) as Hkx by (unfold keyOf; by rewrite Hd).
  assert (items s !! k = Some x) as Hik by (apply Hi; split; [apply elem_mid|done]).
  split; [|by split_and!]. split; [done|]. split.
  - intros k' y. rewrite E2. unfold keyOf. rewrite D. fold (keyOf s1 y). change (keyOf s1 y) with (keyOf s y).
    cbn [items s1 set_items]. destruct (decide (k = k')) as [<-|Hne].
    + rewrite lookup_delete_eq. split; [done|]. intros [Hy Ey]. exfalso.
      assert (y = x) as ->.
      { apply (key_unique s (l1 ++ x :: l2) y x k Hok); [apply elem_skip; by right|apply elem_mid|done..]. }
      apply elem_of_app in Hy as [?|?]; done.
    + rewrite lookup_delete_ne by done. rewrite Hi, elem_skip. split; [|tauto].
      intros [[->|?] ?]; [congruence|done].
  - rewrite E2. cbn [items s1 set_items]. rewrite map_size_delete_Some by (by eexists).
    rewrite Hs, !length_app. cbn. lia.
Qed.

Lemma moveToFront_spec s (l1 l2 : list nat) x :
  ttl_ok s (l1 ++ x :: l2) →
  ttl_ok (moveToFront x s) (x :: l1 ++ l2) ∧ same s (moveToFront x s).
Proof.
  intros Hok. pose proof Hok as [Hl Hi]. unfold moveToFront. case_bool_decide as E.
  - pose proof Hl as (Hc & _). pose proof (chain_split _ _ None [] _ _ Hc) as [Hh _].
    cbn in Hh. injection Hh as Hh. rewrite Hh in E. destruct l1 as [|y l1]; [done|]. cbn in E. injection E as ->.
    destruct (linked_at _ _ _ _ Hl) as (Hx1 & _). destruct Hx1. by left.
  - destruct (linked_at _ _ _ _ Hl) as (Hx1 & Hx2 & Hx & _).
    destruct (removeNode_spec _ _ _ _ Hl) as [Hl1 S1].
    destruct (addToFront_spec (removeNode x s) (l1 ++ l2) x) as [Hl2 S2]; [done| | |].
    { intros [?|?]%elem_of_app; done. } { by apply present, (present_same s), present. }
    assert (same s (addToFront x (removeNode x s))) as S by (by etrans). split; [|done]. split; [done|].
    eapply same_link_indexed; [done..| |].
    + intros y. by rewrite elem_of_cons, elem_skip.
    + cbn. rewrite !length_app. cbn. lia.
Qed.
End spec.
