(* ===== verification/TTLMapProps.v ===== *)
(** * xttlmap: the map is a bounded LRU list of entries with deadlines *)
From S2P Require Import Prelude Ring TTLMap TTLMapSpec.

Local Open Scope Z_scope.

Section abstract.
Context {K V : Type} `{Countable K}.
Local Abbreviation entry := (K * V * time)%type.
Implicit Types (es : list entry).

(** ** The abstract map: entries, most recently used first *)
Definition dead (e : entry) (now : time) : bool := if IsZero e.2 then false else After now e.2.

Definition afind (k : K) es : option entry := head (filter (λ e, e.1.1 = k) es).

Definition aset (k : K) (v : V) (d : time) (max : Z) es : list entry :=
  match afind k es with
  | Some _ => (k, v, d) :: adel k es
  | None => (k, v, d) :: take (Z.to_nat (max - 1)) es
  end.

Definition aget (k : K) (now : time) es : list entry * option V :=
  match afind k es with
  | None => (es, None)
  | Some e => if dead e now then (adel k es, None) else (e :: adel k es, Some e.1.2)
  end.

Definition aresize (m max : Z) es : list entry := if m <? max then take (Z.to_nat m) es else es.

(** The second half of a cleanup: only keys of [keys] that are dead by now go. *)
Definition asweep (keys : list K) (now : time) es : list entry :=
  filter (λ e, ¬ (e.1.1 ∈ keys ∧ dead e now = true)) es.

(** ** The operations as a client sees them *)
Inductive top : Type :=
  | TSet (k : K) (v : V) (d t1 t2 : time)
  | TGet (k : K) (now : time)
  | TDelete (k : K) (t1 t2 : time)
  | TResize (m : Z)
  | TSweep (keys : list K) (now : time)
  | TDone.

Definition texec (op : top) (s : TTLMap K V) : option (TTLMap K V * option V) :=
  match op with
  | TSet k v d t1 t2 => p ← Set_ k v d t1 t2 s; Some (p.1, None)
  | TGet k now => Some (Get k now s)
  | TDelete k t1 t2 => Some ((Delete k t1 t2 s).1, None)
  | TResize m => s' ← Resize m s; Some (s', None)
  | TSweep keys now => Some (cleanup_sweep keys now s, None)
  | TDone => Some (cleanup_done s, None)
  end.

Definition tabs (op : top) (max : Z) es : list entry * option V :=
  match op with
  | TSet k v d _ _ => (aset k v d max es, None)
  | TGet k now => aget k now es
  | TDelete k _ _ => (adel k es, None)
  | TResize m => (aresize m max es, None)
  | TSweep keys now => (asweep keys now es, None)
  | TDone => (es, None)
  end.

Definition new_max (op : top) (max : Z) : Z := match op with TResize m => m | _ => max end.
End abstract.

Section refinement.
Context {K V : Type} `{Countable K}.
Local Abbreviation entry := (K * V * time)%type.
Implicit Types (s : TTLMap K V) (xs : list nat) (es : list entry).

(** ** Entries and nodes *)
Lemma dead_expired s x k v d now :
  data s x = Some (k, v, d) → get_expired x now s = dead (k, v, d) now.
Proof. unfold data, get_expired, expired, dead. destruct (heap s !! x); intros [= <- <- <-]. done. Qed.

Lemma afind_view s xs k :
  ttl_ok s xs → afind k (view s xs) = (x ← items s !! k; data s x).
Proof.
  intros Hok. destruct (items s !! k) as [x|] eqn:E; cbn.
  - destruct (item_split _ _ _ _ Hok E) as (l1 & l2 & v & d & -> & Hd).
    destruct (view_without _ _ _ _ _ _ _ Hok Hd) as [-> _]. rewrite Hd. unfold afind.
    rewrite filter_app. rewrite (filter_none _ (view s l1)).
    + by rewrite filter_cons_True.
    + apply Forall_forall. intros [[k' v'] d'] (y & Hy & Ey)%view_elem. cbn. intros ->.
      destruct (linked_at _ _ _ _ (proj1 Hok)) as (Hx1 & _). apply Hx1.
      assert (y = x) as ->; [|done].
      apply (key_unique s (l1 ++ x :: l2) y x k Hok); [apply elem_of_app; by left|apply elem_mid|..]; unfold keyOf;
        by rewrite ?Ey, ?Hd.
  - unfold afind. rewrite filter_none; [done|]. apply Forall_forall.
    intros [[k' v'] d'] (y & Hy & Ey)%view_elem. cbn. intros ->. destruct Hok as [_ [Hi _]].
    assert (items s !! k = Some y); [|congruence]. apply Hi. split; [done|]. unfold keyOf. by rewrite Ey.
Qed.

(** Every node of the list has data, so a prefix of the nodes is a prefix of the
    entries. *)
Lemma view_take_all s xs n :
  (∀ y, y ∈ xs → is_Some (data s y)) →
  view s (take n xs) = take n (view s xs) ∧ length (view s xs) = length xs.
Proof.
  revert n. induction xs as [|y xs IH]; intros n Hy; [by destruct n|].
  destruct (Hy y ltac:(by left)) as [e E]. unfold view in *. destruct n; cbn [take omap list_omap]; rewrite E.
  - split; [done|]. cbn. f_equal. apply (IH 0%nat). intros z Hz. apply Hy. by right.
  - destruct (IH n) as [-> IH2]; [intros z Hz; apply Hy; by right|]. cbn. by rewrite IH2.
Qed.

Lemma view_take s xs n :
  linked s xs → view s (take n xs) = take n (view s xs) ∧ length (view s xs) = length xs.
Proof.
  intros Hl. apply view_take_all. intros y Hy. destruct (member_data _ _ _ Hl Hy) as (? & ? & ? & ->). eauto.
Qed.

(** ** Eviction *)
Lemma removeOldest_spec s xs x :
  ttl_ok s (xs ++ [x]) → ttl_ok (removeOldest s) xs ∧ kept s (removeOldest s).
Proof.
  intros Hok. pose proof Hok as [Hl _]. pose proof Hl as (Hc & _).
  destruct (member_data s _ x Hl) as (k & v & d & Hd); [apply elem_mid|].
  rewrite <- (app_nil_r (Some <$> xs ++ [x])) in Hc. pose proof (chain_split _ _ None _ _ _ Hc) as [_ Ht].
  rewrite before_some_snoc in Ht. cbn in Ht. injection Ht as Ht. unfold removeOldest. rewrite Ht.
  destruct (drop_spec s xs [] x k v d Hok Hd) as [Hok' Hk]. by rewrite app_nil_r in Hok'.
Qed.

Lemma kept_trans s1 s2 s3 : kept s1 s2 → kept s2 s3 → kept s1 s3.
Proof.
  intros (D & ? & ? & ? & ?) (D' & ? & ? & ? & ?). split_and!; [|congruence..]. intros l. by rewrite D', D.
Qed.

Lemma ok_len s xs : ttl_ok s xs → len s = zlen xs.
Proof. intros [_ [_ Hs]]. unfold len, zlen. by rewrite Hs. Qed.

Lemma evict_spec fuel s xs limit :
  ttl_ok s xs → 0 ≤ limit → (length xs ≤ fuel)%nat →
  ∃ s', evict fuel limit s = Some s' ∧ ttl_ok s' (take (Z.to_nat limit) xs) ∧ kept s s'.
Proof.
  revert s xs. induction fuel as [|fuel IH]; intros s xs Hok Hm Hf; cbn [evict]; rewrite (ok_len _ _ Hok);
    unfold zlen; case_match eqn:E; try apply Z.ltb_lt in E; try apply Z.ltb_ge in E; try lia.
  - exists s. rewrite take_ge by lia. done.
  - destruct xs as [|x xs _] using rev_ind; [cbn in E; lia|]. rewrite length_app in *. cbn in *.
    destruct (removeOldest_spec _ _ _ Hok) as [Hok1 Hk1].
    destruct (IH _ _ Hok1 Hm ltac:(lia)) as (s' & Hrun & Hok' & Hk'). exists s'. split_and!; [done| |].
    + by rewrite take_app_le by lia.
    + by eapply kept_trans.
  - exists s. rewrite take_ge by lia. done.
Qed.

(** A limit below zero is never reached: the loop does not end. *)
Lemma evict_diverges fuel s limit : limit < 0 → evict fuel limit s = None.
Proof.
  intros Hl. revert s. induction fuel as [|fuel IH]; intros s; cbn [evict];
    rewrite (proj2 (Z.ltb_lt _ _)); try done; unfold len; lia.
Qed.

(** ** Writing and allocating items *)
Lemma set_item_spec s (l1 l2 : list nat) x k v d v' d' :
  ttl_ok s (l1 ++ x :: l2) → data s x = Some (k, v, d) →
  let s' := set_item x v' d' s in
  ttl_ok s' (l1 ++ x :: l2) ∧ data s' x = Some (k, v', d') ∧ (∀ y, y ≠ x → data s' y = data s y).
Proof.
  intros Hok Hd s'. pose proof Hok as [(Hc & Hnd & Hb) [Hi Hs]].
  assert (∃ n, heap s !! x = Some n) as [n Hn].
  { unfold data in Hd. destruct (heap s !! x); [eauto|done]. }
  assert (data s' x = Some (k, v', d')) as Hdx.
  { unfold data in *. cbn. rewrite lookup_alter_eq, Hn. rewrite Hn in Hd. cbn in *. congruence. }
  assert (∀ y, y ≠ x → data s' y = data s y) as Hdy.
  { intros y Hy. unfold data. cbn. by rewrite lookup_alter_ne. }
  split_and!; [|done..]. split; [split_and!|split]; try done.
  - eapply chain_frame; [..|exact Hc]; intros [a|] _; try done; cbn; rewrite lookup_alter;
      case_decide; subst; by rewrite ?Hn.
  - intros l Hl. apply Hb. cbn in Hl. by rewrite lookup_alter_is_Some in Hl.
  - intros k' y. cbn [items set_item on_node s']. rewrite Hi. unfold keyOf.
    destruct (decide (y = x)) as [->|Hne]; [by rewrite Hdx, Hd|by rewrite Hdy].
Qed.

Lemma insert_new s xs k v d :
  ttl_ok s xs → items s !! k = None →
  let '(x, s1) := alloc k v d s in
  let s2 := addToFront x s1 in
  let s3 := set_items (<[k := x]> (items s2)) s2 in
  ttl_ok s3 (x :: xs) ∧ view s3 (x :: xs) = (k, v, d) :: view s xs ∧ maxSize s3 = maxSize s.
Proof.
  intros Hok Hk. pose proof Hok as [Hl [Hi Hs]]. cbn [alloc].
  set (x := newLoc s). set (s1 := mkTTLMap _ _ _ _ _ _ _ _).
  assert (heap s !! x = None) as Hfresh.
  { destruct (heap s !! x) eqn:E; [|done]. pose proof Hl as (_ & _ & Hb). specialize (Hb x ltac:(by eexists)). lia. }
  assert (x ∉ xs) as Hx.
  { intros Hx. destruct (member_data _ _ _ Hl Hx) as (? & ? & ? & E). unfold data in E. by rewrite Hfresh in E. }
  assert (∀ y, y ≠ x → heap s1 !! y = heap s !! y) as Hh by (intros y Hy; cbn; by rewrite lookup_insert_ne).
  assert (data s1 x = Some (k, v, d)) as Hdx by (unfold data; cbn; by rewrite lookup_insert_eq).
  assert (∀ y, y ≠ x → data s1 y = data s y) as Hdy by (intros y Hy; unfold data; by rewrite Hh).
  assert (linked s1 xs) as Hl1.
  { pose proof Hl as (Hc & Hnd & Hb). split_and!; [|done|].
    - eapply chain_frame; [..|exact Hc]; intros [a|] Ha; try done; unfold nxt, prv; (rewrite Hh; [done|]); intros ->.
      + apply elem_of_cons in Ha as [?|(? & [= <-] & ?)%list_elem_of_fmap]; done.
      + apply elem_of_app in Ha as [(? & [= <-] & ?)%list_elem_of_fmap|Ha%list_elem_of_singleton]; done.
    - intros y Hy. cbn. destruct (decide (y = x)) as [->|Hne]; [unfold x; lia|]. rewrite Hh in Hy by done.
      specialize (Hb _ Hy). lia. }
  destruct (addToFront_spec s1 xs x Hl1 Hx) as [Hl2 (D & E1 & E2 & E3 & E4 & E5)].
  { cbn. rewrite lookup_insert_eq. by eexists. }
  set (s2 := addToFront x s1) in *.
  assert (∀ y, y ≠ x → data s2 y = data s y) as Hd2 by (intros y Hy; by rewrite D, Hdy).
  split_and!.
  - split; [by apply linked_items|]. split.
    + intros k' y. cbn [items set_items]. rewrite E2. cbn [items s1]. unfold keyOf.
      change (data (set_items _ s2) y) with (data s2 y). rewrite D, elem_of_cons.
      destruct (decide (k = k')) as [<-|Hne].
      * rewrite lookup_insert_eq. split; [intros [= <-]; rewrite Hdx; auto|].
        intros [[->|Hy] Ek]; [done|]. exfalso. rewrite Hdy in Ek by (intros ->; done).
        assert (items s !! k = Some y); [by apply Hi|congruence].
      * rewrite lookup_insert_ne, Hi by done. split.
        -- intros [Hy Ek]. rewrite Hdy by (intros ->; done). auto.
        -- intros [[->|Hy] Ek]; [rewrite Hdx in Ek; cbn in Ek; congruence|].
           rewrite Hdy in Ek by (intros ->; done). auto.
    + cbn [items set_items]. rewrite E2. cbn [items s1]. rewrite map_size_insert_None by done. cbn. by rewrite Hs.
  - unfold view at 1. cbn [omap list_omap]. change (data (set_items _ s2) x) with (data s2 x). rewrite D, Hdx.
    f_equal. apply view_ext. intros y Hy. apply Hd2. by intros ->.
  - cbn. by rewrite E5.
Qed.

(** ** Each operation against the entries *)

(** A well-formed map and its bound. *)
Definition ttl_inv s xs : Prop := ttl_ok s xs ∧ 1 ≤ maxSize s ∧ zlen xs ≤ maxSize s.

Definition refined s (op : top) : Prop :=
  ∀ xs, ttl_inv s xs → 1 ≤ new_max op (maxSize s) →
  ∃ s' xs' r, texec op s = Some (s', r) ∧ ttl_inv s' xs' ∧ maxSize s' = new_max op (maxSize s) ∧
    (view s' xs', r) = tabs op (maxSize s) (view s xs).

Lemma cleanup_flags s xs t1 t2 :
  ttl_ok s xs → let s' := (maybeCleanup t1 t2 s).1 in
  ttl_ok s' xs ∧ view s' xs = view s xs ∧ maxSize s' = maxSize s.
Proof. intros Hok. unfold maybeCleanup. by case_match. Qed.

Lemma set_refined s k v d t1 t2 : refined s (TSet k v d t1 t2).
Proof.
  intros xs (Hok & Hm & Hb) _. cbn [texec tabs new_max]. unfold aset, Set_, insertNew. rewrite (afind_view _ _ _ Hok).
  destruct (items s !! k) as [x|] eqn:E; cbn [mbind option_bind].
  - destruct (item_split _ _ _ _ Hok E) as (l1 & l2 & v0 & d0 & -> & Hd). rewrite Hd.
    destruct (set_item_spec _ _ _ _ _ _ _ v d Hok Hd) as (Hok1 & Hdx & Hdy).
    destruct (moveToFront_spec _ _ _ _ Hok1) as [Hok2 HS].
    pose proof HS as (_ & _ & _ & _ & _ & HM). cbn [maxSize set_item on_node] in HM.
    eexists _, _, _. split; [done|]. cbn [fst]. split_and!; [split; [done|]|done|].
    { rewrite HM, zlen_cons. rewrite zlen_app in *. rewrite zlen_cons in Hb. lia. }
    f_equal. rewrite (view_same (set_item x v d s)) by done.
    destruct (view_without _ _ _ _ _ _ _ Hok Hd) as [_ ->].
    unfold view at 1. cbn [omap list_omap]. rewrite Hdx. f_equal. apply view_ext. intros y Hy. apply Hdy.
    destruct (linked_at _ _ _ _ (proj1 Hok)) as (Hx1 & Hx2 & _). intros ->. apply elem_of_app in Hy as [?|?]; done.
  - destruct (evict_spec (evict_fuel s) s xs (maxSize s - 1) Hok) as (s1 & Hrun & Hok1 & Hk1); [lia| |].
    { unfold evict_fuel. by destruct Hok as [_ [_ ->]]. }
    rewrite Hrun. cbn [mbind option_bind].
    assert (items s1 !! k = None) as E1.
    { destruct (items s1 !! k) as [x|] eqn:E1; [|done]. pose proof Hok as [_ [Hi _]].
      destruct Hok1 as [_ [Hi1 _]]. apply Hi1 in E1 as [Hx Ek].
      assert (items s !! k = Some x); [|congruence]. apply Hi. split; [by apply (subseteq_take (Z.to_nat (maxSize s - 1)))|].
      unfold keyOf in *. destruct Hk1 as (D & _). by rewrite <- D. }
    pose proof (insert_new s1 _ k v d Hok1 E1) as Hins. cbn [alloc] in Hins |- *. cbv zeta in Hins |- *.
    set (s3 := set_items _ _) in *. destruct Hins as (Hok3 & Hv3 & Hm3).
    destruct (cleanup_flags _ _ t1 t2 Hok3) as (Hok4 & Hv4 & Hm4). cbv zeta in *.
    assert (maxSize s1 = maxSize s) as Em by apply Hk1.
    eexists _, _, _. split; [done|]. rewrite Hm4, Hm3, Em. split_and!; [|done|].
    + split; [done|]. rewrite Hm4, Hm3, Em. split; [done|]. rewrite zlen_cons. unfold zlen. rewrite length_take. lia.
    + f_equal. rewrite Hv4, Hv3. f_equal. destruct (view_take s xs (Z.to_nat (maxSize s - 1)) (proj1 Hok)) as [<- _].
      apply view_ext. intros y _. apply Hk1.
Qed.

Lemma drop_key s xs k x :
  ttl_ok s xs → items s !! k = Some x →
  ∃ xs', ttl_ok (drop x s) xs' ∧ view (drop x s) xs' = adel k (view s xs) ∧
    maxSize (drop x s) = maxSize s ∧ zlen xs' ≤ zlen xs.
Proof.
  intros Hok E. destruct (item_split _ _ _ _ Hok E) as (l1 & l2 & v & d & -> & Hd).
  destruct (drop_spec _ _ _ _ _ _ _ Hok Hd) as [Hok' Hk]. exists (l1 ++ l2). split_and!; [done| |apply Hk|].
  - destruct (view_without _ _ _ _ _ _ _ Hok Hd) as [_ ->]. apply view_ext. intros y _. apply Hk.
  - rewrite !zlen_app, zlen_cons. lia.
Qed.

Lemma delete_refined s k t1 t2 : refined s (TDelete k t1 t2).
Proof.
  intros xs (Hok & Hm & Hb) _. cbn [texec tabs new_max]. unfold Delete.
  set (s1 := match items s !! k with Some x => drop x s | None => s end).
  assert (∃ xs', ttl_ok s1 xs' ∧ view s1 xs' = adel k (view s xs) ∧ maxSize s1 = maxSize s ∧ zlen xs' ≤ zlen xs)
    as (xs' & Hok1 & Hv & Hm1 & Hl).
  { unfold s1. destruct (items s !! k) as [x|] eqn:E; [by apply drop_key|].
    exists xs. split_and!; try done. symmetry. eapply adel_absent; [apply Hok|done]. }
  destruct (cleanup_flags _ _ t1 t2 Hok1) as (Hok2 & Hv2 & Hm2).
  eexists _, xs', _. split; [done|]. rewrite Hm2, Hm1. split_and!; [|done|by rewrite Hv2, Hv].
  split; [done|]. rewrite Hm2, Hm1. lia.
Qed.

Lemma get_refined s k now : refined s (TGet k now).
Proof.
  intros xs (Hok & Hm & Hb) _. cbn [texec tabs new_max]. unfold aget, Get, get_lookup, dropExpired.
  rewrite (afind_view _ _ _ Hok). destruct (items s !! k) as [x|] eqn:E; cbn [mbind option_bind]; [|by eexists _, xs, _].
  destruct (item_split _ _ _ _ Hok E) as (l1 & l2 & v & d & -> & Hd). rewrite Hd, (dead_expired _ _ _ _ _ _ Hd).
  destruct (dead (k, v, d) now) eqn:Ed.
  - destruct (drop_key _ _ _ _ Hok E) as (xs' & Hok' & Hv & Hm' & Hl).
    eexists _, xs', _. split; [done|]. rewrite Hv. split_and!; [split; [done|]; rewrite Hm'; lia|done|done].
  - destruct (moveToFront_spec _ _ _ _ Hok) as [Hok' HS]. eexists _, _, _. split; [done|].
    pose proof HS as (D & _ & _ & _ & _ & HM). rewrite HM. split_and!; [|done|].
    + split; [done|]. rewrite HM, zlen_cons. rewrite zlen_app in *. rewrite zlen_cons in Hb. lia.
    + destruct (view_without _ _ _ _ _ _ _ Hok Hd) as [_ ->]. rewrite (view_same s) by done. f_equal.
      * unfold view at 1. cbn [omap list_omap]. by rewrite Hd.
      * unfold get_value. pose proof (D x) as Ex. rewrite Hd in Ex. unfold data in Ex.
        destruct (heap (moveToFront x s) !! x); [|done]. cbn in *. congruence.
Qed.

Lemma resize_refined s m : refined s (TResize m).
Proof.
  intros xs (Hok & Hm & Hb) Hn. cbn [texec tabs new_max] in *. unfold Resize, aresize.
  case_match eqn:E; [apply Z.ltb_lt in E|apply Z.ltb_ge in E].
  - destruct (evict_spec (evict_fuel s) s xs m Hok) as (s1 & -> & Hok1 & Hk1); [lia| |].
    { unfold evict_fuel. by destruct Hok as [_ [_ ->]]. }
    cbn [mbind option_bind]. eexists _, _, _. split; [done|]. split_and!; [|done|].
    + split; [done|]. cbn [maxSize set_maxSize]. unfold zlen. rewrite length_take. lia.
    + f_equal. destruct (view_take s xs (Z.to_nat m) (proj1 Hok)) as [<- _].
      apply view_ext. intros y _. change (data s1 y = data s y). apply Hk1.
  - cbn [mbind option_bind]. eexists _, xs, _. split; [done|]. split_and!; [split; [done|]; cbn [maxSize set_maxSize]; lia|done|done].
Qed.

Lemma dropExpired_spec s xs k now :
  ttl_ok s xs → ∃ xs', ttl_ok (dropExpired k now s) xs' ∧
    view (dropExpired k now s) xs' = filter (λ e, ¬ (e.1.1 = k ∧ dead e now = true)) (view s xs) ∧
    maxSize (dropExpired k now s) = maxSize s ∧ zlen xs' ≤ zlen xs.
Proof.
  intros Hok. unfold dropExpired. destruct (items s !! k) as [x|] eqn:E.
  - destruct (item_split _ _ _ _ Hok E) as (l1 & l2 & v & d & Hxs & Hd).
    assert (∀ e, e ∈ view s xs → e.1.1 = k → e = (k, v, d)) as Huniq.
    { intros [[k' v'] d'] (y & Hy & Ey)%view_elem. cbn. intros ->.
      assert (y = x) as ->; [|congruence]. apply (key_unique s xs y x k Hok); [done|rewrite Hxs; apply elem_mid|..];
        unfold keyOf; by rewrite ?Ey, ?Hd. }
    rewrite (dead_expired _ _ _ _ _ _ Hd). destruct (dead (k, v, d) now) eqn:Ed.
    + destruct (drop_key _ _ _ _ Hok E) as (xs' & Hok' & Hv & ?). exists xs'. split_and!; try tauto. rewrite Hv.
      apply filter_ext_in. intros e He. split; [tauto|]. intros Hn Hk. apply Hn. split; [done|].
      by rewrite (Huniq e He Hk).
    + exists xs. split_and!; try done. symmetry. apply filter_all, Forall_forall. intros e He [Hk Hde].
      rewrite (Huniq e He Hk) in Hde. congruence.
  - exists xs. split_and!; try done. symmetry. rewrite <- (adel_absent s xs k (proj2 Hok) E) at 2.
    apply filter_ext_in. intros [[k' v'] d'] (y & Hy & Ey)%view_elem. cbn.
    destruct (decide (k' = k)) as [->|]; [|naive_solver]. exfalso. pose proof Hok as [_ [Hi _]].
    assert (items s !! k = Some y); [|congruence]. apply Hi. split; [done|]. unfold keyOf. by rewrite Ey.
Qed.

Lemma sweep_spec keys s xs now :
  ttl_ok s xs → ∃ xs', ttl_ok (cleanup_sweep keys now s) xs' ∧
    view (cleanup_sweep keys now s) xs' = asweep keys now (view s xs) ∧
    maxSize (cleanup_sweep keys now s) = maxSize s ∧ zlen xs' ≤ zlen xs.
Proof.
  revert s xs. induction keys as [|k keys IH]; intros s xs Hok; cbn [cleanup_sweep foldl].
  - exists xs. split_and!; try done. symmetry. apply filter_all, Forall_forall. intros e _ [Hk _].
    by apply not_elem_of_nil in Hk.
  - destruct (dropExpired_spec s xs k now Hok) as (xs1 & Hok1 & Hv1 & Hm1 & Hl1).
    destruct (IH _ _ Hok1) as (xs2 & Hok2 & Hv2 & Hm2 & Hl2). exists xs2.
    split_and!; [done| |by etrans|lia].
    unfold cleanup_sweep in Hv2. rewrite Hv2, Hv1. unfold asweep. rewrite list_filter_filter.
    apply filter_ext_in. intros e _. rewrite elem_of_cons. tauto.
Qed.

Lemma sweep_refined s keys now : refined s (TSweep keys now).
Proof.
  intros xs (Hok & Hm & Hb) _. cbn [texec tabs new_max].
  destruct (sweep_spec keys s xs now Hok) as (xs' & Hok' & Hv & Hm' & Hl).
  eexists _, xs', _. split; [done|]. split_and!; [split; [done|]; lia|done|]. by rewrite Hv.
Qed.

(** C4: every operation of the map (sequentially, and with the two halves of a
    background cleanup at any point) refines the bounded LRU list of entries:
    [Set] puts its entry in front and evicts from the back, [Get] returns the live
    value and promotes it or drops a dead one, [Delete], [Resize] and the sweep remove
    what they should.  The size bound is kept and every call returns. *)
Theorem ttl_refines s xs (op : top) :
  ttl_inv s xs → 1 ≤ new_max op (maxSize s) →
  ∃ s' xs' r, texec op s = Some (s', r) ∧ ttl_inv s' xs' ∧ maxSize s' = new_max op (maxSize s) ∧
    (view s' xs', r) = tabs op (maxSize s) (view s xs).
Proof.
  intros Hinv Hm. assert (refined s op) as Href; [|by apply Href].
  destruct op; [apply set_refined|apply get_refined|apply delete_refined|apply resize_refined|apply sweep_refined|].
  intros xs' Hinv' _. by exists (cleanup_done s), xs', None.
Qed.

(** A background cleanup removes exactly the entries whose deadline has passed,
    and clears the flag that keeps a second cleanup from starting. *)
Theorem cleanup_exact s xs now :
  ttl_inv s xs →
  ∃ xs', ttl_inv (cleanupExpired now s) xs' ∧ cleaning (cleanupExpired now s) = false ∧
    view (cleanupExpired now s) xs' = filter (λ e, dead e now = false) (view s xs).
Proof.
  intros (Hok & Hm & Hb). set (keys := cleanup_scan now s).
  assert (∀ e, e ∈ view s xs → dead e now = true → e.1.1 ∈ keys) as Hkeys.
  { intros [[k v] d] (x & Hx & Ex)%view_elem Hd. cbn. unfold keys, cleanup_scan. apply list_elem_of_fmap.
    exists (k, x). split; [done|]. apply list_elem_of_filter. cbn. split; [by rewrite (dead_expired _ _ _ _ _ _ Ex)|].
    apply elem_of_map_to_list. apply Hok. split; [done|]. unfold keyOf. by rewrite Ex. }
  destruct (sweep_spec keys s xs now Hok) as (xs' & Hok' & Hv & Hm' & Hl).
  assert (cleanupExpired now s = cleanup_done (cleanup_sweep keys now s)) as ->.
  { unfold cleanupExpired. fold keys. by destruct keys. }
  exists xs'. split_and!; [|done|].
  - split; [done|]. cbn [maxSize cleanup_done set_cleanup]. lia.
  - change (view (cleanup_sweep keys now s) xs' = filter (λ e, dead e now = false) (view s xs)). rewrite Hv.
    apply filter_ext_in. intros e He. rewrite not_and_l. pose proof (Hkeys e He).
    destruct (dead e now); naive_solver.
Qed.

(** With a capacity below one, storing a new key never returns, however many
    rounds its eviction loop is given, and it holds the map's lock meanwhile. *)
Theorem set_diverges s k (fuel : nat) :
  maxSize s ≤ 0 → items s !! k = None →
  evict fuel (maxSize s - 1) s = None ∧ ∀ v d t1 t2, Set_ k v d t1 t2 s = None.
Proof.
  intros Hm Hk. split; [apply evict_diverges; lia|]. intros v d t1 t2. unfold Set_. rewrite Hk.
  by rewrite evict_diverges by lia.
Qed.

(** A new map is well formed. *)
Lemma New_inv m now : 1 ≤ m → ttl_inv (New m now) [].
Proof.
  intros Hm. split_and!; [|done|unfold zlen; cbn; lia]. split; [split_and!|split].
  - done.
  - constructor.
  - by intros l [? ?].
  - intros k l. cbn. rewrite lookup_empty. split; [done|]. intros [Hl _]. by apply not_elem_of_nil in Hl.
  - done.
Qed.
End refinement.

(** ** Concrete runs *)
Definition one_entry : TTLMap Z Z :=
  match Set_ 7 10 0 1 1 (New 1 0) with Some p => p.1 | None => New 1 0 end.

Lemma one_entry_inv : ttl_inv one_entry [0%nat].
Proof.
  destruct (set_refined (New 1 0) 7 10 0 1 1 [] (New_inv 1 0 ltac:(lia)) ltac:(cbn; lia))
    as (s & xs & r & Hrun & Hinv & _ & Hv).
  vm_compute in Hrun. injection Hrun as <- <-.
  replace [0%nat] with xs; [exact Hinv|]. destruct Hinv as ((Hl & Hi & Hs) & _).
  assert (∀ l, l ∈ xs ↔ l = 0%nat) as Hx.
  { intros l. split.
    - intros Hl'. destruct (member_data _ _ _ Hl Hl') as (k & v & d & E). unfold data in E. cbn in E.
      destruct (decide (l = 0%nat)) as [->|Hne]; [done|]. exfalso.
      rewrite fmap_Some in E. destruct E as (n & E & _).
      change (({[0%nat := mkNode 7 10 0 None None]} : gmap nat (node Z Z)) !! l = Some n) in E.
      by rewrite lookup_singleton_ne in E.
    - intros ->. by apply (Hi 7). }
  destruct xs as [|x [|y xs]]; [done| |cbn in Hs; done].
  by rewrite (proj1 (Hx x) ltac:(by left)).
Qed.

Lemma ttl_refines_witness :
  ∃ s' xs', texec (TSet 8 20 0 1 1) one_entry = Some (s', None) ∧ ttl_inv s' xs' ∧ view s' xs' = [(8, 20, 0)].
Proof.
  destruct (ttl_refines one_entry [0%nat] (TSet 8 20 0 1 1) one_entry_inv) as (s' & xs' & r & Hrun & Hinv & _ & Hv).
  - cbn. discriminate.
  - vm_compute in Hv. injection Hv as Hv ->. exists s', xs'. split; [exact Hrun|]. split; [exact Hinv|exact Hv].
Defined.

Lemma cleanup_exact_witness :
  ∃ xs', ttl_inv (cleanupExpired 5 one_entry) xs' ∧ view (cleanupExpired 5 one_entry) xs' = [(7, 10, 0)].
Proof.
  destruct (cleanup_exact one_entry [0%nat] 5 one_entry_inv) as (xs' & Hinv & _ & Hv).
  exists xs'. split; [exact Hinv|exact Hv].
Defined.

Lemma set_diverges_witness : Set_ 7 10 0 1 1 (New 0 0) = None.
Proof. apply (set_diverges (New 0 0) 7 3); vm_compute; [discriminate|reflexivity]. Defined.

(** [Get] drops its lock between the lookup and [moveToFront].  When a
    [Delete] of the key runs in between, the promoted node is in the list but not in
    the map: the structure is no longer well formed, and the next store of the same
    key followed by an eviction deletes the live entry instead. *)
Example get_race_orphans :
  let x := get_lookup 7 one_entry in
  let s1 := (Delete 7 1 1 one_entry).1 in
  let s2 := match x with Some x => moveToFront x s1 | None => s1 end in
  (∀ xs, ¬ ttl_ok s2 xs) ∧ s_head s2 = Some 0%nat ∧ items s2 !! 7 = None ∧
  match Set_ 7 11 0 1 1 s2 with
  | Some (s3, _) => items s3 !! 7 = Some 1%nat ∧ items (removeOldest s3) !! 7 = None ∧ s_head (removeOldest s3) = Some 1%nat
  | None => False
  end.
Proof.
  split_and!; [|vm_compute; done..].
  intros xs [(Hc & _) [_ Hs]]. vm_compute in Hs. destruct xs; [|done]. destruct Hc as [Hh _]. vm_compute in Hh. done.
Qed.

(** The same gap can also hang the map.  While a [Get] of key 2 is between its sections,
    key 2 is deleted, key 4 is stored and key 3 is read: the promotion then links the stale
    neighbours of node 2 into a cycle whose last node is never reached from the tail.  The
    next store evicts that node, and the one after it spins in its eviction loop, which
    holds the lock, for ever. *)
Definition stored (ks : list Z) (s : TTLMap Z Z) : option (TTLMap Z Z) :=
  foldl (λ o k, s ← o; fst <$> Set_ k k 0 0 0 s) (Some s) ks.
Definition raced : option (TTLMap Z Z) :=
  s ← stored [3; 2; 1] (New 3 0);
  let x := get_lookup 2 s in
  let s := (Delete 2 0 0 s).1 in
  s ← stored [4] s;
  let s := (Get 3 0 s).1 in
  let s := match x with Some x => moveToFront x s | None => s end in
  stored [5] s.

Lemma evict_stuck (s : TTLMap Z Z) limit fuel : removeOldest s = s → limit < len s → evict fuel limit s = None.
Proof.
  intros Hs Hl. induction fuel as [|fuel IH]; cbn [evict]; rewrite (proj2 (Z.ltb_lt _ _) Hl); [done|]. by rewrite Hs.
Qed.

Theorem get_race_hangs : ∃ s, raced = Some s ∧ ∀ fuel, evict fuel (maxSize s - 1) s = None.
Proof. eexists. split; [vm_compute; reflexivity|]. intros fuel. apply evict_stuck; vm_compute; reflexivity. Qed.

(** ** What survives: values belong to their keys, in every interleaving

    The links may break as above, but not the association of keys and values. *)
Section provenance.
Context {K V : Type} `{Countable K}.
Implicit Types (s : TTLMap K V) (P : K → V → Prop).

(** Every node holds a value that [P] allows for its key, and the map leads to nodes of
    the key. *)
Record values_of P s : Prop := mkValues {
  vo_node x n : heap s !! x = Some n → P (n_key n) (n_value n);
  vo_item k x : items s !! k = Some x → ∃ n, heap s !! x = Some n ∧ n_key n = k;
  vo_new x : is_Some (heap s !! x) → (x < newLoc s)%nat }.

(** A node of a key stays one: nodes are shared with the goroutines that looked them up. *)
Definition node_of s (k : K) (x : nat) : Prop := ∃ n, heap s !! x = Some n ∧ n_key n = k.
Definition nodes_kept s s' : Prop := ∀ k x, node_of s k x → node_of s' k x.
Definition safe P s s' : Prop := values_of P s → values_of P s' ∧ nodes_kept s s'.

#[local] Instance safe_preorder P : PreOrder (safe P).
Proof.
  split; [intros s Hs; split; [done|by intros k x]|]. intros s1 s2 s3 H12 H23 H1. destruct (H12 H1) as [H2 K12].
  destruct (H23 H2) as [H3 K23]. split; [done|]. intros k x Hx. by apply K23, K12.
Qed.

Lemma safe_refl P s : safe P s s.
Proof. done. Qed.

Lemma safe_on_node P x f s :
  (∀ n, heap s !! x = Some n → n_key (f n) = n_key n ∧ (P (n_key n) (n_value n) → P (n_key n) (n_value (f n)))) →
  safe P s (on_node x f s).
Proof.
  intros Hf [H1 H2 H3]. assert (∀ k y, node_of s k y → node_of (on_node x f s) k y) as Hk.
  { intros k y (n & Hn & <-). unfold node_of. cbn [on_node heap]. rewrite lookup_alter. case_decide; subst; rewrite Hn; cbn; eauto.
    eexists. split; [done|]. by apply Hf. }
  split; [|exact Hk]. split; cbn [on_node heap items newLoc].
  - intros y n. rewrite lookup_alter. case_decide; [|apply H1]. subst. destruct (heap s !! y) as [n0|] eqn:E; [|done].
    cbn. intros [= <-]. destruct (Hf n0 eq_refl) as [-> Hp]. by apply Hp, (H1 y).
  - intros k y Hy. by apply Hk, H2.
  - intros y. rewrite lookup_alter. case_decide; [subst|apply H3]. rewrite fmap_is_Some. apply H3.
Qed.

(** Fields that are neither nodes nor items. *)
Lemma safe_fields P s s' : heap s' = heap s → newLoc s' = newLoc s → items s' ⊆ items s → safe P s s'.
Proof.
  intros Eh En Hi [H1 H2 H3]. split; [|by intros k x; unfold node_of; rewrite Eh]. split; rewrite ?Eh, ?En; try done.
  intros k x Hx. apply H2. by eapply lookup_weaken.
Qed.

Lemma safe_next P x o s : safe P s (set_next x o s).
Proof. by apply safe_on_node. Qed.
Lemma safe_prev P x o s : safe P s (set_prev x o s).
Proof. by apply safe_on_node. Qed.
Lemma safe_head P o s : safe P s (set_head o s).
Proof. by apply safe_fields. Qed.
Lemma safe_tail P o s : safe P s (set_tail o s).
Proof. by apply safe_fields. Qed.
Create HintDb ttl.
#[local] Hint Resolve safe_next safe_prev safe_head safe_tail : ttl.

Lemma safe_remove P x s : safe P s (removeNode x s).
Proof.
  unfold removeNode. set (s1 := match prevOf s x with Some p => _ | None => _ end).
  trans s1; [unfold s1; destruct (prevOf s x); auto with ttl|]. destruct (nextOf s1 x); auto with ttl.
Qed.
Lemma safe_add P x s : safe P s (addToFront x s).
Proof.
  unfold addToFront. set (s1 := set_next x (s_head s) s). set (s2 := set_prev x None s1).
  set (s3 := match s_head s2 with Some h => _ | None => _ end).
  trans s1; [apply safe_next|]. trans s2; [apply safe_prev|]. trans s3; [unfold s3; destruct (s_head s2); [apply safe_prev|done]|].
  trans (set_head (Some x) s3); [apply safe_head|]. destruct (s_tail _); [done|apply safe_tail].
Qed.
Lemma safe_move P x s : safe P s (moveToFront x s).
Proof. unfold moveToFront. case_bool_decide; [done|]. trans (removeNode x s); [apply safe_remove|apply safe_add]. Qed.
Lemma safe_drop P x s : safe P s (drop x s).
Proof.
  unfold drop. destruct (heap s !! x) as [n|]; [|done]. trans (set_items (delete (n_key n) (items s)) s); [|apply safe_remove].
  apply safe_fields; [done..|]. cbn. apply delete_subseteq.
Qed.
Lemma safe_oldest P s : safe P s (removeOldest s).
Proof. unfold removeOldest. destruct (s_tail s); [apply safe_drop|done]. Qed.
Lemma safe_cleanup P t1 t2 s : safe P s (maybeCleanup t1 t2 s).1.
Proof. unfold maybeCleanup. destruct (_ && _); [|done]. by apply safe_fields. Qed.
Lemma safe_dropExpired P k now s : safe P s (dropExpired k now s).
Proof. unfold dropExpired. destruct (items s !! k) as [x|]; [|done]. destruct (get_expired x now s); [apply safe_drop|done]. Qed.
Lemma safe_sweep P now ks : ∀ s, safe P s (cleanup_sweep ks now s).
Proof. unfold cleanup_sweep. induction ks as [|k ks IH]; intros s; cbn [foldl]; [done|]. trans (dropExpired k now s); [apply safe_dropExpired|apply IH]. Qed.
Lemma safe_delete P k t1 t2 s : safe P s (Delete k t1 t2 s).1.
Proof.
  unfold Delete. set (s1 := match items s !! k with Some x => _ | None => _ end).
  trans s1; [unfold s1; destruct (items s !! k); [apply safe_drop|done]|apply safe_cleanup].
Qed.
(** Storing a value that [P] allows for the key: over an old one, or as a new entry. *)
Lemma safe_replace P k v d x s : P k v → items s !! k = Some x → safe P s (moveToFront x (set_item x v d s)).
Proof.
  intros Hp Ei Hs. destruct (vo_item _ _ Hs k x Ei) as (n0 & Hn0 & Hk0).
  assert (safe P s (set_item x v d s)) as Hsafe.
  { apply safe_on_node. intros n Hn. split; [done|]. cbn. intros _. rewrite Hn0 in Hn. injection Hn as <-. by rewrite Hk0. }
  exact (transitivity Hsafe (safe_move P x _) Hs).
Qed.

Lemma safe_insert P k v d t1 t2 s1 : P k v → safe P s1 (insertNew k v d t1 t2 s1).1.
Proof.
  intros Hp. unfold insertNew. cbn [alloc]. set (s2 := addToFront _ _).
  trans (set_items (<[k := newLoc s1]> (items s2)) s2); [|apply safe_cleanup].
  intros [H1 H2 H3]. set (s1' := (alloc k v d s1).2).
  assert (heap s1 !! newLoc s1 = None) as Hfresh.
  { apply eq_None_not_Some. intros Hx. apply H3 in Hx. lia. }
  assert (values_of P s1' ∧ nodes_kept s1 s1' ∧ node_of s1' k (newLoc s1)) as (Hv & Hkept & Hnew).
  { split_and!.
    - split; cbn.
      + intros x n. rewrite lookup_insert. case_decide; [by intros [= <-]|apply H1].
      + intros k' x Hx. destruct (H2 k' x Hx) as (n & Hn & Hk). exists n. split; [|done]. rewrite lookup_insert_ne; [done|]. intros <-. congruence.
      + intros x. rewrite lookup_insert_is_Some'. intros [<-|Hx%H3]; lia.
    - intros k' x (n & Hn & Hk). exists n. split; [|done]. cbn. rewrite lookup_insert_ne; [done|]. intros <-. congruence.
    - exists (mkNode k v d None None). split; [|done]. cbn. apply lookup_insert_eq. }
  destruct (safe_add P (newLoc s1) s1' Hv) as [[G1 G2 G3] Hk2]. change (addToFront (newLoc s1) s1') with s2 in *. split.
  - split; cbn [set_items heap items newLoc]; [done| |done]. intros k' x. rewrite lookup_insert. case_decide.
    + intros [= <-]. subst. by apply Hk2.
    + apply G2.
  - intros k' x Hx. by apply Hk2, Hkept.
Qed.

Lemma values_new P m now : values_of P (New m now : TTLMap K V).
Proof. split; cbn; intros *; rewrite lookup_empty; try done; by intros []. Qed.

(** What is read from a node belongs to its key. *)
Lemma node_value P s k x : values_of P s → node_of s k x → ∃ v, get_value x s = Some v ∧ P k v.
Proof. intros Hs (n & Hn & <-). exists (n_value n). unfold get_value. rewrite Hn. split; [done|]. by apply (vo_node _ _ Hs x). Qed.
End provenance.
