(* ===== verification/Net.v ===== *)
(** * xnet: IPv4 addresses, networks and private ranges

    Models [src/xnet/ip.go] and [src/xnet/private.go] with the parts of Go's [net]
    they use: addresses and masks are byte slices, an index out of range is a panic
    ([None]). *)
From S2P Require Import Prelude.

Local Open Scope Z_scope.

(** [net.IP] and [net.IPMask] *)
Definition IP := bytes.
Definition IPMask := bytes.
Record IPNet := mkIPNet { n_ip : IP; n_mask : IPMask }.

(** ** What the source uses of Go's [net] *)

Definition v4InV6Prefix : bytes := [0; 0; 0; 0; 0; 0; 0; 0; 0; 0; 255; 255].

(** [ip.To4()]; [None] is nil. *)
Definition To4 (ip : IP) : option IP :=
  if zlen ip =? 4 then Some ip
  else if (zlen ip =? 16) && bool_decide (take 12 ip = v4InV6Prefix) then Some (skipn 12 ip)
  else None.

(** The inner loop of [simpleMaskLength]: leading one bits of a byte, and the rest. *)
Fixpoint leadingOnes (fuel : nat) (n v : Z) : Z * Z :=
  match fuel with
  | O => (n, v)
  | S fuel => if Z.land v 128 =? 0 then (n, v) else leadingOnes fuel (n + 1) (u8 (Z.shiftl v 1))
  end.

Fixpoint simpleMaskLength (mask : IPMask) (n : Z) : Z :=
  match mask with
  | [] => n
  | v :: rest =>
      if v =? 255 then simpleMaskLength rest (n + 8)
      else let '(n, v) := leadingOnes 8 n v in
           if negb (v =? 0) then -1
           else if forallb (λ b, b =? 0) rest then n else -1
  end.

(** [mask.Size()] *)
Definition Size (mask : IPMask) : Z * Z :=
  let ones := simpleMaskLength mask 0 in
  if ones =? -1 then (0, 0) else (ones, zlen mask * 8).

(** [net.IPNet.Contains], for networks whose address and mask have one length. *)
Definition Contains (n : IPNet) (ip : IP) : bool :=
  let ip := default ip (To4 ip) in
  (zlen ip =? zlen (n_ip n)) &&
  forallb (λ '(nb, (m, b)), Z.land nb m =? Z.land b m) (zip (n_ip n) (zip (n_mask n) ip)).

(** ** ip.go *)
Definition Isv4 (ip : IP) : bool := bool_decide (is_Some (To4 ip)).

(** [ip.IP.Equal(other.IP)] *)
Definition Equal (ip x : IP) : bool :=
  if zlen ip =? zlen x then bool_decide (ip = x)
  else if (zlen ip =? 4) && (zlen x =? 16) then bool_decide (take 12 x = v4InV6Prefix) && bool_decide (ip = skipn 12 x)
  else if (zlen ip =? 16) && (zlen x =? 4) then bool_decide (take 12 ip = v4InV6Prefix) && bool_decide (skipn 12 ip = x)
  else false.

(** The four indexed bytes, most significant first. *)
Definition bigEndian (bs : bytes) : option Z :=
  match bs with
  | b0 :: b1 :: b2 :: b3 :: _ =>
      Some (Z.lor (Z.lor (Z.lor (u32 (Z.shiftl b0 24)) (u32 (Z.shiftl b1 16))) (u32 (Z.shiftl b2 8))) b3)
  | _ => None
  end.

Definition IP_ToUint32 (ip : IP) : option Z := b ← To4 ip; bigEndian b.
Definition IPMask_ToUint32 (mask : IPMask) : option Z := bigEndian mask.

Definition Uint32ToIP (n : Z) : IP :=
  [ u8 (Z.shiftr (Z.land n 0xFF000000) 24); u8 (Z.shiftr (Z.land n 0x00FF0000) 16);
    u8 (Z.shiftr (Z.land n 0x0000FF00) 8); u8 (Z.land n 0x000000FF) ].

Definition NetworkAddr (n : IPNet) : option IP :=
  mask ← IPMask_ToUint32 (n_mask n);
  a ← IP_ToUint32 (n_ip n);
  Some (Uint32ToIP (Z.land a mask)).

Definition BroadcastAddr (n : IPNet) : option IP :=
  mask ← IPMask_ToUint32 (n_mask n);
  a ← IP_ToUint32 (n_ip n);
  Some (Uint32ToIP (Z.lor (Z.land a mask) (Z.lxor mask 0xFFFFFFFF))).

(** [addr.IP[3]++] and [addr.IP[3]--] *)
Definition add_last (d : Z) (ip : IP) : IP := alter (λ b, u8 (b + d)) 3%nat ip.

Definition FirstUsable (n : IPNet) : option IP :=
  a ← NetworkAddr n;
  Some (if (Size (n_mask n)).1 <=? 30 then add_last 1 a else a).

Definition LastUsable (n : IPNet) : option IP :=
  a ← BroadcastAddr n;
  Some (if (Size (n_mask n)).1 <=? 30 then add_last (-1) a else a).

(** ** private.go *)
Definition privateBlocks : list IPNet :=
  [ mkIPNet [10; 0; 0; 0] [255; 0; 0; 0];
    mkIPNet [172; 16; 0; 0] [255; 240; 0; 0];
    mkIPNet [192; 168; 0; 0] [255; 255; 0; 0] ].

Definition IsPrivateIPNet (ipn : IPNet) : bool :=
  existsb (λ block, Contains block (n_ip ipn) && ((Size (n_mask block)).1 <=? (Size (n_mask ipn)).1)) privateBlocks.
