(* ===== verification/NetProps.v ===== *)
(** * xnet: address arithmetic *)
From S2P Require Import Prelude Net.

Local Open Scope Z_scope.

(** ** Bits *)
Lemma lor_disjoint a b k : 0 ≤ k → 0 ≤ b < 2 ^ k → Z.lor (a * 2 ^ k) b = a * 2 ^ k + b.
Proof.
  intros Hk Hb. rewrite <- Z.shiftl_mul_pow2 by done.
  assert (Z.land (Z.shiftl a k) b = 0) as E.
  { apply Z.bits_inj'. intros n Hn. rewrite Z.land_spec, Z.bits_0. destruct (decide (n < k)).
    - by rewrite Z.shiftl_spec_low.
    - rewrite <- (Z.mod_small b (2 ^ k)), Z.mod_pow2_bits_high by lia. by rewrite andb_false_r. }
  by rewrite <- Z.lxor_lor, <- Z.add_nocarry_lxor.
Qed.

Lemma byte_at n s m : 0 ≤ s → m = 255 * 2 ^ s → u8 (Z.shiftr (Z.land n m) s) = n / 2 ^ s mod 2 ^ 8.
Proof.
  intros Hs ->. rewrite Z.shiftr_land, (Z.shiftr_div_pow2 n) by done.
  rewrite Z.shiftr_div_pow2, Z.div_mul by (done || lia). change 255 with (Z.ones 8).
  rewrite Z.land_ones by done. unfold u8. by rewrite Zmod_mod.
Qed.

(** ** Round trips between [uint32] and addresses *)
Lemma bigEndian_val b0 b1 b2 b3 rest :
  in_u8 b0 → in_u8 b1 → in_u8 b2 → in_u8 b3 →
  bigEndian (b0 :: b1 :: b2 :: b3 :: rest) = Some (b0 * 2 ^ 24 + b1 * 2 ^ 16 + b2 * 2 ^ 8 + b3).
Proof.
  unfold in_u8. intros H0 H1 H2 H3. unfold bigEndian. f_equal.
  rewrite !Z.shiftl_mul_pow2 by done. rewrite !u32_small by (unfold in_u32; lia).
  replace (Z.lor (b0 * 2 ^ 24) (b1 * 2 ^ 16)) with ((b0 * 2 ^ 8 + b1) * 2 ^ 16)
    by (replace (b0 * 2 ^ 24) with ((b0 * 2 ^ 8) * 2 ^ 16) by lia;
        rewrite <- !Z.shiftl_mul_pow2, <- Z.shiftl_lor, !Z.shiftl_mul_pow2 by done;
        by rewrite lor_disjoint by lia).
  replace (Z.lor ((b0 * 2 ^ 8 + b1) * 2 ^ 16) (b2 * 2 ^ 8)) with (((b0 * 2 ^ 8 + b1) * 2 ^ 8 + b2) * 2 ^ 8)
    by (replace ((b0 * 2 ^ 8 + b1) * 2 ^ 16) with (((b0 * 2 ^ 8 + b1) * 2 ^ 8) * 2 ^ 8) by lia;
        rewrite <- !(Z.shiftl_mul_pow2 _ 8), <- Z.shiftl_lor, !Z.shiftl_mul_pow2 by done;
        by rewrite lor_disjoint by lia).
  rewrite lor_disjoint by lia. lia.
Qed.

Lemma Uint32ToIP_val n :
  Uint32ToIP n = [n / 2 ^ 24 mod 2 ^ 8; n / 2 ^ 16 mod 2 ^ 8; n / 2 ^ 8 mod 2 ^ 8; n mod 2 ^ 8].
Proof.
  unfold Uint32ToIP. rewrite !byte_at by done. repeat f_equal.
  rewrite <- (Z.shiftr_0_r (Z.land n 255)), byte_at by done. by rewrite Z.div_1_r.
Qed.

Lemma to_uint32_inv n : in_u32 n → IP_ToUint32 (Uint32ToIP n) = Some n.
Proof.
  unfold in_u32. intros Hn. unfold IP_ToUint32, To4. rewrite Uint32ToIP_val. cbn [zlen length].
  cbn [mbind option_bind]. change (zlen _ =? 4) with true. cbn [mbind option_bind].
  rewrite bigEndian_val by (unfold in_u8; apply Z.mod_pos_bound; lia).
  f_equal. pose proof (Z.div_mod n (2 ^ 8) ltac:(lia)) as E1.
  pose proof (Z.div_mod (n / 2 ^ 8) (2 ^ 8) ltac:(lia)) as E2.
  pose proof (Z.div_mod (n / 2 ^ 16) (2 ^ 8) ltac:(lia)) as E3.
  rewrite Z.div_div in E2, E3 by lia. change (2 ^ 8 * 2 ^ 8) with (2 ^ 16) in E2.
  change (2 ^ 16 * 2 ^ 8) with (2 ^ 24) in E3. rewrite (Z.mod_small (n / 2 ^ 24)); [lia|].
  split; [apply Z.div_pos; lia|]. apply Z.div_lt_upper_bound; lia.
Qed.

(** An IPv4 address of four bytes. *)
Definition v4 (ip : IP) : Prop := length ip = 4%nat ∧ is_bytes ip.

Lemma Uint32ToIP_v4 n : v4 (Uint32ToIP n).
Proof.
  split; [done|]. rewrite Uint32ToIP_val. repeat (apply Forall_cons; split; [apply Z.mod_pos_bound; lia|]). constructor.
Qed.

Lemma v4_inv ip : v4 ip → ∃ b0 b1 b2 b3, ip = [b0; b1; b2; b3] ∧ in_u8 b0 ∧ in_u8 b1 ∧ in_u8 b2 ∧ in_u8 b3.
Proof.
  intros [Hl Hb]. destruct ip as [|b0 [|b1 [|b2 [|b3 [|]]]]]; try done.
  repeat (apply Forall_cons in Hb as [? Hb]). by exists b0, b1, b2, b3.
Qed.

Lemma v4_uint ip : v4 ip → ∃ n, IP_ToUint32 ip = Some n ∧ in_u32 n ∧ Uint32ToIP n = ip.
Proof.
  intros (b0 & b1 & b2 & b3 & -> & H0 & H1 & H2 & H3)%v4_inv.
  unfold IP_ToUint32, To4. change (zlen _ =? 4) with true. cbn [mbind option_bind].
  rewrite bigEndian_val by done. unfold in_u8 in *.
  eexists. split; [done|]. split; [unfold in_u32; lia|]. rewrite Uint32ToIP_val.
  repeat f_equal; Z.to_euclidean_division_equations; lia.
Qed.

(** ** Networks with a prefix length *)

(** [net.CIDRMask(ones, 32)] *)
Definition CIDRMask (ones : Z) : IPMask := Uint32ToIP (2 ^ 32 - 2 ^ (32 - ones)).

Lemma prefix_cases (P : Z → Prop) `{!∀ o, Decision (P o)} :
  bool_decide (Forall P (seqZ 0 33)) = true → ∀ ones, 0 ≤ ones ≤ 32 → P ones.
Proof. intros Hp%bool_decide_eq_true_1 ones Ho. eapply Forall_forall in Hp; [done|]. apply elem_of_seqZ. lia. Qed.

Lemma CIDRMask_size : ∀ ones, 0 ≤ ones ≤ 32 → Size (CIDRMask ones) = (ones, 32).
Proof. apply (prefix_cases (λ ones, Size (CIDRMask ones) = (ones, 32))). by vm_compute. Qed.

Lemma CIDRMask_uint : ∀ ones, 0 ≤ ones ≤ 32 → IPMask_ToUint32 (CIDRMask ones) = Some (2 ^ 32 - 2 ^ (32 - ones)).
Proof. apply (prefix_cases (λ ones, IPMask_ToUint32 (CIDRMask ones) = Some (2 ^ 32 - 2 ^ (32 - ones)))). by vm_compute. Qed.

Lemma CIDRMask_inverse : ∀ ones, 0 ≤ ones ≤ 32 → Z.lxor (2 ^ 32 - 2 ^ (32 - ones)) 0xFFFFFFFF = 2 ^ (32 - ones) - 1.
Proof. apply (prefix_cases (λ ones, Z.lxor (2 ^ 32 - 2 ^ (32 - ones)) 0xFFFFFFFF = 2 ^ (32 - ones) - 1)). by vm_compute. Qed.

Lemma mask_low n k :
  in_u32 n → 0 ≤ k ≤ 32 → Z.land n (2 ^ 32 - 2 ^ k) = n / 2 ^ k * 2 ^ k.
Proof.
  intros Hn Hk. replace (2 ^ 32 - 2 ^ k) with (Z.shiftl (Z.ones (32 - k)) k).
  2: { rewrite Z.shiftl_mul_pow2, Z.ones_equiv, Z.mul_pred_l, <- Z.pow_add_r by lia.
       by replace (32 - k + k) with 32 by lia. }
  rewrite <- Z.shiftr_div_pow2, <- Z.shiftl_mul_pow2, <- Z.ldiff_ones_r by lia.
  apply Z.bits_inj'. intros i Hi. rewrite Z.land_spec, Z.ldiff_spec. destruct (decide (i < k)).
  - rewrite Z.shiftl_spec_low, Z.ones_spec_low by lia. by rewrite !andb_false_r.
  - rewrite Z.shiftl_spec, (Z.ones_spec_high k) by lia. rewrite andb_true_r. destruct (decide (i < 32)).
    + rewrite Z.ones_spec_low by lia. by rewrite andb_true_r.
    + rewrite <- (Z.mod_small n (2 ^ 32)), Z.mod_pow2_bits_high by (unfold in_u32 in Hn; lia). done.
Qed.

Section network.
Context (ip : IP) (n ones : Z).
Hypothesis Hip : v4 ip.
Hypothesis Hn : IP_ToUint32 ip = Some n.
Hypothesis Hones : 0 ≤ ones ≤ 32.
Local Abbreviation k := (32 - ones).
Local Abbreviation base := (n / 2 ^ k * 2 ^ k).
Local Abbreviation network := (mkIPNet ip (CIDRMask ones)).

Lemma n_range : in_u32 n.
Proof using Hip Hn. destruct (v4_uint ip Hip) as (m & E & ? & _). congruence. Qed.

Lemma pow_k : 0 < 2 ^ k.
Proof using Hones. apply Z.pow_pos_nonneg; lia. Qed.

Lemma base_range : 0 ≤ base ∧ base + 2 ^ k ≤ 2 ^ 32.
Proof using Hip Hn Hones.
  pose proof n_range as [H0 H1]. pose proof pow_k. split; [apply Z.mul_nonneg_nonneg; [apply Z.div_pos|]; lia|].
  assert (2 ^ 32 = 2 ^ ones * 2 ^ k) as E by (rewrite <- Z.pow_add_r by lia; f_equal; lia).
  rewrite E in *. assert (n / 2 ^ k < 2 ^ ones) by (apply Z.div_lt_upper_bound; lia). nia.
Qed.

Lemma NetworkAddr_val : NetworkAddr network = Some (Uint32ToIP base).
Proof using Hip Hn Hones.
  unfold NetworkAddr. cbn [n_mask n_ip]. rewrite CIDRMask_uint, Hn by done. cbn [mbind option_bind].
  by rewrite mask_low by (apply n_range || lia).
Qed.

Lemma BroadcastAddr_val : BroadcastAddr network = Some (Uint32ToIP (base + (2 ^ k - 1))).
Proof using Hip Hn Hones.
  unfold BroadcastAddr. cbn [n_mask n_ip]. rewrite CIDRMask_uint, Hn by done. cbn [mbind option_bind].
  rewrite mask_low, CIDRMask_inverse by (apply n_range || lia). pose proof pow_k.
  by rewrite lor_disjoint by lia.
Qed.
End network.

Lemma list4_eq (a b c d a' b' c' d' : Z) : a = a' → b = b' → c = c' → d = d' → [a; b; c; d] = [a'; b'; c'; d'].
Proof. congruence. Qed.

Lemma add_last_val d m : 0 ≤ m mod 2 ^ 8 + d < 2 ^ 8 → add_last d (Uint32ToIP m) = Uint32ToIP (m + d).
Proof.
  intros Hm. rewrite !Uint32ToIP_val. unfold add_last, u8. cbn [alter list_alter].
  apply list4_eq; Z.to_euclidean_division_equations; lia.
Qed.

Lemma base_mod n k : 2 ≤ k → (n / 2 ^ k * 2 ^ k) mod 4 = 0.
Proof.
  intros Hk. replace (2 ^ k) with (2 ^ (k - 2) * 4) at 2 by (change 4 with (2 ^ 2); rewrite <- Z.pow_add_r by lia; f_equal; lia).
  rewrite Z.mul_assoc. apply Z.mod_mul. lia.
Qed.

(** The usable range of a network of at least four addresses. *)
Lemma usable_addrs ip n ones :
  v4 ip → IP_ToUint32 ip = Some n → 0 ≤ ones ≤ 30 →
  let base := n / 2 ^ (32 - ones) * 2 ^ (32 - ones) in
  0 ≤ base ∧ base + 2 ^ (32 - ones) ≤ 2 ^ 32 ∧ 4 ≤ 2 ^ (32 - ones) ∧
  FirstUsable (mkIPNet ip (CIDRMask ones)) = Some (Uint32ToIP (base + 1)) ∧
  LastUsable (mkIPNet ip (CIDRMask ones)) = Some (Uint32ToIP (base + 2 ^ (32 - ones) - 2)).
Proof.
  intros Hip Hn Ho base. destruct (base_range ip n ones Hip Hn ltac:(lia)) as [Hb0 Hb1].
  assert (2 ^ (32 - ones) = 4 * 2 ^ (30 - ones)) as Ek
    by (change 4 with (2 ^ 2); rewrite <- Z.pow_add_r by lia; f_equal; lia).
  assert (0 < 2 ^ (30 - ones)) by (apply Z.pow_pos_nonneg; lia).
  pose proof (base_mod n (32 - ones) ltac:(lia)) as Hm. fold base in Hb0, Hb1, Hm.
  split_and!; [done|done|lia|..]; unfold FirstUsable, LastUsable; cbn [n_mask].
  - rewrite (NetworkAddr_val ip n) by (done || lia). rewrite CIDRMask_size by lia. cbn [mbind option_bind fst].
    rewrite (proj2 (Z.leb_le ones 30)) by lia. rewrite add_last_val; [done|].
    fold base. Z.to_euclidean_division_equations; lia.
  - rewrite (BroadcastAddr_val ip n) by (done || lia). rewrite CIDRMask_size by lia. cbn [mbind option_bind fst].
    rewrite (proj2 (Z.leb_le ones 30)) by lia. fold base. rewrite add_last_val; [f_equal; f_equal; lia|].
    assert ((base + (2 ^ (32 - ones) - 1)) mod 4 = 3) as Hm3.
    { rewrite Ek. replace (base + (4 * 2 ^ (30 - ones) - 1)) with (3 + (base / 4 + 2 ^ (30 - ones) - 1) * 4).
      - rewrite Z.mod_add by lia. done.
      - pose proof (Z.div_mod base 4 ltac:(lia)). lia. }
    Z.to_euclidean_division_equations; lia.
Qed.

(** An IPv4 address and its [uint32] convert into each other without loss. *)
Theorem uint32_roundtrip (n : Z) (ip : IP) :
  in_u32 n → v4 ip →
  IP_ToUint32 (Uint32ToIP n) = Some n ∧ v4 (Uint32ToIP n) ∧ (Uint32ToIP <$> IP_ToUint32 ip) = Some ip.
Proof.
  intros Hn Hip. split_and!; [by apply to_uint32_inv| |].
  - apply Uint32ToIP_v4.
  - destruct (v4_uint ip Hip) as (m & -> & _ & E). cbn. by rewrite E.
Qed.

Lemma uint32_roundtrip_witness : IP_ToUint32 (Uint32ToIP 3232235777) = Some 3232235777.
Proof. apply (uint32_roundtrip 3232235777 [10; 0; 0; 1]); [vm_compute; split; congruence|split; [reflexivity|repeat constructor]]; discriminate. Defined.

(** C31: in a network of prefix length at most 30 the first and last usable
    addresses are the network address plus one and the broadcast address minus one:
    the byte increments never carry or borrow, so the range is contiguous and leaves
    out exactly the network and broadcast addresses. *)
Theorem usable_range (ip : IP) (n ones : Z) :
  v4 ip → IP_ToUint32 ip = Some n → 0 ≤ ones ≤ 30 →
  let net := mkIPNet ip (CIDRMask ones) in
  ∃ lo hi, (NetworkAddr net ≫= IP_ToUint32) = Some (lo - 1) ∧ (BroadcastAddr net ≫= IP_ToUint32) = Some (hi + 1) ∧
    (FirstUsable net ≫= IP_ToUint32) = Some lo ∧ (LastUsable net ≫= IP_ToUint32) = Some hi ∧
    hi - lo + 3 = 2 ^ (32 - ones) ∧ lo - 1 ≤ n ≤ hi + 1.
Proof.
  intros Hip Hn Ho net. destruct (usable_addrs ip n ones Hip Hn Ho) as (Hb0 & Hb1 & Hk & Hf & Hl).
  set (base := n / 2 ^ (32 - ones) * 2 ^ (32 - ones)) in *.
  exists (base + 1), (base + 2 ^ (32 - ones) - 2). unfold net.
  rewrite Hf, Hl, (NetworkAddr_val ip n), (BroadcastAddr_val ip n) by (done || lia). fold base. cbn [mbind option_bind].
  rewrite !to_uint32_inv by (unfold in_u32; lia).
  split_and!; try (f_equal; lia); try lia.
  - unfold base. pose proof (Z.mul_div_le n (2 ^ (32 - ones))). lia.
  - unfold base. pose proof (Z.mul_succ_div_gt n (2 ^ (32 - ones))). lia.
Qed.

Lemma usable_range_witness :
  ∃ lo hi, (FirstUsable (mkIPNet [10; 0; 0; 77] (CIDRMask 30)) ≫= IP_ToUint32) = Some lo ∧
    (LastUsable (mkIPNet [10; 0; 0; 77] (CIDRMask 30)) ≫= IP_ToUint32) = Some hi ∧ hi = lo + 1.
Proof.
  destruct (usable_range [10; 0; 0; 77] 167772237 30) as (lo & hi & _ & _ & Hlo & Hhi & Hs & _).
  - split; [reflexivity|repeat constructor; discriminate].
  - reflexivity.
  - lia.
  - exists lo, hi. split; [exact Hlo|]. split; [exact Hhi|]. change (2 ^ (32 - 30)) with 4 in Hs. lia.
Defined.

(** ** Private networks *)
Lemma byte_cases (P : Z → Prop) `{!∀ o, Decision (P o)} :
  bool_decide (Forall P (seqZ 0 256)) = true → ∀ b, in_u8 b → P b.
Proof. intros Hp%bool_decide_eq_true_1 b Hb. eapply Forall_forall in Hp; [done|]. apply elem_of_seqZ. unfold in_u8 in Hb. lia. Qed.

Lemma land_240 : ∀ b, in_u8 b → (Z.land 16 240 = Z.land b 240 ↔ 16 ≤ b < 32).
Proof. apply (byte_cases (λ b, Z.land 16 240 = Z.land b 240 ↔ 16 ≤ b < 32)). by vm_compute. Qed.
Lemma land_255 c : in_u8 c → ∀ b, in_u8 b → (Z.land c 255 = Z.land b 255 ↔ b = c).
Proof.
  intros Hc b Hb. unfold in_u8 in *. change 255 with (Z.ones 8). rewrite !Z.land_ones, !Z.mod_small by lia.
  split; congruence.
Qed.

(** An IPv4 network is reported private exactly when its prefix is at least as
    long as that of 10.0.0.0/8, 172.16.0.0/12 or 192.168.0.0/16 and its address lies
    in that block (so all of the network does). *)
Theorem private_blocks (b0 b1 b2 b3 ones : Z) :
  v4 [b0; b1; b2; b3] → 0 ≤ ones ≤ 32 →
  IsPrivateIPNet (mkIPNet [b0; b1; b2; b3] (CIDRMask ones)) = true ↔
  (b0 = 10 ∧ 8 ≤ ones) ∨ (b0 = 172 ∧ 16 ≤ b1 < 32 ∧ 12 ≤ ones) ∨ (b0 = 192 ∧ b1 = 168 ∧ 16 ≤ ones).
Proof.
  intros Hv Ho. apply v4_inv in Hv as (? & ? & ? & ? & [= <- <- <- <-] & H0 & H1 & H2 & H3).
  unfold IsPrivateIPNet, Contains, To4, privateBlocks. cbn [existsb n_ip n_mask default].
  change (zlen [b0; b1; b2; b3] =? 4) with true. cbn [default from_option id].
  rewrite CIDRMask_size by done. change (Size [255; 0; 0; 0]).1 with 8.
  change (Size [255; 240; 0; 0]).1 with 12. change (Size [255; 255; 0; 0]).1 with 16.
  cbn [zip zip_with forallb fst]. rewrite !Z.land_0_r, !andb_true_r.
  change (zlen [b0; b1; b2; b3]) with 4. cbn [zlen length].
  rewrite !orb_true_iff, !andb_true_iff, !Z.leb_le, !Z.eqb_eq.
  rewrite !land_255, land_240 by (done || unfold in_u8; lia).
  unfold zlen; cbn. intuition congruence.
Qed.

Lemma private_blocks_witness : IsPrivateIPNet (mkIPNet [172; 20; 1; 0] (CIDRMask 24)) = true.
Proof.
  apply (private_blocks 172 20 1 0 24).
  - split; [reflexivity|repeat constructor; discriminate].
  - lia.
  - right. left. lia.
Defined.
