(* ===== verification/IPPool.v ===== *)
(** * ippool: the pool of IPv4 client addresses

    Models [src/ippool/poolv4.go] and [src/ippool/internal.go].  The pool is an
    explicit state; [zap.L().Fatal] ends the process and is [Panic]; the value drawn
    by [rand.Uint32()] is an argument. *)
From S2P Require Import Prelude Net.

Local Open Scope Z_scope.

Inductive poolerr : Type :=
  | ErrNonV4Subnet        (* "can't start pool with non-ipv4 subnet" *)
  | ErrSubnetTooSmall     (* "need at least /30 subnet to operate" *)
  | ErrInvalidAddress | ErrNotInRange | ErrAddressInUse | ErrNotEnoughSpace
  | ErrNotUsed.           (* "ip address is not used" *)

#[global] Instance poolerr_eq_dec : EqDecision poolerr.
Proof. solve_decision. Defined.

(** [used map[uint32]bool] only ever holds [true]: its key set. *)
Record IPv4pool := mkPool { serverIP : IP; used : gset Z; min : Z; max : Z; running : bool }.

Definition set_used (p : IPv4pool) (u : gset Z) : IPv4pool := mkPool (serverIP p) u (min p) (max p) (running p).

(** A nil or short slice is indexed: panic. *)
Definition of_option {A} (o : option A) : go poolerr A := match o with Some a => Ok a | None => Panic end.

(** ** internal.go *)
Definition defaultUsed (server : Z) : gset Z := {[ server ]}.

Definition checkRunning (p : IPv4pool) : go poolerr unit := if running p then Ok tt else Panic.

Definition nextAddr (p : IPv4pool) (ip : Z) : Z * bool :=
  if max p <=? ip then (min p, true) else (u32 (ip + 1), false).

Definition isUsed (p : IPv4pool) (uip : Z) : bool := bool_decide (uip ∈ used p).

Definition capacity (p : IPv4pool) : Z := i64 (i64 (max p - min p) + 1).
Definition allocated (p : IPv4pool) : Z := Z.of_nat (size (used p)).

Definition free (p : IPv4pool) : go poolerr Z :=
  let cap := capacity p in
  let alc := allocated p in
  if cap <? alc then Panic else Ok (i64 (cap - alc)).

(** ** poolv4.go *)

(** [subnet.String()] runs first, for the log field: it needs the network address. *)
Definition NewIPv4FromSubnet (subnet : IPNet) : go poolerr IPv4pool :=
  _ ← of_option (NetworkAddr subnet);
  if negb (Isv4 (n_ip subnet)) then Err ErrNonV4Subnet else
  if 30 <? (Size (n_mask subnet)).1 then Err ErrSubnetTooSmall else
  minIP ← of_option (FirstUsable subnet);
  maxIP ← of_option (LastUsable subnet);
  lo ← of_option (IP_ToUint32 minIP);
  hi ← of_option (IP_ToUint32 maxIP);
  Ok (mkPool minIP (defaultUsed lo) lo hi true).

Definition Running (p : IPv4pool) : bool := running p.

Definition Shutdown (p : IPv4pool) : go poolerr IPv4pool :=
  s ← of_option (IP_ToUint32 (serverIP p));
  Ok (mkPool (serverIP p) (defaultUsed s) (min p) (max p) false).

Definition ServerIP (p : IPv4pool) : IP := serverIP p.

(** The loop of [getUnusedIP].  [Some (Some a)]: found; [Some None]: one full round
    found nothing; [None]: still looking when the fuel ends. *)
Fixpoint scan (fuel : nat) (p : IPv4pool) (stop next : Z) (cycled : bool) : option (option Z) :=
  if negb cycled || negb (next =? stop) then
    match fuel with
    | O => None
    | S fuel =>
        if negb (isUsed p next) then Some (Some next)
        else let '(next, cycledRound) := nextAddr p next in scan fuel p stop next (cycled || cycledRound)
    end
  else Some None.

(** One visit per address of the range is a full round. *)
Definition scan_fuel (p : IPv4pool) : nat := Z.to_nat (max p - min p + 1).

Definition getUnusedIP (r : Z) (p : IPv4pool) : go poolerr IP :=
  let span := u32 (u32 (max p - min p) + 1) in
  if span =? 0 then Panic else       (* integer divide by zero *)
  let next := u32 (r mod span + min p) in
  match scan (scan_fuel p) p next next false with
  | Some (Some a) => Ok (Uint32ToIP a)
  | _ => Panic                       (* Fatal: no free IP was found *)
  end.

Definition Alloc (r : Z) (p : IPv4pool) : go poolerr (IP * IPv4pool) :=
  _ ← checkRunning p;
  f ← free p;
  if f =? 0 then Err ErrNotEnoughSpace else
  ip ← getUnusedIP r p;
  u ← of_option (IP_ToUint32 ip);
  Ok (ip, set_used p ({[ u ]} ∪ used p)).

Definition Set_ (ip : IP) (p : IPv4pool) : go poolerr IPv4pool :=
  if negb (Isv4 ip) then Err ErrInvalidAddress else
  uip ← of_option (IP_ToUint32 ip);
  if (uip <? min p) || (max p <? uip) then Err ErrNotInRange else
  _ ← checkRunning p;
  if isUsed p uip then Err ErrAddressInUse else Ok (set_used p ({[ uip ]} ∪ used p)).

Definition Unset (ip : IP) (p : IPv4pool) : go poolerr IPv4pool :=
  if negb (Isv4 ip) then Err ErrInvalidAddress else
  uip ← of_option (IP_ToUint32 ip);
  _ ← checkRunning p;
  if negb (isUsed p uip) then Err ErrNotUsed else Ok (set_used p (used p ∖ {[ uip ]})).

Definition IsAvailable (ip : IP) (p : IPv4pool) : go poolerr bool :=
  if negb (Isv4 ip) then Ok false else
  uip ← of_option (IP_ToUint32 ip);
  if (uip <? min p) || (max p <? uip) then Ok false else Ok (negb (isUsed p uip)).

Definition Available (r : Z) (p : IPv4pool) : go poolerr IP :=
  _ ← checkRunning p;
  f ← free p;
  if f =? 0 then Err ErrNotEnoughSpace else getUnusedIP r p.
