(* ===== verification/IPPoolProps.v ===== *)
(** * ippool: every address is handed out at most once *)
From S2P Require Import Prelude Net NetProps IPPool.

Local Open Scope Z_scope.

(** ** Invariant *)
Definition in_range (p : IPv4pool) (a : Z) : Prop := min p ≤ a ≤ max p.

Definition pool_wf (p : IPv4pool) : Prop :=
  1 ≤ min p ≤ max p ∧ max p < 2 ^ 32 ∧ (∀ a, a ∈ used p → in_range p a) ∧ serverIP p = Uint32ToIP (min p).

(** The addresses of the range. *)
Definition range_set (p : IPv4pool) : gset Z := list_to_set (seqZ (min p) (max p - min p + 1)).

Lemma range_set_elem p a : a ∈ range_set p ↔ in_range p a.
Proof. unfold range_set, in_range. rewrite elem_of_list_to_set, elem_of_seqZ. lia. Qed.

Lemma range_set_size p : min p ≤ max p → Z.of_nat (size (range_set p)) = max p - min p + 1.
Proof. intros Hm. unfold range_set. rewrite size_list_to_set by apply NoDup_seqZ. rewrite length_seqZ. lia. Qed.

Lemma capacity_val p : pool_wf p → capacity p = max p - min p + 1.
Proof. intros (Hm & Hx & _). unfold capacity. by rewrite !i64_small by (rewrite ?i64_small; unfold in_i64; lia). Qed.

Lemma used_subset p : pool_wf p → used p ⊆ range_set p.
Proof. intros (_ & _ & Hu & _) a Ha. apply range_set_elem. by apply Hu. Qed.

Lemma free_val p : pool_wf p → free p = Ok (capacity p - allocated p) ∧ 0 ≤ capacity p - allocated p.
Proof.
  intros Hwf. pose proof (used_subset p Hwf) as Hsub%subseteq_size. pose proof (capacity_val p Hwf) as Hc.
  destruct Hwf as ((H1 & H2) & H3 & _). pose proof (range_set_size p H2). unfold free, allocated in *.
  rewrite (proj2 (Z.ltb_ge _ _)) by lia. rewrite i64_small by (unfold in_i64; lia). split; [done|lia].
Qed.

(** A pool that is not full has a free address. *)
Lemma unused_exists p : pool_wf p → allocated p < capacity p → ∃ a, in_range p a ∧ a ∉ used p.
Proof.
  intros Hwf Hf. destruct (decide (range_set p ⊆ used p)) as [Hs|Hs].
  - apply subseteq_size in Hs. rewrite (capacity_val p Hwf) in Hf. destruct Hwf as ((H1 & H2) & _).
    pose proof (range_set_size p H2). unfold allocated in Hf. lia.
  - assert (range_set p ∖ used p ≠ ∅) as Hne.
    { intros E. apply Hs. intros a Ha. destruct (decide (a ∈ used p)) as [|Hn]; [done|].
      exfalso. apply (not_elem_of_empty (C:=gset Z) a). rewrite <- E. by apply elem_of_difference. }
    apply set_choose_L in Hne as [a [Ha1%range_set_elem Ha2]%elem_of_difference]. eauto.
Qed.

(** ** The search *)
Lemma isUsed_true p a : isUsed p a = true ↔ a ∈ used p.
Proof. apply bool_decide_eq_true. Qed.

(** What is known to be used while the search goes from [stop] round to [stop]. *)
Definition scanned (p : IPv4pool) (stop next : Z) (cycled : bool) (a : Z) : Prop :=
  if cycled then stop ≤ a ≤ max p ∨ min p ≤ a < next else stop ≤ a < next.

Lemma scan_spec fuel : ∀ p stop next (cycled : bool),
  pool_wf p → in_range p stop → in_range p next →
  (if cycled then next ≤ stop else stop ≤ next) →
  (∀ a, scanned p stop next cycled a → a ∈ used p) →
  (if cycled then stop - next else (max p - next + 1) + (stop - min p)) ≤ Z.of_nat fuel →
  (∃ a, in_range p a ∧ (a ∉ used p) ∧ scan fuel p stop next cycled = Some (Some a)) ∨
  ((∀ a, in_range p a → a ∈ used p) ∧ scan fuel p stop next cycled = Some None).
Proof.
  induction fuel as [|fuel IH]; intros p stop next cycled Hwf Hs Hn Hord Hu Hf; cbn [scan];
    unfold in_range in *; pose proof Hwf as ((? & ?) & ? & _).
  - destruct cycled; [|lia]. assert (next = stop) as -> by lia. rewrite Z.eqb_refl. cbn. right. split; [|done].
    intros a Ha. apply Hu. cbn. lia.
  - destruct (negb cycled || negb (next =? stop)) eqn:E; bsplit.
    + destruct (isUsed p next) eqn:Eu; cbn [negb].
      2: { left. exists next. split; [done|]. split; [|done]. intros H'%isUsed_true. congruence. }
      apply isUsed_true in Eu. unfold nextAddr. destruct (max p <=? next) eqn:Em; bsplit.
      * assert (next = max p) as -> by lia. assert (cycled = false) as ->.
        { destruct cycled; [|done]. destruct E; [done|]. lia. }
        cbn [orb]. apply IH; unfold in_range; try done; try lia.
        intros a [Ha|Ha]; [|lia]. destruct (decide (a = max p)) as [->|]; [done|]. apply Hu. cbn. lia.
      * rewrite u32_small by (unfold in_u32; lia). rewrite orb_false_r.
        apply IH; unfold in_range; try done; try lia.
        -- destruct cycled; [|lia]. destruct E; [done|]. lia.
        -- intros a Ha. destruct (decide (a = next)) as [->|]; [done|]. apply Hu.
           destruct cycled; cbn in *; lia.
        -- destruct cycled; lia.
    + right. destruct cycled; [|done]. assert (next = stop) as -> by lia. split; [|done].
      intros a Ha. apply Hu. cbn. lia.
Qed.

Lemma getUnusedIP_spec r p :
  pool_wf p → 0 ≤ r → allocated p < capacity p →
  ∃ a, in_range p a ∧ (a ∉ used p) ∧ getUnusedIP r p = Ok (Uint32ToIP a).
Proof.
  intros Hwf Hr Hf. pose proof Hwf as ((H1 & H2) & H3 & _). unfold getUnusedIP.
  rewrite (u32_small (max p - min p)), (u32_small (_ + 1)) by (unfold in_u32; lia).
  rewrite (proj2 (Z.eqb_neq _ 0)) by lia.
  pose proof (Z.mod_pos_bound r (max p - min p + 1) ltac:(lia)) as Hmod.
  rewrite u32_small by (unfold in_u32; lia). set (next := r mod _ + min p).
  destruct (scan_spec (scan_fuel p) p next next false) as [(a & Ha & Hn & ->)|[Hall _]];
    unfold in_range, next; try lia; try done.
  - intros a Ha. cbn in Ha. lia.
  - unfold scan_fuel. lia.
  - by exists a.
  - destruct (unused_exists p Hwf Hf) as (a & Ha & Hna). destruct (Hna (Hall a Ha)).
Qed.

(** ** Operations *)
Inductive pop : Type :=
  | PAlloc (r : Z) | PSet (ip : IP) | PUnset (ip : IP) | PAvailable (r : Z).

(** The call, the pool after it, and the address it returned. *)
Definition pexec (op : pop) (p : IPv4pool) : go poolerr (option IP * IPv4pool) :=
  match op with
  | PAlloc r => x ← Alloc r p; Ok (Some x.1, x.2)
  | PSet ip => p' ← Set_ ip p; Ok (None, p')
  | PUnset ip => p' ← Unset ip p; Ok (None, p')
  | PAvailable r => ip ← Available r p; Ok (Some ip, p)
  end.

(** What [rand.Uint32()] can give; IP arguments are any bytes. *)
Definition pop_ok (op : pop) : Prop :=
  match op with PAlloc r | PAvailable r => in_u32 r | PSet ip | PUnset ip => is_bytes ip end.

(** The contract: addresses are allocated from the free part of the range; what is not an
    IPv4 address, in 4 or in 16 bytes, is refused. *)
Definition pool_spec (op : pop) (p : IPv4pool) (res : go poolerr (option IP * IPv4pool)) : Prop :=
  match op with
  | PAlloc _ =>
      (res = Err ErrNotEnoughSpace ∧ ∀ a, in_range p a → a ∈ used p) ∨
      ∃ a, in_range p a ∧ (a ∉ used p) ∧ res = Ok (Some (Uint32ToIP a), set_used p ({[ a ]} ∪ used p))
  | PAvailable _ =>
      (res = Err ErrNotEnoughSpace ∧ ∀ a, in_range p a → a ∈ used p) ∨
      ∃ a, in_range p a ∧ (a ∉ used p) ∧ res = Ok (Some (Uint32ToIP a), p)
  | PSet ip => if negb (Isv4 ip) then res = Err ErrInvalidAddress else ∃ a, IP_ToUint32 ip = Some a ∧ in_u32 a ∧
      ((¬ in_range p a ∧ res = Err ErrNotInRange) ∨
       (in_range p a ∧ a ∈ used p ∧ res = Err ErrAddressInUse) ∨
       (in_range p a ∧ (a ∉ used p) ∧ res = Ok (None, set_used p ({[ a ]} ∪ used p))))
  | PUnset ip => if negb (Isv4 ip) then res = Err ErrInvalidAddress else ∃ a, IP_ToUint32 ip = Some a ∧ in_u32 a ∧
      (((a ∉ used p) ∧ res = Err ErrNotUsed) ∨
       (a ∈ used p ∧ res = Ok (None, set_used p (used p ∖ {[ a ]}))))
  end.

Lemma full_all_used p : pool_wf p → capacity p - allocated p = 0 → ∀ a, in_range p a → a ∈ used p.
Proof.
  intros Hwf Hf a Ha. destruct (decide (a ∈ used p)) as [|Hn]; [done|].
  assert ({[ a ]} ∪ used p ⊆ range_set p) as Hsub.
  { intros b [->%elem_of_singleton|Hb]%elem_of_union; [by apply range_set_elem|by apply used_subset]. }
  apply subseteq_size in Hsub. rewrite size_union in Hsub by set_solver. rewrite size_singleton in Hsub.
  rewrite (capacity_val p Hwf) in Hf. destruct Hwf as ((_ & Hm) & _). pose proof (range_set_size p Hm).
  unfold allocated in Hf. lia.
Qed.

Lemma v4_addr ip : v4 ip → ∃ a, ip = Uint32ToIP a ∧ in_u32 a ∧ IP_ToUint32 ip = Some a ∧ Isv4 ip = true.
Proof.
  intros Hip. destruct (v4_uint ip Hip) as (a & E & Ha & E'). exists a. split_and!; try done.
  unfold Isv4. apply bool_decide_eq_true. unfold IP_ToUint32 in E. destruct (To4 ip); [by eexists|done].
Qed.

(** An IPv4 address in either form has a number. *)
Lemma isv4_uint ip : is_bytes ip → Isv4 ip = true → ∃ a, IP_ToUint32 ip = Some a ∧ in_u32 a.
Proof.
  intros Hb [b Hb4]%bool_decide_eq_true. assert (v4 b) as Hv.
  { unfold To4 in Hb4. destruct (zlen ip =? 4) eqn:E; bsplit; [injection Hb4 as ->; by split; [|]; try done; unfold zlen in E; lia|].
    destruct ((zlen ip =? 16) && _) eqn:E'; [|done]. bsplit. injection Hb4 as <-. split; [rewrite length_drop; unfold zlen in *; lia|].
    by apply Forall_drop. }
  destruct (v4_uint b Hv) as (a & Ha & Hu & _). exists a. split; [|done]. revert Ha. unfold IP_ToUint32. rewrite Hb4.
  assert (To4 b = Some b) as -> by (unfold To4, zlen; by rewrite (proj1 Hv)). done.
Qed.

Lemma in_range_test p a : ((a <? min p) || (max p <? a)) = false ↔ in_range p a.
Proof. unfold in_range. rewrite orb_false_iff, !Z.ltb_ge. lia. Qed.

(** The two calls that search share their prefix. *)
Lemma search_cases {A} p r (f : IP → go poolerr A) :
  pool_wf p → running p = true → in_u32 r →
  let res := (_ ← checkRunning p; x ← free p; if x =? 0 then Err ErrNotEnoughSpace else ip ← getUnusedIP r p; f ip) in
  (res = Err ErrNotEnoughSpace ∧ ∀ a, in_range p a → a ∈ used p) ∨
  ∃ a, in_range p a ∧ (a ∉ used p) ∧ res = f (Uint32ToIP a).
Proof.
  intros Hwf Hr Hu. unfold checkRunning. rewrite Hr. destruct (free_val p Hwf) as [-> Hf]. gosimp.
  destruct (capacity p - allocated p =? 0) eqn:E; bsplit.
  - left. split; [done|]. by apply full_all_used.
  - right. destruct (getUnusedIP_spec r p Hwf) as (a & Ha & Hn & ->); [apply Hu|lia|]. eauto.
Qed.

Lemma pexec_spec p op : pool_wf p → running p = true → pop_ok op → pool_spec op p (pexec op p).
Proof.
  intros Hwf Hr Hop. destruct op as [r|ip|ip|r]; cbn [pexec pool_spec pop_ok] in *.
  - destruct (search_cases p r (λ ip, u ← of_option (IP_ToUint32 ip); Ok (ip, set_used p ({[ u ]} ∪ used p))) Hwf Hr Hop)
      as [[E Hall]|(a & Ha & Hn & E)]; unfold Alloc; rewrite E; gosimp; [by left|].
    right. exists a. split_and!; [done..|]. rewrite to_uint32_inv; [done|].
    destruct Hwf as ((? & ?) & ? & _). unfold in_range in Ha. unfold in_u32. lia.
  - unfold Set_. destruct (Isv4 ip) eqn:Ev; cbn [negb]; [|by gosimp]. destruct (isv4_uint ip Hop Ev) as (a & E & Ha).
    exists a. split_and!; [done..|]. unfold checkRunning. rewrite E. gosimp. cbn [of_option]. gosimp.
    destruct ((a <? min p) || (max p <? a)) eqn:Er.
    + left. split; [|done]. rewrite <- in_range_test. congruence.
    + apply in_range_test in Er. rewrite Hr. gosimp. unfold isUsed. case_bool_decide; tauto.
  - unfold Unset. destruct (Isv4 ip) eqn:Ev; cbn [negb]; [|by gosimp]. destruct (isv4_uint ip Hop Ev) as (a & E & Ha).
    exists a. split_and!; [done..|]. unfold checkRunning, isUsed. rewrite E. gosimp. cbn [of_option]. gosimp.
    rewrite Hr. gosimp. case_bool_decide; tauto.
  - replace (ip ← Available r p; Ok (Some ip, p))
      with (_ ← checkRunning p; x ← free p; if x =? 0 then Err ErrNotEnoughSpace else ip ← getUnusedIP r p; Ok (Some ip, p))
      by (unfold Available; destruct (checkRunning p), (free p); gosimp; try done; bcase; [done|]; by destruct (getUnusedIP r p)).
    by apply search_cases.
Qed.

(** For a 4-byte address the address is that of its number. *)
Lemma v4_contract (P : Z → Prop) ip (res : go poolerr (option IP * IPv4pool)) : v4 ip →
  (if negb (Isv4 ip) then res = Err ErrInvalidAddress else ∃ a, IP_ToUint32 ip = Some a ∧ in_u32 a ∧ P a) →
  ∃ a, ip = Uint32ToIP a ∧ in_u32 a ∧ P a.
Proof.
  intros (a & Eip & Ha & E & ->)%v4_addr. cbn. intros (a' & E' & _ & HP). rewrite E in E'. injection E' as <-. eauto.
Qed.

(** ** Reachable pools *)
Lemma set_used_wf p u :
  pool_wf p → (∀ a, a ∈ u → in_range p a) → pool_wf (set_used p u).
Proof. intros ((? & ?) & ? & _ & ?) Hu. by split_and!. Qed.

Lemma pexec_wf p op x p' :
  pool_wf p → running p = true → pop_ok op → pexec op p = Ok (x, p') → pool_wf p' ∧ running p' = true ∧ min p' = min p ∧ max p' = max p.
Proof.
  intros Hwf Hr Hop E. pose proof (pexec_spec p op Hwf Hr Hop) as Hs. rewrite E in Hs. pose proof Hwf as (_ & _ & Hu & _).
  destruct op; cbn [pool_spec] in Hs.
  - destruct Hs as [[? _]|(a & Ha & _ & [= -> ->])]; [done|]. split; [|done]. apply set_used_wf; [done|].
    intros b [->%elem_of_singleton|?]%elem_of_union; auto.
  - destruct (Isv4 ip); [cbn [negb] in Hs|done]. destruct Hs as (a & _ & _ & [[_ ?]|[(_ & _ & ?)|(Ha & _ & [= -> ->])]]); try done. split; [|done].
    apply set_used_wf; [done|]. intros b [->%elem_of_singleton|?]%elem_of_union; auto.
  - destruct (Isv4 ip); [cbn [negb] in Hs|done]. destruct Hs as (a & _ & _ & [[_ ?]|[_ [= -> ->]]]); [done|]. split; [|done].
    apply set_used_wf; [done|]. intros b [? _]%elem_of_difference; auto.
  - destruct Hs as [[? _]|(a & _ & _ & [= -> ->])]; done.
Qed.

Lemma new_pool_wf ip n ones :
  v4 ip → IP_ToUint32 ip = Some n → 0 ≤ ones ≤ 30 →
  ∃ p, NewIPv4FromSubnet (mkIPNet ip (CIDRMask ones)) = Ok p ∧ pool_wf p ∧ running p = true ∧
    used p = {[ min p ]} ∧ capacity p = 2 ^ (32 - ones) - 2.
Proof.
  intros Hip Hn Ho. destruct (usable_addrs ip n ones Hip Hn Ho) as (Hb0 & Hb1 & Hk & Hf & Hl).
  set (base := n / 2 ^ (32 - ones) * 2 ^ (32 - ones)) in *.
  unfold NewIPv4FromSubnet. rewrite (NetworkAddr_val ip n), Hf, Hl by (done || lia). cbn [n_ip n_mask of_option]. gosimp.
  destruct (v4_addr ip Hip) as (_ & _ & _ & _ & ->). rewrite CIDRMask_size by lia. cbn [negb fst].
  rewrite (proj2 (Z.ltb_ge 30 ones)) by lia. rewrite !to_uint32_inv by (unfold in_u32; lia). cbn [of_option]. gosimp.
  eexists. split; [done|]. set (p := mkPool _ _ _ _ _).
  assert (pool_wf p) as Hwf.
  { unfold p. split_and!; cbn; try lia; try done. unfold defaultUsed. intros a ->%elem_of_singleton. unfold in_range. cbn. lia. }
  split_and!; try done. rewrite (capacity_val p Hwf). cbn. lia.
Qed.

(** Pools in use: made from an IPv4 subnet of at most 30 bits, then any calls; with the
    calls and what they returned, the last one first. *)
Abbreviation trace := (list (pop * (poolerr + option IP))).
Inductive pool_reach (ip : IP) (ones : Z) : trace → IPv4pool → Prop :=
  | reach_new p : NewIPv4FromSubnet (mkIPNet ip (CIDRMask ones)) = Ok p → pool_reach ip ones [] p
  | reach_ok tr op p x p' :
      pool_reach ip ones tr p → pop_ok op → pexec op p = Ok (x, p') → pool_reach ip ones ((op, inr x) :: tr) p'
  | reach_err tr op p e :
      pool_reach ip ones tr p → pop_ok op → pexec op p = Err e → pool_reach ip ones ((op, inl e) :: tr) p.

(** A call released the address with this number. *)
Definition released (u : Z) (tr : trace) : Prop := ∃ ip, (PUnset ip, inr None) ∈ tr ∧ IP_ToUint32 ip = Some u.

Lemma released_cons u e tr : released u tr → released u (e :: tr).
Proof. intros (ip & ? & ?). exists ip. set_solver. Qed.

Lemma released_last u e tr : released u [e] → released u (e :: tr).
Proof. intros (ip & E%list_elem_of_singleton & ?). exists ip. split; [rewrite E; by left|done]. Qed.

(** Only a release takes an address out of use. *)
Lemma pexec_keeps p op x p' u : pool_wf p → running p = true → pop_ok op → pexec op p = Ok (x, p') → u ∈ used p →
  u ∈ used p' ∨ released u [(op, inr x)].
Proof.
  intros Hwf Hr Hop E Hu. pose proof (pexec_spec p op Hwf Hr Hop) as Hsp. rewrite E in Hsp. destruct op as [r|ip|ip|r]; cbn [pool_spec] in Hsp.
  - destruct Hsp as [[? _]|(a & _ & _ & [= -> ->])]; [done|]. left. apply elem_of_union. by right.
  - destruct (Isv4 ip); [cbn [negb] in Hsp|done]. destruct Hsp as (a & _ & _ & [[_ ?]|[(_ & _ & ?)|(_ & _ & [= -> ->])]]); try done.
    left. apply elem_of_union. by right.
  - destruct (Isv4 ip); [cbn [negb] in Hsp|done]. destruct Hsp as (a & Ea & _ & [[_ ?]|[_ [= -> ->]]]); [done|].
    destruct (decide (u = a)) as [->|]; [right; exists ip; set_solver|]. left. cbn. set_solver.
  - destruct Hsp as [[? _]|(a & _ & _ & [= -> ->])]; [done|]. by left.
Qed.

(** The server's address is in use, and so is one that [Alloc] returned, until it is released. *)
Lemma reach_inv ip n ones tr p :
  v4 ip → IP_ToUint32 ip = Some n → 0 ≤ ones ≤ 30 → pool_reach ip ones tr p →
  pool_wf p ∧ running p = true ∧ (min p ∈ used p ∨ released (min p) tr) ∧
  (∀ tr2 r a tr1 u, tr = tr2 ++ (PAlloc r, inr (Some a)) :: tr1 → IP_ToUint32 a = Some u → u ∈ used p ∨ released u tr2).
Proof.
  intros Hip Hn Ho. destruct (new_pool_wf ip n ones Hip Hn Ho) as (p0 & E0 & Hwf0 & Hr0 & Hu0 & _).
  induction 1 as [p E|tr op p x p' _ (Hwf & Hr & Hs & Ha) Hop E|tr op p e _ (Hwf & Hr & Hs & Ha) Hop E].
  - rewrite E0 in E. injection E as <-. split_and!; try done. { left. rewrite Hu0. set_solver. } by intros [].
  - destruct (pexec_wf p op x p' Hwf Hr Hop E) as (Hwf' & Hr' & Emin & _).
    pose proof (λ u, pexec_keeps p op x p' u Hwf Hr Hop E) as Hk. split_and!; [done..| |].
    + rewrite Emin. destruct Hs as [Hs|Hs]; [|right; by apply released_cons]. destruct (Hk _ Hs) as [?|?]; [by left|].
      right. by apply released_last.
    + intros [|e tr2] r a tr1 u Etr Hu; cbn [app] in Etr; injection Etr; clear Etr.
      * intros -> -> ->. left. pose proof (pexec_spec p (PAlloc r) Hwf Hr Hop) as Hsp. rewrite E in Hsp. destruct Hsp as [[? _]|(v & Hv & _ & [= -> ->])]; [done|].
        rewrite to_uint32_inv in Hu; [injection Hu as <-; cbn; set_solver|].
        destruct Hwf as ((? & ?) & ? & _). unfold in_range in Hv. unfold in_u32. lia.
      * intros -> <-. destruct (Ha tr2 r a tr1 u eq_refl Hu) as [Hin|?]; [|right; by apply released_cons].
        destruct (Hk _ Hin) as [?|?]; [by left|]. right. by apply released_last.
  - split_and!; [done..| |].
    + destruct Hs as [?|?]; [by left|]. right. by apply released_cons.
    + intros [|e' tr2] r a tr1 u Etr Hu; cbn [app] in Etr; [done|]; injection Etr as _ ->; destruct (Ha tr2 r a tr1 u eq_refl Hu) as [?|?]; [by left|right; by apply released_cons].
Qed.

(** C6: on a well-formed running pool every call meets its contract: [Alloc] and
    [Available] always end, whatever the random start, with an address of the range
    that is not in use, or report a full pool exactly when it is full; [Set] and
    [Unset] take and release exactly the given address with the right errors; no
    call ends the process, and the pool stays well formed. *)
Theorem pool_contract (p : IPv4pool) (op : pop) :
  pool_wf p → running p = true → pop_ok op →
  pool_spec op p (pexec op p) ∧
  (∀ x p', pexec op p = Ok (x, p') → pool_wf p' ∧ running p' = true).
Proof.
  intros Hwf Hr Hop. split; [by apply pexec_spec|]. intros x p' E.
  by destruct (pexec_wf p op x p' Hwf Hr Hop E) as (? & ? & _).
Qed.

(** C7: starting from a subnet of at most 30 bits, whatever calls were made, an
    address that [Alloc] returns is in the range, was not in use and is in use
    afterwards.  If an earlier call had returned the same address, it was released by
    [Unset] in between; and if it is the server's own address, that one was released. *)
Theorem pool_alloc_unique (ip : IP) (n ones : Z) (tr : trace) (p p' : IPv4pool) (r : Z) (a : IP) :
  v4 ip → IP_ToUint32 ip = Some n → 0 ≤ ones ≤ 30 → pool_reach ip ones tr p → in_u32 r →
  Alloc r p = Ok (a, p') →
  IsAvailable a p = Ok true ∧ IsAvailable a p' = Ok false ∧ Set_ a p' = Err ErrAddressInUse ∧
  ∃ u, IP_ToUint32 a = Some u ∧ in_range p u ∧
    (∀ tr2 r0 tr1, tr = tr2 ++ (PAlloc r0, inr (Some a)) :: tr1 → released u tr2) ∧
    (a = ServerIP p → released u tr).
Proof.
  intros Hip Hn Ho Hreach Hr E. destruct (reach_inv ip n ones tr p Hip Hn Ho Hreach) as (Hwf & Hrun & Hsrv & Hheld).
  pose proof (pexec_spec p (PAlloc r) Hwf Hrun Hr) as Hs. cbn [pexec pool_spec] in Hs. rewrite E in Hs. revert Hs. gosimp.
  intros [[? _]|(u & Hu & Hnu & [= -> ->])]; [done|].
  assert (in_u32 u) as Hu32 by (destruct Hwf as ((? & ?) & ? & _); unfold in_range in Hu; unfold in_u32; lia).
  destruct (v4_addr _ (Uint32ToIP_v4 u)) as (_ & _ & _ & _ & Hv4).
  pose proof (proj2 (in_range_test p u) Hu) as Ht.
  unfold IsAvailable, Set_, checkRunning, isUsed. rewrite Hv4, to_uint32_inv by done.
  cbn [negb of_option set_used min max running used]. gosimp. cbn [min max running used]. rewrite Ht, Hrun. gosimp.
  rewrite bool_decide_eq_false_2, bool_decide_eq_true_2 by (done || set_solver).
  split_and!; try done. exists u. split_and!; try done.
  - intros tr2 r0 tr1 Etr. destruct (Hheld _ _ _ _ u Etr (to_uint32_inv u Hu32)) as [?|?]; done.
  - intros Heq. replace u with (min p) in *; [by destruct Hsrv|]. destruct Hwf as ((? & ?) & ? & ? & Es).
    unfold ServerIP in Heq. rewrite Es in Heq. apply (f_equal IP_ToUint32) in Heq.
    rewrite !to_uint32_inv in Heq by (done || unfold in_u32; lia). congruence.
Qed.

(** A pool made from an IPv4 subnet of at most 30 bits offers every usable
    address but the first, which belongs to the server; longer prefixes are refused. *)
Theorem new_pool (ip : IP) (n ones : Z) :
  v4 ip → IP_ToUint32 ip = Some n → 0 ≤ ones ≤ 32 →
  (ones ≤ 30 → ∃ p, NewIPv4FromSubnet (mkIPNet ip (CIDRMask ones)) = Ok p ∧ pool_wf p ∧
     Some (ServerIP p) = FirstUsable (mkIPNet ip (CIDRMask ones)) ∧ free p = Ok (2 ^ (32 - ones) - 3)) ∧
  (30 < ones → NewIPv4FromSubnet (mkIPNet ip (CIDRMask ones)) = Err ErrSubnetTooSmall).
Proof.
  intros Hip Hn Ho. split.
  - intros Ho30. destruct (new_pool_wf ip n ones Hip Hn ltac:(lia)) as (p & E & Hwf & Hr & Hu & Hc).
    exists p. split_and!; [done..| |].
    + revert E. unfold NewIPv4FromSubnet. rewrite (NetworkAddr_val ip n) by (done || lia). gosimp.
      destruct (v4_addr ip Hip) as (_ & _ & _ & _ & Ev). cbn [n_ip n_mask of_option]. gosimp. rewrite Ev. cbn [negb].
      destruct (30 <? _); [done|]. destruct (FirstUsable _) as [lo|]; [|done]. destruct (LastUsable _) as [hi|]; [|done].
      cbn [of_option]. gosimp. destruct (IP_ToUint32 lo); [|done]. destruct (IP_ToUint32 hi); [|done].
      cbn [of_option]. gosimp. by intros [= <-].
    + destruct (free_val p Hwf) as [-> _]. unfold allocated. rewrite Hu, size_singleton, Hc. f_equal; lia.
  - intros Ho31. unfold NewIPv4FromSubnet. rewrite (NetworkAddr_val ip n) by (done || lia). gosimp.
    destruct (v4_addr ip Hip) as (_ & _ & _ & _ & Ev). cbn [n_ip n_mask of_option]. gosimp. rewrite Ev.
    rewrite CIDRMask_size by lia. cbn [negb fst]. by rewrite (proj2 (Z.ltb_lt 30 ones)) by lia.
Qed.

(** A subnet that is not IPv4 does not get the "non-ipv4 subnet" error:
    building the log field indexes the nil result of [To4] first and panics. *)
Theorem new_pool_v6_panics (subnet : IPNet) :
  Isv4 (n_ip subnet) = false → NewIPv4FromSubnet subnet = Panic.
Proof.
  intros H%bool_decide_eq_false. unfold NewIPv4FromSubnet, NetworkAddr, IP_ToUint32.
  destruct (To4 (n_ip subnet)); [by destruct H|]. by destruct (IPMask_ToUint32 (n_mask subnet)).
Qed.

(** ** Witnesses *)
Definition sample_subnet : IPNet := mkIPNet [10; 0; 0; 77] (CIDRMask 29).
Definition sample_pool : IPv4pool :=
  match NewIPv4FromSubnet sample_subnet with Ok p => p | _ => mkPool [] ∅ 0 0 false end.

Lemma sample_v4 : v4 [10; 0; 0; 77].
Proof. split; [done|]. repeat constructor; done. Qed.

Lemma sample_pool_wf : pool_wf sample_pool.
Proof.
  destruct (new_pool_wf [10; 0; 0; 77] 167772237 29 sample_v4) as (p & E & Hwf & _); [done|lia|].
  unfold sample_pool, sample_subnet. by rewrite E.
Qed.

Lemma pool_contract_witness : pool_spec (PAlloc 12345) sample_pool (pexec (PAlloc 12345) sample_pool).
Proof.
  apply (pool_contract sample_pool (PAlloc 12345)).
  - exact sample_pool_wf.
  - vm_compute. reflexivity.
  - vm_compute. split; congruence.
Defined.

(** An address is handed out, released and handed out again. *)
Definition step_pool (op : pop) (p : IPv4pool) : IPv4pool := match pexec op p with Ok (_, p') => p' | _ => p end.
Definition again_pool : IPv4pool := step_pool (PUnset [10; 0; 0; 76]) (step_pool (PAlloc 3) sample_pool).
Definition again_trace : trace := [(PUnset [10; 0; 0; 76], inr None); (PAlloc 3, inr (Some [10; 0; 0; 76]))].

Lemma again_reach : pool_reach [10; 0; 0; 77] 29 again_trace again_pool.
Proof.
  apply (reach_ok _ _ _ _ (step_pool (PAlloc 3) sample_pool)); [|repeat constructor; done|vm_compute; reflexivity].
  apply (reach_ok _ _ _ _ sample_pool); [|by vm_compute|vm_compute; reflexivity]. apply reach_new. by vm_compute.
Qed.

Lemma pool_alloc_unique_witness :
  ∃ p', Alloc 3 again_pool = Ok ([10; 0; 0; 76], p') ∧ IsAvailable [10; 0; 0; 76] p' = Ok false ∧
    released 167772236 [(PUnset [10; 0; 0; 76], inr None)].
Proof.
  destruct (Alloc 3 again_pool) as [[a p']| |] eqn:E; [|vm_compute in E; discriminate..].
  assert (a = [10; 0; 0; 76]) as -> by (vm_compute in E; congruence).
  exists p'. split; [reflexivity|].
  destruct (pool_alloc_unique [10; 0; 0; 77] 167772237 29 again_trace again_pool p' 3 [10; 0; 0; 76]) as (_ & H1 & _ & u & Hu & _ & H2 & _).
  - exact sample_v4.
  - vm_compute. reflexivity.
  - lia.
  - exact again_reach.
  - vm_compute. split; congruence.
  - exact E.
  - split; [exact H1|]. vm_compute in Hu. injection Hu as <-. exact (H2 [(PUnset [10; 0; 0; 76], inr None)] 3 [] eq_refl).
Defined.

Lemma new_pool_witness : NewIPv4FromSubnet (mkIPNet [10; 0; 0; 77] (CIDRMask 31)) = Err ErrSubnetTooSmall.
Proof.
  apply (new_pool [10; 0; 0; 77] 167772237 31).
  - exact sample_v4.
  - vm_compute. reflexivity.
  - lia.
  - lia.
Defined.

Lemma new_pool_v6_panics_witness :
  NewIPv4FromSubnet (mkIPNet [32; 1; 13; 184; 0; 0; 0; 0; 0; 0; 0; 0; 0; 0; 0; 0] (replicate 16 255)) = Panic.
Proof. apply new_pool_v6_panics. vm_compute. reflexivity. Defined.
