(* ===== verification/Text.v ===== *)
(** * Text: the parts of Go's strings, strconv and time packages the library uses

    Text is a byte sequence.  [Atoi] and decimal printing are exact; [TrimSpace] and
    the case functions are the ASCII part of Go's.  [Calendar] has dates and their text. *)
From Stdlib Require Import String Ascii.
From S2P Require Import Prelude.

Local Open Scope Z_scope.

(** String literals as bytes. *)
Fixpoint txt (s : string) : bytes :=
  match s with
  | EmptyString => []
  | String c s => Z.of_N (N_of_ascii c) :: txt s
  end.

(** ** Decimal numbers *)
Definition isDigit (b : Z) : bool := (48 <=? b) && (b <=? 57).

(** Digits of [n], least significant first; 64-bit values have at most 20. *)
Fixpoint digitsRev (fuel : nat) (n : Z) : bytes :=
  match fuel with
  | O => []
  | S fuel => (48 + n mod 10) :: (if n <? 10 then [] else digitsRev fuel (n / 10))
  end.

(** [%d] of a value that is not negative. *)
Definition utoa (n : Z) : bytes := reverse (digitsRev 20 n).

(** [strconv.Itoa] *)
Definition itoa (n : Z) : bytes := if n <? 0 then 45 :: utoa (- n) else utoa n.

Fixpoint parseDigits (acc : Z) (s : bytes) : option Z :=
  match s with
  | [] => Some acc
  | b :: s => if isDigit b then parseDigits (acc * 10 + (b - 48)) s else None
  end.

(** Digits only, at least one. *)
Definition parseUnsigned (s : bytes) : option Z :=
  match s with [] => None | _ => parseDigits 0 s end.

(** [strconv.Atoi]: optional sign, digits, and the range of [int]. *)
Definition Atoi (s : bytes) : option Z :=
  z ← match s with
      | [] => None
      | b :: r =>
          if b =? 43 then parseUnsigned r          (* + *)
          else if b =? 45 then Z.opp <$> parseUnsigned r   (* - *)
          else parseUnsigned s
      end;
  if bool_decide (in_i64 z) then Some z else None.

(** ** Splitting and trimming *)

(** [strings.Split(s, sep)] for a one-byte separator: never empty. *)
Fixpoint Split (sep : Z) (s : bytes) : list bytes :=
  match s with
  | [] => [[]]
  | b :: s =>
      if b =? sep then [] :: Split sep s
      else match Split sep s with [] => [[b]] | w :: ws => (b :: w) :: ws end
  end.

Definition isSpace (b : Z) : bool := (b =? 32) || ((9 <=? b) && (b <=? 13)).

Fixpoint trimLeft (s : bytes) : bytes :=
  match s with
  | [] => []
  | b :: r => if isSpace b then trimLeft r else s
  end.
Definition TrimSpace (s : bytes) : bytes := reverse (trimLeft (reverse (trimLeft s))).

Definition toLowerByte (b : Z) : Z := if (65 <=? b) && (b <=? 90) then b + 32 else b.
Definition ToLower (s : bytes) : bytes := toLowerByte <$> s.

Fixpoint hasPrefix (p s : bytes) : bool :=
  match p, s with
  | [], _ => true
  | a :: p, b :: s => (a =? b) && hasPrefix p s
  | _, [] => false
  end.
Definition hasSuffix (p s : bytes) : bool := hasPrefix (reverse p) (reverse s).

Definition toUpperByte (b : Z) : Z := if (97 <=? b) && (b <=? 122) then b - 32 else b.
Definition ToUpper (s : bytes) : bytes := toUpperByte <$> s.

(** [strings.Contains(s, c)] for one byte. *)
Definition containsByte (c : Z) (s : bytes) : bool := existsb (Z.eqb c) s.

(** [strings.Fields]: the maximal runs without white space; [w] is the run that is open. *)
Fixpoint fieldsFrom (w s : bytes) : list bytes :=
  match s with
  | [] => match w with [] => [] | _ => [reverse w] end
  | b :: s =>
      if isSpace b then match w with [] => fieldsFrom [] s | _ => reverse w :: fieldsFrom [] s end
      else fieldsFrom (b :: w) s
  end.
Definition Fields (s : bytes) : list bytes := fieldsFrom [] s.

(** ** Laws *)
Lemma parseDigits_app s1 s2 acc :
  parseDigits acc (s1 ++ s2) = parseDigits acc s1 ≫= λ a, parseDigits a s2.
Proof. revert acc. induction s1 as [|b s1 IH]; intros acc; cbn; [done|]. destruct (isDigit b); [apply IH|done]. Qed.

Lemma digit_ok n : isDigit (48 + n mod 10) = true.
Proof. unfold isDigit. pose proof (Z.mod_pos_bound n 10). rewrite andb_true_iff, !Z.leb_le. lia. Qed.

Lemma digits_all fuel n : Forall (λ b, isDigit b = true) (digitsRev fuel n).
Proof.
  revert n. induction fuel as [|fuel IH]; intros n; cbn; constructor; [apply digit_ok|]. case_match; [done|apply IH].
Qed.

Lemma digits_parse fuel n :
  0 ≤ n < 10 ^ Z.of_nat fuel → parseDigits 0 (reverse (digitsRev fuel n)) = Some n.
Proof.
  revert n. induction fuel as [|fuel IH]; intros n Hn; [change (10 ^ Z.of_nat 0) with 1 in Hn; assert (n = 0) as -> by lia; done|].
  destruct Hn as [Hn0 Hn]. cbn [digitsRev]. rewrite reverse_cons, parseDigits_app. destruct (n <? 10) eqn:E; bsplit.
  - cbn. rewrite digit_ok. rewrite Z.mod_small by lia. f_equal. lia.
  - rewrite IH.
    + cbn [mbind option_bind parseDigits]. rewrite digit_ok. f_equal. pose proof (Z.div_mod n 10). lia.
    + split; [apply Z.div_pos; lia|]. apply Z.div_lt_upper_bound; [lia|].
      rewrite Nat2Z.inj_succ, Z.pow_succ_r in Hn by lia. lia.
Qed.

Lemma utoa_digits n : Forall (λ b, isDigit b = true) (utoa n).
Proof. apply Forall_reverse, digits_all. Qed.

Lemma utoa_nonempty n : utoa n ≠ [].
Proof. unfold utoa. cbn [digitsRev]. rewrite reverse_cons. by destruct (reverse _). Qed.

Lemma utoa_parse n : 0 ≤ n < 10 ^ 20 → parseUnsigned (utoa n) = Some n.
Proof.
  intros Hn. unfold parseUnsigned. pose proof (utoa_nonempty n). destruct (utoa n) eqn:E; [done|].
  rewrite <- E. by apply (digits_parse 20).
Qed.

(** Printing then parsing an unsigned value. *)
Lemma Atoi_utoa n : 0 ≤ n < 2 ^ 63 → Atoi (utoa n) = Some n.
Proof.
  intros Hn. pose proof (utoa_parse n ltac:(lia)) as Hp. pose proof (utoa_digits n) as Hd.
  unfold Atoi. destruct (utoa n) as [|b s]; [done|]. apply Forall_cons in Hd as [Hb _].
  assert (b ≠ 43 ∧ b ≠ 45) as [H1 H2] by (unfold isDigit in Hb; bsplit; lia).
  rewrite (proj2 (Z.eqb_neq b 43)), (proj2 (Z.eqb_neq b 45)), Hp by done. cbn.
  rewrite bool_decide_eq_true_2; [done|unfold in_i64; lia].
Qed.

Lemma Atoi_itoa n : in_i64 n → n ≠ - 2 ^ 63 → Atoi (itoa n) = Some n.
Proof.
  unfold in_i64. intros Hn Hm. unfold itoa. destruct (n <? 0) eqn:E; bsplit; [|apply Atoi_utoa; lia].
  unfold Atoi. rewrite utoa_parse by lia. cbn. rewrite Z.opp_involutive, bool_decide_eq_true_2; [done|unfold in_i64; lia].
Qed.

(** A text without the separator is one field. *)
Lemma Split_none sep s : sep ∉ s → Split sep s = [s].
Proof.
  induction s as [|b s IH]; intros Hs; [done|]. apply not_elem_of_cons in Hs as [Hb Hs]. cbn.
  rewrite (proj2 (Z.eqb_neq b sep)) by congruence. by rewrite IH.
Qed.

Lemma Split_cons sep s1 s2 : sep ∉ s1 → Split sep (s1 ++ sep :: s2) = s1 :: Split sep s2.
Proof.
  induction s1 as [|b s1 IH]; intros Hs; cbn; [by rewrite Z.eqb_refl|]. apply not_elem_of_cons in Hs as [Hb Hs].
  rewrite (proj2 (Z.eqb_neq b sep)) by congruence. by rewrite IH.
Qed.

Lemma trimLeft_nospace s : Forall (λ b, isSpace b = false) s → trimLeft s = s.
Proof. destruct 1 as [|b s Hb _]; [done|]. cbn. by rewrite Hb. Qed.

Lemma TrimSpace_nospace s : Forall (λ b, isSpace b = false) s → TrimSpace s = s.
Proof.
  intros Hs. unfold TrimSpace. rewrite (trimLeft_nospace s Hs), trimLeft_nospace by (by apply Forall_reverse).
  apply reverse_involutive.
Qed.

Lemma digits_plain s : Forall (λ b, isDigit b = true) s → Forall (λ b, isSpace b = false) s ∧ (45 ∉ s).
Proof.
  intros Hs. split.
  - eapply Forall_impl; [done|]. intros b Hb. cbn in *. unfold isDigit, isSpace in *. bsplit.
    rewrite orb_false_iff, andb_false_iff, Z.eqb_neq, !Z.leb_gt. lia.
  - intros Hin. eapply Forall_forall in Hs; [|done]. done.
Qed.

Lemma hasPrefix_spec p s : hasPrefix p s = true ↔ ∃ r, s = p ++ r.
Proof.
  revert s. induction p as [|a p IH]; intros s; cbn; [split; eauto|].
  destruct s as [|b s]; [split; [done|by intros [r ?]]|].
  rewrite andb_true_iff, Z.eqb_eq, IH. split.
  - intros [-> [r ->]]. by exists r.
  - intros [r [= -> ->]]. eauto.
Qed.

Lemma containsByte_spec c s : containsByte c s = true ↔ c ∈ s.
Proof.
  unfold containsByte. rewrite existsb_exists. split.
  - intros (x & Hx & ->%Z.eqb_eq). by apply list_elem_of_In.
  - intros Hc. exists c. split; [by apply list_elem_of_In|]. apply Z.eqb_refl.
Qed.

Lemma fieldsFrom_word w s : Forall (λ b, isSpace b = false) s → fieldsFrom w s = match reverse w ++ s with [] => [] | r => [r] end.
Proof.
  revert w. induction s as [|b s IH]; intros w Hs.
  - cbn [fieldsFrom]. rewrite app_nil_r. destruct w as [|c w]; [done|]. destruct (reverse (c :: w)) eqn:E; [|done].
    apply (f_equal length) in E. rewrite length_reverse in E. done.
  - apply Forall_cons in Hs as [Hb Hs]. cbn [fieldsFrom]. rewrite Hb, IH by done.
    rewrite reverse_cons, <-app_assoc. done.
Qed.

Lemma fieldsFrom_run w s b rest : isSpace b = false → Forall (λ b, isSpace b = false) s →
  fieldsFrom (b :: w) (s ++ 32 :: rest) = (reverse (b :: w) ++ s) :: Fields rest.
Proof.
  revert b w. induction s as [|c s IH]; intros b w Hb Hs; [by cbn; rewrite app_nil_r|].
  apply Forall_cons in Hs as [Hc Hs]. cbn [app fieldsFrom]. rewrite Hc, IH by done.
  rewrite (reverse_cons (b :: w) c), <-app_assoc. done.
Qed.

(** Two words with one space in between. *)
Lemma Fields_two w1 w2 : w1 ≠ [] → w2 ≠ [] →
  Forall (λ b, isSpace b = false) w1 → Forall (λ b, isSpace b = false) w2 → Fields (w1 ++ 32 :: w2) = [w1; w2].
Proof.
  intros H1 H2 Hw1 Hw2. destruct w1 as [|b w1]; [done|]. apply Forall_cons in Hw1 as [Hb Hw1].
  unfold Fields at 1. cbn [app fieldsFrom]. rewrite Hb, fieldsFrom_run by done. unfold Fields.
  rewrite fieldsFrom_word by done. cbn. by destruct w2.
Qed.

(** Fields are never empty. *)
Lemma fieldsFrom_nonempty s : ∀ w, Forall (λ f, f ≠ []) (fieldsFrom w s).
Proof.
  assert (∀ (b : Z) w, reverse (b :: w) ≠ []) as Hr.
  { intros b w E. apply (f_equal length) in E. rewrite length_reverse in E. done. }
  induction s as [|b s IH]; intros [|c w]; cbn [fieldsFrom]; try (by repeat constructor); destruct (isSpace b); try apply IH;
    by constructor.
Qed.

(** ** Cutting a text at a separator *)

(** The text before and after the first [c]. *)
Fixpoint cutAt (c : Z) (s : bytes) : option (bytes * bytes) :=
  match s with
  | [] => None
  | b :: s => if b =? c then Some ([], s) else '(l, r) ← cutAt c s; Some (b :: l, r)
  end.
(** The text before and after the last [c]. *)
Definition cutLast (c : Z) (s : bytes) : option (bytes * bytes) :=
  '(l, r) ← cutAt c (reverse s); Some (reverse r, reverse l).

Lemma cutAt_app c l r : c ∉ l → cutAt c (l ++ c :: r) = Some (l, r).
Proof.
  induction l as [|b l IH]; intros Hl; cbn [app cutAt]; [by rewrite Z.eqb_refl|]. apply not_elem_of_cons in Hl as [Hb Hl].
  rewrite (proj2 (Z.eqb_neq b c)), IH by congruence. done.
Qed.

Lemma cutLast_app c l r : c ∉ r → cutLast c (l ++ c :: r) = Some (l, r).
Proof.
  intros Hr. unfold cutLast. rewrite reverse_app, reverse_cons, <-app_assoc. cbn [app]. rewrite cutAt_app by (by rewrite elem_of_reverse).
  cbn. by rewrite !reverse_involutive.
Qed.

Lemma cutAt_inv c s l r : cutAt c s = Some (l, r) → s = l ++ c :: r ∧ c ∉ l.
Proof.
  revert l. induction s as [|b s IH]; intros l; cbn [cutAt]; [done|]. destruct (b =? c) eqn:E.
  - apply Z.eqb_eq in E as ->. intros [= <- <-]. split; [done|apply not_elem_of_nil].
  - destruct (cutAt c s) as [[l' r']|]; [|done]. intros [= <- <-]. destruct (IH _ eq_refl) as [-> Hc].
    split; [done|]. apply Z.eqb_neq in E. apply not_elem_of_cons. split; [congruence|done].
Qed.

(** [strings.Join] with a one-byte separator *)
Fixpoint Join (sep : Z) (ss : list bytes) : bytes :=
  match ss with
  | [] => []
  | [s] => s
  | s :: ss => s ++ sep :: Join sep ss
  end.

Lemma Split_nonempty sep s : Split sep s ≠ [].
Proof. destruct s as [|b s]; [done|]. cbn. destruct (b =? sep); [done|]. by destruct (Split sep s). Qed.

Lemma Join_Split sep s : Join sep (Split sep s) = s.
Proof.
  induction s as [|b s IH]; [done|]. cbn [Split]. pose proof (Split_nonempty sep s) as Hne. destruct (Z.eqb_spec b sep) as [->|Hb].
  - destruct (Split sep s) as [|w ws]; [done|]. cbn [Join] in *. by rewrite IH.
  - destruct (Split sep s) as [|w ws]; [done|]. destruct ws as [|w2 ws]; [cbn in *; by rewrite IH|].
    change (Join sep ((b :: w) :: w2 :: ws)) with (b :: Join sep (w :: w2 :: ws)). by rewrite IH.
Qed.

Lemma Split_Join sep (ss : list bytes) : ss ≠ [] → Forall (λ s, sep ∉ s) ss → Split sep (Join sep ss) = ss.
Proof.
  induction ss as [|s [|s2 ss] IH]; intros Hne Hc; [done| |].
  - cbn. apply Split_none. by apply Forall_inv in Hc.
  - inversion Hc as [|? ? H1 H2]; subst. change (Join sep (s :: s2 :: ss)) with (s ++ sep :: Join sep (s2 :: ss)).
    rewrite Split_cons by done. by rewrite IH.
Qed.

(** ** Dates

    The Gregorian calendar of [time] in UTC.  Days are counted from 1 January of the year 1,
    where Go's zero time is; years begin in March, so that the leap day is the last one,
    and 400 of them, an era of 146097 days, repeat. *)
Module Calendar.

Definition yearOfEra (doe : Z) : Z := (doe - doe / 1460 + doe / 36524 - doe / 146096) / 365.
(** The days before a year. *)
Definition yearStart (y : Z) : Z := 365 * y + y / 4 - y / 100 + y / 400.

(** Month, day, and the years to add, of a day of the year from March on; and back. *)
Definition dayOfYear (doy : Z) : Z * Z * Z :=
  let mp := (5 * doy + 2) / 153 in
  let m := if mp <? 10 then mp + 3 else mp - 9 in
  (if m <=? 2 then 1 else 0, m, doy - (153 * mp + 2) / 5 + 1).
Definition yearDay (m d : Z) : Z := (153 * ((m + 9) mod 12) + 2) / 5 + d - 1.

(** [t.Date()]: year, month and day of a day. *)
Definition civil (day : Z) : Z * Z * Z :=
  let z := day + 306 in
  let doe := z mod 146097 in
  let yoe := yearOfEra doe in
  let '(dy, m, d) := dayOfYear (doe - yearStart yoe) in
  (yoe + dy + 400 * (z / 146097), m, d).

(** [time.Date]: the day of a date; a day beyond the end of its month is one of the next. *)
Definition daysSince (y m d : Z) : Z :=
  yearStart (if m <=? 2 then y - 1 else y) + yearDay m d - 306.

(** [t.AddDate(years, 0, 0)]; [unit] is the length of a day in the units of [t]. *)
Definition addYears (unit years t : Z) : Z :=
  let '(y, m, d) := civil (t / unit) in
  daysSince (y + years) m d * unit + t mod unit.

Definition pad (width : nat) (n : Z) : bytes :=
  let s := utoa n in replicate (width - length s) 48 ++ s.
(** [t.Format(time.RFC3339)] in UTC, of seconds from the year 1 on. *)
Definition rfc3339 (t : Z) : bytes :=
  let '(y, m, d) := civil (t / 86400) in
  let s := t mod 86400 in
  pad 4 y ++ [45] ++ pad 2 m ++ [45] ++ pad 2 d ++ [84] ++
  pad 2 (s / 3600) ++ [58] ++ pad 2 (s / 60 mod 60) ++ [58] ++ pad 2 (s mod 60) ++ [90].

Lemma yearStart_era y k : yearStart (y + 400 * k) = yearStart y + 146097 * k.
Proof. unfold yearStart. Z.to_euclidean_division_equations. lia. Qed.
Lemma yearStart_next y : yearStart (y + 1) = yearStart y + 365 ∨ yearStart (y + 1) = yearStart y + 366.
Proof. unfold yearStart. Z.to_euclidean_division_equations. lia. Qed.
Lemma yearOfEra_mono x y : 0 ≤ x ≤ y → y ≤ 146096 → yearOfEra x ≤ yearOfEra y.
Proof.
  intros Hx Hy. apply Z.div_le_mono; [lia|]. destruct (decide (x = y)) as [->|Hne]; [lia|].
  assert (x / 146096 = 0 ∧ x / 36524 + y / 146096 ≤ y / 36524 ∧ x - x / 1460 ≤ y - y / 1460) by (Z.to_euclidean_division_equations; lia). lia.
Qed.

(** The first and the last day of each year of an era, and each day of a year. *)
Definition yearEnd (yoe : Z) : Z := if yoe =? 399 then 146096 else yearStart (yoe + 1) - 1.
Definition yearOk (yoe : Z) : bool :=
  (yearOfEra (yearStart yoe) =? yoe) && (yearOfEra (yearEnd yoe) =? yoe) && (yearEnd yoe <=? yearStart yoe + 365).
Definition dayOk (doy : Z) : bool :=
  let '(dy, m, d) := dayOfYear doy in
  (yearDay m d =? doy) && (dy =? if m <=? 2 then 1 else 0) && (1 <=? m) && (m <=? 12) && (1 <=? d) && (d <=? 31).
Lemma years_ok yoe : 0 ≤ yoe < 400 → yearOk yoe = true.
Proof.
  intros H. assert (forallb yearOk (seqZ 0 400) = true) as Hall by (vm_compute; reflexivity).
  rewrite forallb_forall in Hall. apply Hall, list_elem_of_In, elem_of_seqZ. lia.
Qed.
Lemma days_ok doy : 0 ≤ doy < 366 → dayOk doy = true.
Proof.
  intros H. assert (forallb dayOk (seqZ 0 366) = true) as Hall by (vm_compute; reflexivity).
  rewrite forallb_forall in Hall. apply Hall, list_elem_of_In, elem_of_seqZ. lia.
Qed.

Lemma yearOfEra_spec doe : 0 ≤ doe ≤ 146096 →
  0 ≤ yearOfEra doe < 400 ∧ 0 ≤ doe - yearStart (yearOfEra doe) < 366.
Proof.
  intros Hd. assert (0 ≤ yearOfEra doe ≤ 399) as Hy.
  { pose proof (yearOfEra_mono 0 doe ltac:(lia) ltac:(lia)). pose proof (yearOfEra_mono doe 146096 ltac:(lia) ltac:(lia)).
    change (yearOfEra 0) with 0 in *. change (yearOfEra 146096) with 399 in *. lia. }
  split; [lia|]. set (yoe := yearOfEra doe) in *. pose proof (years_ok yoe ltac:(lia)) as Hok. unfold yearOk in Hok. bsplit.
  split.
  - apply Z.le_0_sub, Z.nlt_ge. intros Hlt. assert (1 ≤ yoe) as Hy1.
    { assert (yoe ≠ 0); [|lia]. intros E. rewrite E in Hlt. change (yearStart 0) with 0 in Hlt. lia. }
    pose proof (years_ok (yoe - 1) ltac:(lia)) as Hp. unfold yearOk, yearEnd in Hp. rewrite (proj2 (Z.eqb_neq (yoe - 1) 399)) in Hp by lia.
    replace (yoe - 1 + 1) with yoe in Hp by lia. bsplit. pose proof (yearOfEra_mono doe (yearStart yoe - 1) ltac:(lia)) as Hm.
    assert (yearStart yoe ≤ 146096 + 1) by (unfold yearStart; Z.to_euclidean_division_equations; lia). specialize (Hm ltac:(lia)). fold yoe in Hm. lia.
  - apply Z.nle_gt. intros Hge. assert (yearEnd yoe < doe) as Hlt by lia. unfold yearEnd in Hlt. destruct (yoe =? 399) eqn:E; bsplit; [lia|].
    pose proof (years_ok (yoe + 1) ltac:(lia)) as Hn. unfold yearOk in Hn. bsplit.
    pose proof (yearOfEra_mono (yearStart (yoe + 1)) doe) as Hm. fold yoe in Hm.
    assert (0 ≤ yearStart (yoe + 1)) by (unfold yearStart; Z.to_euclidean_division_equations; lia). specialize (Hm ltac:(lia) ltac:(lia)). lia.
Qed.

Lemma civil_spec day : ∃ y m d, civil day = (y, m, d) ∧ daysSince y m d = day ∧ 1 ≤ m ≤ 12 ∧ 1 ≤ d ≤ 31.
Proof.
  unfold civil. set (z := day + 306). pose proof (Z.mod_pos_bound z 146097 ltac:(lia)) as Hb.
  pose proof (Z.div_mod z 146097 ltac:(lia)) as Hz. destruct (yearOfEra_spec (z mod 146097) ltac:(lia)) as [Hy Hd].
  pose proof (days_ok _ Hd) as Hok. unfold dayOk in Hok. destruct (dayOfYear _) as [[dy m] d]. bsplit.
  eexists _, m, d. split; [done|]. split; [|lia]. unfold daysSince. subst dy.
  assert ((if m <=? 2 then yearOfEra (z mod 146097) + (if m <=? 2 then 1 else 0) + 400 * (z / 146097) - 1
     else yearOfEra (z mod 146097) + (if m <=? 2 then 1 else 0) + 400 * (z / 146097)) = yearOfEra (z mod 146097) + 400 * (z / 146097)) as ->.
  { destruct (m <=? 2); lia. }
  rewrite yearStart_era. unfold z in *. lia.
Qed.

Lemma daysSince_next y m d : daysSince (y + 1) m d = daysSince y m d + 365 ∨ daysSince (y + 1) m d = daysSince y m d + 366.
Proof.
  unfold daysSince. set (y0 := if m <=? 2 then y - 1 else y).
  assert ((if m <=? 2 then y + 1 - 1 else y + 1) = y0 + 1) as -> by (unfold y0; destruct (m <=? 2); lia).
  destruct (yearStart_next y0); lia.
Qed.

(** A year later is 365 or 366 days later, at the same time of the day. *)
Lemma addYears_year unit t : 0 < unit → addYears unit 1 t = t + 365 * unit ∨ addYears unit 1 t = t + 366 * unit.
Proof.
  intros Hu. unfold addYears. destruct (civil_spec (t / unit)) as (y & m & d & -> & Hd & _).
  pose proof (Z.div_mod t unit ltac:(lia)). destruct (daysSince_next y m d) as [-> | ->]; [left|right]; rewrite Hd; lia.
Qed.

Example rfc3339_text : rfc3339 (addYears 86400 1 (daysSince 2024 2 29 * 86400 + 45296)) = txt "2025-03-01T12:34:56Z".
Proof. vm_compute. reflexivity. Qed.
End Calendar.
