(* ===== verification/Human.v ===== *)
(** * human: sizes and intervals that people write

    Models [src/human/size.go] and [src/human/interval.go], with the parts of [strconv] and
    [time] they use: parsing and printing of floating-point numbers and of durations.
    Text is ASCII but for the micro sign. *)
From S2P Require Import Prelude Text.

Local Open Scope Z_scope.

(** * Float: the floating-point numbers that sizes and durations go through

    Go's [float64] where the library uses it: finite values that are not negative, as a
    mantissa and an exponent of two.  Every operation is the exact result rounded to the
    nearest value with 53 bits, ties to the even one.  What the code relies on is
    [rnd_exact] (a result that has at most 53 bits is exact) and [rnd_near] (any other is
    off by at most one part in [2^53]). *)
(** [man * 2 ^ exp] *)
Record float := mkFloat { man : Z; exp : Z }.

(** The factors that turn [n / d * 2 ^ -e] into a quotient of integers. *)
Definition up (e : Z) : Z := 2 ^ Z.max 0 (- e).
Definition down (e : Z) : Z := 2 ^ Z.max 0 e.

(** The integer nearest to [a / b], the even one of two. *)
Definition rne (a b : Z) : Z :=
  let q := a / b in
  let r := 2 * (a mod b) in
  if r <? b then q else if b <? r then q + 1 else if Z.even q then q else q + 1.

(** The exponent with which [n / d] has a mantissa of 53 bits, or the smallest there is. *)
Definition expOf (n d : Z) : Z :=
  let e := Z.log2 n - Z.log2 d - 53 in
  let e := if n * up e <? d * down e * 2 ^ 53 then e else e + 1 in
  Z.max e (- 1074).
(** The [float64] nearest to [n / d]. *)
Definition rnd (n d : Z) : float :=
  if n =? 0 then mkFloat 0 0
  else let e := expOf n d in mkFloat (rne (n * up e) (d * down e)) e.

(** Numerator and denominator of a value. *)
Definition num (x : float) : Z := man x * down (exp x).
Definition den (x : float) : Z := up (exp x).

Definition ofZ (z : Z) : float := rnd z 1.
Definition fmul (x y : float) : float := rnd (num x * num y) (den x * den y).
Definition fdiv (x y : float) : float := rnd (num x * den y) (den x * num y).
(** Conversion to an integer drops the fraction. *)
Definition ftrunc (x : float) : Z := num x / den x.
(** Not less than [2^1024]: the value would be infinite. *)
Definition overflows (x : float) : bool := den x * 2 ^ 1024 <=? num x.

(** ** Rounding *)
Lemma up_pos e : 0 < up e.
Proof. apply Z.pow_pos_nonneg; lia. Qed.
Lemma down_pos e : 0 < down e.
Proof. apply Z.pow_pos_nonneg; lia. Qed.
Lemma up_down e : 0 ≤ e → up e = 1 ∧ down e = 2 ^ e.
Proof. intros. unfold up, down. rewrite !Z.max_l, ?Z.max_r by lia. done. Qed.
Lemma up_down_neg e : e ≤ 0 → up e = 2 ^ (- e) ∧ down e = 1.
Proof. intros. unfold up, down. rewrite Z.max_r, Z.max_l by lia. done. Qed.
(** [up e / down e] is [2 ^ -e]. *)
Lemma up_down_shift e j : 0 ≤ j - e → up e * down j = down e * up j * 2 ^ (j - e).
Proof.
  intros Hj. unfold up, down. rewrite <-!Z.pow_add_r by lia. f_equal. lia.
Qed.

Lemma rne_near a b : 0 < b → 2 * Z.abs (a - b * rne a b) ≤ b.
Proof.
  intros Hb. unfold rne. pose proof (Z.div_mod a b). pose proof (Z.mod_pos_bound a b Hb).
  destruct (Z.ltb_spec (2 * (a mod b)) b); [nia|]. destruct (Z.ltb_spec b (2 * (a mod b))); [nia|]. destruct (Z.even _); nia.
Qed.
Lemma rne_exact q b : 0 < b → rne (q * b) b = q.
Proof. intros Hb. unfold rne. rewrite Z.div_mul, Z.mod_mul by lia. by rewrite (proj2 (Z.ltb_lt (2 * 0) b)) by lia. Qed.
Lemma rne_nonneg a b : 0 ≤ a → 0 < b → 0 ≤ rne a b.
Proof. intros Ha Hb. unfold rne. pose proof (Z.div_pos a b Ha Hb). repeat case_match; lia. Qed.

(** The mantissa of a normal number has its 53 bits: no fewer ... *)
Lemma expOf_low n d : 0 < n → 0 < d → expOf n d = -1074 ∨ d * down (expOf n d) * 2 ^ 52 ≤ n * up (expOf n d).
Proof.
  intros Hn Hd. unfold expOf. set (e := Z.log2 n - Z.log2 d - 53).
  pose proof (Z.log2_spec n Hn) as [H1 H2]. pose proof (Z.log2_spec d Hd) as [H3 H4].
  pose proof (Z.log2_nonneg n). pose proof (Z.log2_nonneg d). pose proof (up_pos e). pose proof (down_pos e).
  (* n * up e >= d * down e * 2^52 *)
  assert (d * down e * 2 ^ 52 ≤ n * up e) as Hlow.
  { assert (2 ^ Z.succ (Z.log2 d) * (down e * 2 ^ 52) = 2 ^ Z.log2 n * up e) as E.
    { unfold up, down. rewrite <-!Z.pow_add_r by lia. f_equal. lia. }
    assert (d * (down e * 2 ^ 52) ≤ 2 ^ Z.succ (Z.log2 d) * (down e * 2 ^ 52)) by (apply Z.mul_le_mono_nonneg_r; nia).
    assert (2 ^ Z.log2 n * up e ≤ n * up e) by (apply Z.mul_le_mono_nonneg_r; lia). lia. }
  destruct (Z.ltb_spec (n * up e) (d * down e * 2 ^ 53)) as [Hc|Hc].
  - destruct (Z.max_spec e (-1074)) as [[_ ->]|[_ ->]]; [by left|by right].
  - destruct (Z.max_spec (e + 1) (-1074)) as [[_ ->]|[_ ->]]; [by left|right].
    assert (down (e + 1) * up e = 2 * (down e * up (e + 1))) as E.
    { unfold up, down. rewrite <-Z.pow_add_r by lia. change 2 with (2 ^ 1) at 2. rewrite <-!Z.pow_add_r by lia. f_equal. lia. }
    pose proof (up_pos (e + 1)). pose proof (down_pos (e + 1)).
    apply (Z.mul_le_mono_pos_r _ _ (up e)); [done|].
    replace (d * down (e + 1) * 2 ^ 52 * up e) with (d * down e * 2 ^ 53 * up (e + 1)); [nia|].
    replace (2 ^ 53) with (2 * 2 ^ 52) by reflexivity. nia.
Qed.

(** A quotient that has at most 53 bits is its own rounding. *)
Lemma rnd_exact n d k j : 0 < d → 0 < k < 2 ^ 53 → - 1074 ≤ j → n * up j = d * k * down j →
  num (rnd n d) * d = n * den (rnd n d).
Proof.
  intros Hd Hk Hj E. pose proof (up_pos j). pose proof (down_pos j).
  assert (0 < n) as Hn by nia. unfold rnd. rewrite (proj2 (Z.eqb_neq n 0)) by lia.
  set (e := expOf n d). pose proof (up_pos e). pose proof (down_pos e). unfold num, den. cbn [man exp].
  assert (e ≤ j) as Hej.
  { destruct (expOf_low n d Hn Hd) as [He|He]; fold e in He; [lia|].
    (* d*down e*2^52 <= n*up e ; n*up j = d*k*down j *)
    destruct (Z.le_gt_cases e j) as [|Hgt]; [done|exfalso].
    assert (up j * down e = down j * up e * 2 ^ (e - j)) as Es by (apply up_down_shift; lia).
    assert (2 ^ 1 ≤ 2 ^ (e - j)) by (apply Z.pow_le_mono_r; lia).
    assert (n * up e * up j = d * k * down j * up e) as E2 by nia.
    assert (d * down e * 2 ^ 52 * up j ≤ d * k * down j * up e) as H5 by nia.
    assert (d * (down j * up e * 2 ^ (e - j)) * 2 ^ 52 ≤ d * k * down j * up e) as H6 by nia.
    assert (0 < d * down j * up e) by nia.
    assert (2 ^ (e - j) * 2 ^ 52 ≤ k) by nia. lia. }
  assert (n * up e = k * 2 ^ (j - e) * (d * down e)) as Ea.
  { assert (up e * down j = down e * up j * 2 ^ (j - e)) as Es by (apply up_down_shift; lia).
    apply (Z.mul_reg_r _ _ (up j)); [lia|]. nia. }
  rewrite Ea, rne_exact by nia. nia.
Qed.

(** Any result is off by at most one part in [2^53], unless it is tiny. *)
Lemma rnd_near n d : 0 < n → 0 < d → expOf n d ≠ -1074 →
  2 ^ 53 * Z.abs (n * den (rnd n d) - d * num (rnd n d)) ≤ n * den (rnd n d).
Proof.
  intros Hn Hd He. unfold rnd. rewrite (proj2 (Z.eqb_neq n 0)) by lia.
  destruct (expOf_low n d Hn Hd) as [|Hl]; [done|]. set (e := expOf n d) in *. unfold num, den. cbn [man exp].
  pose proof (up_pos e). pose proof (down_pos e).
  pose proof (rne_near (n * up e) (d * down e)) as Hr. replace (2 ^ 53) with (2 * 2 ^ 52) by reflexivity.
  replace (d * (rne (n * up e) (d * down e) * down e)) with (d * down e * rne (n * up e) (d * down e)) by ring.
  assert (0 < d * down e) by nia. specialize (Hr H1). nia.
Qed.

Lemma rnd_den n d : 0 < den (rnd n d).
Proof. apply up_pos. Qed.
Lemma rnd_num n d : 0 ≤ n → 0 < d → 0 ≤ num (rnd n d).
Proof.
  intros Hn Hd. unfold rnd. destruct (n =? 0) eqn:E; [done|]. unfold num. cbn [man exp].
  pose proof (up_pos (expOf n d)). pose proof (down_pos (expOf n d)). apply Z.mul_nonneg_nonneg; [|lia]. apply rne_nonneg; nia.
Qed.

(** The exponent of a quotient that is at least one is far from the smallest. *)
Lemma expOf_big n d : 0 < d ≤ n → expOf n d ≠ -1074.
Proof.
  intros Hd. unfold expOf. pose proof (Z.log2_le_mono d n ltac:(lia)).
  destruct (_ <? _); lia.
Qed.

(** Small integers are floats. *)
Lemma ofZ_exact z : 0 ≤ z < 2 ^ 53 → num (ofZ z) = z * den (ofZ z).
Proof.
  intros Hz. destruct (Z.eq_dec z 0) as [->|Hne]; [done|]. unfold ofZ.
  pose proof (rnd_exact z 1 z 0). change (up 0) with 1 in H. change (down 0) with 1 in H. lia.
Qed.

(** ** Known values *)
Example third : rnd 1 3 = mkFloat 6004799503160661 (-54).
Proof. vm_compute. reflexivity. Qed.
Example tenth : rnd 1 10 = mkFloat 7205759403792794 (-56).
Proof. vm_compute. reflexivity. Qed.
Example tie_to_even : ftrunc (ofZ (2 ^ 53 + 1)) = 2 ^ 53.
Proof. vm_compute. reflexivity. Qed.
Example smallest : rnd 1 (2 ^ 1075) = mkFloat 0 (-1074) ∧ rnd 3 (2 ^ 1075) = mkFloat 2 (-1074).
Proof. vm_compute. done. Qed.

(** ** strconv.ParseFloat for a text without letters

    The digits are read as one integer [mant], with the number [frac] of those after the
    point; [None] is a syntax error. *)
Fixpoint readDigits (s : bytes) (sawdot sawdigits : bool) (mant frac : Z) : option (Z * Z) :=
  match s with
  | [] => if sawdigits then Some (mant, frac) else None
  | c :: s =>
      if c =? 95 then readDigits s sawdot sawdigits mant frac
      else if c =? 46 then (if sawdot then None else readDigits s true sawdigits mant frac)
      else if isDigit c then readDigits s sawdot true (mant * 10 + (c - 48)) (if sawdot then frac + 1 else frac)
      else None
  end.

(** [underscoreOK]: an underscore is between two digits. *)
Fixpoint underscores (s : bytes) (sawDigit sawUnderscore : bool) : bool :=
  match s with
  | [] => negb sawUnderscore
  | c :: s =>
      if isDigit c then underscores s true false
      else if c =? 95 then sawDigit && underscores s false true
      else negb sawUnderscore && underscores s false false
  end.

(** Sign and value. *)
Definition ParseFloat (s : bytes) : option (bool * float) :=
  let '(neg, digits) := match s with 43 :: r => (false, r) | 45 :: r => (true, r) | _ => (false, s) end in
  '(mant, frac) ← readDigits digits false false 0 0;
  if containsByte 95 digits && negb (underscores digits false false) then None
  else
    let x := rnd mant (10 ^ frac) in
    if overflows x then None else Some (neg, x).

(** [FormatFloat(x, 'f', 1, 64)]: the exact value, rounded to one decimal. *)
Definition FormatFloat1 (x : float) : bytes :=
  let t := rne (10 * num x) (den x) in
  utoa (t / 10) ++ [46; 48 + t mod 10].

(** [strings.TrimSuffix] *)
Definition TrimSuffix (s suffix : bytes) : bytes :=
  if hasPrefix (reverse suffix) (reverse s) then take (length s - length suffix) s else s.

(** ** size.go *)
Definition b : Z := 1.
Definition kilo : Z := 2 ^ 10.
Definition mega : Z := 2 ^ 20.
Definition giga : Z := 2 ^ 30.
Definition tera : Z := 2 ^ 40.
Definition peta : Z := 2 ^ 50.
Definition exa : Z := 2 ^ 60.

Definition FormatSizeToHuman (bytes : Z) : Prelude.bytes :=
  let val := ofZ bytes in
  if bytes =? 0 then txt "0b"
  else
    let '(unit, val) :=
      if exa <=? bytes then (txt "eb", fdiv val (ofZ exa))
      else if peta <=? bytes then (txt "pb", fdiv val (ofZ peta))
      else if tera <=? bytes then (txt "tb", fdiv val (ofZ tera))
      else if giga <=? bytes then (txt "gb", fdiv val (ofZ giga))
      else if mega <=? bytes then (txt "mb", fdiv val (ofZ mega))
      else if kilo <=? bytes then (txt "kb", fdiv val (ofZ kilo))
      else (txt "b", val) in
    TrimSuffix (FormatFloat1 val) (txt ".0") ++ unit.

Inductive humanerror := errInvalidUnits | errDuration (text : Prelude.bytes).

Definition isLetter (c : Z) : bool := ((65 <=? c) && (c <=? 90)) || ((97 <=? c) && (c <=? 122)).
(** The text before the first letter, and from it on. *)
Fixpoint cutLetters (s : bytes) : option (bytes * bytes) :=
  match s with
  | [] => None
  | c :: r => if isLetter c then Some ([], s) else '(l, m) ← cutLetters r; Some (c :: l, m)
  end.

Section size.
(** What a conversion of a value that does not fit gives, which Go leaves open. *)
Context (outOfRange : float → Z).
Definition toUint64 (x : float) : Z := if ftrunc x <? 2 ^ 64 then ftrunc x else outOfRange x.

Definition ParseSizeFromHuman (s : bytes) : go humanerror Z :=
  let s := TrimSpace s in
  let s := ToLower s in
  match cutLetters s with
  | None => Err errInvalidUnits
  | Some (vStr, multiple) =>
      match ParseFloat vStr with
      | None => Err errInvalidUnits
      | Some (neg, v) =>
          if neg && (0 <? num v) then Err errInvalidUnits
          else if bool_decide (multiple ∈ [txt "e"; txt "eb"; txt "eib"]) then Ok (toUint64 (fmul v (ofZ exa)))
          else if bool_decide (multiple ∈ [txt "p"; txt "pb"; txt "pib"]) then Ok (toUint64 (fmul v (ofZ peta)))
          else if bool_decide (multiple ∈ [txt "t"; txt "tb"; txt "tib"]) then Ok (toUint64 (fmul v (ofZ tera)))
          else if bool_decide (multiple ∈ [txt "g"; txt "gb"; txt "gib"]) then Ok (toUint64 (fmul v (ofZ giga)))
          else if bool_decide (multiple ∈ [txt "m"; txt "mb"; txt "mib"]) then Ok (toUint64 (fmul v (ofZ mega)))
          else if bool_decide (multiple ∈ [txt "k"; txt "kb"; txt "kib"]) then Ok (toUint64 (fmul v (ofZ kilo)))
          else if bool_decide (multiple = txt "b") then Ok (toUint64 v)
          else Err errInvalidUnits
      end
  end.

(** [Size] is a [uint64]. *)
Definition Size_String (s : Z) : bytes := FormatSizeToHuman s.
(** [str] and [number] are what the decoder makes of the node as a string and as a number. *)
Definition Size_UnmarshalYAML {E} (str : bytes + E) (number : Z + E) : go (humanerror + E) Z :=
  match str with
  | inr _ => match number with inr err => Err (inr err) | inl v => Ok v end
  | inl vStr =>
      if bool_decide (vStr = []) then Ok 0
      else match ParseSizeFromHuman vStr with
      | Ok v => Ok v
      | Err err => Err (inl err)
      | Panic => Panic
      end
  end.
Definition Size_MarshalYAML (s : Z) : bytes := FormatSizeToHuman s.
Definition Size_Value (s : Z) : Z := i64 s.
Definition Size_IsZero (s : Z) : bool := i64 s =? 0.
Definition MustParseSize (s : bytes) : go humanerror Z :=
  match ParseSizeFromHuman s with Ok v => Ok v | _ => Panic end.
End size.

(** ** time.Duration.String *)
Definition Microsecond : Z := 1000.
Definition Millisecond : Z := 1000000.

(** [fmtFrac]: the last [prec] digits as a fraction without its trailing zeros, in front of
    [acc], and the digits before them; [print] once a digit was printed. *)
Fixpoint fmtFrac (prec : nat) (v : Z) (print : bool) (acc : bytes) : bytes * Z :=
  match prec with
  | O => (if print then 46 :: acc else acc, v)
  | S prec =>
      let digit := v mod 10 in
      let print := print || negb (digit =? 0) in
      fmtFrac prec (v / 10) print (if print then (48 + digit) :: acc else acc)
  end.

(** Of an absolute value. *)
Definition durationText (u : Z) : bytes :=
  if u <? 1000000000 then
    if u =? 0 then txt "0s"
    else if u <? Microsecond then let '(fr, u) := fmtFrac 0 u false (txt "ns") in utoa u ++ fr
    else if u <? Millisecond then let '(fr, u) := fmtFrac 3 u false ([194; 181] ++ txt "s") in utoa u ++ fr
    else let '(fr, u) := fmtFrac 6 u false (txt "ms") in utoa u ++ fr
  else
    let '(fr, u) := fmtFrac 9 u false (txt "s") in
    let sec := utoa (u mod 60) ++ fr in
    let u := u / 60 in
    if 0 <? u then
      let min := utoa (u mod 60) ++ txt "m" ++ sec in
      let u := u / 60 in
      if 0 <? u then utoa u ++ txt "h" ++ min else min
    else sec.
Definition Duration_String (d : Z) : bytes := if d <? 0 then 45 :: durationText (- d) else durationText d.

(** ** time.ParseDuration *)

(** [None] is an overflow. *)
Fixpoint leadingInt (x : Z) (s : bytes) : option (Z * bytes) :=
  match s with
  | c :: r =>
      if isDigit c then
        if 2 ^ 63 / 10 <? x then None
        else let x := x * 10 + (c - 48) in
             if 2 ^ 63 <? x then None else leadingInt x r
      else Some (x, s)
  | [] => Some (x, s)
  end.
(** Digits that overflow are skipped. *)
Fixpoint leadingFraction (x : Z) (scale : float) (overflow : bool) (s : bytes) : Z * float * bytes :=
  match s with
  | c :: r =>
      if isDigit c then
        if overflow then leadingFraction x scale overflow r
        else if (2 ^ 63 - 1) / 10 <? x then leadingFraction x scale true r
        else let y := x * 10 + (c - 48) in
             if 2 ^ 63 <? y then leadingFraction x scale true r
             else leadingFraction y (fmul scale (ofZ 10)) false r
      else (x, scale, s)
  | [] => (x, scale, s)
  end.
(** The text up to the next digit or point. *)
Fixpoint unitText (s : bytes) : bytes * bytes :=
  match s with
  | c :: r => if (c =? 46) || isDigit c then ([], s) else let '(u, r) := unitText r in (c :: u, r)
  | [] => ([], [])
  end.
Definition unitMap (u : bytes) : option Z :=
  if bool_decide (u = txt "ns") then Some 1
  else if bool_decide (u = txt "us" ∨ u = [194; 181] ++ txt "s" ∨ u = [206; 188] ++ txt "s") then Some Microsecond
  else if bool_decide (u = txt "ms") then Some Millisecond
  else if bool_decide (u = txt "s") then Some 1000000000
  else if bool_decide (u = txt "m") then Some 60000000000
  else if bool_decide (u = txt "h") then Some 3600000000000
  else None.

Definition invalidDuration (orig : bytes) : humanerror := errDuration (txt "time: invalid duration " ++ orig).

(** The loop of [ParseDuration]: every round consumes something, so that as much fuel as
    there is text is enough; without fuel it would be [Panic]. *)
Fixpoint durationLoop (fuel : nat) (orig s : bytes) (d : Z) : go humanerror Z :=
  match s with
  | [] => Ok d
  | c :: _ =>
  match fuel with
  | O => Panic
  | S fuel =>
      if negb ((c =? 46) || isDigit c) then Err (invalidDuration orig)
      else match leadingInt 0 s with
      | None => Err (invalidDuration orig)
      | Some (v, s1) =>
          let pre := negb (zlen s1 =? zlen s) in
          let '(f, scale, s2, post) :=
            match s1 with
            | 46 :: s1' => let '(f, scale, s2) := leadingFraction 0 (ofZ 1) false s1' in (f, scale, s2, negb (zlen s2 =? zlen s1'))
            | _ => (0, ofZ 1, s1, false)
            end in
          if negb pre && negb post then Err (invalidDuration orig)
          else
            let '(u, s3) := unitText s2 in
            if bool_decide (u = []) then Err (errDuration (txt "time: missing unit in duration " ++ orig))
            else match unitMap u with
            | None => Err (errDuration (txt "time: unknown unit " ++ u ++ txt " in duration " ++ orig))
            | Some unit =>
                if 2 ^ 63 / unit <? v then Err (invalidDuration orig)
                else
                  let v := v * unit in
                  let v := if 0 <? f then u64 (v + ftrunc (fmul (ofZ f) (fdiv (ofZ unit) scale))) else v in
                  if (0 <? f) && (2 ^ 63 <? v) then Err (invalidDuration orig)
                  else
                    let d := u64 (d + v) in
                    if 2 ^ 63 <? d then Err (invalidDuration orig) else durationLoop fuel orig s3 d
            end
      end
  end
  end.
Definition ParseDuration (orig : bytes) : go humanerror Z :=
  let '(neg, s) := match orig with 45 :: s => (true, s) | 43 :: s => (false, s) | _ => (false, orig) end in
  if bool_decide (s = txt "0") then Ok 0
  else if bool_decide (s = []) then Err (invalidDuration orig)
  else
    d ← durationLoop (length s) orig s 0;
    if neg then Ok (i64 (- i64 d))
    else if 2 ^ 63 - 1 <? d then Err (invalidDuration orig) else Ok d.

(** ** interval.go: [Interval] is a [time.Duration] *)
Definition Interval_UnmarshalYAML {E} (str : bytes + E) (number : Z + E) : go (humanerror + E) Z :=
  match str with
  | inr _ => match number with inr err => Err (inr err) | inl val => Ok (i64 (1000000000 * val)) end
  | inl vStr =>
      if bool_decide (vStr = []) then Ok 0
      else match ParseDuration vStr with
      | Ok v => Ok v
      | Err err => Err (inl err)
      | Panic => Panic
      end
  end.
Definition Interval_MarshalYAML (s : Z) : bytes := Duration_String s.
Definition Interval_Value (s : Z) : Z := s.
Definition Interval_IsZero (s : Z) : bool := s =? 0.
Definition MustParseInterval (s : bytes) : go humanerror Z :=
  match ParseDuration s with Ok v => Ok v | _ => Panic end.
Definition Interval_String (s : Z) : bytes := Duration_String s.
