(* ===== verification/HumanProps.v ===== *)
(** * human: what comes back from a printed size or interval *)
From S2P Require Import Prelude Text Human.

Local Open Scope Z_scope.

(** ** Floats that are integers *)
Definition is_int (x : float) (z : Z) : Prop := num x = z * den x.

Lemma den_pos x : 0 < den x.
Proof. apply up_pos. Qed.
Lemma rnd_int n d z : 0 < d → 0 ≤ z < 2 ^ 53 → n = z * d → is_int (rnd n d) z.
Proof.
  intros Hd Hz ->. unfold is_int. destruct (Z.eq_dec z 0) as [->|Hne]; [done|].
  pose proof (rnd_exact (z * d) d z 0 Hd) as H. change (up 0) with 1 in H. change (down 0) with 1 in H.
  pose proof (den_pos (rnd (z * d) d)). specialize (H ltac:(lia) ltac:(lia) ltac:(lia)). nia.
Qed.
Lemma ofZ_int z : 0 ≤ z < 2 ^ 53 → is_int (ofZ z) z.
Proof. intros. apply rnd_int; lia. Qed.
Lemma fmul_int x y a c : 0 ≤ a → 0 ≤ c → a * c < 2 ^ 53 → is_int x a → is_int y c → is_int (fmul x y) (a * c).
Proof. unfold is_int. intros Ha Hc Hac Hx Hy. apply rnd_int; [apply Z.mul_pos_pos; apply den_pos|nia|]. rewrite Hx, Hy. ring. Qed.
Lemma fdiv_int x y a c : 0 ≤ a → 0 < c → a * c < 2 ^ 53 → is_int x (a * c) → is_int y c → is_int (fdiv x y) a.
Proof.
  unfold is_int. intros Ha Hc Hac Hx Hy. pose proof (den_pos x). pose proof (den_pos y).
  apply rnd_int; [rewrite Hy; nia|nia|]. rewrite Hx, Hy. ring.
Qed.
Lemma ftrunc_int x z : is_int x z → ftrunc x = z.
Proof. unfold is_int, ftrunc. intros ->. apply Z.div_mul. pose proof (den_pos x). lia. Qed.

(** ** Durations *)

(** The fraction: nothing when the last digits are zeros, otherwise a point and digits. *)
Lemma fmtFrac_spec prec : ∀ v print acc, 0 ≤ v →
  ∃ ds, fmtFrac prec v print acc = ((if print || negb (v mod 10 ^ Z.of_nat prec =? 0) then 46 :: ds ++ acc else acc), v / 10 ^ Z.of_nat prec) ∧
    (length ds ≤ prec)%nat ∧ Forall (λ c, isDigit c = true) ds ∧
    (print = true → length ds = prec) ∧
    ∃ f, parseDigits 0 ds = Some f ∧ 0 ≤ f ∧ f * 10 ^ Z.of_nat (prec - length ds) = v mod 10 ^ Z.of_nat prec.
Proof.
  induction prec as [|prec IH]; intros v print acc Hv.
  - exists []. cbn [fmtFrac]. change (10 ^ Z.of_nat 0) with 1. rewrite Z.mod_1_r, Z.div_1_r. cbn [Z.eqb negb]. rewrite orb_false_r.
    split; [done|]. split; [done|]. split; [done|]. split; [done|]. by exists 0.
  - cbn [fmtFrac]. set (pr := print || negb (v mod 10 =? 0)).
    destruct (IH (v / 10) pr (if pr then (48 + v mod 10) :: acc else acc) ltac:(apply Z.div_pos; lia)) as (ds & -> & Hl & Hd & Hp & f & Hf & Hf0 & Hfv).
    assert (10 ^ Z.of_nat (S prec) = 10 * 10 ^ Z.of_nat prec) as Hpow by (rewrite Nat2Z.inj_succ, Z.pow_succ_r; lia).
    assert (0 < 10 ^ Z.of_nat prec) as Hpos by (apply Z.pow_pos_nonneg; lia).
    assert (v mod 10 ^ Z.of_nat (S prec) = 10 * ((v / 10) mod 10 ^ Z.of_nat prec) + v mod 10) as Hmod.
    { rewrite Hpow. rewrite Z.rem_mul_r by lia. lia. }
    assert (v / 10 ^ Z.of_nat (S prec) = v / 10 / 10 ^ Z.of_nat prec) as -> by (rewrite Hpow, Z.div_div by lia; done).
    pose proof (Z.mod_pos_bound v 10 ltac:(lia)) as Hm. pose proof (Z.mod_pos_bound (v / 10) _ Hpos) as Hm2.
    exists (if pr then ds ++ [48 + v mod 10] else ds). split; [|].
    { f_equal. destruct pr eqn:Epr.
      - assert (print || negb (v mod 10 ^ Z.of_nat (S prec) =? 0) = true) as ->; [|by cbn [orb]; rewrite <-app_assoc].
        unfold pr in Epr. destruct print; [done|]. cbn in *. apply negb_true_iff, Z.eqb_neq in Epr. apply negb_true_iff, Z.eqb_neq. lia.
      - unfold pr in Epr. apply orb_false_iff in Epr as [-> Epr]. apply negb_false_iff, Z.eqb_eq in Epr. cbn [orb].
        rewrite Hmod, Epr. destruct (Z.eqb_spec ((v / 10) mod 10 ^ Z.of_nat prec) 0), (Z.eqb_spec (10 * ((v / 10) mod 10 ^ Z.of_nat prec) + 0) 0); try done; lia. }
    destruct pr eqn:Epr.
    + specialize (Hp eq_refl). rewrite length_app. cbn [length]. split; [lia|]. split; [apply Forall_app; split; [done|repeat constructor; apply digit_ok]|].
      split; [intros; lia|]. exists (f * 10 + v mod 10). rewrite parseDigits_app, Hf. cbn [mbind option_bind parseDigits]. rewrite digit_ok.
      split; [f_equal; lia|]. split; [lia|]. rewrite Hmod. replace (S prec - (length ds + 1))%nat with (prec - length ds)%nat by lia.
      rewrite <-Hfv. replace (prec - length ds)%nat with 0%nat by lia. change (10 ^ Z.of_nat 0) with 1. lia.
    + unfold pr in Epr. apply orb_false_iff in Epr as [-> Epr]. apply negb_false_iff, Z.eqb_eq in Epr.
      split; [lia|]. split; [done|]. split; [done|]. exists f. split; [done|]. split; [done|]. rewrite Hmod, Epr, <-Hfv.
      replace (S prec - length ds)%nat with (S (prec - length ds)) by lia. rewrite Nat2Z.inj_succ, Z.pow_succ_r by lia. lia.
Qed.

Lemma parseDigits_mono ds : ∀ x v, parseDigits x ds = Some v → 0 ≤ x → x ≤ v.
Proof.
  induction ds as [|c ds IH]; intros x v; cbn [parseDigits]; [intros [= ->]; lia|]. destruct (isDigit c) eqn:Ec; [|done]. intros Hv Hx.
  unfold isDigit in Ec. bsplit. specialize (IH _ _ Hv). lia.
Qed.

(** Reading the digits back. *)
Definition stops (rest : bytes) : Prop := match rest with c :: _ => isDigit c = false | [] => True end.

Lemma leadingInt_digits ds : ∀ x v rest, parseDigits x ds = Some v → 0 ≤ x → v ≤ 2 ^ 63 → stops rest → leadingInt x (ds ++ rest) = Some (v, rest).
Proof.
  induction ds as [|c ds IH]; intros x v rest Hp Hx Hv Hr; cbn [app parseDigits] in *.
  - injection Hp as ->. destruct rest as [|c rest]; [done|]. cbn [leadingInt]. by rewrite Hr.
  - destruct (isDigit c) eqn:Ec; [|done]. cbn [leadingInt]. rewrite Ec.
    assert (0 ≤ c - 48) by (unfold isDigit in Ec; bsplit; lia).
    pose proof (parseDigits_mono _ _ _ Hp ltac:(lia)) as Hm.
    rewrite (proj2 (Z.ltb_ge _ _)) by (apply Z.div_le_lower_bound; lia). cbv zeta. rewrite (proj2 (Z.ltb_ge _ _)) by lia.
    apply IH; try done. lia.
Qed.

Lemma leadingFraction_digits ds : ∀ x k v rest scale, parseDigits x ds = Some v → 0 ≤ x → v < 2 ^ 62 → stops rest →
  is_int scale (10 ^ k) → 0 ≤ k → k + Z.of_nat (length ds) ≤ 9 →
  ∃ scale', leadingFraction x scale false (ds ++ rest) = (v, scale', rest) ∧ is_int scale' (10 ^ (k + Z.of_nat (length ds))).
Proof.
  induction ds as [|c ds IH]; intros x k v rest scale Hp Hx Hv Hr Hs Hk Hl; cbn [app parseDigits] in *.
  - injection Hp as ->. exists scale. rewrite Z.add_0_r. destruct rest as [|c rest]; [done|]. cbn [leadingFraction]. by rewrite Hr.
  - destruct (isDigit c) eqn:Ec; [|done]. cbn [leadingFraction]. rewrite Ec.
    assert (0 ≤ c - 48) by (unfold isDigit in Ec; bsplit; lia).
    pose proof (parseDigits_mono _ _ _ Hp ltac:(lia)) as Hm.
    rewrite (proj2 (Z.ltb_ge _ _)) by (apply Z.div_le_lower_bound; lia). cbv zeta. rewrite (proj2 (Z.ltb_ge _ _)) by lia.
    cbn [length] in Hl |- *.
    replace (k + Z.of_nat (S (length ds))) with ((k + 1) + Z.of_nat (length ds)) by lia.
    apply IH; try done; try lia. rewrite Z.pow_add_r by lia. change (10 ^ 1) with 10.
    apply fmul_int; [apply Z.pow_nonneg; lia|lia| |done|apply ofZ_int; lia].
    assert (10 ^ k ≤ 10 ^ 9) by (apply Z.pow_le_mono_r; lia). lia.
Qed.

(** The next group starts with a digit. *)
Definition starts (rest : bytes) : Prop := match rest with c :: _ => isDigit c = true | [] => True end.
Definition unit_ok (u : bytes) : Prop := u ≠ [] ∧ Forall (λ c, (c =? 46) || isDigit c = false) u.

Lemma unitText_unit u rest : unit_ok u → starts rest → unitText (u ++ rest) = (u, rest).
Proof.
  intros [_ Hu] Hr. induction Hu as [|c u Hc _ IH]; cbn [app unitText].
  - destruct rest as [|c rest]; [done|]. cbn [unitText]. rewrite Hr, orb_true_r. done.
  - by rewrite Hc, IH.
Qed.
Lemma unit_stops u rest : unit_ok u → stops (u ++ rest) ∧ (∀ r, u ++ rest ≠ 46 :: r).
Proof.
  intros [Hne Hu]. destruct Hu as [|c u Hc _]; [done|]. apply orb_false_iff in Hc as [H1 H2]. split; [done|].
  intros r [= -> _]. done.
Qed.

(** One round of the loop reads one group: digits, perhaps a fraction, and a unit. *)
Lemma loop_plain fuel orig v u U rest d :
  0 ≤ v → unit_ok u → unitMap u = Some U → 0 < U → starts rest → 0 ≤ d → d + v * U ≤ 2 ^ 63 →
  durationLoop (S fuel) orig (utoa v ++ u ++ rest) d = durationLoop fuel orig rest (d + v * U).
Proof.
  intros Hv Hu HU Hpos Hr Hd Hsum. assert (v ≤ 2 ^ 63) as Hv63 by nia.
  pose proof (utoa_parse v ltac:(lia)) as Hp. pose proof (utoa_nonempty v) as Hne. pose proof (utoa_digits v) as Hdig.
  destruct (unit_stops u rest Hu) as [Hst Hdot].
  destruct (utoa v) as [|c ds] eqn:E; [done|]. unfold parseUnsigned in Hp. apply Forall_cons in Hdig as [Hc Hdig].
  cbn [app durationLoop]. rewrite Hc, orb_true_r. cbn [negb].
  change (c :: ds ++ u ++ rest) with ((c :: ds) ++ (u ++ rest)).
  rewrite (leadingInt_digits _ 0 v _ Hp) by (done || lia). cbv zeta.
  assert ((zlen (u ++ rest) =? zlen ((c :: ds) ++ u ++ rest)) = false) as ->.
  { apply Z.eqb_neq. rewrite (zlen_app (c :: ds)), zlen_cons. pose proof (zlen_nonneg ds). lia. }
  cbn [negb andb].
  assert ((match u ++ rest with
           | 46 :: s1' => let '(f, scale, s2) := leadingFraction 0 (ofZ 1) false s1' in (f, scale, s2, negb (zlen s2 =? zlen s1'))
           | _ => (0, ofZ 1, u ++ rest, false)
           end) = (0, ofZ 1, u ++ rest, false)) as ->.
  { destruct (u ++ rest) as [|x l] eqn:Eu; [done|]. destruct (Z.eq_dec x 46) as [->|Hx]; [by destruct (Hdot l)|].
    destruct x as [|x|x]; try done. do 6 (destruct x as [x|x|]; try done). }
  cbn [negb andb]. rewrite unitText_unit by done. destruct Hu as [Hune _]. rewrite bool_decide_eq_false_2 by done. rewrite HU.
  rewrite (proj2 (Z.ltb_ge _ _)) by (apply Z.div_le_lower_bound; nia). change (0 <? 0) with false. cbn [andb]. cbv iota.
  rewrite u64_small by (unfold in_u64; nia). rewrite (proj2 (Z.ltb_ge _ _)) by lia. done.
Qed.

Lemma loop_frac fuel orig v ds f q u U rest d :
  0 ≤ v → 0 < q → parseDigits 0 ds = Some f → 0 < f → (length ds ≤ 9)%nat → U = q * 10 ^ Z.of_nat (length ds) → f * q < U → U < 2 ^ 50 →
  Forall (λ c, isDigit c = true) ds → unit_ok u → unitMap u = Some U → starts rest → 0 ≤ d → d + v * U + f * q ≤ 2 ^ 63 →
  durationLoop (S fuel) orig (utoa v ++ 46 :: ds ++ u ++ rest) d = durationLoop fuel orig rest (d + v * U + f * q).
Proof.
  intros Hv Hq Hf Hf0 Hl HUq Hfq HUb Hdd Hu HU Hr Hd Hsum.
  assert (0 < 10 ^ Z.of_nat (length ds)) as Hpow by (apply Z.pow_pos_nonneg; lia).
  assert (10 ^ Z.of_nat (length ds) ≤ 10 ^ 9) as Hpow9 by (apply Z.pow_le_mono_r; lia).
  assert (0 < U) as Hpos by nia. assert (v ≤ 2 ^ 63) as Hv63 by nia.
  pose proof (utoa_parse v ltac:(lia)) as Hp. pose proof (utoa_nonempty v) as Hne. pose proof (utoa_digits v) as Hdig.
  destruct (unit_stops u rest Hu) as [Hst Hdot].
  destruct (utoa v) as [|c vs] eqn:E; [done|]. unfold parseUnsigned in Hp. apply Forall_cons in Hdig as [Hc Hdig].
  cbn [app durationLoop]. rewrite Hc, orb_true_r. cbn [negb].
  change (c :: vs ++ 46 :: ds ++ u ++ rest) with ((c :: vs) ++ (46 :: ds ++ u ++ rest)).
  rewrite (leadingInt_digits _ 0 v _ Hp) by (done || lia). cbv zeta.
  assert (f < 10 ^ Z.of_nat (length ds)) as Hfp by nia.
  destruct (leadingFraction_digits ds 0 0 f (u ++ rest) (ofZ 1) Hf) as (scale & Els & Hs); try done; try lia.
  rewrite Els.
  assert ((zlen (46 :: ds ++ u ++ rest) =? zlen ((c :: vs) ++ 46 :: ds ++ u ++ rest)) = false) as ->.
  { apply Z.eqb_neq. rewrite (zlen_app (c :: vs)), !zlen_cons. pose proof (zlen_nonneg vs). lia. }
  cbn [negb andb]. rewrite unitText_unit by done. destruct Hu as [Hune _]. rewrite bool_decide_eq_false_2 by done. rewrite HU.
  rewrite (proj2 (Z.ltb_ge _ _)) by (apply Z.div_le_lower_bound; nia). rewrite (proj2 (Z.ltb_lt 0 f)) by done. cbn [andb].
  assert (ftrunc (fmul (ofZ f) (fdiv (ofZ U) scale)) = f * q) as ->.
  { apply ftrunc_int, fmul_int; [lia|lia|lia|apply ofZ_int; lia|]. rewrite Z.add_0_l in Hs.
    apply (fdiv_int _ _ q (10 ^ Z.of_nat (length ds))); [lia|lia|lia| |done]. rewrite <-HUq. apply ofZ_int. lia. }
  rewrite (u64_small (v * U + f * q)) by (unfold in_u64; nia). rewrite (proj2 (Z.ltb_ge _ _)) by nia.
  rewrite u64_small by (unfold in_u64; nia). rewrite (proj2 (Z.ltb_ge _ _)) by lia. f_equal. lia.
Qed.

(** The fraction of [w] printed with [prec] decimals of a unit, after any number [hi] of units. *)
Lemma loop_unit fuel orig prec u U w rest d fr hi0 hi :
  fmtFrac prec w false u = (fr, hi0) → U = 10 ^ Z.of_nat prec → (prec ≤ 9)%nat → 0 ≤ w → 0 ≤ hi → unit_ok u → unitMap u = Some U →
  starts rest → 0 ≤ d → d + hi * U + w mod U ≤ 2 ^ 63 →
  hi0 = w / U ∧ durationLoop (S fuel) orig (utoa hi ++ fr ++ rest) d = durationLoop fuel orig rest (d + hi * U + w mod U).
Proof.
  intros Hfr HU Hprec Hw Hhi Hu HuU Hr Hd Hsum. destruct (fmtFrac_spec prec w false u Hw) as (ds & E & Hl & Hdd & _ & f & Hf & Hf0 & Hfv).
  rewrite E in Hfr. injection Hfr as <- <-. rewrite <-HU in *. cbn [orb]. split; [done|].
  assert (0 < U) as Hpos by (rewrite HU; apply Z.pow_pos_nonneg; lia).
  assert (U ≤ 10 ^ 9) by (rewrite HU; apply Z.pow_le_mono_r; lia).
  pose proof (Z.mod_pos_bound w U Hpos) as Hmb.
  destruct (Z.eqb_spec (w mod U) 0) as [Hz|Hz]; cbn [negb].
  - rewrite loop_plain with (U := U) by (done || nia). f_equal. nia.
  - assert (U = 10 ^ Z.of_nat (prec - length ds) * 10 ^ Z.of_nat (length ds)) as HUq.
    { rewrite <-Z.pow_add_r by lia. rewrite HU. f_equal. lia. }
    change ((46 :: ds ++ u) ++ rest) with (46 :: (ds ++ u) ++ rest). rewrite <-(app_assoc ds).
    rewrite loop_frac with (f := f) (q := 10 ^ Z.of_nat (prec - length ds)) (U := U) by (done || nia). f_equal. nia.
Qed.
(** A value that is printed with one unit. *)
Lemma loop_single orig prec u U w fr hi : fmtFrac prec w false u = (fr, hi) → U = 10 ^ Z.of_nat prec → (prec ≤ 9)%nat →
  0 ≤ w ≤ 2 ^ 63 → unit_ok u → unitMap u = Some U → durationLoop 1 orig (utoa hi ++ fr) 0 = Ok w.
Proof.
  intros Hfr HU Hprec Hw Hu HuU. assert (0 < U) as Hpos by (rewrite HU; apply Z.pow_pos_nonneg; lia).
  pose proof (Z.div_mod w U ltac:(lia)). pose proof (Z.mod_pos_bound w U Hpos). pose proof (Z.div_pos w U ltac:(lia) Hpos).
  edestruct (loop_unit 0 orig prec u U w [] 0 fr hi (w / U) Hfr) as [-> Hl]; try done; try lia.
  rewrite app_nil_r in Hl. rewrite Hl. cbn [durationLoop]. f_equal. lia.
Qed.

(** More fuel changes nothing. *)
Lemma durationLoop_mono fuel : ∀ fuel' orig s d r, durationLoop fuel orig s d = Ok r → (fuel ≤ fuel')%nat → durationLoop fuel' orig s d = Ok r.
Proof.
  induction fuel as [|fuel IH]; intros fuel' orig s d r Hr Hle.
  - destruct s; [by destruct fuel'|done].
  - destruct fuel' as [|fuel']; [lia|]. destruct s as [|c s]; [done|]. cbn [durationLoop] in *.
    repeat case_match; try done; eapply IH; (done || lia).
Qed.

Lemma utoa_starts v rest : starts (utoa v ++ rest).
Proof. pose proof (utoa_nonempty v). pose proof (utoa_digits v) as Hd. destruct Hd; done. Qed.
Ltac unit_tac := split; [discriminate|repeat constructor].

Lemma utoa_length v : (1 ≤ length (utoa v))%nat.
Proof. pose proof (utoa_nonempty v). destruct (utoa v); [done|]. cbn. lia. Qed.

(** The text starts with a number, and more follows. *)
Lemma durationText_shape u : ∃ v rest, durationText u = utoa v ++ rest ∧ rest ≠ [].
Proof.
  assert (∀ prec v print acc, acc ≠ [] → (fmtFrac prec v print acc).1 ≠ []) as Hne.
  { induction prec as [|prec IH]; intros v print acc Ha; cbn [fmtFrac]; [by destruct print|]. apply IH. by case_match. }
  unfold durationText. destruct (u <? 1000000000).
  - destruct (u =? 0); [by exists 0, (txt "s")|].
    destruct (u <? Microsecond); [|destruct (u <? Millisecond)];
      (destruct (fmtFrac _ _ _ _) as [fr hi] eqn:E; exists hi, fr; split; [done|]; apply (f_equal fst) in E; cbn [fst] in E; rewrite <-E; by apply Hne).
  - destruct (fmtFrac 9 u false (txt "s")) as [fr hi] eqn:E. cbv zeta.
    assert (fr ≠ []) by (apply (f_equal fst) in E; cbn [fst] in E; rewrite <-E; by apply Hne).
    destruct (0 <? hi / 60); [destruct (0 <? hi / 60 / 60)|]; by eexists _, _.
Qed.
Lemma durationText_length u : (1 ≤ length (durationText u))%nat.
Proof. destruct (durationText_shape u) as (v & rest & -> & _). rewrite length_app. pose proof (utoa_length v). lia. Qed.

Lemma durationText_parse orig u : 0 ≤ u ≤ 2 ^ 63 → ∃ fuel, (fuel ≤ length (durationText u))%nat ∧ durationLoop fuel orig (durationText u) 0 = Ok u.
Proof.
  intros Hu. pose proof (durationText_length u) as Hlen. unfold durationText in *. destruct (Z.ltb_spec u 1000000000).
  { exists 1%nat. split; [done|].
    destruct (Z.eqb_spec u 0) as [->|]; [by vm_compute|].
    destruct (u <? Microsecond); [|destruct (u <? Millisecond)].
    - destruct (fmtFrac 0 u false (txt "ns")) as [fr hi] eqn:E. apply (loop_single orig 0 (txt "ns") 1 u fr hi E); first [done|lia|unit_tac].
    - destruct (fmtFrac 3 u false _) as [fr hi] eqn:E. apply (loop_single orig 3 ([194; 181] ++ txt "s") Microsecond u fr hi E); first [done|lia|unit_tac].
    - destruct (fmtFrac 6 u false (txt "ms")) as [fr hi] eqn:E. apply (loop_single orig 6 (txt "ms") Millisecond u fr hi E); first [done|lia|unit_tac]. }
  destruct (fmtFrac 9 u false (txt "s")) as [fr hi] eqn:E.
  assert (∀ fuel d hi', 0 ≤ d → 0 ≤ hi' → d + hi' * 1000000000 + u mod 1000000000 ≤ 2 ^ 63 →
     hi = u / 1000000000 ∧ durationLoop (S fuel) orig (utoa hi' ++ fr) d = Ok (d + hi' * 1000000000 + u mod 1000000000)) as Hsec.
  { intros fuel d hi' Hd Hh Hs. rewrite <-(app_nil_r fr).
    destruct (loop_unit fuel orig 9 (txt "s") 1000000000 u [] d fr hi hi' E) as [-> ->]; try done; try lia; [unit_tac|]. by destruct fuel. }
  pose proof (Z.mod_pos_bound u 1000000000 ltac:(lia)). pose proof (Z.div_mod u 1000000000 ltac:(lia)) as Hu1.
  destruct (Hsec 0%nat 0 0) as [-> _]; [lia..|]. set (hi := u / 1000000000) in *. clearbody hi.
  pose proof (Z.div_mod hi 60 ltac:(lia)) as Hh. pose proof (Z.mod_pos_bound hi 60 ltac:(lia)).
  set (m := hi / 60) in *. pose proof (Z.div_mod m 60 ltac:(lia)) as Hm. pose proof (Z.mod_pos_bound m 60 ltac:(lia)).
  cbv zeta in *. destruct (Z.ltb_spec 0 m); [destruct (Z.ltb_spec 0 (m / 60))|].
  - exists 3%nat. split; [rewrite !length_app; pose proof (utoa_length (m / 60)); pose proof (utoa_length (m mod 60)); change (length (txt "m")) with 1%nat; change (length (txt "h")) with 1%nat; lia|]. rewrite (loop_plain _ _ _ _ 3600000000000) by (done || lia || unit_tac || apply utoa_starts).
    rewrite (loop_plain _ _ _ _ 60000000000) by (done || lia || unit_tac || apply utoa_starts).
    destruct (Hsec 0%nat (0 + m / 60 * 3600000000000 + m mod 60 * 60000000000) (hi mod 60)) as [_ ->]; [lia..|]. f_equal. lia.
  - exists 2%nat. split; [rewrite !length_app; pose proof (utoa_length (m mod 60)); change (length (txt "m")) with 1%nat; change (length (txt "h")) with 1%nat; lia|]. rewrite (loop_plain _ _ _ _ 60000000000) by (done || lia || unit_tac || apply utoa_starts).
    destruct (Hsec 0%nat (0 + m mod 60 * 60000000000) (hi mod 60)) as [_ ->]; [lia..|]. f_equal. lia.
  - exists 1%nat. split; [done|]. destruct (Hsec 0%nat 0 (hi mod 60)) as [_ ->]; [lia..|]. f_equal. lia.
Qed.

Lemma duration_text d : in_i64 d → ParseDuration (Duration_String d) = Ok d.
Proof.
  intros Hd. unfold in_i64 in Hd. unfold Duration_String, ParseDuration.
  assert (∀ orig u, 0 ≤ u ≤ 2 ^ 63 → bool_decide (durationText u = txt "0") = false ∧ bool_decide (durationText u = []) = false ∧
    durationLoop (length (durationText u)) orig (durationText u) 0 = Ok u ∧ ∃ c r, durationText u = c :: r ∧ isDigit c = true) as Ht.
  { intros orig u Hu. destruct (durationText_shape u) as (v & rest & E & Hne).
    pose proof (utoa_nonempty v). pose proof (utoa_digits v) as Hdig. destruct (utoa v) as [|c ds] eqn:Ev; [done|]. apply Forall_cons in Hdig as [Hc _].
    split; [apply bool_decide_eq_false_2; rewrite E; by destruct ds, rest|]. split; [apply bool_decide_eq_false_2; by rewrite E|]. split; [|by exists c, (ds ++ rest)].
    destruct (durationText_parse orig u Hu) as (fuel & Hf & Hl). by eapply durationLoop_mono. }
  destruct (Z.ltb_spec d 0).
  - destruct (Ht (45 :: durationText (- d)) (- d) ltac:(lia)) as (-> & -> & -> & _). cbn [mbind go_bind]. f_equal.
    destruct (Z.eq_dec d (- 2 ^ 63)) as [->|]; [done|].
    rewrite (i64_small (- d)), i64_small by (unfold in_i64; lia). lia.
  - destruct (Ht (durationText d) d ltac:(lia)) as (H1 & H2 & H3 & c & r & E & Hc).
    assert ((match durationText d with 45 :: s => (true, s) | 43 :: s => (false, s) | _ => (false, durationText d) end) = (false, durationText d)) as ->.
    { rewrite E. unfold isDigit in Hc. bsplit. destruct c as [|c|c]; try done. do 6 (destruct c as [c|c|]; try done). }
    rewrite H1, H2, H3. cbn [mbind go_bind]. by rewrite (proj2 (Z.ltb_ge _ _)) by lia.
Qed.

(** C27: every duration is what its text parses to: in the whole range of 64 bits, with any
    fraction, and for negative ones. *)
Theorem interval_roundtrip d : in_i64 d →
  ParseDuration (Duration_String d) = Ok d ∧
  Interval_UnmarshalYAML (E := unit) (inl (Interval_MarshalYAML d)) (inr tt) = Ok d.
Proof.
  intros Hd. pose proof (duration_text d Hd) as H. split; [done|]. unfold Interval_UnmarshalYAML, Interval_MarshalYAML.
  rewrite bool_decide_eq_false_2; [by rewrite H|]. intros E. rewrite E in H. by vm_compute in H.
Qed.

(** ** Whatever the text is *)
Lemma leadingInt_rest s : ∀ x v r, leadingInt x s = Some (v, r) → (length r ≤ length s)%nat.
Proof.
  induction s as [|c s IH]; intros x v r; cbn [leadingInt]; [by intros [= <- <-]|].
  destruct (isDigit c); [|by intros [= <- <-]]. destruct (_ <? x); [done|]. cbv zeta. destruct (_ <? _); [done|]. intros Hr%IH. cbn. lia.
Qed.
Lemma leadingFraction_rest s : ∀ x scale o v scale' r, leadingFraction x scale o s = (v, scale', r) → (length r ≤ length s)%nat.
Proof.
  induction s as [|c s IH]; intros x scale o v scale' r; cbn [leadingFraction]; [by intros [= <- <- <-]|].
  destruct (isDigit c); [|by intros [= <- <- <-]]. repeat case_match; intros Hr%IH; cbn; lia.
Qed.
Lemma unitText_split s u r : unitText s = (u, r) → s = u ++ r.
Proof.
  revert u r. induction s as [|c s IH]; intros u r; cbn [unitText]; [by intros [= <- <-]|].
  destruct (_ || _); [by intros [= <- <-]|]. destruct (unitText s) as [u' r']. intros [= <- <-]. by rewrite (IH u' r').
Qed.

Lemma durationLoop_total fuel : ∀ orig s d, (length s ≤ fuel)%nat → 0 ≤ d ≤ 2 ^ 63 →
  match durationLoop fuel orig s d with Ok r => 0 ≤ r ≤ 2 ^ 63 | Err _ => True | Panic => False end.
Proof.
  induction fuel as [|fuel IH]; intros orig s d Hl Hd.
  { destruct s; [done|cbn in Hl; lia]. }
  destruct s as [|c s]; [done|]. cbn [durationLoop]. destruct (negb _); [done|].
  destruct (leadingInt 0 (c :: s)) as [[v s1]|] eqn:E1; [|done]. apply leadingInt_rest in E1. cbv zeta.
  assert (∃ f scale s2 post, (match s1 with
            | 46 :: s1' => let '(f, scale, s2) := leadingFraction 0 (ofZ 1) false s1' in (f, scale, s2, negb (zlen s2 =? zlen s1'))
            | _ => (0, ofZ 1, s1, false) end) = (f, scale, s2, post) ∧ (length s2 ≤ length s1)%nat) as (f & scale & s2 & post & -> & H2).
  { repeat case_match; try by eauto 10. subst. eexists _, _, _, _. split; [done|]. match goal with E : leadingFraction _ _ _ _ = _ |- _ => apply leadingFraction_rest in E end. cbn. lia. }
  destruct (negb _ && negb post); [done|]. destruct (unitText s2) as [u s3] eqn:E3. apply unitText_split in E3 as ->.
  case_bool_decide as Hu; [done|]. destruct (unitMap u) as [U|]; [|done]. destruct (_ <? v); [done|].
  destruct (_ && _); [done|]. destruct (Z.ltb_spec (2 ^ 63) (u64 (d + if 0 <? f then u64 (v * U + ftrunc (fmul (ofZ f) (fdiv (ofZ U) scale))) else v * U))) as [|Hs]; [done|].
  apply IH; [|split; [apply u64_range|done]]. rewrite length_app in H2. destruct u; [done|]. cbn in *. lia.
Qed.

(** Parsing an interval always ends with a value or an error, and a value is one of 64
    bits; so is a size, whatever the processor makes of one that is too large. *)
Theorem parsed_values_fit s outOfRange :
  (∀ x, in_u64 (outOfRange x)) →
  (ParseDuration s ≠ Panic ∧ ∀ d, ParseDuration s = Ok d → in_i64 d) ∧
  (ParseSizeFromHuman outOfRange s ≠ Panic ∧ ∀ v, ParseSizeFromHuman outOfRange s = Ok v → in_u64 v).
Proof.
  intros Ho. split.
  - unfold ParseDuration. set (p := match s with 45 :: _ => _ | _ => _ end). destruct p as [neg r].
    case_bool_decide; [split; [done|]; by intros d [= <-]|]. case_bool_decide; [done|].
    pose proof (durationLoop_total (length r) s r 0 ltac:(lia) ltac:(lia)) as Ht. destruct (durationLoop _ _ _ _) as [d| |]; cbn [mbind go_bind]; [|done..].
    destruct neg; [split; [done|]; intros d' [= <-]; apply i64_range|].
    destruct (Z.ltb_spec (2 ^ 63 - 1) d); [done|]. split; [done|]. intros d' [= <-]. unfold in_i64. lia.
  - assert (∀ x, 0 ≤ num x → in_u64 (toUint64 outOfRange x)) as Hu.
    { intros x Hx. unfold toUint64. destruct (Z.ltb_spec (ftrunc x) (2 ^ 64)); [|apply Ho]. unfold in_u64. split; [|done].
      unfold ftrunc. apply Z.div_pos; [done|]. apply den_pos. }
    unfold ParseSizeFromHuman. destruct (cutLetters _) as [[vs m]|]; [|done]. destruct (ParseFloat vs) as [[neg v]|] eqn:E; [|done].
    assert (0 ≤ num v) as Hv.
    { unfold ParseFloat in E. set (p := match vs with 45 :: _ => _ | _ => _ end) in E. destruct p as [ng dg].
      assert (∀ l a b' mant frac r, readDigits l a b' mant frac = Some r → 0 ≤ mant → 0 ≤ frac → 0 ≤ r.1 ∧ 0 ≤ r.2) as Hr.
      { induction l as [|c l IH]; intros a b' mant frac r'; cbn [readDigits]; [destruct b'; [by intros [= <-]|done]|].
        destruct (c =? 95); [apply IH|]. destruct (c =? 46); [destruct a; [done|apply IH]|]. destruct (isDigit c) eqn:Ec; [|done].
        unfold isDigit in Ec. bsplit. intros Hr Hm Hf. apply (IH _ _ _ _ _ Hr); [lia|]. destruct a; lia. }
      destruct (readDigits dg false false 0 0) as [[mant frac]|] eqn:Er; [|done]. cbn [mbind option_bind] in E.
      destruct (Hr _ _ _ _ _ _ Er ltac:(lia) ltac:(lia)) as [Hm Hf]. cbn [fst snd] in *.
      destruct (_ && _); [done|]. destruct (overflows _); [done|]. injection E as _ <-. apply rnd_num; [done|]. by apply Z.pow_pos_nonneg. }
    assert (∀ z, 0 ≤ z → in_u64 (toUint64 outOfRange (fmul v (ofZ z)))) as Hm.
    { intros z Hz. apply Hu. apply rnd_num; [|apply Z.mul_pos_pos; apply den_pos]. apply Z.mul_nonneg_nonneg; [done|]. by apply rnd_num. }
    repeat case_match; split; try done; intros v' [= <-]; first [by apply Hu|by apply Hm].
Qed.

(** ** Sizes *)

(** Rounding depends on the quotient only. *)
Lemma rne_scale a c k : 0 < c → 0 < k → rne (a * k) (c * k) = rne a c.
Proof.
  intros Hc Hk. unfold rne. rewrite Z.div_mul_cancel_r, Z.mul_mod_distr_r by lia.
  destruct (Z.ltb_spec (2 * (a mod c)) c), (Z.ltb_spec (2 * (a mod c * k)) (c * k)); try done; try nia.
  destruct (Z.ltb_spec c (2 * (a mod c))), (Z.ltb_spec (c * k) (2 * (a mod c * k))); try done; nia.
Qed.
Lemma rne_ratio a c a' c' : 0 < c → 0 < c' → a * c' = a' * c → rne a c = rne a' c'.
Proof. intros Hc Hc' E. rewrite <-(rne_scale a c c'), <-(rne_scale a' c' c) by done. f_equal; lia. Qed.

(** A float as [K * 2 ^ J] with a mantissa of at most 53 bits. *)
Definition dyadic (x : float) (K J : Z) : Prop := 0 < K < 2 ^ 53 ∧ - 1074 ≤ J ∧ num x * up J = K * down J * den x.

Lemma ofZ_pow k : 0 ≤ k → is_int (ofZ (2 ^ k)) (2 ^ k).
Proof.
  intros Hk. unfold is_int, ofZ. pose proof (rnd_exact (2 ^ k) 1 1 k) as H. destruct (up_down k Hk) as [E1 E2]. rewrite E1, E2 in H.
  specialize (H ltac:(lia) ltac:(lia) ltac:(lia) ltac:(lia)). lia.
Qed.

(** Multiplying or dividing by a power of two is exact. *)
Lemma fmul_pow x K J k : dyadic x K J → 0 ≤ k → num (fmul x (ofZ (2 ^ k))) * den x = num x * 2 ^ k * den (fmul x (ofZ (2 ^ k))).
Proof.
  intros (HK & HJ & E) Hk. pose proof (ofZ_pow k Hk) as Hp. unfold is_int in Hp. unfold fmul.
  set (y := ofZ (2 ^ k)) in *. pose proof (den_pos x). pose proof (den_pos y). assert (0 < 2 ^ k) by (apply Z.pow_pos_nonneg; lia).
  assert (num (rnd (num x * num y) (den x * den y)) * (den x * den y) = num x * num y * den (rnd (num x * num y) (den x * den y))) as H2.
  { apply (rnd_exact _ _ K (J + k)); [nia|done|lia|]. rewrite Hp.
    assert (up (J + k) * down J * 2 ^ k = up J * down (J + k)) as E2.
    { unfold up, down. rewrite <-!Z.pow_add_r by lia. f_equal. lia. }
    pose proof (up_pos J). apply (Z.mul_reg_r _ _ (up J)); [lia|].
    replace (num x * (2 ^ k * den y) * up (J + k) * up J) with (num x * up J * (2 ^ k * den y * up (J + k))) by ring.
    rewrite E. replace (den x * den y * K * down (J + k) * up J) with (den x * den y * K * (up J * down (J + k))) by ring.
    rewrite <-E2. ring. }
  rewrite Hp in H2 at 2. apply (Z.mul_reg_r _ _ (den y)); [lia|]. nia.
Qed.
Lemma fdiv_pow x K J k : dyadic x K J → 0 ≤ k → - 1074 ≤ J - k →
  num (fdiv x (ofZ (2 ^ k))) * (den x * 2 ^ k) = num x * den (fdiv x (ofZ (2 ^ k))).
Proof.
  intros (HK & HJ & E) Hk HJk. pose proof (ofZ_pow k Hk) as Hp. unfold is_int in Hp. unfold fdiv.
  set (y := ofZ (2 ^ k)) in *. pose proof (den_pos x). pose proof (den_pos y). assert (0 < 2 ^ k) by (apply Z.pow_pos_nonneg; lia).
  assert (num (rnd (num x * den y) (den x * num y)) * (den x * num y) = num x * den y * den (rnd (num x * den y) (den x * num y))) as H2.
  { apply (rnd_exact _ _ K (J - k)); [rewrite Hp; nia|done|lia|]. rewrite Hp.
    assert (up (J - k) * down J = up J * down (J - k) * 2 ^ k) as E2.
    { unfold up, down. rewrite <-!Z.pow_add_r by lia. f_equal. lia. }
    pose proof (up_pos J). apply (Z.mul_reg_r _ _ (up J)); [lia|].
    replace (num x * den y * up (J - k) * up J) with (num x * up J * (den y * up (J - k))) by ring.
    rewrite E. replace (den x * (2 ^ k * den y) * K * down (J - k) * up J) with (den x * den y * K * (up J * down (J - k) * 2 ^ k)) by ring.
    rewrite <-E2. ring. }
  rewrite Hp in H2 at 2. apply (Z.mul_reg_r _ _ (den y)); [lia|]. nia.
Qed.

Lemma expOf_high n d : 0 < d ≤ n → n * up (expOf n d) < d * down (expOf n d) * 2 ^ 53 ∧ - 53 ≤ expOf n d.
Proof.
  intros Hd. unfold expOf. pose proof (Z.log2_le_mono d n ltac:(lia)).
  set (e := Z.log2 n - Z.log2 d - 53) in *.
  pose proof (Z.log2_spec n ltac:(lia)) as [H1 H2]. pose proof (Z.log2_spec d ltac:(lia)) as [H3 H4].
  pose proof (Z.log2_nonneg n). pose proof (Z.log2_nonneg d).
  destruct (Z.ltb_spec (n * up e) (d * down e * 2 ^ 53)) as [Hc|Hc]; rewrite Z.max_l by lia; (split; [|lia]); [done|].
  assert (2 ^ Z.succ (Z.log2 n) * up (e + 1) = 2 ^ Z.log2 d * down (e + 1) * 2 ^ 53) as E.
  { unfold up, down. rewrite <-!Z.pow_add_r by lia. f_equal. lia. }
  pose proof (up_pos (e + 1)). pose proof (down_pos (e + 1)).
  assert (n * up (e + 1) < 2 ^ Z.succ (Z.log2 n) * up (e + 1)) by (apply Z.mul_lt_mono_pos_r; lia).
  assert (2 ^ Z.log2 d * down (e + 1) * 2 ^ 53 ≤ d * down (e + 1) * 2 ^ 53) by (apply Z.mul_le_mono_nonneg_r; [lia|]; apply Z.mul_le_mono_nonneg_r; lia).
  lia.
Qed.

Lemma rnd_dyadic n d : 0 < d ≤ n → ∃ K J, dyadic (rnd n d) K J ∧ - 53 ≤ J.
Proof.
  intros Hd. destruct (expOf_high n d Hd) as [Hh He]. destruct (expOf_low n d) as [|Hl]; [lia|lia|lia|].
  unfold rnd. rewrite (proj2 (Z.eqb_neq n 0)) by lia. set (e := expOf n d) in *.
  pose proof (up_pos e). pose proof (down_pos e). assert (0 < d * down e) as Hde by nia.
  pose proof (rne_near (n * up e) (d * down e) Hde) as Hr. set (m := rne (n * up e) (d * down e)) in *.
  assert (m ≤ 2 ^ 53) as Hm by nia. assert (0 < m) as Hm0 by nia.
  unfold dyadic, num, den. cbn [man exp]. destruct (Z.eq_dec m (2 ^ 53)) as [->|Hne].
  - exists (2 ^ 52), (e + 1). split; [|lia]. split; [lia|]. split; [lia|].
    assert (2 * (down e * up (e + 1)) = down (e + 1) * up e) as E.
    { unfold up, down. change 2 with (2 ^ 1) at 1. rewrite <-!Z.pow_add_r by lia. f_equal. lia. }
    replace (2 ^ 53) with (2 ^ 52 * 2) by reflexivity. nia.
  - exists m, e. split; [|lia]. split; [lia|]. split; [lia|]. ring.
Qed.

(** The integer that [float64(b)] is: [b] itself below [2^53] or when it has few bits. *)
Lemma ofZ_near z : 0 < z < 2 ^ 64 → ∃ B, is_int (ofZ z) B ∧ 0 < B ∧ 2 ^ 53 * Z.abs (z - B) ≤ z.
Proof.
  intros Hz. destruct (Z.lt_ge_cases z (2 ^ 53)) as [Hs|Hb].
  { exists z. split; [apply ofZ_int; lia|]. lia. }
  destruct (rnd_dyadic z 1 ltac:(lia)) as (K & J & (HK & _ & _) & _).
  assert (0 ≤ expOf z 1) as He.
  { unfold expOf. assert (53 ≤ Z.log2 z) by (apply Z.log2_le_pow2; lia). change (Z.log2 1) with 0. destruct (_ <? _); lia. }
  pose proof (rnd_near z 1 ltac:(lia) ltac:(lia) ltac:(lia)) as Hn. unfold ofZ, is_int, den in *.
  assert (exp (rnd z 1) = expOf z 1) as Ee by (unfold rnd; by rewrite (proj2 (Z.eqb_neq z 0)) by lia).
  rewrite Ee in *. destruct (up_down _ He) as [Eu _]. rewrite Eu in *. exists (num (rnd z 1)). lia.
Qed.
Lemma ofZ_multiple q k : 0 < q < 2 ^ 53 → 0 ≤ k → is_int (ofZ (q * 2 ^ k)) (q * 2 ^ k).
Proof.
  intros Hq Hk. unfold is_int, ofZ. pose proof (rnd_exact (q * 2 ^ k) 1 q k) as H. destruct (up_down k Hk) as [E1 E2]. rewrite E1, E2 in H.
  specialize (H ltac:(lia) ltac:(lia) ltac:(lia) ltac:(lia)). lia.
Qed.

(** *** The text of a number of tenths *)
Definition tenths (t : Z) : bytes := TrimSuffix (utoa (t / 10) ++ [46; 48 + t mod 10]) (txt ".0").

Lemma tenths_text t : tenths t = if t mod 10 =? 0 then utoa (t / 10) else utoa (t / 10) ++ [46; 48 + t mod 10].
Proof.
  unfold tenths, TrimSuffix. rewrite reverse_app. change (reverse (txt ".0")) with [48; 46].
  change (reverse [46; 48 + t mod 10]) with [48 + t mod 10; 46]. cbn [app hasPrefix].
  destruct (Z.eqb_spec (t mod 10) 0) as [->|Hne].
  - change ((48 =? 48 + 0) && ((46 =? 46) && true)) with true. cbv iota. rewrite length_app. cbn [length].
    replace (length (utoa (t / 10)) + 2 - length (txt ".0"))%nat with (length (utoa (t / 10))) by (cbn; lia). by rewrite take_app_length.
  - rewrite (proj2 (Z.eqb_neq 48 _)) by lia. done.
Qed.

Lemma readDigits_app ds : ∀ dot saw x frac v rest, Forall (λ c, isDigit c = true) ds → parseDigits x ds = Some v → ds ≠ [] ∨ saw = true →
  readDigits (ds ++ rest) dot saw x frac = readDigits rest dot true v (if dot then frac + Z.of_nat (length ds) else frac).
Proof.
  induction ds as [|c ds IH]; intros dot saw x frac v rest Hd Hp Hs; cbn [app parseDigits length] in *.
  - injection Hp as ->. destruct Hs as [| ->]; [done|]. by rewrite Z.add_0_r; destruct dot.
  - apply Forall_cons in Hd as [Hc Hd]. rewrite Hc in Hp. cbn [readDigits].
    assert ((c =? 95) = false ∧ (c =? 46) = false) as [-> ->] by (unfold isDigit in Hc; bsplit; split; apply Z.eqb_neq; lia).
    rewrite Hc, (IH _ _ _ _ _ _ Hd Hp) by (by right). f_equal. destruct dot; [lia|done].
Qed.

Lemma rnd_no_overflow n d : 0 < d ≤ n → n ≤ d * 2 ^ 60 → overflows (rnd n d) = false.
Proof.
  intros Hd Hn. unfold overflows. apply Z.leb_gt. pose proof (rnd_near n d ltac:(lia) ltac:(lia) (expOf_big n d Hd)) as Hr.
  set (x := rnd n d) in *. pose proof (den_pos x).
  assert (d * num x ≤ 2 * (n * den x)) by lia. assert (2 * (n * den x) ≤ 2 * (d * 2 ^ 60 * den x)) by nia.
  assert (num x ≤ 2 * 2 ^ 60 * den x) by nia. assert (2 * 2 ^ 60 < 2 ^ 1024) by reflexivity. nia.
Qed.

Lemma tenths_parse t : 10 ≤ t ≤ 20000 → ∃ n d, ParseFloat (tenths t) = Some (false, rnd n d) ∧ n * 10 = t * d ∧ 0 < d ≤ n ∧ n ≤ d * 2 ^ 60.
Proof.
  intros Ht. pose proof (Z.div_mod t 10 ltac:(lia)) as Hdm. pose proof (Z.mod_pos_bound t 10 ltac:(lia)) as Hm.
  assert (∃ n d frac, readDigits (tenths t) false false 0 0 = Some (n, frac) ∧ d = 10 ^ frac ∧ n * 10 = t * d ∧ 0 < d ≤ n ∧ n ≤ d * 2 ^ 60) as (n & d & frac & Hr & -> & Hn & Hdn & Hb).
  { rewrite tenths_text. pose proof (utoa_parse (t / 10) ltac:(lia)) as Hp. pose proof (utoa_digits (t / 10)) as Hd. pose proof (utoa_nonempty (t / 10)) as Hne.
    unfold parseUnsigned in Hp. assert (parseDigits 0 (utoa (t / 10)) = Some (t / 10)) as Hp' by (by destruct (utoa (t / 10))).
    destruct (Z.eqb_spec (t mod 10) 0).
    - exists (t / 10), 1, 0. rewrite <-(app_nil_r (utoa _)), (readDigits_app _ _ _ _ _ _ _ Hd Hp') by (by left). split; [done|]. lia.
    - exists t, 10, 1. rewrite (readDigits_app _ _ _ _ _ _ _ Hd Hp') by (by left). cbn [readDigits].
      change (46 =? 95) with false. change (46 =? 46) with true. cbv iota.
      assert ((48 + t mod 10 =? 95) = false ∧ (48 + t mod 10 =? 46) = false) as [-> ->] by (split; apply Z.eqb_neq; lia).
      rewrite digit_ok. split; [|lia]. repeat f_equal; lia. }
  exists n, (10 ^ frac). split; [|done]. unfold ParseFloat.
  assert (∃ c r, tenths t = c :: r ∧ isDigit c = true) as (c & r & E & Hc).
  { rewrite tenths_text. pose proof (utoa_nonempty (t / 10)). pose proof (utoa_digits (t / 10)) as Hd. destruct Hd as [|c r Hc _]; [done|]. case_match; by eexists _, _. }
  assert ((match tenths t with 43 :: r => (false, r) | 45 :: r => (true, r) | _ => (false, tenths t) end) = (false, tenths t)) as ->.
  { rewrite E. unfold isDigit in Hc. bsplit. destruct c as [|c|c]; try done. do 6 (destruct c as [c|c|]; try done). }
  rewrite Hr. cbn [mbind option_bind].
  assert (containsByte 95 (tenths t) = false) as ->.
  { destruct (containsByte 95 (tenths t)) eqn:Ec; [|done]. apply containsByte_spec in Ec. rewrite tenths_text in Ec.
    pose proof (utoa_digits (t / 10)) as Hd. rewrite Forall_forall in Hd.
    assert (95 ∉ utoa (t / 10)) as Hn95 by (by intros ?%Hd). destruct (t mod 10 =? 0); [done|].
    apply elem_of_app in Ec as [|Ec]; [done|]. rewrite !elem_of_cons in Ec. destruct Ec as [?|[?|?%elem_of_nil]]; [lia|lia|done]. }
  cbn [andb]. by rewrite rnd_no_overflow.
Qed.

(** *** A text with a unit *)
Definition sizeUnits : list (bytes * Z) :=
  [(txt "eb", 60); (txt "pb", 50); (txt "tb", 40); (txt "gb", 30); (txt "mb", 20); (txt "kb", 10)].
Definition plain (c : Z) : Prop := isDigit c = true ∨ c = 46.

Lemma plain_facts c : plain c → isSpace c = false ∧ toLowerByte c = c ∧ isLetter c = false.
Proof.
  unfold plain, isDigit, isSpace, toLowerByte, isLetter. intros [Hc| ->]; [|done]. bsplit.
  repeat match goal with |- context [?a =? ?e] => rewrite (proj2 (Z.eqb_neq a e)) by lia end.
  repeat match goal with |- context [?a <=? ?e] => destruct (Z.leb_spec a e); try lia end; done.
Qed.

Lemma cutLetters_plain body c u : Forall plain body → isLetter c = true → cutLetters (body ++ c :: u) = Some (body, c :: u).
Proof.
  intros Hb Hc. induction Hb as [|x body Hx _ IH]; cbn [app cutLetters]; [by rewrite Hc|]. destruct (plain_facts x Hx) as (_ & _ & ->). by rewrite IH.
Qed.

Section parsed.
Context (outOfRange : float → Z).

Lemma parse_unit body v u k : (u, k) ∈ (txt "b", 0) :: sizeUnits → Forall plain body → ParseFloat body = Some (false, v) →
  ParseSizeFromHuman outOfRange (body ++ u) = Ok (toUint64 outOfRange (if k =? 0 then v else fmul v (ofZ (2 ^ k)))).
Proof.
  intros Hu Hb Hv.
  assert (∃ c r, u = c :: r ∧ isLetter c = true ∧ Forall (λ c, isSpace c = false ∧ toLowerByte c = c) u) as (c & r & Eu & Hc & Hall).
  { unfold sizeUnits in Hu. rewrite !elem_of_cons in Hu.
    destruct Hu as [Hu|[Hu|[Hu|[Hu|[Hu|[Hu|[Hu|Hu%elem_of_nil]]]]]]]; [injection Hu as -> _..|done];
      (eexists _, _; split; [reflexivity|]; split; [reflexivity|]; repeat constructor). }
  assert (Forall (λ c, isSpace c = false ∧ toLowerByte c = c) (body ++ u)) as Hp.
  { apply Forall_app. split; [|done]. apply (Forall_impl _ _ _ Hb). intros x Hx. by destruct (plain_facts x Hx) as (? & ? & _). }
  unfold ParseSizeFromHuman. rewrite TrimSpace_nospace by (apply (Forall_impl _ _ _ Hp); by intros ? [? _]).
  assert (ToLower (body ++ u) = body ++ u) as ->.
  { unfold ToLower. clear -Hp. induction Hp as [|x l [_ Hx] _ IH]; cbn; [done|]. by rewrite Hx, IH. }
  rewrite Eu at 1. rewrite (cutLetters_plain body c r Hb Hc), <-Eu, Hv. cbn [andb].
  unfold sizeUnits in Hu. rewrite !elem_of_cons in Hu.
  destruct Hu as [Hu|[Hu|[Hu|[Hu|[Hu|[Hu|[Hu|Hu%elem_of_nil]]]]]]]; [injection Hu as -> ->; reflexivity..|done].
Qed.

(** Division with the same quotient. *)
Lemma div_ratio a c a' c' : 0 < c → 0 < c' → a * c' = a' * c → a / c = a' / c'.
Proof. intros Hc Hc' E. rewrite <-(Z.div_mul_cancel_r a c c'), <-(Z.div_mul_cancel_r a' c' c) by lia. f_equal; lia. Qed.

Lemma sizeUnits_pos u k : (u, k) ∈ sizeUnits → 10 ≤ k ≤ 60.
Proof.
  unfold sizeUnits. rewrite !elem_of_cons.
  intros [Hu|[Hu|[Hu|[Hu|[Hu|[Hu|Hu%elem_of_nil]]]]]]; [injection Hu as _ ->; lia..|done].
Qed.
Lemma tenths_plain t : 0 ≤ t → Forall plain (tenths t).
Proof.
  intros Ht. rewrite tenths_text. assert (Forall plain (utoa (t / 10))) as Hp.
  { apply (Forall_impl _ _ _ (utoa_digits (t / 10))). by left. }
  destruct (t mod 10 =? 0); [done|]. apply Forall_app. split; [done|]. constructor; [by right|]. constructor; [left; apply digit_ok|constructor].
Qed.

(** What a number of tenths of a unit becomes: the product, cut to an integer, up to the
    precision of a float; exactly, for whole units. *)
Lemma tenths_size t k u : 10 ≤ t ≤ 20000 → (u, k) ∈ sizeUnits → t * 2 ^ k * (2 ^ 53 + 1) < 2 ^ 53 * 10 * 2 ^ 64 →
  ∃ r, ParseSizeFromHuman outOfRange (tenths t ++ u) = Ok r ∧
    2 ^ 53 * 10 * r ≤ t * 2 ^ k * (2 ^ 53 + 1) ∧ t * 2 ^ k * (2 ^ 53 - 1) ≤ 2 ^ 53 * 10 * (r + 1) ∧
    (t mod 10 = 0 → r = t / 10 * 2 ^ k).
Proof.
  intros Ht Hu Hmax. pose proof (sizeUnits_pos u k Hu) as Hk. assert (0 < 2 ^ k) as Hpk by (apply Z.pow_pos_nonneg; lia).
  destruct (tenths_parse t Ht) as (n & d & Hp & Hn & Hd & Hnb).
  rewrite (parse_unit (tenths t) (rnd n d) u k) by (done || (by right) || (apply tenths_plain; lia)). rewrite (proj2 (Z.eqb_neq k 0)) by lia.
  set (x := rnd n d) in *. pose proof (den_pos x). destruct (rnd_dyadic n d Hd) as (K & J & HD & _).
  pose proof (fmul_pow x K J k HD ltac:(lia)) as Hm.
  assert (ftrunc (fmul x (ofZ (2 ^ k))) = num x * 2 ^ k / den x) as Htr.
  { unfold ftrunc. apply div_ratio; [apply den_pos|done|]. lia. }
  pose proof (rnd_near n d ltac:(lia) ltac:(lia) (expOf_big n d Hd)) as Hr. fold x in Hr.
  set (N := num x) in *. set (D := den x) in *. set (r := N * 2 ^ k / D) in *.
  assert (r * D ≤ N * 2 ^ k < (r + 1) * D) as Hrd.
  { unfold r. pose proof (Z.div_mod (N * 2 ^ k) D ltac:(lia)). pose proof (Z.mod_pos_bound (N * 2 ^ k) D ltac:(lia)). lia. }
  (* 2^53 |t D - 10 N| <= t D *)
  assert (2 ^ 53 * Z.abs (t * D - 10 * N) ≤ t * D) as Ht10.
  { assert (d * (t * D) = 10 * (n * D)) as E1 by nia.
    assert (d * (2 ^ 53 * Z.abs (t * D - 10 * N)) ≤ d * (t * D)); [|nia].
    replace (d * (2 ^ 53 * Z.abs (t * D - 10 * N))) with (10 * (2 ^ 53 * Z.abs (n * D - d * N))); [lia|].
    assert (d * Z.abs (t * D - 10 * N) = 10 * Z.abs (n * D - d * N)); [|lia].
    rewrite <-(Z.abs_eq d), <-(Z.abs_eq 10), <-!Z.abs_mul by lia. f_equal. lia. }
  assert (2 ^ 53 * 10 * r ≤ t * 2 ^ k * (2 ^ 53 + 1)) as Hup.
  { apply (Z.mul_le_mono_pos_r _ _ D); [done|].
    assert (2 ^ 53 * 10 * (r * D) ≤ 2 ^ 53 * (10 * N) * 2 ^ k) by nia. assert (2 ^ 53 * (10 * N) ≤ t * D * (2 ^ 53 + 1)) by lia. nia. }
  assert (t * 2 ^ k * (2 ^ 53 - 1) ≤ 2 ^ 53 * 10 * (r + 1)) as Hlo.
  { apply (Z.mul_le_mono_pos_r _ _ D); [done|].
    assert (2 ^ 53 * (10 * N) * 2 ^ k ≤ 2 ^ 53 * 10 * ((r + 1) * D)) by nia. assert (t * D * (2 ^ 53 - 1) ≤ 2 ^ 53 * (10 * N)) by lia. nia. }
  exists r. unfold toUint64. rewrite Htr. rewrite (proj2 (Z.ltb_lt r _)) by lia. split; [done|]. split; [done|]. split; [done|].
  intros Ht0. pose proof (Z.div_mod t 10 ltac:(lia)) as Hdm. unfold r. rewrite Ht0, Z.add_0_r in Hdm.
  assert (is_int x (t / 10)) as Hx by (apply rnd_int; lia). unfold is_int in Hx. fold N D in Hx. rewrite Hx.
  replace (t / 10 * D * 2 ^ k) with (t / 10 * 2 ^ k * D) by ring. apply Z.div_mul. lia.
Qed.
End parsed.

Lemma format_unit z B k : 0 < z < 2 ^ 64 → 0 ≤ k ≤ 60 → is_int (ofZ z) B →
  TrimSuffix (FormatFloat1 (fdiv (ofZ z) (ofZ (2 ^ k)))) (txt ".0") = tenths (rne (10 * B) (2 ^ k)).
Proof.
  intros Hz Hk HB. unfold FormatFloat1, tenths. destruct (rnd_dyadic z 1 ltac:(lia)) as (K & J & HD & HJ).
  pose proof (fdiv_pow (ofZ z) K J k HD ltac:(lia) ltac:(lia)) as Hd. assert (0 < 2 ^ k) by (apply Z.pow_pos_nonneg; lia).
  pose proof (den_pos (ofZ z)). rewrite (rne_ratio _ _ (10 * B) (2 ^ k)); [done|apply den_pos|done|].
  unfold is_int in HB. rewrite HB in Hd. apply (Z.mul_reg_r _ _ (den (ofZ z))); [lia|]. lia.
Qed.
Lemma format_bytes z : 0 ≤ z < 2 ^ 53 → TrimSuffix (FormatFloat1 (ofZ z)) (txt ".0") = tenths (10 * z).
Proof.
  intros Hz. unfold FormatFloat1, tenths. rewrite (rne_ratio _ _ (10 * z) 1); [|apply den_pos|lia|].
  - assert (rne (10 * z) 1 = 10 * z) as ->; [|done]. rewrite <-(rne_exact (10 * z) 1) at 2 by lia. by rewrite Z.mul_1_r.
  - pose proof (ofZ_int z Hz) as H. unfold is_int in H. lia.
Qed.

(** The unit a size is printed with. *)
Definition unitOf (z : Z) : Z :=
  if exa <=? z then exa else if peta <=? z then peta else if tera <=? z then tera
  else if giga <=? z then giga else if mega <=? z then mega else if kilo <=? z then kilo else 1.

(** How a size is printed. *)
Lemma format_cases z : 0 < z < 2 ^ 64 →
  (∃ u k, (u, k) ∈ sizeUnits ∧ 2 ^ k ≤ z < 2 ^ 10 * 2 ^ k ∧ unitOf z = 2 ^ k ∧
    FormatSizeToHuman z = TrimSuffix (FormatFloat1 (fdiv (ofZ z) (ofZ (2 ^ k)))) (txt ".0") ++ u) ∨
  (z < 2 ^ 10 ∧ unitOf z = 1 ∧ FormatSizeToHuman z = tenths (10 * z) ++ txt "b").
Proof.
  intros Hz. unfold FormatSizeToHuman, unitOf. rewrite (proj2 (Z.eqb_neq z 0)) by lia. unfold exa, peta, tera, giga, mega, kilo.
  repeat match goal with
  | |- context [2 ^ ?k <=? z] =>
      destruct (Z.leb_spec (2 ^ k) z); [left; refine (ex_intro _ _ (ex_intro _ k (conj _ (conj _ (conj eq_refl eq_refl))))); [unfold sizeUnits; set_solver|lia]|]
  end.
  right. cbv beta iota zeta. rewrite format_bytes by lia. done.
Qed.

Section roundtrip.
Context (outOfRange : float → Z).
(** One unit. *)
Lemma unit_roundtrip z u k : (u, k) ∈ sizeUnits → 2 ^ k ≤ z < 2 ^ 10 * 2 ^ k → z ≤ 15 * 2 ^ 60 →
  ∃ r, ParseSizeFromHuman outOfRange (TrimSuffix (FormatFloat1 (fdiv (ofZ z) (ofZ (2 ^ k)))) (txt ".0") ++ u) = Ok r ∧
       16 * Z.abs (r - z) ≤ 2 ^ k ∧ ((2 ^ k | z) → r = z).
Proof.
  intros Hu Hz Hmax. pose proof (sizeUnits_pos u k Hu) as Hk. assert (2 ^ 10 ≤ 2 ^ k ≤ 2 ^ 60) as Hpk by (split; apply Z.pow_le_mono_r; lia).
  destruct (ofZ_near z ltac:(lia)) as (B & HB & HB0 & HBn). rewrite (format_unit z B k); [|lia|lia|exact HB].
  pose proof (rne_near (10 * B) (2 ^ k) ltac:(lia)) as Ht. set (t := rne (10 * B) (2 ^ k)) in *. set (T := 2 ^ k * t) in *.
  assert (10 ≤ t ≤ 20000) as Htr by (unfold T in Ht; nia).
  assert (t * 2 ^ k * (2 ^ 53 + 1) < 2 ^ 53 * 10 * 2 ^ 64) as Hfit by (replace (t * 2 ^ k) with T by (unfold T; ring); lia).
  destruct (tenths_size outOfRange t k u Htr Hu Hfit) as (r & -> & H1 & H2 & H3). exists r. split; [done|].
  replace (t * 2 ^ k) with T in H1, H2 by (unfold T; ring). split; [lia|].
  intros [q ->]. assert (0 < q < 2 ^ 11) as Hq by nia. pose proof (ofZ_multiple q k ltac:(lia) ltac:(lia)) as HB'.
  assert (B = q * 2 ^ k) as ->.
  { unfold is_int in HB, HB'. apply (Z.mul_reg_r _ _ (den (ofZ (q * 2 ^ k)))); [pose proof (den_pos (ofZ (q * 2 ^ k))); lia|congruence]. }
  assert (t = 10 * q) as Et by (unfold t; rewrite Z.mul_assoc; apply rne_exact; lia). clearbody t.
  rewrite H3, Et by (rewrite Et, Z.mul_comm; apply Z.mod_mul; lia). rewrite (Z.mul_comm 10), Z.div_mul by lia. done.
Qed.

(** Every size is printed as something that is parsed. *)
Lemma size_text z : in_u64 z → ∃ r, ParseSizeFromHuman outOfRange (FormatSizeToHuman z) = Ok r.
Proof.
  unfold in_u64. intros Hz. destruct (Z.eqb_spec z 0) as [->|Hne]; [by eexists|].
  assert (∀ u k, (u, k) ∈ sizeUnits → 2 ^ k ≤ z < 2 ^ 10 * 2 ^ k →
    ∃ r, ParseSizeFromHuman outOfRange (TrimSuffix (FormatFloat1 (fdiv (ofZ z) (ofZ (2 ^ k)))) (txt ".0") ++ u) = Ok r) as Hu.
  { intros u k Hu Hzk. pose proof (sizeUnits_pos u k Hu) as Hk. assert (2 ^ 10 ≤ 2 ^ k ≤ 2 ^ 60) as Hpk by (split; apply Z.pow_le_mono_r; lia).
    destruct (ofZ_near z ltac:(lia)) as (B & HB & HB0 & HBn). rewrite (format_unit z B k); [|lia|lia|exact HB].
    pose proof (rne_near (10 * B) (2 ^ k) ltac:(lia)) as Ht. set (t := rne (10 * B) (2 ^ k)) in *. assert (10 ≤ t ≤ 20000) as Htr by nia.
    destruct (tenths_parse t Htr) as (n & d & Hp & _). rewrite (parse_unit outOfRange (tenths t) (rnd n d) u k); [by eexists|by right|apply tenths_plain; lia|exact Hp]. }
  destruct (format_cases z ltac:(lia)) as [(u & k & Hin & Hk & _ & ->)|(Hk & _ & ->)]; [by apply Hu|].
  destruct (tenths_parse (10 * z) ltac:(lia)) as (n & d & Hp & _).
  rewrite (parse_unit outOfRange (tenths (10 * z)) (rnd n d) (txt "b") 0); [by eexists|by left|apply tenths_plain; lia|exact Hp].
Qed.

(** C28: a size that is printed and parsed again is off by at most a sixteenth of the unit it is
    printed with, and exactly the same when it is a whole number of that unit; this
    holds up to 15 exabytes. *)
Theorem size_roundtrip z : 0 ≤ z ≤ 15 * exa →
  ∃ r, ParseSizeFromHuman outOfRange (FormatSizeToHuman z) = Ok r ∧ 16 * Z.abs (r - z) ≤ unitOf z ∧ ((unitOf z | z) → r = z).
Proof.
  unfold exa. intros Hz. destruct (Z.eqb_spec z 0) as [->|Hne]; [exists 0; by vm_compute|].
  destruct (format_cases z ltac:(lia)) as [(u & k & Hin & Hk & -> & ->)|(Hk & -> & ->)]; [apply unit_roundtrip; [done|done|lia]|].
  exists z. destruct (tenths_parse (10 * z) ltac:(lia)) as (n & d & Hp & Hn & Hd & _).
  rewrite (parse_unit outOfRange (tenths (10 * z)) (rnd n d) (txt "b") 0); [|by left|apply tenths_plain; lia|exact Hp]. cbn [Z.eqb].
  assert (ftrunc (rnd n d) = z) as E by (apply ftrunc_int, rnd_int; lia). change (0 =? 0) with true. cbv iota. unfold toUint64.
  rewrite E, (proj2 (Z.ltb_lt z _)) by lia. split; [done|]. rewrite Z.sub_diag. done.
Qed.
End roundtrip.

(** The largest sizes are printed as [16eb], which is more than 64 bits hold: what they are parsed
    to is left to the processor. *)
Example size_not_parsed outOfRange : FormatSizeToHuman (2 ^ 64 - 1) = txt "16eb" ∧
  ParseSizeFromHuman outOfRange (txt "16eb") = Ok (outOfRange (fmul (ofZ 16) (ofZ exa))).
Proof. by vm_compute. Qed.

(** A size just below a unit is printed as 1024 of the smaller one. *)
Example size_below_unit : FormatSizeToHuman (mega - 1) = txt "1024kb".
Proof. by vm_compute. Qed.

Lemma size_roundtrip_witness : ∃ r, ParseSizeFromHuman (λ _, 0) (FormatSizeToHuman 20000000) = Ok r ∧ 16 * Z.abs (r - 20000000) ≤ unitOf 20000000.
Proof.
  destruct (size_roundtrip (λ _, 0) 20000000) as (r & H1 & H2 & _); [by vm_compute|]. exists r. exact (conj H1 H2).
Defined.
Lemma interval_roundtrip_witness : ParseDuration (Duration_String (- 2 ^ 63)) = Ok (- 2 ^ 63).
Proof. refine (proj1 (interval_roundtrip (- 2 ^ 63) _)). unfold in_i64. lia. Defined.
Lemma parsed_values_fit_witness : ParseDuration (txt "1h.5x") ≠ Panic.
Proof. refine (proj1 (proj1 (parsed_values_fit (txt "1h.5x") (λ _, 0) _))). intros x. unfold in_u64. lia. Defined.
