(* ===== verification/IPText.v ===== *)
(** * IPText: addresses and networks as text

    Models the textual part of [src/xnet/ip.go] with what it uses of Go's [net] and
    [net/netip]: parsing and printing of IPv4 and IPv6 addresses, and networks in CIDR
    notation.  An address with a zone is refused by everything the library calls, so a zone
    is an error from the start. *)
From S2P Require Import Prelude Text Net.

Local Open Scope Z_scope.

(** ** netip: an address is 4 or 16 bytes *)

(** [parseIPv4Fields]; [digLen] digits of the current field read so far, with the value
    [val]; [fields] are those before it. *)
Fixpoint parseIPv4Fields (s : bytes) (digLen val : Z) (fields : bytes) : option bytes :=
  match s with
  | [] => if (zlen fields <? 3) || (digLen =? 0) then None else Some (fields ++ [val])
  | c :: s =>
      if isDigit c then
        if (digLen =? 1) && (val =? 0) then None
        else let val := val * 10 + (c - 48) in
             if 255 <? val then None else parseIPv4Fields s (digLen + 1) val fields
      else if c =? 46 then
        if (digLen =? 0) || (zlen fields =? 3) then None else parseIPv4Fields s 0 0 (fields ++ [val])
      else None
  end.
Definition parseIPv4 (s : bytes) : option bytes := parseIPv4Fields s 0 0 [].

Definition hexValue (c : Z) : option Z :=
  if isDigit c then Some (c - 48)
  else if (97 <=? c) && (c <=? 102) then Some (c - 97 + 10)
  else if (65 <=? c) && (c <=? 70) then Some (c - 65 + 10)
  else None.

(** The digits of a group: how many, their value and the text after them. *)
Fixpoint hexGroup (off acc : Z) (s : bytes) : option (Z * Z * bytes) :=
  match s with
  | [] => Some (off, acc, [])
  | c :: r =>
      match hexValue c with
      | None => Some (off, acc, s)
      | Some v =>
          let acc := u32 (u32 (Z.shiftl acc 4) + v) in
          if 3 <? off then None else if 65535 <? acc then None else hexGroup (off + 1) acc r
      end
  end.

(** The loop of [parseIPv6]: the bytes read so far and where the ellipsis was among them.
    Every round adds a group, so that nine rounds are enough: in the ninth there is no room. *)
Fixpoint parseIPv6Loop (fuel : nat) (s ip : bytes) (ellipsis : option nat) : option (bytes * bytes * option nat) :=
  if 16 <=? zlen ip then Some (s, ip, ellipsis)
  else match fuel with
  | O => None
  | S fuel =>
      '(off, acc, rest) ← hexGroup 0 0 s;
      if off =? 0 then None
      else if bool_decide (head rest = Some 46) then
        if bool_decide (ellipsis = None) && negb (zlen ip =? 12) then None
        else if 16 <? zlen ip + 4 then None
        else v4 ← parseIPv4 s; Some ([], ip ++ v4, ellipsis)
      else
        let ip := ip ++ [u8 (Z.shiftr acc 8); u8 acc] in
        match rest with
        | [] => Some ([], ip, ellipsis)
        | c :: s =>
            if negb (c =? 58) then None
            else match s with
            | [] => None
            | c :: s' =>
                if c =? 58 then
                  if bool_decide (is_Some ellipsis) then None
                  else match s' with
                  | [] => Some ([], ip, Some (length ip))
                  | _ => parseIPv6Loop fuel s' ip (Some (length ip))
                  end
                else parseIPv6Loop fuel s ip ellipsis
            end
        end
  end.

(** The ellipsis stands for the zeros that are missing. *)
Definition expand (ip : bytes) (ellipsis : option nat) : option bytes :=
  match ellipsis with
  | None => if zlen ip <? 16 then None else Some ip
  | Some e => if zlen ip <? 16 then Some (take e ip ++ replicate (16 - length ip) 0 ++ drop e ip) else None
  end.

Definition parseIPv6 (s : bytes) : option bytes :=
  if containsByte 37 s then None
  else
    let '(s, ellipsis) := match s with 58 :: 58 :: s => (s, Some 0%nat) | _ => (s, None) end in
    if bool_decide (ellipsis = Some 0%nat ∧ s = []) then Some (replicate 16 0)
    else
      '(s, ip, ellipsis) ← parseIPv6Loop 9 s [] ellipsis;
      if bool_decide (s ≠ []) then None else expand ip ellipsis.

(** [netip.ParseAddr]: the first separator says what the address is. *)
Definition ParseAddr (s : bytes) : option bytes :=
  match filter (λ c, c = 46 ∨ c = 58 ∨ c = 37) s with
  | 46 :: _ => parseIPv4 s
  | 58 :: _ => parseIPv6 s
  | _ => None
  end.

(** [addr.As16()] *)
Definition As16 (addr : bytes) : IP := if zlen addr =? 4 then v4InV6Prefix ++ addr else addr.
Definition BitLen (addr : bytes) : Z := 8 * zlen addr.

Definition hexDigit (v : Z) : Z := if v <? 10 then 48 + v else 87 + v.
Definition appendHex (x : Z) : bytes :=
  (if 0x1000 <=? x then [hexDigit (Z.shiftr x 12)] else []) ++
  (if 0x100 <=? x then [hexDigit (Z.land (Z.shiftr x 8) 15)] else []) ++
  (if 0x10 <=? x then [hexDigit (Z.land (Z.shiftr x 4) 15)] else []) ++ [hexDigit (Z.land x 15)].

(** The 16-bit groups of an address. *)
Fixpoint groups (ip : bytes) : list Z :=
  match ip with
  | a :: b :: ip => Z.lor (Z.shiftl a 8) b :: groups ip
  | _ => []
  end.
(** Zeros in front. *)
Fixpoint zeroRun (gs : list Z) : nat :=
  match gs with
  | g :: gs => if g =? 0 then S (zeroRun gs) else O
  | [] => O
  end.
(** The first of the longest runs of at least two zeros, from group [i] on: where it starts
    and how long it is; [best] is what was found so far. *)
Fixpoint longestRun (gs : list Z) (i : nat) (best : option (nat * nat)) : option (nat * nat) :=
  match gs with
  | [] => best
  | _ :: rest =>
      let l := zeroRun gs in
      longestRun rest (S i)
        (if bool_decide (2 ≤ l)%nat && bool_decide (from_option snd 0%nat best < l)%nat then Some (i, l) else best)
  end.
Definition joinGroups (gs : list Z) : bytes := Join 58 (appendHex <$> gs).
Definition string6 (ip : bytes) : bytes :=
  let gs := groups ip in
  match longestRun gs 0 None with
  | None => joinGroups gs
  | Some (start, len) => joinGroups (take start gs) ++ [58; 58] ++ joinGroups (drop (start + len) gs)
  end.
Definition string4 (ip : bytes) : bytes := Join 46 (utoa <$> ip).

(** ** net *)
Definition net_ParseIP (s : bytes) : option IP := As16 <$> ParseAddr s.

Definition hexByte (b : Z) : bytes := [hexDigit (Z.shiftr b 4); hexDigit (Z.land b 15)].
Definition net_String (ip : IP) : bytes :=
  if zlen ip =? 0 then txt "<nil>"
  else if negb (zlen ip =? 4) && negb (zlen ip =? 16) then 63 :: mjoin (hexByte <$> ip)
  else match To4 ip with Some p4 => string4 p4 | None => string6 ip end.

(** [dtoi]: a decimal number below [0xFFFFFF]; the text after it. *)
Fixpoint dtoiFrom (n : Z) (s : bytes) : option (Z * bytes) :=
  match s with
  | c :: r =>
      if isDigit c then
        let n := n * 10 + (c - 48) in
        if 0xFFFFFF <=? n then None else dtoiFrom n r
      else Some (n, s)
  | [] => Some (n, [])
  end.
Definition dtoi (s : bytes) : option (Z * bytes) :=
  match s with c :: _ => if isDigit c then dtoiFrom 0 s else None | [] => None end.

(** [net.CIDRMask(ones, bits)] for a valid length: whole bytes of ones first. *)
Fixpoint maskBytes (bytes : nat) (n : Z) : IPMask :=
  match bytes with
  | O => []
  | S bytes =>
      if 8 <=? n then 255 :: maskBytes bytes (n - 8)
      else u8 (Z.lnot (Z.shiftr 255 n)) :: maskBytes bytes 0
  end.
Definition net_CIDRMask (ones bits : Z) : IPMask := maskBytes (Z.to_nat (bits / 8)) ones.

(** [ip.Mask(mask)]; [None] is nil. *)
Definition Mask (ip : IP) (mask : IPMask) : option IP :=
  let mask := if (zlen mask =? 16) && (zlen ip =? 4) && forallb (Z.eqb 255) (take 12 mask) then drop 12 mask else mask in
  let ip := if (zlen mask =? 4) && (zlen ip =? 16) && bool_decide (take 12 ip = v4InV6Prefix) then drop 12 ip else ip in
  if negb (zlen ip =? zlen mask) then None else Some (zip_with Z.land ip mask).

Definition net_ParseCIDR (s : bytes) : option (IP * IPNet) :=
  '(addr, mask) ← cutAt 47 s;
  ipAddr ← ParseAddr addr;
  '(n, rest) ← dtoi mask;
  if bool_decide (rest ≠ []) || (BitLen ipAddr <? n) then None
  else
    let m := net_CIDRMask n (BitLen ipAddr) in
    let addr16 := As16 ipAddr in
    Some (addr16, mkIPNet (default [] (Mask addr16 m)) m).

(** [net.SplitHostPort]; [None] is an error. *)
Definition SplitHostPort (hostport : bytes) : option (bytes * bytes) :=
  '(before, port) ← cutLast 58 hostport;
  let plain :=
    if containsByte 58 before || containsByte 91 hostport || containsByte 93 hostport then None
    else Some (before, port) in
  match hostport with
  | [] => plain
  | b :: inside =>
      if b =? 91 then
        '(host, after) ← cutAt 93 inside;
        (* the text after the bracket is the colon and the port *)
        if bool_decide (after = 58 :: port) && negb (containsByte 91 host) && negb (containsByte 91 port) && negb (containsByte 93 port)
        then Some (host, port) else None
      else plain
  end.

(** ** ip.go *)
Definition IP_String (ip : IP) : bytes := net_String ip.
(** The zero value, without an address, for a text that is none. *)
Definition ParseIP (s : bytes) : IP :=
  match net_ParseIP s with None => [] | Some ip => ip end.
Definition IPNet_IP (n : IPNet) : IP := n_ip n.
Definition IPNet_Mask (n : IPNet) : IPMask := n_mask n.
Definition IPMask_Size (mask : IPMask) : Z * Z := Size mask.
Definition IPNet_String (n : IPNet) : option bytes :=
  na ← NetworkAddr n;
  let '(ones, _) := IPMask_Size (IPNet_Mask n) in
  Some (IP_String na ++ txt "/" ++ itoa ones).

Inductive iperror := ErrInvalidIP | ErrInvalidCIDR (text : bytes).
(** The value of a column: text, or something else. *)
Inductive column := CText (s : bytes) | COther.
(** Panics when the column is not text. *)
Definition Scan (src : column) : go iperror IP :=
  match src with
  | COther => Panic
  | CText s => match net_ParseIP s with None => Err ErrInvalidIP | Some parsed => Ok parsed end
  end.
(** [None]: a nil pointer, or a null column. *)
Definition Value (ip : option IP) : option bytes := net_String <$> ip.
Definition ParseCIDR (s : bytes) : go iperror (IP * IPNet) :=
  match net_ParseCIDR s with None => Err (ErrInvalidCIDR s) | Some (ip, n) => Ok (ip, n) end.

(** The networks of private.go are those of its texts. *)
Example privateBlocks_texts :
  omap (λ s, snd <$> net_ParseCIDR s) [txt "10.0.0.0/8"; txt "172.16.0.0/12"; txt "192.168.0.0/16"] = privateBlocks.
Proof. by vm_compute. Qed.
Example address_texts :
  (λ s, IP_String <$> net_ParseIP (txt s)) <$>
    ["1.2.3.4"; "::FFFF:1.2.3.4"; "2001:db8:0:0:1:0:0:1"; "::"; "1::"; "1:2:3:4:5:6:7::"; "01.2.3.4"; "1.2.3"; "1::2::3"; "fe80::1%eth0"; "::12345"; "1:2:3:4:5:6:7:8:9"]%string
  = [Some (txt "1.2.3.4"); Some (txt "1.2.3.4"); Some (txt "2001:db8::1:0:0:1"); Some (txt "::"); Some (txt "1::"); Some (txt "1:2:3:4:5:6:7:0"); None; None; None; None; None; None].
Proof. by vm_compute. Qed.
