(* ===== verification/IPTextProps.v ===== *)
(** * IPTextProps: addresses and networks survive being written as text

    What [net.ParseIP] accepts is an address of 16 bytes; what is printed is parsed to the
    same address, for IPv4 and for IPv6 with its ellipsis; a network that was parsed is
    printed and parsed to the same network. *)
From S2P Require Import Prelude Text Net NetProps IPText.

Local Open Scope Z_scope.

(** ** IPv4 *)
Lemma utoa_byte : ∀ b, in_u8 b → utoa b =
  if b <? 10 then [48 + b] else if b <? 100 then [48 + b / 10; 48 + b mod 10] else [48 + b / 100; 48 + b / 10 mod 10; 48 + b mod 10].
Proof. refine (byte_cases _ _). vm_compute. by repeat constructor. Qed.

Lemma isDigit_48 v : 0 ≤ v < 10 → isDigit (48 + v) = true.
Proof. intros Hv. unfold isDigit. apply andb_true_iff. rewrite !Z.leb_le. lia. Qed.

Lemma v4_digit s v digLen val fields : 0 ≤ v < 10 → (digLen = 1 → val ≠ 0) → val * 10 + v < 256 →
  parseIPv4Fields ((48 + v) :: s) digLen val fields = parseIPv4Fields s (digLen + 1) (val * 10 + v) fields.
Proof.
  intros Hv Hz Hmax. cbn [parseIPv4Fields]. rewrite isDigit_48 by done.
  assert ((digLen =? 1) && (val =? 0) = false) as -> by (apply andb_false_iff; rewrite !Z.eqb_neq; lia).
  replace (val * 10 + (48 + v - 48)) with (val * 10 + v) by lia. by rewrite (proj2 (Z.ltb_ge 255 _)) by lia.
Qed.
(** One field. *)
Lemma v4_field b s fields : in_u8 b → ∃ digLen, 0 < digLen ∧ parseIPv4Fields (utoa b ++ s) 0 0 fields = parseIPv4Fields s digLen b fields.
Proof.
  intros Hb. rewrite utoa_byte by done. unfold in_u8 in Hb. pose proof (Z.div_mod b 10 ltac:(lia)). pose proof (Z.mod_pos_bound b 10 ltac:(lia)).
  destruct (Z.ltb_spec b 10); [exists 1|destruct (Z.ltb_spec b 100); [exists 2|exists 3]]; (split; [lia|]); cbn [app].
  - by rewrite v4_digit by lia.
  - rewrite !v4_digit by lia. f_equal. lia.
  - assert (b / 10 / 10 = b / 100) as E by (rewrite Z.div_div by lia; done).
    pose proof (Z.div_mod (b / 10) 10 ltac:(lia)). pose proof (Z.mod_pos_bound (b / 10) 10 ltac:(lia)).
    rewrite !v4_digit by lia. f_equal. lia.
Qed.
Lemma v4_dot s digLen b fields : 0 < digLen → zlen fields ≠ 3 → parseIPv4Fields (46 :: s) digLen b fields = parseIPv4Fields s 0 0 (fields ++ [b]).
Proof.
  intros Hd Hf. cbn [parseIPv4Fields]. change (isDigit 46) with false. change (46 =? 46) with true. cbv iota.
  by rewrite (proj2 (Z.eqb_neq digLen 0)), (proj2 (Z.eqb_neq (zlen fields) 3)) by lia.
Qed.

Lemma string4_parse a b c d : is_bytes [a; b; c; d] → parseIPv4 (string4 [a; b; c; d]) = Some [a; b; c; d].
Proof.
  unfold is_bytes. rewrite !Forall_cons. intros (Ha & Hb & Hc & Hd & _). unfold parseIPv4, string4. cbn [fmap list_fmap Join].
  destruct (v4_field a (46 :: utoa b ++ 46 :: utoa c ++ 46 :: utoa d) [] Ha) as (n1 & Hn1 & ->). rewrite v4_dot by done.
  destruct (v4_field b (46 :: utoa c ++ 46 :: utoa d) ([] ++ [a]) Hb) as (n2 & Hn2 & ->). rewrite v4_dot by done.
  destruct (v4_field c (46 :: utoa d) (([] ++ [a]) ++ [b]) Hc) as (n3 & Hn3 & ->). rewrite v4_dot by done.
  destruct (v4_field d [] ((([] ++ [a]) ++ [b]) ++ [c]) Hd) as (n4 & Hn4 & E). rewrite app_nil_r in E. rewrite E. cbn [parseIPv4Fields app].
  by rewrite (proj2 (Z.eqb_neq n4 0)) by lia.
Qed.

(** ** Groups *)
Lemma hexValue_hexDigit v : 0 ≤ v < 16 → hexValue (hexDigit v) = Some v.
Proof.
  intros Hv. assert (Forall (λ v, hexValue (hexDigit v) = Some v) (seqZ 0 16)) as Hall by (vm_compute; by repeat constructor).
  eapply Forall_forall in Hall; [done|]. apply elem_of_seqZ. lia.
Qed.
Lemma group_digit off acc v s : 0 ≤ v < 16 → 0 ≤ acc < 4096 → off ≤ 3 → hexGroup off acc (hexDigit v :: s) = hexGroup (off + 1) (acc * 16 + v) s.
Proof.
  intros Hv Ha Ho. cbn [hexGroup]. rewrite hexValue_hexDigit by done. rewrite Z.shiftl_mul_pow2 by lia. change (2 ^ 4) with 16.
  rewrite (u32_small (acc * 16)) by (unfold in_u32; lia). rewrite u32_small by (unfold in_u32; lia).
  by rewrite (proj2 (Z.ltb_ge 3 off)), (proj2 (Z.ltb_ge 65535 _)) by lia.
Qed.
Definition noHex (s : bytes) : Prop := match s with [] => True | c :: _ => hexValue c = None end.
Lemma group_end off acc s : noHex s → hexGroup off acc s = Some (off, acc, s).
Proof. destruct s as [|c s]; [done|]. cbn. by intros ->. Qed.

Lemma appendHex_div x : in_u16 x → appendHex x =
  (if 0x1000 <=? x then [hexDigit (x / 4096)] else []) ++ (if 0x100 <=? x then [hexDigit (x / 256 mod 16)] else []) ++
  (if 0x10 <=? x then [hexDigit (x / 16 mod 16)] else []) ++ [hexDigit (x mod 16)].
Proof.
  intros Hx. unfold appendHex. rewrite !Z.shiftr_div_pow2 by lia. change 15 with (Z.ones 4). rewrite !Z.land_ones by lia. done.
Qed.
Lemma group_parse x s : in_u16 x → noHex s → ∃ off, 0 < off ∧ hexGroup 0 0 (appendHex x ++ s) = Some (off, x, s).
Proof.
  intros Hx Hs. rewrite appendHex_div by done. unfold in_u16 in Hx.
  pose proof (Z.div_mod x 16 ltac:(lia)) as E1. pose proof (Z.mod_pos_bound x 16 ltac:(lia)).
  assert (x / 16 / 16 = x / 256) as E2 by (by rewrite Z.div_div by lia). assert (x / 256 / 16 = x / 4096) as E3 by (by rewrite Z.div_div by lia).
  pose proof (Z.div_mod (x / 16) 16 ltac:(lia)) as E4. pose proof (Z.mod_pos_bound (x / 16) 16 ltac:(lia)).
  pose proof (Z.div_mod (x / 256) 16 ltac:(lia)) as E5. pose proof (Z.mod_pos_bound (x / 256) 16 ltac:(lia)).
  destruct (Z.leb_spec 0x1000 x); [|destruct (Z.leb_spec 0x100 x); [|destruct (Z.leb_spec 0x10 x)]];
    rewrite ?(proj2 (Z.leb_le 0x100 x)), ?(proj2 (Z.leb_le 0x10 x)), ?(proj2 (Z.leb_gt 0x100 x)), ?(proj2 (Z.leb_gt 0x10 x)) by lia; cbn [app].
  - exists 4. split; [done|]. rewrite !group_digit, group_end by (done || lia). do 2 f_equal. f_equal. lia.
  - exists 3. split; [done|]. rewrite !group_digit, group_end by (done || lia). do 2 f_equal. f_equal. lia.
  - exists 2. split; [done|]. rewrite !group_digit, group_end by (done || lia). do 2 f_equal. f_equal. lia.
  - exists 1. split; [done|]. rewrite !group_digit, group_end by (done || lia). do 2 f_equal. f_equal. lia.
Qed.

(** The two bytes of a group. *)
Definition groupBytes (x : Z) : bytes := [u8 (Z.shiftr x 8); u8 x].
Definition bytesOf (gs : list Z) : bytes := mjoin (groupBytes <$> gs).

Lemma bytesOf_cons g gs : bytesOf (g :: gs) = groupBytes g ++ bytesOf gs.
Proof. done. Qed.
Lemma bytesOf_length gs : length (bytesOf gs) = (2 * length gs)%nat.
Proof. induction gs as [|g gs IH]; [done|]. rewrite bytesOf_cons, length_app, IH. cbn [length groupBytes]. lia. Qed.
Lemma group_of_bytes a b : in_u8 a → in_u8 b → in_u16 (Z.lor (Z.shiftl a 8) b) ∧ groupBytes (Z.lor (Z.shiftl a 8) b) = [a; b].
Proof.
  intros Ha Hb. unfold in_u8, in_u16 in *. rewrite Z.shiftl_mul_pow2, lor_disjoint by lia. split; [lia|]. unfold groupBytes, u8.
  rewrite Z.shiftr_div_pow2 by lia. do 2 f_equal; [|f_equal]; Z.to_euclidean_division_equations; lia.
Qed.
Lemma groups_bytes k : ∀ ip, is_bytes ip → length ip = (2 * k)%nat →
  Forall in_u16 (groups ip) ∧ length (groups ip) = k ∧ bytesOf (groups ip) = ip.
Proof.
  induction k as [|k IH]; intros ip Hb Hl; [by destruct ip|]. destruct ip as [|a [|b ip]]; [done|cbn in Hl; lia|].
  apply Forall_cons in Hb as [Ha Hb]. apply Forall_cons in Hb as [Hb Hip]. destruct (IH ip Hip) as (H1 & H2 & H3); [cbn in Hl; lia|].
  destruct (group_of_bytes a b Ha Hb) as [Hg Hgb]. cbn [groups]. split; [by constructor|]. split; [cbn; lia|].
  rewrite bytesOf_cons, Hgb. cbn [app]. by rewrite H3.
Qed.

(** ** The loop of parseIPv6 on what is printed *)
Lemma joinGroups_cons g gs : joinGroups (g :: gs) = appendHex g ++ match gs with [] => [] | _ => 58 :: joinGroups gs end.
Proof. unfold joinGroups. destruct gs; [by rewrite app_nil_r|done]. Qed.
Lemma appendHex_head x : in_u16 x → ∃ c r, appendHex x = c :: r ∧ is_Some (hexValue c).
Proof.
  intros Hx. rewrite appendHex_div by done. unfold in_u16 in Hx. assert (∀ v, 0 ≤ v < 16 → is_Some (hexValue (hexDigit v))) as Hh.
  { intros v Hv. by rewrite hexValue_hexDigit. }
  pose proof (Z.mod_pos_bound x 16 ltac:(lia)). pose proof (Z.mod_pos_bound (x / 16) 16 ltac:(lia)). pose proof (Z.mod_pos_bound (x / 256) 16 ltac:(lia)).
  assert (0 ≤ x / 4096 < 16) by (split; [apply Z.div_pos; lia|apply Z.div_lt_upper_bound; lia]).
  repeat bcase; cbn [app]; eexists _, _; (split; [done|apply Hh; lia]).
Qed.
Lemma joinGroups_head g gs : in_u16 g → ∃ c r, joinGroups (g :: gs) = c :: r ∧ c ≠ 58 ∧ is_Some (hexValue c).
Proof.
  intros Hg. rewrite joinGroups_cons. destruct (appendHex_head g Hg) as (c & r & -> & Hc). eexists c, _. split; [done|].
  split; [|done]. intros ->. by destruct Hc.
Qed.

(** What the loop does after a group that a colon follows. *)
Definition afterColon (fuel : nat) (s ip : bytes) (e : option nat) : option (bytes * bytes * option nat) :=
  match s with
  | [] => None
  | c :: s' =>
      if c =? 58 then
        if bool_decide (is_Some e) then None
        else match s' with [] => Some ([], ip, Some (length ip)) | _ => parseIPv6Loop fuel s' ip (Some (length ip)) end
      else parseIPv6Loop fuel s ip e
  end.
Lemma loop_group fuel g s ip e : in_u16 g → zlen ip < 16 →
  parseIPv6Loop (S fuel) (appendHex g ++ 58 :: s) ip e = afterColon fuel s (ip ++ groupBytes g) e.
Proof.
  intros Hg Hip. cbn [parseIPv6Loop]. rewrite (proj2 (Z.leb_gt 16 _)) by done.
  destruct (group_parse g (58 :: s) Hg eq_refl) as (off & Ho & ->). cbn [mbind option_bind]. rewrite (proj2 (Z.eqb_neq off 0)) by lia.
  rewrite bool_decide_eq_false_2 by done. done.
Qed.
Lemma loop_last fuel g ip e : in_u16 g → zlen ip < 16 →
  parseIPv6Loop (S fuel) (appendHex g) ip e = Some ([], ip ++ groupBytes g, e).
Proof.
  intros Hg Hip. cbn [parseIPv6Loop]. rewrite (proj2 (Z.leb_gt 16 _)) by done.
  destruct (group_parse g [] Hg I) as (off & Ho & Hh). rewrite app_nil_r in Hh. rewrite Hh. cbn [mbind option_bind].
  rewrite (proj2 (Z.eqb_neq off 0)) by lia. done.
Qed.

(** Groups up to the end. *)
Lemma loop_groups e gs : ∀ fuel ip, gs ≠ [] → Forall in_u16 gs → (length gs ≤ fuel)%nat → zlen ip + 2 * zlen gs ≤ 16 →
  parseIPv6Loop fuel (joinGroups gs) ip e = Some ([], ip ++ bytesOf gs, e).
Proof.
  induction gs as [|g gs IH]; intros fuel ip Hne Hgs Hf Hl; [done|]. apply Forall_cons in Hgs as [Hg Hgs]. rewrite zlen_cons in Hl.
  pose proof (zlen_nonneg gs). destruct fuel as [|fuel]; [cbn in Hf; lia|]. rewrite joinGroups_cons, bytesOf_cons.
  destruct gs as [|g' gs]; [rewrite app_nil_r, loop_last by (done || lia); by rewrite app_nil_r|].
  rewrite loop_group by (done || lia). destruct (joinGroups_head g' gs) as (c & r & E & Hc & _); [by apply Forall_cons in Hgs as [? _]|].
  unfold afterColon. rewrite E, (proj2 (Z.eqb_neq c 58)), <-E by done. rewrite IH; [by rewrite app_assoc|done|done|cbn in *; lia|].
  rewrite zlen_app. change (zlen (groupBytes g)) with 2. lia.
Qed.
(** Groups up to the ellipsis. *)
Lemma loop_ellipsis s gs : ∀ fuel ip, gs ≠ [] → Forall in_u16 gs → (length gs ≤ fuel)%nat → zlen ip + 2 * zlen gs ≤ 16 →
  parseIPv6Loop fuel (joinGroups gs ++ 58 :: 58 :: s) ip None =
    let ip' := ip ++ bytesOf gs in
    match s with [] => Some ([], ip', Some (length ip')) | _ => parseIPv6Loop (fuel - length gs) s ip' (Some (length ip')) end.
Proof.
  induction gs as [|g gs IH]; intros fuel ip Hne Hgs Hf Hl; [done|]. apply Forall_cons in Hgs as [Hg Hgs]. rewrite zlen_cons in Hl.
  pose proof (zlen_nonneg gs). destruct fuel as [|fuel]; [cbn in Hf; lia|]. rewrite joinGroups_cons, bytesOf_cons, <-app_assoc.
  destruct gs as [|g' gs].
  - cbn [app]. rewrite loop_group by (done || lia). unfold afterColon. change (58 =? 58) with true. cbv iota.
    rewrite bool_decide_eq_false_2 by (by intros []). cbn [length]. by rewrite Nat.sub_succ, Nat.sub_0_r.
  - cbn [app]. rewrite loop_group by (done || lia). destruct (joinGroups_head g' gs) as (c & r & E & Hc & _); [by apply Forall_cons in Hgs as [? _]|].
    unfold afterColon. rewrite E. cbn [app]. rewrite (proj2 (Z.eqb_neq c 58)) by done. change (c :: r ++ 58 :: 58 :: s) with ((c :: r) ++ 58 :: 58 :: s).
    rewrite <-E, IH; [by rewrite <-app_assoc|done|done|cbn in *; lia|]. rewrite zlen_app. change (zlen (groupBytes g)) with 2. lia.
Qed.

(** ** The ellipsis *)
Lemma zeroRun_split gs : gs = replicate (zeroRun gs) 0 ++ drop (zeroRun gs) gs.
Proof. induction gs as [|g gs IH]; [done|]. cbn [zeroRun]. destruct (Z.eqb_spec g 0) as [->|]; [|done]. cbn. by f_equal. Qed.
Lemma longestRun_zeros gs start len : longestRun gs 0 None = Some (start, len) →
  (2 ≤ len)%nat ∧ gs = take start gs ++ replicate len 0 ++ drop (start + len) gs ∧ (start + len ≤ length gs)%nat.
Proof.
  set (P := λ full s l, (2 ≤ l)%nat ∧ full = take s full ++ replicate l 0 ++ drop (s + l) full ∧ (s + l ≤ length full)%nat).
  assert (∀ pre best, (∀ s l, best = Some (s, l) → P (pre ++ gs) s l) → longestRun gs (length pre) best = Some (start, len) → P (pre ++ gs) start len) as HG.
  2: { intros Hl. apply (HG [] None); [done|exact Hl]. }
  induction gs as [|g gs IH]; intros pre best Hb Hl; [by apply Hb|]. replace (pre ++ g :: gs) with ((pre ++ [g]) ++ gs) by (by rewrite <-app_assoc).
  cbn [longestRun] in Hl. set (z := zeroRun (g :: gs)) in *. eapply IH; [|rewrite length_app, Nat.add_1_r; exact Hl]. rewrite <-app_assoc. cbn [app]. clear IH Hl. intros s l.
  destruct (bool_decide _ && bool_decide _) eqn:E; [|apply Hb]. apply andb_true_iff in E as [H2%bool_decide_eq_true _]. intros [= <- <-].
  split; [done|]. pose proof (zeroRun_split (g :: gs)) as Hz. rewrite take_app_length, drop_app_ge by lia.
  fold z in Hz. replace (length pre + z - length pre)%nat with z by lia. split; [exact (f_equal (app pre) Hz)|].
  apply (f_equal length) in Hz. rewrite length_app, length_replicate in Hz. rewrite length_app. lia.
Qed.
Lemma bytesOf_app gs gs' : bytesOf (gs ++ gs') = bytesOf gs ++ bytesOf gs'.
Proof. induction gs as [|g gs IH]; [done|]. cbn [app]. by rewrite !bytesOf_cons, IH, app_assoc. Qed.
Lemma bytesOf_zeros l : bytesOf (replicate l 0) = replicate (2 * l) 0.
Proof. induction l as [|l IH]; [done|]. replace (2 * S l)%nat with (S (S (2 * l))) by lia. cbn [replicate]. rewrite bytesOf_cons, IH. done. Qed.

(** ** What kind of address a text is *)
Definition separator (c : Z) : Prop := c = 46 ∨ c = 58 ∨ c = 37.
Lemma hexDigit_range v : 0 ≤ v < 16 → 48 ≤ hexDigit v ≤ 57 ∨ 97 ≤ hexDigit v ≤ 102.
Proof. intros Hv. unfold hexDigit. bcase; lia. Qed.
Lemma appendHex_plain x : in_u16 x → Forall (λ c, ¬ separator c) (appendHex x).
Proof.
  intros Hx. rewrite appendHex_div by done. unfold in_u16 in Hx. assert (∀ v, 0 ≤ v < 16 → ¬ separator (hexDigit v)) as Hh.
  { intros v Hv. pose proof (hexDigit_range v Hv). unfold separator. lia. }
  pose proof (Z.mod_pos_bound x 16 ltac:(lia)). pose proof (Z.mod_pos_bound (x / 16) 16 ltac:(lia)). pose proof (Z.mod_pos_bound (x / 256) 16 ltac:(lia)).
  assert (0 ≤ x / 4096 < 16) by (split; [apply Z.div_pos; lia|apply Z.div_lt_upper_bound; lia]).
  repeat bcase; cbn [app]; repeat (constructor; [apply Hh; lia|]); constructor.
Qed.
Lemma utoa_plain b : Forall (λ c, ¬ separator c) (utoa b).
Proof.
  eapply Forall_impl; [apply utoa_digits|]. intros c Hc. unfold isDigit in Hc. bsplit. unfold separator. lia.
Qed.
Lemma ParseAddr_v4 l t : Forall (λ c, ¬ separator c) l → ParseAddr (l ++ 46 :: t) = parseIPv4 (l ++ 46 :: t).
Proof. intros Hl. unfold ParseAddr. rewrite filter_app, filter_none by exact Hl. by rewrite filter_cons_True by (by left). Qed.
Lemma ParseAddr_v6 l t : Forall (λ c, ¬ separator c) l → ParseAddr (l ++ 58 :: t) = parseIPv6 (l ++ 58 :: t).
Proof.
  intros Hl. unfold ParseAddr. rewrite filter_app, filter_none by exact Hl. by rewrite filter_cons_True by (by right; left).
Qed.
Lemma joinGroups_no_zone gs : Forall in_u16 gs → 37 ∉ joinGroups gs.
Proof.
  induction 1 as [|g gs Hg _ IH]; [apply not_elem_of_nil|]. rewrite joinGroups_cons, not_elem_of_app. split.
  - intros Hin. eapply Forall_forall in Hin; [|by apply appendHex_plain]. apply Hin. by right; right.
  - destruct gs; [apply not_elem_of_nil|]. by apply not_elem_of_cons.
Qed.

(** ** Printing and parsing *)
Lemma no_leading_ellipsis (c : Z) (r : bytes) : c ≠ 58 →
  match c :: r with 58 :: 58 :: s => (s, Some 0%nat) | _ => (c :: r, None) end = (c :: r, None).
Proof. intros Hc. destruct c as [|p|p]; try done. do 6 (destruct p as [p|p|]; try done). Qed.

(** The rest of [parseIPv6], after the leading ellipsis. *)
Lemma parseIPv6_plain c r : c ≠ 58 → 37 ∉ c :: r →
  parseIPv6 (c :: r) = '(s, ip, ellipsis) ← parseIPv6Loop 9 (c :: r) [] None; if bool_decide (s ≠ []) then None else expand ip ellipsis.
Proof.
  intros Hc Hz. unfold parseIPv6. rewrite no_leading_ellipsis by done.
  assert (containsByte 37 (c :: r) = false) as -> by (apply not_true_iff_false; by rewrite containsByte_spec).
  by rewrite bool_decide_eq_false_2 by naive_solver.
Qed.
Lemma expand_split l r : (length l + length r < 16)%nat →
  expand (l ++ r) (Some (length l)) = Some (l ++ replicate (16 - (length l + length r)) 0 ++ r).
Proof.
  intros Hl. unfold expand. rewrite take_app_length, drop_app_length, length_app.
  by rewrite (proj2 (Z.ltb_lt (zlen (l ++ r)) 16)) by (unfold zlen; rewrite length_app; lia).
Qed.

Section string6.
Context (L R : list Z).
Hypothesis HL : Forall in_u16 L.
Hypothesis HR : Forall in_u16 R.
Hypothesis Hlen : (length L + length R ≤ 6)%nat.
Lemma ellipsis_parse : parseIPv6 (joinGroups L ++ [58; 58] ++ joinGroups R) =
  Some (bytesOf L ++ replicate (16 - (2 * length L + 2 * length R)) 0 ++ bytesOf R).
Proof using All.
  assert (37 ∉ joinGroups L ++ [58; 58] ++ joinGroups R) as Hz.
  { rewrite !not_elem_of_app. split; [by apply joinGroups_no_zone|]. split; [by intros [?|[?|?%elem_of_nil]%elem_of_cons]%elem_of_cons|by apply joinGroups_no_zone]. }
  pose proof (bytesOf_length L) as EL. pose proof (bytesOf_length R) as ER. destruct L as [|g gs].
  - unfold parseIPv6. assert (containsByte 37 (joinGroups [] ++ [58; 58] ++ joinGroups R) = false) as -> by (apply not_true_iff_false; by rewrite containsByte_spec).
    change (joinGroups [] ++ [58; 58] ++ joinGroups R) with (58 :: 58 :: joinGroups R). cbv iota beta.
    destruct R as [|r rs]; [done|]. destruct (joinGroups_head r rs) as (c & t & E & _); [by apply Forall_cons in HR as [? _]|].
    rewrite bool_decide_eq_false_2 by (rewrite E; naive_solver). rewrite loop_groups; [|done|done|cbn in *; lia|unfold zlen; cbn in *; lia].
    cbn [mbind option_bind app]. rewrite bool_decide_eq_false_2 by naive_solver.
    pose proof (expand_split [] (bytesOf (r :: rs))) as Hx. cbn [length app] in Hx. rewrite Hx by (rewrite ER; cbn in *; lia). by rewrite ER.
  - destruct (joinGroups_head g gs) as (c & t & E & Hc & _); [by apply Forall_cons in HL as [? _]|]. rewrite E in Hz |- *. cbn [app] in *.
    rewrite parseIPv6_plain by done. change (c :: t ++ 58 :: 58 :: joinGroups R) with ((c :: t) ++ 58 :: 58 :: joinGroups R). rewrite <-E.
    rewrite loop_ellipsis; [|done|done|cbn in *; lia|unfold zlen; cbn in *; lia]. cbv zeta. cbn [app].
    assert (match joinGroups R with
            | [] => Some ([], bytesOf (g :: gs), Some (length (bytesOf (g :: gs))))
            | _ => parseIPv6Loop (9 - length (g :: gs)) (joinGroups R) (bytesOf (g :: gs)) (Some (length (bytesOf (g :: gs))))
            end = Some ([], bytesOf (g :: gs) ++ bytesOf R, Some (length (bytesOf (g :: gs))))) as ->.
    { destruct R as [|r rs]; [by rewrite app_nil_r|]. destruct (joinGroups_head r rs) as (c' & t' & E' & _); [by apply Forall_cons in HR as [? _]|].
      rewrite E', <-E'. apply loop_groups; [done|done|cbn in *; lia|unfold zlen; rewrite EL; cbn in *; lia]. }
    cbn [mbind option_bind]. rewrite bool_decide_eq_false_2 by naive_solver. rewrite expand_split by (rewrite EL, ER; lia). by rewrite EL, ER.
Qed.
End string6.

Lemma string6_parse ip : is_bytes ip → length ip = 16%nat → ParseAddr (string6 ip) = Some ip.
Proof.
  intros Hb Hl. destruct (groups_bytes 8 ip Hb Hl) as (Hgs & Hg8 & Hip). unfold string6. destruct (longestRun _ 0 None) as [[start len]|] eqn:Er.
  - apply longestRun_zeros in Er as (H2 & Hsp & Hle). set (L := take start (groups ip)) in *. set (R := drop (start + len) (groups ip)) in *.
    assert (Forall in_u16 L ∧ Forall in_u16 R) as [HL HR] by (split; [by apply Forall_take|by apply Forall_drop]).
    pose proof (f_equal length Hsp) as Hln. rewrite !length_app, length_replicate, Hg8 in Hln.
    assert (parseIPv6 (joinGroups L ++ [58; 58] ++ joinGroups R) = Some ip) as Hp.
    { rewrite ellipsis_parse by (done || lia). f_equal. rewrite <-Hip at 1. rewrite Hsp, !bytesOf_app, bytesOf_zeros. do 3 f_equal. lia. }
    rewrite <-Hp. destruct L as [|g gs]; [exact (ParseAddr_v6 [] _ ltac:(constructor))|]. rewrite joinGroups_cons, <-app_assoc.
    apply Forall_cons in HL as [Hg _]. destruct gs; cbn [app]; apply ParseAddr_v6; by apply appendHex_plain.
  - destruct (groups ip) as [|g gs]; [done|]. destruct gs as [|g' gs]; [done|].
    destruct (joinGroups_head g (g' :: gs)) as (c & t & E & Hc & _); [by apply Forall_cons in Hgs as [? _]|].
    pose proof (joinGroups_no_zone _ Hgs) as Hz. rewrite joinGroups_cons. rewrite ParseAddr_v6 by (apply appendHex_plain; by apply Forall_cons in Hgs as [? _]).
    change (appendHex g ++ 58 :: joinGroups (g' :: gs)) with (appendHex g ++ match g' :: gs with [] => [] | _ => 58 :: joinGroups (g' :: gs) end).
    rewrite <-joinGroups_cons, E in *. rewrite parseIPv6_plain by done. rewrite <-E. rewrite loop_groups; [|done|done|lia|unfold zlen; rewrite Hg8; cbn; lia].
    rewrite Hip. cbn [mbind option_bind app]. rewrite bool_decide_eq_false_2 by naive_solver. unfold expand, zlen. by rewrite Hl.
Qed.

(** An address: 4 or 16 bytes. *)
Definition address (ip : IP) : Prop := is_bytes ip ∧ (length ip = 4%nat ∨ length ip = 16%nat).
Lemma v4InV6 a : take 12 (v4InV6Prefix ++ a) = v4InV6Prefix ∧ drop 12 (v4InV6Prefix ++ a) = a.
Proof. done. Qed.
Lemma As16_length ip : address ip → length (As16 ip) = 16%nat ∧ is_bytes (As16 ip).
Proof.
  intros [Hb [Hl|Hl]]; unfold As16, zlen; rewrite Hl; [|done]. change (Z.of_nat 4 =? 4) with true. cbv iota. split; [by rewrite length_app, Hl|]. apply Forall_app. split; [|done].
  unfold v4InV6Prefix. by repeat (constructor; [by vm_compute|]).
Qed.

Lemma string4_addr ip : v4 ip → ParseAddr (string4 ip) = Some ip.
Proof.
  intros (a & b & c & d & -> & Ha & Hb & Hc & Hd)%v4_inv. pose proof (string4_parse a b c d) as Hp. unfold string4 in *. cbn [fmap list_fmap Join] in *.
  rewrite ParseAddr_v4 by apply utoa_plain. apply Hp. unfold is_bytes. by rewrite !Forall_cons, Forall_nil.
Qed.
Lemma To4_16 ip : is_bytes ip → length ip = 16%nat → match To4 ip with Some p4 => v4 p4 ∧ ip = v4InV6Prefix ++ p4 | None => True end.
Proof.
  intros Hb Hl. unfold To4, zlen. rewrite Hl. cbn -[v4InV6Prefix take]. destruct (bool_decide_reflect (take 12 ip = v4InV6Prefix)) as [E|]; [|done].
  split; [|by rewrite <-E, take_drop]. split; [rewrite length_skipn, Hl; done|]. by apply Forall_drop.
Qed.

Lemma net_String_parse ip : address ip → ParseAddr (net_String ip) = Some (default ip (To4 ip)).
Proof.
  intros [Hb Hl]. assert (net_String ip = match To4 ip with Some p4 => string4 p4 | None => string6 ip end) as ->.
  { unfold net_String, zlen. by destruct Hl as [-> | ->]. }
  destruct Hl as [Hl|Hl].
  - assert (To4 ip = Some ip) as -> by (unfold To4, zlen; by rewrite Hl). by apply string4_addr.
  - pose proof (To4_16 ip Hb Hl) as H4. destruct (To4 ip) as [p4|]; [destruct H4 as [H4 _]; by apply string4_addr|by apply string6_parse].
Qed.

(** C25: an address that is written to a column as text is read back as the same address, in
    the form of 16 bytes, whether it is IPv4 or IPv6. *)
Theorem address_roundtrip ip : address ip →
  ∃ s, Value (Some ip) = Some s ∧ Scan (CText s) = Ok (As16 ip) ∧ ParseIP s = As16 ip ∧ Equal (As16 ip) ip = true.
Proof.
  intros [Hb Hl]. exists (net_String ip). split; [done|].
  assert (net_ParseIP (net_String ip) = Some (As16 ip) ∧ Equal (As16 ip) ip = true) as [Hp He].
  2: { unfold Scan, ParseIP. by rewrite Hp. }
  pose proof (As16_length ip (conj Hb Hl)) as [H16 _]. unfold net_ParseIP. rewrite net_String_parse by done. destruct Hl as [Hl|Hl].
  - assert (As16 ip = v4InV6Prefix ++ ip) as E by (unfold As16, zlen; by rewrite Hl).
    unfold To4, zlen. rewrite Hl. cbn [fmap option_fmap option_map Z.of_nat Z.eqb Pos.eqb Pos.of_succ_nat Pos.succ default]. split; [done|].
    unfold Equal, zlen. rewrite H16, Hl, E.
    change (bool_decide (take 12 (v4InV6Prefix ++ ip) = v4InV6Prefix) && bool_decide (drop 12 (v4InV6Prefix ++ ip) = ip) = true).
    destruct (v4InV6 ip) as [-> ->]. by rewrite !bool_decide_eq_true_2.
  - assert (As16 ip = ip) as E by (unfold As16, zlen; by rewrite Hl). rewrite E. unfold Equal. rewrite Z.eqb_refl, bool_decide_eq_true_2 by done.
    split; [|done]. pose proof (To4_16 ip Hb Hl) as H4. destruct (To4 ip) as [p4|]; [|by rewrite <-E at 2].
    destruct H4 as [[Hl4 _] ->]. cbn [fmap option_fmap option_map default]. unfold As16, zlen, id. by rewrite Hl4.
Qed.
Lemma address_roundtrip_witness :
  Value (Some [32; 1; 13; 184; 0; 0; 0; 0; 0; 1; 0; 0; 0; 0; 0; 1]) = Some (txt "2001:db8::1:0:0:1") ∧
  Scan (CText (txt "2001:db8::1:0:0:1")) = Ok [32; 1; 13; 184; 0; 0; 0; 0; 0; 1; 0; 0; 0; 0; 0; 1].
Proof.
  destruct (address_roundtrip [32; 1; 13; 184; 0; 0; 0; 0; 0; 1; 0; 0; 0; 0; 0; 1]) as (s & H1 & H2 & _).
  - split; [|by right]. unfold is_bytes, in_u8. by repeat constructor.
  - injection H1 as <-. split; [reflexivity|]. exact H2.
Defined.

(** ** What is accepted is an address *)
Lemma parseIPv4Fields_ok s : ∀ digLen val fields ip, in_u8 val → is_bytes fields → zlen fields ≤ 3 → parseIPv4Fields s digLen val fields = Some ip → v4 ip.
Proof.
  induction s as [|c s IH]; intros digLen val fields ip Hv Hf Hl; cbn [parseIPv4Fields].
  - destruct (zlen fields <? 3) eqn:E3; [done|]. cbn. destruct (digLen =? 0); [done|]. intros [= <-]. bsplit. unfold zlen in *.
    split; [rewrite length_app; cbn; lia|]. apply Forall_app. split; [done|by constructor].
  - destruct (isDigit c) eqn:Ed.
    + destruct (_ && _); [done|]. destruct (255 <? _) eqn:E; [done|]. apply IH; [|done|done]. unfold isDigit in Ed. unfold in_u8 in *. bsplit. lia.
    + destruct (c =? 46); [|done]. destruct (digLen =? 0); [done|]. cbn. destruct (zlen fields =? 3) eqn:E; [done|]. bsplit.
      apply IH; [by vm_compute|apply Forall_app; split; [done|by constructor]|rewrite zlen_app; change (zlen [val]) with 1; lia].
Qed.
Lemma parseIPv4_ok s ip : parseIPv4 s = Some ip → v4 ip.
Proof. apply parseIPv4Fields_ok; [by vm_compute|constructor|by vm_compute]. Qed.

(** The bytes the loop has read: whole groups, at most 16 bytes, and an ellipsis among them. *)
Definition partial (ip : bytes) (e : option nat) : Prop :=
  is_bytes ip ∧ (∃ k, length ip = (2 * k)%nat) ∧ (length ip ≤ 16)%nat ∧ ∀ n, e = Some n → (n ≤ length ip)%nat.
Lemma partial_group ip e x : partial ip e → zlen ip < 16 → partial (ip ++ groupBytes x) e ∧ partial (ip ++ groupBytes x) (Some (length (ip ++ groupBytes x))).
Proof.
  intros (Hb & [k Hk] & Hl & He) Hz. unfold zlen in Hz. assert (length (ip ++ groupBytes x) = (2 * S k)%nat) as El by (rewrite length_app, Hk; cbn; lia).
  assert (is_bytes (ip ++ groupBytes x)) as Hb'. { apply Forall_app. split; [done|]. repeat constructor; apply u8_range. }
  split; (split; [done|]); (split; [by eexists|]); (split; [lia|]); intros n En; [specialize (He n En)|injection En as <-]; lia.
Qed.
Lemma loop_partial fuel : ∀ s ip e s' ip' e', partial ip e → parseIPv6Loop fuel s ip e = Some (s', ip', e') → partial ip' e'.
Proof.
  induction fuel as [|fuel IH]; intros s ip e s' ip' e' Hp; cbn [parseIPv6Loop]; (destruct (16 <=? zlen ip) eqn:E16; [by intros [= <- <- <-]|]); [done|].
  bsplit. destruct (hexGroup 0 0 s) as [[[off acc] rest]|]; [|done]. cbn [mbind option_bind]. destruct (off =? 0); [done|].
  destruct (bool_decide (head rest = Some 46)).
  - destruct (_ && _); [done|]. destruct (16 <? zlen ip + 4) eqn:E4; [done|]. destruct (parseIPv4 s) as [p4|] eqn:E; [|done].
    intros [= <- <- <-]. apply parseIPv4_ok in E as [Hl4 Hb4]. destruct Hp as (Hb & [k Hk] & Hl & He). bsplit. unfold zlen in *.
    split; [by apply Forall_app|]. rewrite length_app, Hl4. split; [exists (k + 2)%nat; lia|]. split; [lia|]. intros n En. specialize (He n En). lia.
  - destruct (partial_group ip e acc Hp E16) as [H1 H2]. destruct rest as [|c t]; [by intros [= <- <- <-]|]. destruct (negb (c =? 58)); [done|].
    destruct t as [|c' t]; [done|]. destruct (c' =? 58); [|by apply IH]. destruct (bool_decide (is_Some e)); [done|].
    destruct t; [by intros [= <- <- <-]|by apply IH].
Qed.
Lemma parseIPv6_ok s ip : parseIPv6 s = Some ip → is_bytes ip ∧ length ip = 16%nat.
Proof.
  unfold parseIPv6. destruct (containsByte 37 s); [done|].
  assert (∀ s e, partial [] e → (if bool_decide (e = Some 0%nat ∧ s = []) then Some (replicate 16 0)
    else '(s, ip, ellipsis) ← parseIPv6Loop 9 s [] e; if bool_decide (s ≠ []) then None else expand ip ellipsis) = Some ip → is_bytes ip ∧ length ip = 16%nat) as HG.
  { clear s. intros s e Hp. case_bool_decide; [intros [= <-]; by repeat constructor|].
    destruct (parseIPv6Loop 9 s [] e) as [[[s' ip'] e']|] eqn:E; [|done]. cbn [mbind option_bind]. case_bool_decide; [done|].
    apply loop_partial in E as (Hb & _ & Hl & He); [|done]. unfold expand, zlen. destruct e' as [n|].
    - specialize (He n eq_refl). destruct (Z.of_nat (length ip') <? 16) eqn:El; [|done]. bsplit. intros [= <-]. split.
      + apply Forall_app. split; [by apply Forall_take|]. apply Forall_app. split; [by apply Forall_replicate|by apply Forall_drop].
      + rewrite !length_app, length_replicate, length_take, length_drop. lia.
    - destruct (Z.of_nat (length ip') <? 16) eqn:El; [done|]. bsplit. intros [= <-]. split; [done|lia]. }
  assert (∀ e, (∀ n, e = Some n → n = 0%nat) → partial [] e) as He.
  { intros e Hn. split; [constructor|]. split; [by exists 0%nat|]. split; [cbn; lia|]. intros n En. rewrite (Hn n En). done. }
  set (p := match s with 58 :: 58 :: s => (s, Some 0%nat) | _ => (s, None) end).
  assert (∀ n, p.2 = Some n → n = 0%nat) as Hpn by (unfold p; repeat case_match; cbn; congruence).
  destruct p as [s0 e0]. cbn in Hpn. apply HG. by apply He.
Qed.
Lemma ParseAddr_ok s ip : ParseAddr s = Some ip → address ip.
Proof.
  unfold ParseAddr. set (l := filter _ s). intros Hp. assert (parseIPv4 s = Some ip ∨ parseIPv6 s = Some ip) as [Hs|Hs] by (repeat case_match; tauto || done).
  - apply parseIPv4_ok in Hs as [Hl Hb]. split; [done|by left].
  - apply parseIPv6_ok in Hs as [Hb Hl]. split; [done|by right].
Qed.

(** ** Networks *)
Lemma range_cases (P : Z → Prop) `{!∀ o, Decision (P o)} m :
  bool_decide (Forall P (seqZ 0 (m + 1))) = true → ∀ o, 0 ≤ o ≤ m → P o.
Proof. intros Hp%bool_decide_eq_true_1 o Ho. eapply Forall_forall in Hp; [done|]. apply elem_of_seqZ. lia. Qed.
Lemma net_CIDRMask_4 : ∀ ones, 0 ≤ ones ≤ 32 → net_CIDRMask ones 32 = CIDRMask ones.
Proof. refine (range_cases _ 32 _). by vm_compute. Qed.
Lemma net_CIDRMask_16 : ∀ ones, 0 ≤ ones ≤ 128 → Size (net_CIDRMask ones 128) = (ones, 128) ∧ length (net_CIDRMask ones 128) = 16%nat ∧ is_bytes (net_CIDRMask ones 128).
Proof. refine (range_cases _ 128 _). by vm_compute. Qed.
Lemma dtoi_itoa : ∀ ones, 0 ≤ ones ≤ 128 → dtoi (itoa ones) = Some (ones, []).
Proof. refine (range_cases _ 128 _). by vm_compute. Qed.

Lemma dtoi_nonneg s n r : dtoi s = Some (n, r) → 0 ≤ n.
Proof.
  assert (∀ s m, 0 ≤ m → dtoiFrom m s = Some (n, r) → 0 ≤ n) as HG.
  { clear s. induction s as [|c s IH]; intros m Hm; cbn [dtoiFrom]; [by intros [= <- _]|]. destruct (isDigit c) eqn:E; [|by intros [= <- _]].
    destruct (_ <=? _); [done|]. apply IH. unfold isDigit in E. bsplit. lia. }
  unfold dtoi. destruct s as [|c s]; [done|]. destruct (isDigit c); [|done]. by apply HG.
Qed.

Lemma byte_land n m k : 0 ≤ k → Z.land (n / 2 ^ k mod 2 ^ 8) (m / 2 ^ k mod 2 ^ 8) = Z.land n m / 2 ^ k mod 2 ^ 8.
Proof.
  intros Hk. rewrite <-!Z.land_ones, <-!Z.shiftr_div_pow2, Z.shiftr_land by lia. apply Z.bits_inj'. intros i Hi.
  rewrite !Z.land_spec. destruct (Z.testbit (Z.ones 8) i), (Z.testbit (Z.shiftr n k) i), (Z.testbit (Z.shiftr m k) i); done.
Qed.
Lemma land_Uint32ToIP n m : zip_with Z.land (Uint32ToIP n) (Uint32ToIP m) = Uint32ToIP (Z.land n m).
Proof.
  assert (∀ x, x / 2 ^ 0 = x) as H0 by (intros x; apply Z.div_1_r).
  rewrite !Uint32ToIP_val. cbn [zip_with]. apply list4_eq; [by apply byte_land..|]. pose proof (byte_land n m 0). rewrite !H0 in *. auto with lia.
Qed.

Lemma land_bytes : ∀ l k, is_bytes l → is_bytes k → is_bytes (zip_with Z.land l k).
Proof.
  induction l as [|a l IH]; intros [|b k]; cbn; [by intros; constructor..|]. unfold is_bytes. rewrite !Forall_cons. intros [Ha Hl] [Hb Hk]. constructor; [|by apply IH].
  unfold in_u8 in *. rewrite <-(Z.mod_small a (2 ^ 8)), <-Z.land_ones, <-Z.land_assoc, (Z.land_comm _ b), Z.land_assoc, Z.land_ones by lia. apply Z.mod_pos_bound. lia.
Qed.
Lemma land_twice : ∀ l k : bytes, zip_with Z.land (zip_with Z.land l k) k = zip_with Z.land l k.
Proof. induction l as [|a l IH]; intros [|b k]; cbn; [done..|]. by rewrite IH, <-Z.land_assoc, Z.land_diag. Qed.
(** The network of an address and a prefix length. *)
Definition networkOf (a : IP) (ones : Z) : IPNet :=
  let m := net_CIDRMask ones (BitLen a) in mkIPNet (zip_with Z.land a m) m.

Lemma mask_ok a ones : address a → 0 ≤ ones ≤ BitLen a →
  length (net_CIDRMask ones (BitLen a)) = length a ∧ is_bytes (net_CIDRMask ones (BitLen a)) ∧ Size (net_CIDRMask ones (BitLen a)) = (ones, BitLen a).
Proof.
  intros [Hb Hl] Ho. unfold BitLen, zlen in *. destruct Hl as [Hl|Hl]; rewrite Hl in *.
  - change (8 * Z.of_nat 4) with 32 in *. rewrite net_CIDRMask_4, CIDRMask_size by done. split; [done|]. split; [apply Uint32ToIP_v4|done].
  - change (8 * Z.of_nat 16) with 128 in *. destruct (net_CIDRMask_16 ones Ho) as (H1 & H2 & H3). done.
Qed.
Lemma Mask_ok a ones : address a → 0 ≤ ones ≤ BitLen a →
  Mask (As16 a) (net_CIDRMask ones (BitLen a)) = Some (zip_with Z.land a (net_CIDRMask ones (BitLen a))).
Proof.
  intros Ha Ho. destruct (mask_ok a ones Ha Ho) as (Hm & _). destruct (As16_length a Ha) as [H16 _]. set (m := net_CIDRMask ones (BitLen a)) in *.
  destruct Ha as [_ [Hl|Hl]]; unfold Mask, zlen; rewrite H16, Hm, Hl.
  - assert (As16 a = v4InV6Prefix ++ a) as -> by (unfold As16, zlen; by rewrite Hl). rewrite andb_false_r, andb_false_l. cbv iota. rewrite Hm, Hl.
    destruct (v4InV6 a) as [-> ->]. rewrite bool_decide_eq_true_2 by done.
    change ((Z.of_nat 4 =? 4) && (Z.of_nat 16 =? 16) && true) with true. cbv iota. by rewrite Hl.
  - assert (As16 a = a) as -> by (unfold As16, zlen; by rewrite Hl). rewrite andb_false_r, andb_false_l. cbv iota. rewrite Hm, Hl.
    rewrite andb_false_l. cbv iota. by rewrite Hl.
Qed.
Lemma net_ParseCIDR_inv s ip n : net_ParseCIDR s = Some (ip, n) →
  ∃ a ones, address a ∧ 0 ≤ ones ≤ BitLen a ∧ ip = As16 a ∧ n = networkOf a ones.
Proof.
  unfold net_ParseCIDR. destruct (cutAt 47 s) as [[addr mask]|]; [|done]. cbn [mbind option_bind].
  destruct (ParseAddr addr) as [a|] eqn:Ea; [|done]. cbn [mbind option_bind]. destruct (dtoi mask) as [[ones rest]|] eqn:Ed; [|done]. cbn [mbind option_bind].
  destruct (bool_decide _ || _) eqn:E; [done|]. intros [= <- <-]. apply orb_false_iff in E as [_ E]. apply dtoi_nonneg in Ed. apply ParseAddr_ok in Ea.
  bsplit. exists a, ones. split; [done|]. split; [lia|]. split; [done|]. unfold networkOf. rewrite Mask_ok by (done || lia). done.
Qed.
Lemma string4_slash ip : 47 ∉ string4 ip.
Proof.
  assert (∀ b, 47 ∉ utoa b) as Hu. { intros b Hin. eapply Forall_forall in Hin; [|apply utoa_digits]. done. }
  unfold string4. induction ip as [|b ip IH]; [apply not_elem_of_nil|]. destruct ip as [|b' ip]; [apply Hu|].
  cbn [fmap list_fmap Join] in *. apply not_elem_of_app. split; [apply Hu|]. by apply not_elem_of_cons.
Qed.
Lemma net_ParseCIDR_text a ones : v4 a → 0 ≤ ones ≤ 32 → net_ParseCIDR (string4 a ++ 47 :: itoa ones) = Some (As16 a, networkOf a ones).
Proof.
  intros Ha Ho. assert (address a) as Had by (destruct Ha; split; [done|by left]). assert (BitLen a = 32) as Hb by (unfold BitLen, zlen; by rewrite (proj1 Ha)).
  unfold net_ParseCIDR. rewrite cutAt_app by apply string4_slash. cbn [mbind option_bind]. rewrite string4_addr by done.
  cbn [mbind option_bind]. rewrite dtoi_itoa by lia. cbn [mbind option_bind]. rewrite bool_decide_eq_false_2 by (intros He; by apply He).
  rewrite (proj2 (Z.ltb_ge _ _)) by lia. cbn [orb]. unfold networkOf. by rewrite Mask_ok by (done || lia).
Qed.
Lemma networkOf_address a ones : address a → 0 ≤ ones ≤ BitLen a → address (n_ip (networkOf a ones)) ∧ length (n_ip (networkOf a ones)) = length a.
Proof.
  intros Ha Ho. destruct (mask_ok a ones Ha Ho) as (Hm & Hmb & _). destruct Ha as [Hb Hl]. unfold networkOf. cbn [n_ip].
  assert (length (zip_with Z.land a (net_CIDRMask ones (BitLen a))) = length a) as E by (rewrite length_zip_with; lia).
  split; [|done]. split; [by apply land_bytes|]. by rewrite E.
Qed.
(** For IPv4, a network as the address computations of ip.go know it. *)
Lemma networkOf_v4 a ones : v4 a → 0 ≤ ones ≤ 32 → ∃ n, IP_ToUint32 a = Some n ∧
  networkOf a ones = mkIPNet (Uint32ToIP (n / 2 ^ (32 - ones) * 2 ^ (32 - ones))) (CIDRMask ones).
Proof.
  intros Ha Ho. assert (BitLen a = 32) as Hb by (unfold BitLen, zlen; by rewrite (proj1 Ha)). destruct (v4_uint a Ha) as (n & Hn & Hr & Hu).
  exists n. split; [done|]. unfold networkOf. rewrite Hb, net_CIDRMask_4 by done. f_equal. rewrite <-Hu at 1. unfold CIDRMask. by rewrite land_Uint32ToIP, mask_low by (done || lia).
Qed.
Lemma networkOf_network a ones : v4 a → 0 ≤ ones ≤ 32 →
  NetworkAddr (networkOf a ones) = Some (n_ip (networkOf a ones)) ∧ networkOf (n_ip (networkOf a ones)) ones = networkOf a ones.
Proof.
  intros Ha Ho. assert (0 < 2 ^ (32 - ones)) as Hpk by (apply Z.pow_pos_nonneg; lia).
  assert (address a) as Had by (destruct Ha; split; [done|by left]). assert (BitLen a = 32) as Hb by (unfold BitLen, zlen; by rewrite (proj1 Ha)).
  destruct (networkOf_address a ones Had) as [_ Hl]; [lia|].
  split.
  - destruct (networkOf_v4 a ones Ha Ho) as (n & Hn & ->). cbn [n_ip]. set (base := n / _ * _).
    assert (v4 (Uint32ToIP base)) as Hv by apply Uint32ToIP_v4. assert (in_u32 base) as Hbase.
    { pose proof (base_range a n ones Ha Hn Ho). unfold in_u32, base. lia. }
    rewrite (NetworkAddr_val (Uint32ToIP base) base ones Hv (to_uint32_inv base Hbase) Ho). unfold base. by rewrite Z.div_mul by lia.
  - unfold networkOf at 1. assert (BitLen (n_ip (networkOf a ones)) = BitLen a) as -> by (unfold BitLen, zlen; by rewrite Hl). unfold networkOf. cbn [n_ip]. by rewrite land_twice.
Qed.

(** What [ParseCIDR] accepts is an address of 16 bytes and its network: address and mask have one
    width, the mask is a prefix, the network is the address under the mask, and its own host
    bits are zero. *)
Theorem parsed_network s ip n : ParseCIDR s = Ok (ip, n) →
  is_bytes ip ∧ length ip = 16%nat ∧
  ∃ ones bits, (bits = 32 ∨ bits = 128) ∧ 0 ≤ ones ≤ bits ∧ Size (n_mask n) = (ones, bits) ∧
    is_bytes (n_mask n) ∧ is_bytes (n_ip n) ∧ 8 * zlen (n_mask n) = bits ∧ 8 * zlen (n_ip n) = bits ∧
    Mask ip (n_mask n) = Some (n_ip n) ∧ Mask (n_ip n) (n_mask n) = Some (n_ip n).
Proof.
  unfold ParseCIDR. destruct (net_ParseCIDR s) as [[ip' n']|] eqn:E; [|done]. intros [= -> ->].
  apply net_ParseCIDR_inv in E as (a & ones & Ha & Ho & -> & ->). destruct (As16_length a Ha) as [H16 Hb]. split; [done|]. split; [done|].
  destruct (mask_ok a ones Ha Ho) as (Hm & Hmb & Hs). destruct (networkOf_address a ones Ha Ho) as [[Hnb Hnl] Hl]. exists ones, (BitLen a).
  split; [unfold BitLen, zlen; destruct Ha as [_ [-> | ->]]; auto|]. split; [done|]. split; [done|]. split; [done|]. split; [done|].
  unfold BitLen, zlen in *. split; [cbn [networkOf n_mask]; unfold BitLen, zlen; lia|]. split; [lia|]. split; [by apply Mask_ok|].
  unfold Mask, zlen. cbn [networkOf n_mask]. unfold BitLen, zlen. rewrite Hm, Hl.
  assert ((Z.of_nat (length a) =? 16) && (Z.of_nat (length a) =? 4) = false) as -> by (destruct Ha as [_ [-> | ->]]; done).
  rewrite andb_false_l. cbv iota. rewrite Hm. assert ((Z.of_nat (length a) =? 4) && (Z.of_nat (length a) =? 16) = false) as -> by (destruct Ha as [_ [-> | ->]]; done).
  rewrite andb_false_l. cbv iota. rewrite Hl, Z.eqb_refl. cbn [negb networkOf n_ip]. by rewrite land_twice.
Qed.
Lemma parsed_network_witness : ∃ ones bits, Size (net_CIDRMask 20 32) = (ones, bits) ∧ 0 ≤ ones ≤ bits.
Proof.
  destruct (parsed_network (txt "10.1.250.7/20") (v4InV6Prefix ++ [10; 1; 250; 7]) (mkIPNet [10; 1; 240; 0] [255; 255; 240; 0]) ltac:(by vm_compute))
    as (_ & _ & ones & bits & _ & Ho & Hs & _).
  exists ones, bits. split; [exact Hs|exact Ho].
Defined.

(** An IPv4 network that was parsed is printed, and what is printed is parsed to the same
    network; its network address is the one it holds. *)
Theorem network_roundtrip s ip n : ParseCIDR s = Ok (ip, n) → zlen (n_mask n) = 4 →
  NetworkAddr n = Some (n_ip n) ∧ ∃ t, IPNet_String n = Some t ∧ ParseCIDR t = Ok (As16 (n_ip n), n).
Proof.
  unfold ParseCIDR. destruct (net_ParseCIDR s) as [[ip' n']|] eqn:E; [|done]. intros [= -> ->] H4.
  apply net_ParseCIDR_inv in E as (a & ones & Ha & Ho & -> & ->). destruct (mask_ok a ones Ha Ho) as (Hm & _ & Hs).
  assert (v4 a) as Ha4. { destruct Ha as [Hb Hl]. split; [|done]. cbn [networkOf n_mask] in H4. unfold zlen in H4. lia. }
  assert (BitLen a = 32) as Hb by (unfold BitLen, zlen; by rewrite (proj1 Ha4)). rewrite Hb in Ho.
  destruct (networkOf_network a ones Ha4 Ho) as [Hn Hnn]. split; [done|]. destruct (networkOf_address a ones) as [[Hnb _] Hl]; [done|lia|].
  assert (v4 (n_ip (networkOf a ones))) as Hv by (split; [by rewrite Hl, (proj1 Ha4)|done]).
  exists (string4 (n_ip (networkOf a ones)) ++ 47 :: itoa ones). split.
  - unfold IPNet_String. rewrite Hn. cbn [mbind option_bind]. unfold IPMask_Size, IPNet_Mask. cbn [networkOf n_mask]. rewrite Hs. do 2 f_equal.
    unfold IP_String, net_String, To4, zlen. by rewrite (proj1 Hv).
  - rewrite net_ParseCIDR_text by done. by rewrite Hnn.
Qed.
Lemma network_roundtrip_witness :
  ∃ t, IPNet_String (mkIPNet [10; 1; 240; 0] [255; 255; 240; 0]) = Some t ∧ ParseCIDR t = Ok (As16 [10; 1; 240; 0], mkIPNet [10; 1; 240; 0] [255; 255; 240; 0]).
Proof.
  refine (proj2 (network_roundtrip (txt "10.1.250.7/20") (v4InV6Prefix ++ [10; 1; 250; 7]) _ _ _)); by vm_compute.
Defined.

(** C26: the text of an IPv4 address with a prefix length is parsed to the address and to the
    network of that length it lies in, whose address is that of the IPv4 address with the
    host bits cleared; the network is printed as the text of its own address with the same length, and
    that text is parsed to the same network. *)
Theorem network_text a u ones :
  v4 a → IP_ToUint32 a = Some u → 0 ≤ ones ≤ 32 →
  let base := u / 2 ^ (32 - ones) * 2 ^ (32 - ones) in
  let n := mkIPNet (Uint32ToIP base) (CIDRMask ones) in
  ParseCIDR (IP_String a ++ txt "/" ++ itoa ones) = Ok (As16 a, n) ∧
  IPMask_Size (IPNet_Mask n) = (ones, 32) ∧ NetworkAddr n = Some (Uint32ToIP base) ∧
  IPNet_String n = Some (IP_String (Uint32ToIP base) ++ txt "/" ++ itoa ones) ∧
  ParseCIDR (IP_String (Uint32ToIP base) ++ txt "/" ++ itoa ones) = Ok (As16 (Uint32ToIP base), n).
Proof.
  intros Ha Hu Ho base n. assert (BitLen a = 32) as Hb by (unfold BitLen, zlen; by rewrite (proj1 Ha)).
  assert (∀ b, v4 b → IP_String b = string4 b) as Hstr by (intros b Hv; unfold IP_String, net_String, To4, zlen; by rewrite (proj1 Hv)).
  assert (networkOf a ones = n) as Hn. { destruct (networkOf_v4 a ones Ha Ho) as (u' & E & ->). rewrite Hu in E. by injection E as <-. }
  destruct (networkOf_network a ones Ha Ho) as [Hna Hnn]. rewrite Hn in Hna, Hnn. cbn [n n_ip] in Hna, Hnn.
  pose proof (Uint32ToIP_v4 base) as Hv. assert (Size (CIDRMask ones) = (ones, 32)) as Hs by (by apply CIDRMask_size).
  rewrite !Hstr by done. change (txt "/" ++ itoa ones) with (47 :: itoa ones). unfold ParseCIDR. rewrite !net_ParseCIDR_text, Hn, Hnn by done.
  split_and!; try done. unfold IPNet_String. rewrite Hna. cbn [mbind option_bind]. unfold IPMask_Size, IPNet_Mask. cbn [n n_mask]. rewrite Hs.
  by rewrite Hstr by done.
Qed.
Lemma network_text_witness :
  ParseCIDR (txt "10.1.250.7/20") = Ok (v4InV6Prefix ++ [10; 1; 250; 7], mkIPNet [10; 1; 240; 0] [255; 255; 240; 0]) ∧
  IPNet_String (mkIPNet [10; 1; 240; 0] [255; 255; 240; 0]) = Some (txt "10.1.240.0/20").
Proof.
  destruct (network_text [10; 1; 250; 7] 167901703 20) as (H1 & _ & _ & H2 & _); [split; [done|by repeat constructor]|by vm_compute|lia|].
  split; [exact H1|exact H2].
Defined.
