(* ===== verification/Validator.v ===== *)
(** * validator: checks of configuration values

    Models [src/validator/validators.go]: the checks that are registered for configuration
    fields, on values that carry their Go type.  govalidator, passlib and wgtypes are
    parameters. *)
From S2P Require Import Prelude Text Human Net IPText.

Local Open Scope Z_scope.

(** What the checks call of other libraries. *)
Class Checkers := {
  IsCIDR : bytes → bool; IsUnixFilePath : bytes → bool; IsPort : bytes → bool; IsHost : bytes → bool; IsIP : bytes → bool;
  IsIPv4 : bytes → bool; IsURL : bytes → bool; IsPrintableASCII : bytes → bool;
  (* the error of [passlib.VerifyNoUpgrade]: none, an unsupported scheme, another one *)
  VerifyNoUpgrade : bytes → bytes → option bool;
  (* [wgtypes.ParseKey] succeeds *)
  ParseKey : bytes → bool }.

(** A field's value with its type. *)
Inductive value :=
  | VString (s : bytes) | VSize (v : Z) | VUint64 (v : Z) | VInterval (v : Z) | VDuration (v : Z)
  | VStrings (l : list bytes) | VIpv4List (l : list bytes) | VUrlList (l : list bytes) | VSubnet (s : bytes) | VOther.

Section validators.
Context `{Checkers} (outOfRange : float → Z).

(** [Subnet.Unwrap]: panics with the error of a text that is no network. *)
Definition Subnet_Unwrap (s : bytes) : go iperror IPNet :=
  match ParseCIDR s with Ok (_, n) => Ok n | _ => Panic end.

Definition isListenAddr (s : bytes) : bool :=
  match SplitHostPort s with
  | None => false
  | Some (host, port) =>
      if negb (IsPort port) then false
      else if zlen host =? 0 then true
      else IsHost host || IsIP host
  end.

(** [strconv.ParseInt(str, 10, 64)] reads what [Atoi] reads. *)
Definition isNatural (str : bytes) : bool :=
  match Atoi str with None => false | Some v => 0 <=? v end.

Definition isPasswordHash (str : bytes) : bool :=
  match VerifyNoUpgrade [] str with
  | Some unsupportedScheme => if unsupportedScheme then false else true
  | None => true
  end.

Definition isWireguardKey (str : bytes) : bool := if negb (ParseKey str) then false else true.

Definition isProjectName (str : bytes) : bool :=
  if negb (IsPrintableASCII str) then false
  else if containsByte 47 str then false
  else true.

Definition sizeParses (s : bytes) : bool := match ParseSizeFromHuman outOfRange s with Ok _ => true | _ => false end.
Definition isSize (v : value) : bool :=
  match v with
  | VString s => sizeParses s
  | VSize v => sizeParses (Size_String v)
  | VUint64 _ => true
  | _ => false
  end.

Definition intervalParses (s : bytes) : bool := match ParseDuration s with Ok _ => true | _ => false end.
Definition isInterval (v : value) : bool :=
  match v with
  | VString s => intervalParses s
  | VInterval v => intervalParses (Interval_String v)
  | VDuration _ => true
  | _ => false
  end.

Definition isIPv4List (v : value) : bool :=
  match v with
  | VStrings list => if zlen list =? 0 then false else forallb IsIPv4 list
  | _ => false
  end.
Definition isURLList (v : value) : bool :=
  match v with
  | VStrings list | VUrlList list => if zlen list =? 0 then false else forallb IsURL list
  | _ => false
  end.

Definition isSubnetText (s : bytes) : bool :=
  match ParseCIDR s with
  | Ok (ipa, ipn) =>
      if negb (Isv4 (IPNet_IP ipn)) then false
      else if negb (Equal (IPNet_IP ipn) ipa) then false
      else true
  | _ => false
  end.
Definition isSubnet (v : value) : bool :=
  match v with
  | VString s | VSubnet s => isSubnetText s
  | _ => false
  end.

(** [init]: the tags, each with its check. *)
Definition TagMap : list (bytes * (bytes → bool)) :=
  [ (txt "cidr", IsCIDR); (txt "listen_addr", isListenAddr); (txt "path", IsUnixFilePath); (txt "hash", isPasswordHash);
    (txt "natural", isNatural); (txt "wg_key", isWireguardKey); (txt "projectname", isProjectName) ].
Definition CustomTypeTagMap : list (bytes * (value → bool)) :=
  [ (txt "ipv4list", isIPv4List); (txt "urllist", isURLList); (txt "subnet", isSubnet); (txt "size", isSize); (txt "interval", isInterval) ].
End validators.

Inductive validateerror (E : Type) := ValidatorError (err : E) | ValidationFailed.
Arguments ValidatorError {E}.
Arguments ValidationFailed {E}.
(** [result] is what [govalidator.ValidateStruct] returned: the verdict and an error. *)
Definition ValidateStruct {E} (result : bool * option E) : option (validateerror E) :=
  let '(ok, err) := result in
  match err with
  | Some err => Some (ValidatorError err)
  | None => if negb ok then Some ValidationFailed else None
  end.

(** * what a validated value can be used for

    A validated subnet can be unwrapped and given to the address pool; typed sizes and
    intervals are always valid, texts exactly when they can be parsed. *)
From S2P Require Import Prelude Text Human HumanProps Net NetProps IPText IPTextProps IPPool IPPoolProps.

Local Open Scope Z_scope.

(** A mask of 16 bytes that keeps the prefix of an IPv4 address has more than 30 ones. *)
Lemma short_mask : ∀ ones, 0 ≤ ones ≤ 30 → net_CIDRMask ones 128 !! 11%nat = Some 0.
Proof. refine (range_cases _ 30 _). by vm_compute. Qed.
Lemma mapped_prefix a ones : length a = 16%nat → 0 ≤ ones ≤ 128 →
  take 12 (zip_with Z.land a (net_CIDRMask ones 128)) = v4InV6Prefix → 30 < ones.
Proof.
  intros Ha Ho Hp. destruct (decide (ones ≤ 30)) as [Hs|]; [|lia]. exfalso. apply (f_equal (.!! 11%nat)) in Hp.
  rewrite lookup_take_lt, lookup_zip_with in Hp by lia. rewrite short_mask in Hp by lia.
  destruct (a !! 11%nat) as [b|]; cbn in Hp; [|done]. injection Hp as Hp. by rewrite Z.land_0_r in Hp.
Qed.
(** ... and the pool refuses such a network. *)
Lemma mapped_pool a ones : address a → length a = 16%nat → 0 ≤ ones ≤ 128 → Isv4 (n_ip (networkOf a ones)) = true →
  NewIPv4FromSubnet (networkOf a ones) = Err ErrSubnetTooSmall ∧ 30 < ones.
Proof.
  intros Ha Hl Ho H4. assert (BitLen a = 128) as Hb by (unfold BitLen, zlen; by rewrite Hl).
  destruct (mask_ok a ones Ha ltac:(lia)) as (Hm & _ & Hs). destruct (networkOf_address a ones Ha ltac:(lia)) as [[Hnb _] Hnl].
  rewrite Hl in Hnl, Hm. pose proof (To4_16 _ Hnb Hnl) as Hp4. unfold Isv4 in H4. apply bool_decide_eq_true in H4 as [p4 E4]. rewrite E4 in Hp4.
  destruct Hp4 as [Hv Hpre]. assert (30 < ones) as H30.
  { apply (mapped_prefix a); [done|done|]. rewrite <-Hb. change (take 12 (n_ip (networkOf a ones)) = v4InV6Prefix). by rewrite Hpre. }
  split; [|done]. unfold NewIPv4FromSubnet, NetworkAddr, IP_ToUint32, IPMask_ToUint32. rewrite E4. cbn [networkOf n_mask].
  destruct (net_CIDRMask ones (BitLen a)) as [|m0 [|m1 [|m2 [|m3 m]]]] eqn:Em; try done. cbn [bigEndian mbind option_bind].
  destruct (v4_inv p4 Hv) as (b0 & b1 & b2 & b3 & -> & _). cbn [bigEndian mbind option_bind of_option go_bind].
  unfold Isv4. rewrite E4, bool_decide_eq_true_2 by done. cbn [negb]. rewrite Hs. cbn [fst]. by rewrite (proj2 (Z.ltb_lt 30 ones)) by lia.
Qed.
Lemma v4_pool a ones : v4 a → 0 ≤ ones ≤ 32 →
  (∃ p, NewIPv4FromSubnet (networkOf a ones) = Ok p ∧ pool_wf p ∧ ones ≤ 30) ∨ NewIPv4FromSubnet (networkOf a ones) = Err ErrSubnetTooSmall ∧ 30 < ones.
Proof.
  intros Ha Ho. destruct (networkOf_v4 a ones Ha Ho) as (n & Hn & E). set (base := n / _ * _) in E.
  assert (in_u32 base) as Hbase. { pose proof (base_range a n ones Ha Hn Ho). assert (0 < 2 ^ (32 - ones)) by (apply Z.pow_pos_nonneg; lia). unfold in_u32, base. lia. }
  pose proof (Uint32ToIP_v4 base) as Hv. pose proof (to_uint32_inv base Hbase) as Hu. destruct (decide (ones ≤ 30)) as [H30|H30].
  - left. destruct (new_pool_wf _ _ ones Hv Hu ltac:(lia)) as (p & Hp & Hwf & _). exists p. by rewrite E.
  - right. split; [|lia]. rewrite E. unfold NewIPv4FromSubnet. rewrite (NetworkAddr_val _ _ ones Hv Hu Ho). cbn [of_option mbind go_bind n_ip n_mask].
    unfold Isv4, To4. change (zlen (Uint32ToIP base) =? 4) with true. cbv iota. rewrite bool_decide_eq_true_2 by done. cbn [negb].
    rewrite CIDRMask_size by done. cbn [fst]. by rewrite (proj2 (Z.ltb_lt 30 ones)) by lia.
Qed.

(** C10: a subnet that is valid can be unwrapped, is a network and not the address of a host in it,
    and the address pool can be made from it without a panic: it has a pool for every IPv4
    prefix of up to 30 bits and an error for anything longer. *)
Theorem valid_subnet_usable s : isSubnet (VSubnet s) = true →
  ∃ n, Subnet_Unwrap s = Ok n ∧ ParseCIDR s = Ok (As16 (n_ip n), n) ∧
    ((∃ p, NewIPv4FromSubnet n = Ok p ∧ pool_wf p ∧ (Size (n_mask n)).1 ≤ 30) ∨
     NewIPv4FromSubnet n = Err ErrSubnetTooSmall ∧ 30 < (Size (n_mask n)).1).
Proof.
  cbn [isSubnet]. unfold isSubnetText, Subnet_Unwrap, ParseCIDR. destruct (net_ParseCIDR s) as [[ip n]|] eqn:E; [|done].
  apply net_ParseCIDR_inv in E as (a & ones & Ha & Ho & -> & ->). unfold IPNet_IP. destruct (Isv4 _) eqn:E4; [|done]. cbn [negb].
  destruct (Equal _ _) eqn:Ee; [|done]. intros _. exists (networkOf a ones). split; [done|].
  destruct (mask_ok a ones Ha Ho) as (_ & _ & Hs). destruct (networkOf_address a ones Ha Ho) as [Hna Hnl]. cbn [networkOf n_mask]. rewrite Hs. cbn [fst].
  split.
  { do 2 f_equal. destruct (As16_length a Ha) as [Hl16 _]. destruct (As16_length _ Hna) as [Hn16 _]. revert Ee. destruct Ha as [_ [Hl|Hl]].
    - assert (As16 a = v4InV6Prefix ++ a) as -> by (unfold As16, zlen; by rewrite Hl).
      assert (As16 (n_ip (networkOf a ones)) = v4InV6Prefix ++ n_ip (networkOf a ones)) as -> by (unfold As16, zlen; by rewrite Hnl, Hl).
      unfold Equal, zlen. rewrite Hnl, length_app, Hl. cbn -[take drop v4InV6Prefix networkOf]. destruct (v4InV6 a) as [-> ->].
      intros [_ E]%andb_true_iff. by apply bool_decide_eq_true in E as ->.
    - assert (As16 a = a) as -> by (unfold As16, zlen; by rewrite Hl). assert (As16 (n_ip (networkOf a ones)) = n_ip (networkOf a ones)) as -> by (unfold As16, zlen; by rewrite Hnl, Hl).
      unfold Equal, zlen. rewrite Hnl, Z.eqb_refl. by intros ->%bool_decide_eq_true. }
  destruct Ha as [Hb [Hl|Hl]].
  - apply v4_pool; [done|]. unfold BitLen, zlen in Ho. rewrite Hl in Ho. done.
  - right. unfold BitLen, zlen in Ho. rewrite Hl in Ho. apply mapped_pool; [split; auto|done|done|done].
Qed.
Lemma valid_subnet_usable_witness : ∃ n, Subnet_Unwrap (txt "10.10.0.0/24") = Ok n ∧ ParseCIDR (txt "10.10.0.0/24") = Ok (As16 (n_ip n), n).
Proof.
  destruct (valid_subnet_usable (txt "10.10.0.0/24") ltac:(by vm_compute)) as (n & H1 & H2 & _). exists n. exact (conj H1 H2).
Defined.

(** A network inside the IPv4 part of IPv6 is accepted as a subnet, but its mask has 16 bytes: the
    pool has no place in it, and it is printed as something that is no network. *)
Example mapped_subnet : isSubnet (VSubnet (txt "::ffff:10.10.0.0/112")) = true ∧
  ∃ n, Subnet_Unwrap (txt "::ffff:10.10.0.0/112") = Ok n ∧ NewIPv4FromSubnet n = Err ErrSubnetTooSmall ∧
    IPNet_String n = Some (txt "10.10.0.0/112") ∧ isSubnet (VSubnet (txt "10.10.0.0/112")) = false.
Proof. split; [by vm_compute|]. eexists. split; [by vm_compute|]. by vm_compute. Qed.

(** A value is of its type. *)
Definition typed (v : value) : Prop := match v with VSize z => in_u64 z | VInterval d => in_i64 d | _ => True end.

(** A value that has the type of a size or of an interval is always valid, since its text can
    be parsed again; a text is valid exactly when it can be parsed; values of other types are
    refused. *)
Theorem valid_values outOfRange v : typed v →
  (isSize outOfRange v = true ↔
    match v with VString s => ∃ z, ParseSizeFromHuman outOfRange s = Ok z | VSize _ | VUint64 _ => True | _ => False end) ∧
  (isInterval v = true ↔
    match v with VString s => ∃ d, ParseDuration s = Ok d | VInterval _ | VDuration _ => True | _ => False end).
Proof.
  intros Ht. assert (∀ E A (r : go E A), (match r with Ok _ => true | _ => false end) = true ↔ ∃ x, r = Ok x) as Hok by (intros E A []; naive_solver).
  split; destruct v as [s|z|z|d|d|l|l|l|s|]; cbn [isSize isInterval typed] in *; try done; try apply Hok.
  - split; [done|]. intros _. apply Hok, size_text, Ht.
  - split; [done|]. intros _. unfold intervalParses, Interval_String. by rewrite duration_text.
Qed.
Lemma valid_values_witness : isSize (λ _, 0) (VSize (2 ^ 64 - 1)) = true ∧ isInterval (VInterval (- 2 ^ 63)) = true.
Proof.
  split.
  - refine (proj2 (proj1 (valid_values (λ _, 0) (VSize (2 ^ 64 - 1)) _)) I). vm_compute. split; [discriminate|reflexivity].
  - refine (proj2 (proj2 (valid_values (λ _, 0) (VInterval (- 2 ^ 63)) _)) I). vm_compute. split; [discriminate|reflexivity].
Defined.

(** A list of addresses is refused under its own type. *)
Example ipv4list_type `{Checkers} l : isIPv4List (VIpv4List l) = false.
Proof. done. Qed.
(** Any listener on all interfaces with a port is accepted. *)
Lemma listen_any `{Checkers} port : 58 ∉ port → 91 ∉ port → 93 ∉ port → isListenAddr (58 :: port) = IsPort port.
Proof.
  intros H58 H91 H93. unfold isListenAddr, SplitHostPort. rewrite (cutLast_app 58 [] port H58 : cutLast 58 (58 :: port) = _). cbn [mbind option_bind].
  change (58 =? 91) with false. cbv iota. assert (∀ c, c ∉ 58 :: port → containsByte c (58 :: port) = false) as Hc.
  { intros c Hc. apply not_true_iff_false. by rewrite containsByte_spec. }
  rewrite !Hc by (apply not_elem_of_cons; done). cbn. by destruct (IsPort port).
Qed.
