(* ===== verification/Ports.v ===== *)
(** * ipam: access policies, port ranges and the interval set built from them

    Models [src/ipam/config.go], [src/ipam/config_ports.go] and the element
    construction of [setBlockedPorts4proto] in [src/ipam/nft_linux.go]. *)
From S2P Require Import Prelude Text.
From Stdlib Require Import Sorting.Sorted.

Local Open Scope Z_scope.

(** ** Access policies (config.go) *)
Definition AccessPolicyDefault : Z := 0.
Definition AccessPolicyInternetOnly : Z := 1.
Definition AccessPolicyAllowAll : Z := 2.

(** [None] is the "unknown policy" error. *)
Definition policy_Unmarshal (raw : bytes) : option Z :=
  if bool_decide (raw = txt "default") then Some AccessPolicyDefault
  else if bool_decide (raw = txt "internet_only") then Some AccessPolicyInternetOnly
  else if bool_decide (raw = txt "allow_all") then Some AccessPolicyAllowAll
  else None.

Definition policy_Marshal (v : Z) : option bytes :=
  if v =? AccessPolicyDefault then Some (txt "default")
  else if v =? AccessPolicyInternetOnly then Some (txt "internet_only")
  else if v =? AccessPolicyAllowAll then Some (txt "allow_all")
  else None.

Definition AliasInternetOnly : Z := AccessPolicyInternetOnly.
Definition AliasAllowAll : Z := AccessPolicyAllowAll.

(** ** Port restrictions (config_ports.go) *)
Definition RestrictionModeBlockList : Z := 0.
Definition RestrictionModeAllowList : Z := 1.

Record protocolID := mkProto { p_name : bytes; p_id : Z }.
Definition protocolUDP : protocolID := mkProto (txt "UDP") 17.
Definition protocolTCP : protocolID := mkProto (txt "TCP") 6.

Record PortRange := mkRange { low : Z; high : Z }.
#[global] Instance PortRange_eq_dec : EqDecision PortRange.
Proof. solve_decision. Defined.

(** [Ports] is nil or a slice. *)
Record ProtocolPortConfig := mkPPC { Mode : Z; Ports : option (list PortRange) }.
Record PortRestrictionConfig := mkPRC { UDP : ProtocolPortConfig; TCP : ProtocolPortConfig }.

Definition portRange (lo hi : Z) : PortRange := mkRange lo hi.
Definition port (p : Z) : PortRange := mkRange p p.

Definition DefaultPortRestrictions : PortRestrictionConfig :=
  mkPRC
    (mkPPC RestrictionModeBlockList (Some [port 69; port 113; port 135; portRange 137 139; port 445; port 514]))
    (mkPPC RestrictionModeBlockList (Some [port 113; port 445])).

Definition BlockList (mode : Z) : bool := mode =? RestrictionModeBlockList.
Definition AllowList (mode : Z) : bool := mode =? RestrictionModeAllowList.

Definition mode_Unmarshal (raw : bytes) : option Z :=
  if bool_decide (raw = txt "allow_list") then Some RestrictionModeAllowList
  else if bool_decide (raw = txt "block_list") then Some RestrictionModeBlockList
  else None.

Definition mode_String (mode : Z) : bytes :=
  if mode =? RestrictionModeAllowList then txt "allow_list"
  else if mode =? RestrictionModeBlockList then txt "block_list"
  else txt "unknown".

Definition mode_Marshal (mode : Z) : bytes := mode_String mode.

(** One field of the range: a number between 0 and 65535. *)
Definition parsePort (s : bytes) : option Z :=
  p ← Atoi (TrimSpace s);
  if (p <? 0) || (65535 <? p) then None else Some p.

Definition range_Unmarshal (raw : bytes) : option PortRange :=
  let tuple_s := Split 45 raw in
  if (2 <? zlen tuple_s) || (zlen tuple_s <? 1) then None else
  tuple ← mapM parsePort tuple_s;
  match tuple with
  | [lo] => Some (mkRange lo lo)
  | [lo; hi] => Some (mkRange lo hi)
  | _ => None
  end.

Definition range_Marshal (r : PortRange) : bytes :=
  if low r =? high r then utoa (low r) else utoa (low r) ++ 45 :: utoa (high r).

(** ** The interval set of a port filter (nft_linux.go) *)
Record SetElement := mkElem { Key : bytes; IntervalEnd : bool }.
#[global] Instance SetElement_eq_dec : EqDecision SetElement.
Proof. solve_decision. Defined.

(** [binary.BigEndian.PutUint16] *)
Definition nftUint16ToKey (v : Z) : bytes := [Z.shiftr v 8; u8 v].

(** The loop over the sorted ranges; [highest] starts at 0. *)
Fixpoint setElements (highest : Z) (ports : list PortRange) : list SetElement :=
  match ports with
  | [] => []
  | r :: ports =>
      if low r <=? highest then setElements highest ports
      else mkElem (nftUint16ToKey (low r)) false
           :: mkElem (nftUint16ToKey (u16 (high r + 1))) true
           :: setElements (high r) ports
  end.

(** [sort.Slice] of the standard library: it permutes, and puts nothing before an element
    that is less; the order of elements that are equivalent is left open, so it is a
    parameter with this law. *)
Definition Sorter : Type := (PortRange → PortRange → bool) → list PortRange → list PortRange.
Definition sorts (sortSlice : Sorter) : Prop := ∀ (less : PortRange → PortRange → bool) l,
  sortSlice less l ≡ₚ l ∧
  ((∀ a, less a a = false) → Transitive (λ a b, less a b = true) → Transitive (λ a b, less b a = false) →
   StronglySorted (λ a b, less b a = false) (sortSlice less l)).

(** The elements of the set for configured ranges: a sorted copy goes through the loop. *)
Definition blockedElements (sortSlice : Sorter) (ports : list PortRange) : list SetElement :=
  setElements 0 (sortSlice (λ a b, low a <? low b) ports).
