(* ===== verification/PortsProps.v ===== *)
(** * ipam: port ranges round-trip, and the interval set covers them *)
From S2P Require Import Prelude Text Ports.
From Stdlib Require Import Sorting.Sorted.
From stdpp Require Import sorting.

Local Open Scope Z_scope.

(** ** Text forms *)

#[local] Arguments parsePort : simpl never.
#[local] Arguments utoa : simpl never.

Lemma parsePort_utoa p : in_u16 p → parsePort (utoa p) = Some p.
Proof.
  unfold in_u16. intros Hp. unfold parsePort. pose proof (digits_plain _ (utoa_digits p)) as [Hs _].
  rewrite TrimSpace_nospace, Atoi_utoa by (done || lia). cbn.
  by rewrite (proj2 (Z.ltb_ge p 0)), (proj2 (Z.ltb_ge 65535 p)) by lia.
Qed.

(** A port range survives being written to and read back from a
    configuration file, whatever its bounds. *)
Theorem range_roundtrip (r : PortRange) :
  in_u16 (low r) → in_u16 (high r) → range_Unmarshal (range_Marshal r) = Some r.
Proof.
  intros Hl Hh. pose proof (digits_plain _ (utoa_digits (low r))) as [_ H1].
  pose proof (digits_plain _ (utoa_digits (high r))) as [_ H2].
  unfold range_Unmarshal, range_Marshal. destruct (low r =? high r) eqn:E; bsplit.
  - rewrite Split_none by done. cbn [mapM]. cbn. rewrite parsePort_utoa by done. cbn.
    destruct r as [lo hi]. cbn in *. by subst.
  - rewrite Split_cons, Split_none by done. cbn [mapM]. cbn. rewrite !parsePort_utoa by done. cbn. by destruct r.
Qed.

Lemma range_roundtrip_witness : range_Unmarshal (range_Marshal (mkRange 137 139)) = Some (mkRange 137 139).
Proof. apply range_roundtrip; vm_compute; split; congruence. Defined.

(** Whatever [range_Unmarshal] accepts has both bounds in the port range (it does
    not check their order), and the policy and mode names round-trip. *)
Theorem config_texts (raw : bytes) (r : PortRange) :
  range_Unmarshal raw = Some r →
  in_u16 (low r) ∧ in_u16 (high r) ∧
  (∀ v b, policy_Marshal v = Some b → policy_Unmarshal b = Some v) ∧
  (∀ m, BlockList m || AllowList m = true → mode_Unmarshal (mode_Marshal m) = Some m).
Proof.
  assert (∀ s p, parsePort s = Some p → in_u16 p) as Hp.
  { unfold parsePort. intros s p. destruct (Atoi (TrimSpace s)) as [z|]; [cbn|done].
    destruct ((z <? 0) || (65535 <? z)) eqn:E; [done|]. bsplit. intros [= ->]. unfold in_u16. lia. }
  assert (∀ v b, policy_Marshal v = Some b → policy_Unmarshal b = Some v) as Hpol.
  { unfold policy_Marshal. intros v b. repeat bcase; intros [= <-]; subst; by vm_compute. }
  assert (∀ m, BlockList m || AllowList m = true → mode_Unmarshal (mode_Marshal m) = Some m) as Hmode.
  { intros m [->%Z.eqb_eq| ->%Z.eqb_eq]%orb_true_iff; by vm_compute. }
  unfold range_Unmarshal. destruct (_ || _); [done|]. destruct (mapM parsePort (Split 45 raw)) as [t|] eqn:E; [cbn|done].
  apply mapM_Some in E. intros Ht.
  assert (∀ p, p ∈ t → in_u16 p) as Hall.
  { intros p Hin. apply list_elem_of_lookup in Hin as [i Hi].
    destruct (Forall2_lookup_r _ _ _ _ _ E Hi) as (s & _ & Hs). by eapply Hp. }
  destruct t as [|a [|b [|]]]; try done; injection Ht as <-; cbn; (split_and!; [..|done|done]); apply Hall; set_solver.
Qed.

Lemma config_texts_witness : in_u16 20 ∧ in_u16 10.
Proof.
  destruct (config_texts (txt "20 - 10") (mkRange 20 10)) as (H1 & H2 & _); [vm_compute; reflexivity|].
  split; [exact H1|exact H2].
Defined.

(** ** Interval sets *)

(** The [uint16] a two-byte key stands for, and the ports of an interval set: those with a
    start at or below them and no end in between. *)
Definition keyValue (k : bytes) : Z := match k with [a; b] => a * 256 + b | _ => -1 end.
Definition elemKey (e : SetElement) : Z := keyValue (Key e).

Definition inSet (els : list SetElement) (p : Z) : bool :=
  existsb (λ s, negb (IntervalEnd s) && (elemKey s <=? p) &&
    forallb (λ e, negb (IntervalEnd e) || (elemKey e <=? elemKey s) || (p <? elemKey e)) els) els.

Lemma inSet_spec els p : inSet els p = true ↔
  ∃ s, s ∈ els ∧ IntervalEnd s = false ∧ elemKey s ≤ p ∧ ∀ e, e ∈ els → IntervalEnd e = true → elemKey s < elemKey e → p < elemKey e.
Proof.
  unfold inSet. rewrite existsb_exists. split.
  - intros (s & Hs%list_elem_of_In & [[H1%negb_true_iff H2%Z.leb_le]%andb_true_iff H3]%andb_true_iff). exists s. split_and!; try done.
    rewrite forallb_forall in H3. intros e He%list_elem_of_In Hend Hlt. specialize (H3 e He). rewrite Hend in H3. cbn in H3. bsplit. lia.
  - intros (s & Hs%list_elem_of_In & H1 & H2 & H3). exists s. split; [done|]. rewrite H1, (proj2 (Z.leb_le _ _) H2). cbn.
    apply forallb_forall. intros e He%list_elem_of_In. destruct (IntervalEnd e) eqn:Ee; [cbn|done].
    destruct (Z.leb_spec (elemKey e) (elemKey s)); [done|]. cbn. by apply Z.ltb_lt, H3.
Qed.

Lemma key_value v : in_u16 v → keyValue (nftUint16ToKey v) = v.
Proof.
  unfold in_u16. intros Hv. unfold nftUint16ToKey, keyValue, u8. rewrite Z.shiftr_div_pow2 by lia.
  pose proof (Z.div_mod v (2 ^ 8)). lia.
Qed.

Definition in_port (p : Z) (r : PortRange) : Prop := low r ≤ p ≤ high r.

(** A range whose bounds are in order, without port 0 and without the last port. *)
Definition inner (r : PortRange) : Prop := 0 < low r ≤ high r ∧ high r < 65535.

(** The ranges the loop does not skip, and the elements of one. *)
Fixpoint kept (highest : Z) (ports : list PortRange) : list PortRange :=
  match ports with
  | [] => []
  | r :: ports => if low r <=? highest then kept highest ports else r :: kept (high r) ports
  end.
Definition elements (r : PortRange) : list SetElement :=
  [mkElem (nftUint16ToKey (low r)) false; mkElem (nftUint16ToKey (u16 (high r + 1))) true].

Lemma setElements_kept ports : ∀ highest, setElements highest ports = kept highest ports ≫= elements.
Proof. induction ports as [|r ports IH]; intros h; cbn; [done|]. destruct (low r <=? h); [apply IH|]. cbn. by rewrite IH. Qed.

Lemma kept_sub ports : ∀ highest, kept highest ports ⊆ ports.
Proof. induction ports as [|r ports IH]; intros h; cbn; [done|]. destruct (low r <=? h); [|specialize (IH (high r))]; set_solver. Qed.

Lemma kept_above ports : ∀ highest r, Forall inner ports → r ∈ kept highest ports → highest < low r.
Proof.
  induction ports as [|r0 ports IH]; intros h r Hp; cbn; [set_solver|]. apply Forall_cons in Hp as [H0 Hp].
  destruct (Z.leb_spec (low r0) h); [by apply IH|]. intros [->|Hr]%elem_of_cons; [done|].
  apply IH in Hr; [|done]. unfold inner in H0. lia.
Qed.

(** Two of them do not overlap. *)
Lemma kept_apart ports : ∀ highest r r', Forall inner ports → r ∈ kept highest ports → r' ∈ kept highest ports →
  r = r' ∨ high r < low r' ∨ high r' < low r.
Proof.
  induction ports as [|r0 ports IH]; intros h r r' Hp; cbn; [set_solver|]. apply Forall_cons in Hp as [H0 Hp].
  destruct (low r0 <=? h); [by apply IH|]. rewrite !elem_of_cons.
  intros [->|Hr] [->|Hr']; [by left| | |by eapply IH].
  - right. left. by eapply kept_above.
  - right. right. by eapply kept_above.
Qed.

(** The first port of every range is in one of them. *)
Lemma kept_starts ports : ∀ highest r, Forall inner ports → StronglySorted (λ a b, low a ≤ low b) ports → r ∈ ports →
  low r ≤ highest ∨ ∃ k, k ∈ kept highest ports ∧ in_port (low r) k.
Proof.
  induction ports as [|r0 ports IH]; intros h r Hp Hs; cbn; [set_solver|]. apply Forall_cons in Hp as [H0 Hp].
  apply StronglySorted_inv in Hs as [Hs Hle]. unfold in_port, inner in *.
  assert (r ∈ ports → low r0 ≤ low r) as Hr0 by (rewrite Forall_forall in Hle; apply Hle).
  destruct (Z.leb_spec (low r0) h).
  - intros [->|Hr]%elem_of_cons; [by left|]. by apply IH.
  - intros Hr. right. destruct (decide (low r ≤ high r0 ∧ low r0 ≤ low r)) as [[]|Hd]; [exists r0; split; [set_solver|lia]|].
    apply elem_of_cons in Hr as [->|Hr]; [lia|].
    destruct (IH (high r0) r Hp Hs Hr) as [?|(k & ? & ?)]; [exfalso; specialize (Hr0 Hr); lia|]. exists k. set_solver.
Qed.

Lemma elements_keys r : inner r → Forall2 (λ e k, elemKey e = k) (elements r) [low r; high r + 1].
Proof.
  intros [H1 H2]. unfold elements, elemKey. repeat constructor; cbn [Key]; rewrite ?u16_small; rewrite ?key_value; try done; unfold in_u16; lia.
Qed.

Lemma inSet_kept ports highest p : Forall inner ports →
  inSet (setElements highest ports) p = true ↔ ∃ k, k ∈ kept highest ports ∧ in_port p k.
Proof.
  intros Hp. rewrite setElements_kept, inSet_spec.
  assert (∀ k, k ∈ kept highest ports → inner k ∧ elemKey (mkElem (nftUint16ToKey (low k)) false) = low k ∧
    elemKey (mkElem (nftUint16ToKey (u16 (high k + 1))) true) = high k + 1) as Hk.
  { intros k Hk%kept_sub. rewrite Forall_forall in Hp. specialize (Hp k Hk). split; [done|].
    pose proof (elements_keys k Hp) as H. apply Forall2_cons in H as [H1 H]. by apply Forall2_cons in H as [H2 _]. }
  unfold in_port. split.
  - intros (s & (k & Hs & Hin)%list_elem_of_bind & He & Hle & Hend). exists k. split; [done|]. destruct (Hk k Hin) as (Hi & K1 & K2).
    unfold inner in Hi. unfold elements in Hs. apply elem_of_cons in Hs as [->|Hs]; [|by apply list_elem_of_singleton in Hs as ->].
    rewrite K1 in *. split; [done|]. specialize (Hend (mkElem (nftUint16ToKey (u16 (high k + 1))) true)). rewrite K2 in Hend.
    enough (p < high k + 1) by lia. apply Hend; [|done|lia]. apply list_elem_of_bind. exists k. split; [unfold elements; set_solver|done].
  - intros (k & Hin & Hp1 & Hp2). destruct (Hk k Hin) as (Hi & K1 & K2). exists (mkElem (nftUint16ToKey (low k)) false). rewrite K1.
    split_and!; [|done|done|].
    + apply list_elem_of_bind. exists k. split; [unfold elements; set_solver|done].
    + intros e (k' & He & Hin')%list_elem_of_bind Hend. destruct (Hk k' Hin') as (Hi' & K1' & K2'). unfold inner in Hi, Hi'.
      unfold elements in He. apply elem_of_cons in He as [->|He]; [done|]. apply list_elem_of_singleton in He as ->. rewrite K2'.
      destruct (kept_apart ports highest k k' Hp Hin Hin') as [->|[?|?]]; lia.
Qed.

Lemma StronglySorted_mono {A} (P Q : A → A → Prop) l : (∀ a b, P a b → Q a b) → StronglySorted P l → StronglySorted Q l.
Proof. intros HPQ. induction 1; constructor; [done|]. eapply Forall_impl; eauto. Qed.

(** C33: the set of blocked or allowed ports built from configured ranges, in any order and
    overlapping or not, as long as their bounds are in order and leave out ports 0 and 65535.
    Only configured ports are in the set; the first port of every range is; a range is in it
    as a whole when no other range reaches into its start; so the set of ranges that
    do not overlap contains exactly their ports. *)
Theorem ports_covered (sortSlice : Sorter) (ports : list PortRange) :
  sorts sortSlice → Forall inner ports →
  let els := blockedElements sortSlice ports in
  (∀ p, inSet els p = true → Exists (in_port p) ports) ∧
  (∀ r, r ∈ ports → inSet els (low r) = true) ∧
  (∀ r, r ∈ ports → (∀ r', r' ∈ ports → in_port (low r) r' → r' = r) → ∀ p, in_port p r → inSet els p = true) ∧
  ((∀ r r' p, r ∈ ports → r' ∈ ports → in_port p r → in_port p r' → r = r') →
   ∀ p, inSet els p = true ↔ Exists (in_port p) ports).
Proof.
  intros Hsort Hp els. destruct (Hsort (λ a b, low a <? low b) ports) as [Hperm Hs].
  unfold els, blockedElements. clear els. set (sorted := sortSlice _ ports) in *.
  assert (Forall inner sorted) as Hp' by (by rewrite Hperm).
  assert (StronglySorted (λ a b, low a ≤ low b) sorted) as Hle.
  { eapply StronglySorted_mono; [|apply Hs]; [by intros a b ?%Z.ltb_ge|intros a; apply Z.ltb_irrefl|..]; intros a b d; rewrite ?Z.ltb_lt, ?Z.ltb_ge; lia. }
  assert (∀ r, r ∈ ports → ∃ k, k ∈ ports ∧ k ∈ kept 0 sorted ∧ in_port (low r) k) as Hstart.
  { intros r Hr. assert (r ∈ sorted) as Hr' by (by rewrite Hperm). destruct (kept_starts sorted 0 r Hp' Hle Hr') as [H0|(k & Hk & ?)].
    - rewrite Forall_forall in Hp. specialize (Hp r Hr). unfold inner in Hp. lia.
    - exists k. split_and!; try done. rewrite <-Hperm. by eapply kept_sub. }
  setoid_rewrite (inSet_kept sorted 0 _ Hp'). setoid_rewrite Exists_exists.
  assert (∀ p, (∃ k, k ∈ kept 0 sorted ∧ in_port p k) → ∃ r, r ∈ ports ∧ in_port p r) as Hsound.
  { intros p (k & Hk & Hin). exists k. split; [|done]. rewrite <-Hperm. by eapply kept_sub. }
  assert (∀ r, r ∈ ports → (∀ r', r' ∈ ports → in_port (low r) r' → r' = r) → ∀ p, in_port p r → ∃ k, k ∈ kept 0 sorted ∧ in_port p k) as Hwhole.
  { intros r Hr Halone p Hin. destruct (Hstart r Hr) as (k & H1 & H2 & H3). exists k. by rewrite (Halone k H1 H3) in *. }
  split_and!; [done| |done|].
  - intros r Hr. destruct (Hstart r Hr) as (k & _ & ? & ?). eauto.
  - intros Hdisj p. split; [apply Hsound|]. intros (r & Hr & Hin). apply (Hwhole r); try done.
    intros r' Hr' Hin'. apply (Hdisj r' r (low r)); try done. rewrite Forall_forall in Hp. specialize (Hp r Hr). unfold inner, in_port in *. lia.
Qed.

(** A merge sort is such a sort. *)
Definition mergeSort : Sorter := λ less,
  merge_sort (λ a b, less b a = false) (H := λ a b, bool_eq_dec (less b a) false).
Lemma merge_sorts : sorts mergeSort.
Proof.
  intros less l. split; [apply merge_sort_Permutation|]. intros Hi Ht Hn. apply StronglySorted_merge_sort.
  - exact Hn.
  - intros a b. destruct (less b a) eqn:E1; [|by left]. right. destruct (less a b) eqn:E2; [|done].
    pose proof (Ht a b a E2 E1) as E. cbn in E. by rewrite Hi in E.
Qed.

Lemma ports_covered_witness :
  inSet (blockedElements mergeSort [mkRange 137 139; mkRange 60 69; mkRange 65 66]) 69 = true ∧
  inSet (blockedElements mergeSort [mkRange 137 139; mkRange 60 69; mkRange 65 66]) 137 = true.
Proof.
  destruct (ports_covered mergeSort [mkRange 137 139; mkRange 60 69; mkRange 65 66] merge_sorts) as (_ & H1 & H2 & _).
  - repeat constructor; cbn; lia.
  - split; [|apply (H1 (mkRange 137 139)); set_solver].
    apply (H2 (mkRange 60 69)); [set_solver| |unfold in_port; cbn; lia].
    intros r' Hr'. unfold in_port. cbn. rewrite !elem_of_cons, elem_of_nil in Hr'. destruct Hr' as [->|[->|[->|[]]]]; cbn; lia || done.
Defined.

(** Outside those assumptions configured ports are lost: the tail of a range that
    overlaps the one before it, and ranges with port 0; the end of a range up to 65535 is
    sent as port 0. *)
Example ports_lost :
  let overlap := [mkRange 10 20; mkRange 15 30] in
  let zero := [mkRange 0 5] in
  let top := [mkRange 60000 65535] in
  (∀ p, 21 ≤ p ≤ 30 → Exists (in_port p) overlap ∧ inSet (blockedElements mergeSort overlap) p = false) ∧
  blockedElements mergeSort zero = [] ∧
  blockedElements mergeSort top = [mkElem [234; 96] false; mkElem [0; 0] true].
Proof.
  cbv zeta.
  let v := eval vm_compute in (blockedElements mergeSort [mkRange 10 20; mkRange 15 30]) in
    change (blockedElements mergeSort [mkRange 10 20; mkRange 15 30]) with v.
  split_and!; [|by vm_compute|by vm_compute].
  intros p Hp. split; [right; left; unfold in_port; cbn; lia|]. apply not_true_iff_false. rewrite inSet_spec.
  intros (s & Hs & H1 & H2 & H3). rewrite !elem_of_cons, elem_of_nil in Hs. destruct Hs as [->|[->|[]]]; [|done].
  specialize (H3 (mkElem [0; 21] true)). unfold elemKey in *. cbn in *. enough (p < 21) by lia. apply H3; [set_solver|done|lia].
Qed.
