(* ===== verification/NetFilter.v ===== *)
(** * ipam: netfilter rules

    Models [src/ipam/nft_linux.go] (and [nft_other.go]) on top of the nftables library,
    which is a parameter: a connection type with the operations the code calls.  Rules,
    chains and expressions are data with the fields the code sets. *)
From S2P Require Import Prelude Text Net Ports.

Local Open Scope Z_scope.

Inductive hook := HookForward | HookPrerouting | HookPostrouting.
Inductive chaintype := ChainTypeFilter | ChainTypeNAT.
Inductive base := NetworkHeader | TransportHeader.
Inductive verdict := VerdictAccept | VerdictDrop.

(** The expressions of package [expr] the code builds. *)
Inductive expr : Type :=
  | Counter
  | Masq
  | Payload (dest : Z) (b : base) (offset len : Z)
  | Cmp (register : Z) (data : bytes)
  | Meta (register : Z)                       (* MetaKeyL4PROTO *)
  | Ct (register : Z)
  | Lookup (register : Z) (set : bytes) (id : Z)
  | Verdict (v : verdict).

(** Every table is of the inet family and every chain has the accept policy. *)
Record Table := mkTable { t_name : bytes }.
Record Chain := mkChain { ch_name : bytes; ch_table : Table; ch_hook : hook; ch_type : chaintype }.
Record Rule := mkRule { r_table : Table; r_chain : Chain; r_user : bytes; r_exprs : list expr; r_handle : Z }.
Record NftSet := mkSet { s_table : Table; s_name : bytes; s_interval : bool; s_id : Z }.

(** The nftables connection: messages are queued and sent by [Flush]. *)
Class NftConn (C : Type) := {
  AddTable : Table → C → C;
  FlushTable : Table → C → C;
  AddChain : Chain → C → C;
  AddRule : Rule → C → C;
  AddSet : NftSet → list SetElement → C → C * option NftSet;   (* None: error *)
  Flush : C → C * bool;                                        (* false: error *)
  ListChains : C → option (list Chain);
  GetRule : Table → Chain → C → option (list Rule);
  DelRule : Rule → C → C * bool
}.

Inductive nferr := ErrInit | ErrIsolatePeer | ErrIsolateAll | ErrListChains | ErrListRules | ErrDelete
  | ErrRuleNotFound | ErrCreateSet | ErrSetPorts.

Definition nftPrefix : bytes := txt "vh_".
Definition nfIsolationTable : Table := mkTable (nftPrefix ++ txt "isolation").
Definition nfIsolationChain : Chain := mkChain (nftPrefix ++ txt "filter") nfIsolationTable HookForward ChainTypeFilter.
Definition nfPortfilterTable : Table := mkTable (nftPrefix ++ txt "portfilter").
Definition nfPortfilterChain : Chain := mkChain (nftPrefix ++ txt "filter") nfPortfilterTable HookForward ChainTypeFilter.

Definition ipnetSizeBytes (ipn : IPNet) : Z :=
  let ones := (Size (n_mask ipn)).1 in
  if ones <=? 8 then 1 else if ones <=? 16 then 2 else if ones <=? 24 then 3 else 4.

(** [peerAddrBytes] is compared with the source address, its first [subnetSize]
    bytes with the destination. *)
Definition isolatePeerRule (subnetSize : Z) (peer : bytes) : Rule :=
  mkRule nfIsolationTable nfIsolationChain peer
    [ Payload 1 NetworkHeader 12 4; Cmp 1 peer;
      Payload 1 NetworkHeader 16 4; Cmp 1 (slice 0 subnetSize peer);
      Verdict VerdictDrop ] 0.

Definition isolateAllRule (subnet : bytes) : Rule :=
  mkRule nfIsolationTable nfIsolationChain [0xc0; 0xde; 0x01]
    [ Payload 1 NetworkHeader 12 4; Cmp 1 subnet;
      Payload 1 NetworkHeader 16 4; Cmp 1 subnet;
      Verdict VerdictDrop ] 0.

Definition nftCtStateToKey (st : Z) : bytes :=
  [u8 st; u8 (Z.shiftr st 8); u8 (Z.shiftr st 16); u8 (Z.shiftr st 24)].
Definition CtStateBitRELATED : Z := 4.
Definition CtStateBitESTABLISHED : Z := 2.

(** The rule that matches a protocol and a destination port set. *)
Definition portRule (proto : protocolID) (set : NftSet) (v : verdict) : Rule :=
  mkRule nfPortfilterTable nfPortfilterChain []
    [ Meta 1; Cmp 1 [u8 (p_id proto)]; Payload 1 TransportHeader 2 2;
      Lookup 1 (s_name set) (s_id set); Counter; Verdict v ] 0.

(** The rule that drops the rest of a protocol in allow-list mode. *)
Definition protoDropRule (proto : protocolID) : Rule :=
  mkRule nfPortfilterTable nfPortfilterChain []
    [ Payload 1 NetworkHeader 9 1; Cmp 1 [u8 (p_id proto)]; Counter; Verdict VerdictDrop ] 0.

Section nft.
Context {C : Type} `{!NftConn C}.
(** [sort.Slice] *)
Context (sortSlice : Sorter).

(** The wrapper, with the package variable [nftSetCounter]. *)
Record netfilterWrapper := mkNft { c : C; subnetSize : Z; nftSetCounter : Z }.

Definition on_conn (f : C → C) (n : netfilterWrapper) : netfilterWrapper :=
  mkNft (f (c n)) (subnetSize n) (nftSetCounter n).

Definition newNetfilter (conn : C) (counter : Z) (subnet : IPNet) : netfilterWrapper :=
  mkNft conn (ipnetSizeBytes subnet) counter.

(** [nft.c.Flush()] with the error it is wrapped into. *)
Definition flushOr (e : nferr) (n : netfilterWrapper) : netfilterWrapper * option nferr :=
  let '(conn, ok) := Flush (c n) in
  (mkNft conn (subnetSize n) (nftSetCounter n), if ok then None else Some e).

Definition nftNextSetName (n : netfilterWrapper) : bytes * netfilterWrapper :=
  let ctr := u32 (nftSetCounter n + 1) in
  (txt "__vh_set" ++ utoa ctr, mkNft (c n) (subnetSize n) ctr).

Definition enableMasquerade : netfilterWrapper → netfilterWrapper := on_conn (λ conn,
  let nat := mkTable (nftPrefix ++ txt "nat") in
  let post := mkChain (nftPrefix ++ txt "postrouting") nat HookPostrouting ChainTypeNAT in
  let pre := mkChain (nftPrefix ++ txt "prerouting") nat HookPrerouting ChainTypeNAT in
  let conn := FlushTable nat (AddTable nat conn) in
  let conn := AddRule (mkRule nat post [] [Counter; Masq] 0) (AddChain post conn) in
  AddRule (mkRule nat pre [] [] 0) (AddChain pre conn)).

Definition initTable (table : Table) (chain : Chain) : netfilterWrapper → netfilterWrapper := on_conn (λ conn,
  AddRule (mkRule table chain [] [Counter] 0) (AddChain chain (FlushTable table (AddTable table conn)))).

(** The [verdict] argument is not used: the rule always accepts. *)
Definition addCtMatchRule (table : Table) (chain : Chain) (bits : list Z) (v : verdict)
    (n : netfilterWrapper) : netfilterWrapper * option nferr :=
  let '(name, n) := nftNextSetName n in
  let els := (λ st, mkElem (nftCtStateToKey st) false) <$> bits in
  let '(conn, r) := AddSet (mkSet table name false 0) els (c n) in
  let n := mkNft conn (subnetSize n) (nftSetCounter n) in
  match r with
  | None => (n, Some ErrCreateSet)
  | Some set =>
      (on_conn (AddRule (mkRule table chain []
         [Ct 1; Lookup 1 (s_name set) (s_id set); Counter; Verdict VerdictAccept] 0)) n, None)
  end.

Definition initPortfilterTable (table : Table) (chain : Chain) (n : netfilterWrapper) : netfilterWrapper :=
  (addCtMatchRule table chain [CtStateBitESTABLISHED; CtStateBitRELATED] VerdictAccept (initTable table chain n)).1.

Definition nft_init (n : netfilterWrapper) : netfilterWrapper * option nferr :=
  let n := enableMasquerade n in
  let n := initTable nfIsolationTable nfIsolationChain n in
  let n := initPortfilterTable nfPortfilterTable nfPortfilterChain n in
  flushOr ErrInit n.

(** [None]: the slice expression on a nil or short address panics. *)
Definition newIsolatePeerRule (peerIP : IP) (n : netfilterWrapper) : option (netfilterWrapper * option nferr) :=
  let peer := default [] (To4 peerIP) in
  if zlen peer <? subnetSize n then None else
  Some (flushOr ErrIsolatePeer (on_conn (AddRule (isolatePeerRule (subnetSize n) peer)) n)).

Definition newIsolateAllRule (ipNet : IPNet) (n : netfilterWrapper) : option (netfilterWrapper * option nferr) :=
  let ip := default [] (To4 (n_ip ipNet)) in
  let sz := ipnetSizeBytes ipNet in
  if zlen ip <? sz then None else
  Some (flushOr ErrIsolateAll (on_conn (AddRule (isolateAllRule (slice 0 sz ip))) n)).

(** The search of [findAndRemoveRule]: the first rule with the given user data,
    chain by chain. *)
Definition withId (id : bytes) (rules : list Rule) : option Rule :=
  snd <$> list_find (λ r, r_user r = id) rules.

Fixpoint findRule (id : bytes) (conn : C) (chains : list Chain) : nferr + Rule :=
  match chains with
  | [] => inl ErrRuleNotFound
  | cn :: chains =>
      match GetRule (ch_table cn) cn conn with
      | None => inl ErrListRules
      | Some rules => match withId id rules with Some r => inr r | None => findRule id conn chains end
      end
  end.

Definition findAndRemoveRule (id : bytes) (n : netfilterWrapper) : netfilterWrapper * option nferr :=
  match ListChains (c n) with
  | None => (n, Some ErrListChains)
  | Some chains =>
      match findRule id (c n) chains with
      | inl e => (n, Some e)
      | inr r =>
          let '(conn, ok) := DelRule r (c n) in
          let n := mkNft conn (subnetSize n) (nftSetCounter n) in
          if ok then flushOr ErrDelete n else (n, Some ErrDelete)
      end
  end.

Definition setBlockedPorts4proto (ports : option (list PortRange)) (proto : protocolID) (mode : Z)
    (n : netfilterWrapper) : netfilterWrapper * option nferr :=
  match ports with
  | None => (n, None)
  | Some ports =>
      let '(name, n) := nftNextSetName n in
      let '(conn, r) := AddSet (mkSet nfPortfilterTable name true 0) (blockedElements sortSlice ports) (c n) in
      let n := mkNft conn (subnetSize n) (nftSetCounter n) in
      match r with
      | None => (n, Some ErrCreateSet)
      | Some set =>
          let v := if AllowList mode then VerdictAccept else VerdictDrop in
          let n := on_conn (AddRule (portRule proto set v)) n in
          let n := if AllowList mode then on_conn (AddRule (protoDropRule proto)) n else n in
          flushOr ErrSetPorts n
      end
  end.

Definition fillPortRestrictionRules (ports : PortRestrictionConfig) (n : netfilterWrapper)
    : netfilterWrapper * option nferr :=
  let '(n, e) := setBlockedPorts4proto (Ports (UDP ports)) protocolUDP (Mode (UDP ports)) n in
  match e with
  | Some e => (n, Some e)
  | None => setBlockedPorts4proto (Ports (TCP ports)) protocolTCP (Mode (TCP ports)) n
  end.
End nft.

Arguments netfilterWrapper : clear implicits.
