(* ===== verification/NetFilterProps.v ===== *)
(** * ipam: which packets the isolation rules drop *)
From S2P Require Import Prelude Text Net NetProps Ports NetFilter.

Local Open Scope Z_scope.

(** The destination and source address of an IPv4 header. *)
Definition srcOf (hdr : bytes) : IP := slice 12 16 hdr.
Definition dstOf (hdr : bytes) : IP := slice 16 20 hdr.

Section isolation.
(** The kernel's evaluation of the expressions of a rule on a network header;
    [None]: the rule does not apply. *)
Context (eval : list expr → bytes → option verdict).
(** A load into a register followed by a comparison of the register's first bytes. *)
Hypothesis eval_load_cmp : ∀ r off len d es hdr,
  eval (Payload r NetworkHeader off len :: Cmp r d :: es) hdr =
  if bool_decide (slice 0 (zlen d) (slice off (off + len) hdr) = d) then eval es hdr else None.
Hypothesis eval_verdict : ∀ v hdr, eval [Verdict v] hdr = Some v.

Lemma eval_isolateAll subnet hdr :
  eval (r_exprs (isolateAllRule subnet)) hdr =
  if bool_decide (slice 0 (zlen subnet) (srcOf hdr) = subnet ∧ slice 0 (zlen subnet) (dstOf hdr) = subnet)
  then Some VerdictDrop else None.
Proof using eval_load_cmp eval_verdict.
  cbn [r_exprs isolateAllRule]. rewrite !eval_load_cmp, eval_verdict. change (12 + 4) with 16. change (16 + 4) with 20.
  fold (srcOf hdr) (dstOf hdr). repeat case_bool_decide; tauto.
Qed.

Lemma eval_isolatePeer sz peer hdr :
  zlen peer = 4 → 0 ≤ sz ≤ 4 → zlen (srcOf hdr) = 4 →
  eval (r_exprs (isolatePeerRule sz peer)) hdr =
  if bool_decide (srcOf hdr = peer ∧ slice 0 sz (dstOf hdr) = slice 0 sz peer) then Some VerdictDrop else None.
Proof using eval_load_cmp eval_verdict.
  intros Hp Hs Hh. cbn [r_exprs isolatePeerRule]. rewrite !eval_load_cmp, eval_verdict.
  change (12 + 4) with 16. change (16 + 4) with 20. fold (srcOf hdr) (dstOf hdr).
  rewrite zlen_slice, Z.sub_0_r, Hp, <- Hh, slice_full by lia.
  repeat case_bool_decide; tauto.
Qed.

(** ** Byte-aligned prefixes *)
Definition byteMask (k : Z) : Prop := k = 8 ∨ k = 16 ∨ k = 24.

Lemma contains_prefix k ip x :
  byteMask k → v4 ip → v4 x →
  Contains (mkIPNet ip (CIDRMask k)) x = true ↔ slice 0 (k / 8) x = slice 0 (k / 8) ip.
Proof using.
  intros Hk (a0 & a1 & a2 & a3 & -> & A0 & A1 & A2 & A3)%v4_inv (b0 & b1 & b2 & b3 & -> & B0 & B1 & B2 & B3)%v4_inv.
  unfold Contains, To4. change (zlen [b0; b1; b2; b3] =? 4) with true. cbn [default from_option id n_ip n_mask].
  change (zlen [b0; b1; b2; b3] =? zlen [a0; a1; a2; a3]) with true. cbn [andb].
  destruct Hk as [->|[->| ->]].
  - change (CIDRMask 8) with [255; 0; 0; 0]. change (8 / 8) with 1. cbn [zip zip_with forallb].
    rewrite !Z.land_0_r, !andb_true_iff, !Z.eqb_eq, land_255 by done.
    change (slice 0 1 [b0; b1; b2; b3]) with [b0]. change (slice 0 1 [a0; a1; a2; a3]) with [a0].
    split; [intros [-> _]; done|by intros [= ->]].
  - change (CIDRMask 16) with [255; 255; 0; 0]. change (16 / 8) with 2. cbn [zip zip_with forallb].
    rewrite !Z.land_0_r, !andb_true_iff, !Z.eqb_eq, !land_255 by done.
    change (slice 0 2 [b0; b1; b2; b3]) with [b0; b1]. change (slice 0 2 [a0; a1; a2; a3]) with [a0; a1].
    split; [intros [-> [-> _]]; done|by intros [= -> ->]].
  - change (CIDRMask 24) with [255; 255; 255; 0]. change (24 / 8) with 3. cbn [zip zip_with forallb].
    rewrite !Z.land_0_r, !andb_true_iff, !Z.eqb_eq, !land_255 by done.
    change (slice 0 3 [b0; b1; b2; b3]) with [b0; b1; b2]. change (slice 0 3 [a0; a1; a2; a3]) with [a0; a1; a2].
    split; [intros [-> [-> [-> _]]]; done|by intros [= -> -> ->]].
Qed.

Lemma size_bytes ip k : byteMask k → ipnetSizeBytes (mkIPNet ip (CIDRMask k)) = k / 8.
Proof using. unfold ipnetSizeBytes. cbn [n_mask]. by intros [->|[->| ->]]. Qed.

(** C32: for the prefix lengths 8, 16 and 24 the "isolate all" rule drops exactly the
    packets whose source and destination are both in the subnet, and the rule of
    one peer drops exactly that peer's packets into the subnet. *)
Theorem isolation_exact (ip peer : IP) (k : Z) (hdr : bytes) :
  byteMask k → v4 ip → v4 peer → v4 (srcOf hdr) → v4 (dstOf hdr) →
  let net := mkIPNet ip (CIDRMask k) in
  (eval (r_exprs (isolateAllRule (slice 0 (ipnetSizeBytes net) ip))) hdr = Some VerdictDrop ↔
     Contains net (srcOf hdr) = true ∧ Contains net (dstOf hdr) = true) ∧
  (Contains net peer = true →
   eval (r_exprs (isolatePeerRule (ipnetSizeBytes net) peer)) hdr = Some VerdictDrop ↔
     srcOf hdr = peer ∧ Contains net (dstOf hdr) = true).
Proof using eval_load_cmp eval_verdict.
  intros Hk Hip Hpeer Hs Hd net. unfold net. rewrite size_bytes by done. rewrite !contains_prefix by done.
  assert (0 ≤ k / 8 ≤ 4) as Hk8 by (destruct Hk as [->|[->| ->]]; vm_compute; split; congruence).
  assert (∀ x, v4 x → zlen x = 4) as Hlen by (intros x [Hx _]; unfold zlen; by rewrite Hx).
  split.
  - rewrite eval_isolateAll. rewrite zlen_slice, Z.sub_0_r by (rewrite ?Hlen; done || lia).
    case_bool_decide; intuition congruence.
  - intros Hp. rewrite eval_isolatePeer by (rewrite ?Hlen; done || lia). rewrite Hp.
    case_bool_decide; intuition congruence.
Qed.

(** ** Other prefixes *)
Lemma mask3_cases : ∀ ones, 17 ≤ ones ≤ 23 →
  CIDRMask ones = [255; 255; 256 - 2 ^ (24 - ones); 0] ∧ ipnetSizeBytes (mkIPNet [] (CIDRMask ones)) = 3.
Proof using.
  intros ones Ho.
  cut (∀ o, 0 ≤ o ≤ 32 → 17 ≤ o ≤ 23 →
    CIDRMask o = [255; 255; 256 - 2 ^ (24 - o); 0] ∧ ipnetSizeBytes (mkIPNet [] (CIDRMask o)) = 3);
    [intros H; apply H; lia|].
  apply (prefix_cases (λ o, 17 ≤ o ≤ 23 → _)). by vm_compute.
Qed.

Lemma next_byte : ∀ b, in_u8 b → ∀ ones, 17 ≤ ones ≤ 23 →
  Z.land b (256 - 2 ^ (24 - ones)) = b → Z.land (b + 1) (256 - 2 ^ (24 - ones)) = b.
Proof using.
  intros b Hb ones Ho.
  assert (∃ j, 1 ≤ j ≤ 7 ∧ 24 - ones = j) as (j & Hj & ->) by (eexists; split; [|done]; lia).
  revert b Hb. assert (j = 1 ∨ j = 2 ∨ j = 3 ∨ j = 4 ∨ j = 5 ∨ j = 6 ∨ j = 7) as Hc by lia.
  destruct Hc as [->|[->|[->|[->|[->|[->| ->]]]]]].
  all: apply (byte_cases (λ b, Z.land b _ = b → Z.land (b + 1) _ = b)); by vm_compute.
Qed.

(** For a subnet of prefix 17 to 23 the "isolate all" rule compares three whole
    bytes, more than the prefix: two peers of the subnet with different third bytes
    are not isolated from each other. *)
Theorem isolation_gap (a b d x y ones : Z) (hdr : bytes) :
  v4 [a; b; d; 0] → 17 ≤ ones ≤ 23 → Z.land d (256 - 2 ^ (24 - ones)) = d →
  srcOf hdr = [a; b; d; x] → dstOf hdr = [a; b; d + 1; y] →
  let net := mkIPNet [a; b; d; 0] (CIDRMask ones) in
  Contains net (srcOf hdr) = true ∧ Contains net (dstOf hdr) = true ∧
  eval (r_exprs (isolateAllRule (slice 0 (ipnetSizeBytes net) [a; b; d; 0]))) hdr = None.
Proof using eval_load_cmp eval_verdict.
  intros Hv Ho Hm Hs Hd net. apply v4_inv in Hv as (? & ? & ? & ? & [= <- <- <- <-] & Ha & Hb & Hdd & _).
  destruct (mask3_cases ones Ho) as [Emask Esz]. unfold net, Contains, To4. rewrite Hs, Hd, Emask.
  cbn [default from_option id n_ip n_mask length zlen].
  change (zlen [a; b; d; x] =? 4) with true. change (zlen [a; b; d + 1; y] =? 4) with true.
  cbn [default from_option id]. change (zlen [a; b; d; x] =? zlen [a; b; d; 0]) with true.
  change (zlen [a; b; d + 1; y] =? zlen [a; b; d; 0]) with true. cbn [andb zip zip_with forallb].
  rewrite !Z.eqb_refl, !Z.land_0_r. cbn [andb]. split_and!; [done| |].
  - rewrite (next_byte d Hdd ones Ho Hm), Hm. by rewrite Z.eqb_refl.
  - rewrite eval_isolateAll, Hs, Hd.
    replace (ipnetSizeBytes (mkIPNet [a; b; d; 0] [255; 255; 256 - 2 ^ (24 - ones); 0])) with 3
      by (rewrite <- Emask, <- Esz; done).
    change (slice 0 3 [a; b; d; 0]) with [a; b; d]. change (zlen [a; b; d]) with 3.
    change (slice 0 3 [a; b; d + 1; y]) with [a; b; d + 1].
    rewrite bool_decide_eq_false_2; [done|]. intros [_ [= E]]. lia.
Qed.
End isolation.

(** ** A concrete evaluation of load-and-compare pairs *)
Fixpoint eval0 (es : list expr) (hdr : bytes) : option verdict :=
  match es with
  | Payload _ NetworkHeader off len :: Cmp _ d :: es =>
      if bool_decide (slice 0 (zlen d) (slice off (off + len) hdr) = d) then eval0 es hdr else None
  | [Verdict v] => Some v
  | _ => None
  end.

Definition sample_hdr (src dst : IP) : bytes := replicate 12 0 ++ src ++ dst.

Lemma isolation_exact_witness :
  eval0 (r_exprs (isolateAllRule [10; 1; 2])) (sample_hdr [10; 1; 2; 5] [10; 1; 2; 9]) = Some VerdictDrop.
Proof.
  destruct (isolation_exact eval0 (λ r off len d es hdr, eq_refl) (λ v hdr, eq_refl)
           [10; 1; 2; 0] [10; 1; 2; 5] 24 (sample_hdr [10; 1; 2; 5] [10; 1; 2; 9])) as [[_ Hdrop] _].
  - unfold byteMask. lia.
  - split; [reflexivity|repeat constructor; discriminate].
  - split; [reflexivity|repeat constructor; discriminate].
  - split; [reflexivity|repeat constructor; discriminate].
  - split; [reflexivity|repeat constructor; discriminate].
  - apply Hdrop. split; vm_compute; reflexivity.
Defined.

Lemma isolation_gap_witness :
  eval0 (r_exprs (isolateAllRule [10; 0; 16])) (sample_hdr [10; 0; 16; 5] [10; 0; 17; 9]) = None.
Proof.
  apply (isolation_gap eval0 (λ r off len d es hdr, eq_refl) (λ v hdr, eq_refl)
           10 0 16 5 9 20 (sample_hdr [10; 0; 16; 5] [10; 0; 17; 9])).
  - split; [reflexivity|repeat constructor; discriminate].
  - lia.
  - reflexivity.
  - reflexivity.
  - reflexivity.
Defined.
