(* ===== verification/TrafficControl.v ===== *)
(** * ipam: bandwidth limits

    Models [src/ipam/tc_linux.go], [tc.go] and [tc_noop.go].  The netlink library
    is a parameter: a handle type with the operations the code calls and the
    [MakeHandle] encoding.  The kernel answers of each call are part of the handle's
    state, so every error path can be taken. *)
From S2P Require Import Prelude Text Net.

Local Open Scope Z_scope.

(** ** Rates (tc.go) *)
Definition Bitps : Z := 1.
Definition Kbitps : Z := Bitps * 1000.
Definition Mbitps : Z := Kbitps * 1000.
Definition Gbitps : Z := Mbitps * 1000.

Definition defaultClassID : Z := 0x999.

(** ** The netlink objects the code builds *)
Inductive parent := HANDLE_ROOT | Handle (h : Z).

Record Qdisc := mkQdisc { q_link : Z; q_handle : Z; q_parent : parent; q_defcls : Z }.
(** The attributes given to [NewHtbClass]. *)
Record HtbClass := mkClass { k_link : Z; k_handle : Z; k_parent : parent; k_rate : Z }.
(** [TcU32Sel] with its keys' [Val]s; the mask, offset and flags are constants. *)
Record U32 := mkU32 { f_link : Z; f_handle : Z; f_parent : Z; f_class : Z; f_keys : list Z }.
(** What [FilterList] returns: a u32 filter or one of another kind. *)
Inductive tcfilter := FU32 (u : U32) | FOther.

(** Each call returns the handle after it and whether it succeeded. *)
Class Netlink (H : Type) := {
  MakeHandle : Z → Z → Z;
  QdiscAdd : Qdisc → H → H * bool;
  QdiscDel : Qdisc → H → H * bool;
  ClassAdd : HtbClass → H → H * bool;
  ClassDel : HtbClass → H → H * bool;
  FilterAdd : U32 → H → H * bool;
  FilterDel : U32 → H → H * bool;
  FilterList : Z → Z → H → option (list tcfilter)
}.

Inductive tcerr := ErrRootHandle | ErrDefaultClass | ErrParentClass | ErrLimitSet | ErrAddClass | ErrAddFilter
  | ErrListFilters | ErrLoadBack | ErrNoLimit | ErrDelFilter | ErrDelClass | ErrDelQdisc.

Section tc.
Context {H : Type} `{!Netlink H}.

Record tcWrapper := mkTc {
  link : Z; handle : H; parentRate : Z; defaultRate : Z; ipToFilterHandler : gmap Z Z }.

Definition with_handle (t : tcWrapper) (h : H) : tcWrapper :=
  mkTc (link t) h (parentRate t) (defaultRate t) (ipToFilterHandler t).
Definition with_map (t : tcWrapper) (m : gmap Z Z) : tcWrapper :=
  mkTc (link t) (handle t) (parentRate t) (defaultRate t) m.

(** [newTrafficControl], once the link and the handle are there. *)
Definition newTrafficControl (lnk : Z) (h : H) (rate : Z) : tcWrapper := mkTc lnk h rate (1 * Mbitps) ∅.

Definition rootQdisc (t : tcWrapper) (defcls : Z) : Qdisc := mkQdisc (link t) (MakeHandle 1 0) HANDLE_ROOT defcls.

(** Run a netlink call; continue on success, return the error otherwise. *)
Definition call (f : H → H * bool) (e : tcerr) (t : tcWrapper) (k : tcWrapper → tcWrapper * option tcerr)
    : tcWrapper * option tcerr :=
  let '(h, ok) := f (handle t) in
  let t := with_handle t h in
  if ok then k t else (t, Some e).

Definition cleanup (t : tcWrapper) : tcWrapper * option tcerr :=
  call (QdiscDel (rootQdisc t 0)) ErrDelQdisc t (λ t, (t, None)).

Definition init (t : tcWrapper) : tcWrapper * option tcerr :=
  call (QdiscAdd (rootQdisc t defaultClassID)) ErrRootHandle t (λ t,
  call (ClassAdd (mkClass (link t) (MakeHandle 1 defaultClassID) HANDLE_ROOT (defaultRate t))) ErrDefaultClass t (λ t,
  call (ClassAdd (mkClass (link t) (MakeHandle 1 1) HANDLE_ROOT (parentRate t))) ErrParentClass t (λ t,
  (t, None)))).

(** The minor number of a peer's class: the low 12 bits of its address. *)
Definition handleForIP (uip : Z) : Z := MakeHandle 1 (u16 (Z.land 0xfff uip)).

Definition isSameFilter (a b : U32) : bool :=
  if negb (f_parent a =? f_parent b) then false
  else match f_keys a, f_keys b with
       | x :: xs, y :: ys => (zlen xs =? zlen ys) && (x =? y)
       | _, _ => false
       end.

(** The filter listed first that matches. *)
Fixpoint findFilter (fs : list tcfilter) (f : U32) : option U32 :=
  match fs with
  | [] => None
  | FU32 u :: fs => if isSameFilter u f then Some u else findFilter fs f
  | FOther :: fs => findFilter fs f
  end.

(** [None]: [addr.ToUint32] panics. *)
Definition setLimit (addr : IP) (rate : Z) (t : tcWrapper) : option (tcWrapper * option tcerr) :=
  if rate =? 0 then Some (t, None) else
  uip ← IP_ToUint32 addr;
  Some (
    if bool_decide (is_Some (ipToFilterHandler t !! uip)) then (t, Some ErrLimitSet) else
    let classHandle := handleForIP uip in
    let f := mkU32 (link t) 0 (MakeHandle 1 0) classHandle [uip] in
    call (ClassAdd (mkClass (link t) classHandle (Handle (MakeHandle 1 1)) rate)) ErrAddClass t (λ t,
    call (FilterAdd f) ErrAddFilter t (λ t,
    match FilterList (link t) (MakeHandle 1 0) (handle t) with
    | None => (t, Some ErrListFilters)
    | Some fs =>
        match findFilter fs f with
        | Some u => (with_map t (<[uip := f_handle u]> (ipToFilterHandler t)), None)
        | None => (t, Some ErrLoadBack)
        end
    end))).

Definition removeLimit (addr : IP) (t : tcWrapper) : option (tcWrapper * option tcerr) :=
  uip ← IP_ToUint32 addr;
  Some (
    match ipToFilterHandler t !! uip with
    | None => (t, Some ErrNoLimit)
    | Some handleID =>
        call (FilterDel (mkU32 (link t) handleID (MakeHandle 1 0) 0 [])) ErrDelFilter t (λ t,
        call (ClassDel (mkClass (link t) (handleForIP uip) (Handle (MakeHandle 1 1)) 0)) ErrDelClass t (λ t,
        (with_map t (delete uip (ipToFilterHandler t)), None)))
    end).

(** The exported methods. *)
Definition tc_Init (t : tcWrapper) : tcWrapper * option tcerr := init t.
Definition tc_Cleanup (t : tcWrapper) : tcWrapper * option tcerr := cleanup t.
Definition tc_Set (addr : IP) (rate : Z) (t : tcWrapper) : option (tcWrapper * option tcerr) := setLimit addr rate t.
Definition tc_Remove (addr : IP) (t : tcWrapper) : option (tcWrapper * option tcerr) := removeLimit addr t.
End tc.

(** ** tc.go: rates as text; go-humanize is a parameter *)
Section rate.
Context {E : Type} (ParseBytes : bytes → E + Z) (Bytes : Z → bytes).
Definition Rate_UnmarshalText (raw : bytes) : E + Z := match ParseBytes raw with inl err => inl err | inr v => inr v end.
Definition Rate_String (r : Z) : bytes := Bytes r ++ txt "it/s".
Definition Rate_unwrap (r : Z) : Z := r.
End rate.

Arguments tcWrapper : clear implicits.
