(* ===== verification/TrafficControlProps.v ===== *)
(** * ipam: which limits are recorded, and which class handles clash *)
From S2P Require Import Prelude Text Net NetProps TrafficControl.

Local Open Scope Z_scope.

Section props.
Context {H : Type} `{!Netlink H}.
Implicit Types (t : tcWrapper H).

Lemma call_spec (f : H → H * bool) e t k t' r :
  call f e t k = (t', r) →
  (r = Some e ∧ t' = with_handle t (f (handle t)).1) ∨
  k (with_handle t (f (handle t)).1) = (t', r).
Proof. unfold call. destruct (f (handle t)) as [h []]; cbn; [by right|]. intros [= <- <-]. by left. Qed.

Lemma findFilter_spec fs (f u : U32) :
  findFilter fs f = Some u → FU32 u ∈ fs ∧ f_parent u = f_parent f ∧ head (f_keys u) = head (f_keys f).
Proof.
  induction fs as [|[v|] fs IH]; cbn [findFilter]; [done| |].
  - destruct (isSameFilter v f) eqn:E.
    + intros [= ->]. split; [by left|]. unfold isSameFilter in E.
      destruct (f_parent u =? f_parent f) eqn:Ep; [|done]. cbn in E. bsplit.
      destruct (f_keys u), (f_keys f); try done. bsplit. subst. by split.
    + intros (? & ? & ?)%IH. split; [by right|done].
  - intros (? & ? & ?)%IH. split; [by right|done].
Qed.

(** [setLimit] records an address exactly when it succeeds with a rate other
    than zero, with the handle of a listed filter for that address; an address that
    has a limit is refused, and every failure leaves the record as it was.
    [removeLimit] forgets the address exactly when it succeeds. *)
Theorem limits_recorded (addr : IP) (uip rate : Z) t :
  IP_ToUint32 addr = Some uip →
  (∃ t' e, setLimit addr rate t = Some (t', e) ∧
     match e with
     | None => (rate = 0 ∧ t' = t) ∨
               (rate ≠ 0 ∧ ipToFilterHandler t !! uip = None ∧ ∃ u fs,
                  FilterList (link t) (MakeHandle 1 0) (handle t') = Some fs ∧ FU32 u ∈ fs ∧
                  f_parent u = MakeHandle 1 0 ∧ head (f_keys u) = Some uip ∧
                  ipToFilterHandler t' = <[uip := f_handle u]> (ipToFilterHandler t))
     | Some _ => ipToFilterHandler t' = ipToFilterHandler t
     end ∧ (rate ≠ 0 → is_Some (ipToFilterHandler t !! uip) → e = Some ErrLimitSet)) ∧
  (∃ t' e, removeLimit addr t = Some (t', e) ∧
     ipToFilterHandler t' = (if e is None then delete uip (ipToFilterHandler t) else ipToFilterHandler t) ∧
     (ipToFilterHandler t !! uip = None → e = Some ErrNoLimit)).
Proof.
  intros Hu. split.
  - unfold setLimit. rewrite Hu. destruct (rate =? 0) eqn:Er; bsplit; [subst; exists t, None; split; [done|]; split; [by left|done]|].
    cbn [mbind option_bind].
    destruct (if bool_decide _ then _ else _) as [t' e] eqn:E. exists t', e. split; [done|]. case_bool_decide as Hm.
    { injection E as <- <-. split; auto. }
    assert (ipToFilterHandler t !! uip = None) as Hnone by (apply eq_None_not_Some; done). split; [|done].
    apply call_spec in E as [[-> ->]|E]; [done|]. apply call_spec in E as [[-> ->]|E]; [done|].
    cbn [handle link with_handle] in E. destruct (FilterList _ _ _) as [fs|] eqn:El; [|by injection E as <- <-].
    destruct (findFilter fs _) as [u|] eqn:Ef; injection E as <- <-; [|done].
    apply findFilter_spec in Ef as (Hin & Hp & Hk). cbn in Hp, Hk. right. split_and!; try done.
    exists u, fs. split_and!; try done.
  - unfold removeLimit. rewrite Hu. cbn [mbind option_bind].
    destruct (match ipToFilterHandler t !! uip with Some _ => _ | None => _ end) as [t' e] eqn:E. exists t', e.
    split; [done|]. destruct (ipToFilterHandler t !! uip) as [hid|] eqn:Eh; [|by injection E as <- <-].
    split; [|done]. apply call_spec in E as [[-> ->]|E]; [done|]. apply call_spec in E as [[-> ->]|E]; [done|].
    by injection E as <- <-.
Qed.

(** Class handles are unique inside an aligned block of 4096 addresses as long as
    the netlink encoding separates minor numbers; addresses 4096 apart share a class,
    and in every block one address gets the class of unclassified traffic and one
    the parent class. *)
Theorem class_handles (a b : Z) :
  in_u32 a → in_u32 b → (∀ x y, in_u16 x → in_u16 y → MakeHandle 1 x = MakeHandle 1 y → x = y) →
  (handleForIP a = handleForIP b ↔ a mod 4096 = b mod 4096) ∧
  (handleForIP a = MakeHandle 1 defaultClassID ↔ a mod 4096 = 0x999) ∧
  (handleForIP a = MakeHandle 1 1 ↔ a mod 4096 = 1).
Proof.
  intros Ha Hb Hinj.
  assert (∀ u, handleForIP u = MakeHandle 1 (u mod 4096) ∧ in_u16 (u mod 4096)) as Hh.
  { intros u. unfold handleForIP. rewrite Z.land_comm. change 0xfff with (Z.ones 12). rewrite Z.land_ones by lia.
    pose proof (Z.mod_pos_bound u (2 ^ 12) ltac:(lia)). change 4096 with (2 ^ 12).
    assert (in_u16 (u mod 2 ^ 12)) by (unfold in_u16; lia). by rewrite u16_small. }
  destruct (Hh a) as [-> Ra], (Hh b) as [-> Rb]. unfold defaultClassID. split_and!; split; intros E; try congruence;
    apply Hinj in E; try done; vm_compute; split; congruence.
Qed.
End props.

(** ** A concrete netlink: the class handles, the filters, and one failing call *)
Record fake := mkFake { classes : gset Z; filters : list U32; fail_filter : bool }.

#[global] Instance fake_netlink : Netlink fake := {
  MakeHandle maj mn := maj * 65536 + mn;
  QdiscAdd _ h := (h, true);
  QdiscDel _ h := (h, true);
  ClassAdd k h :=
    if bool_decide (k_handle k ∈ classes h) then (h, false)
    else (mkFake ({[ k_handle k ]} ∪ classes h) (filters h) (fail_filter h), true);
  ClassDel k h := (mkFake (classes h ∖ {[ k_handle k ]}) (filters h) (fail_filter h), true);
  FilterAdd f h := if fail_filter h then (mkFake (classes h) (filters h) false, false)
                   else (mkFake (classes h) (f :: filters h) false, true);
  FilterDel f h := (h, true);
  FilterList _ _ h := Some (FU32 <$> filters h)
}.

Definition fresh_tc (fail : bool) : tcWrapper fake := newTrafficControl 3 (mkFake ∅ [] fail) Gbitps.

Lemma limits_recorded_witness :
  ∃ t' e, setLimit [10; 0; 0; 7] Mbitps (fresh_tc false) = Some (t', e) ∧ e = None ∧
    ipToFilterHandler t' !! 167772167 = Some 0.
Proof.
  destruct (limits_recorded [10; 0; 0; 7] 167772167 Mbitps (fresh_tc false)) as [(t' & e & Hs & _) _]; [reflexivity|].
  exists t', e. split; [exact Hs|]. vm_compute in Hs. injection Hs as <- <-. split; reflexivity.
Defined.

Lemma class_handles_witness : handleForIP 167774617 = MakeHandle 1 defaultClassID.
Proof.
  apply (class_handles 167774617 0).
  - vm_compute. split; congruence.
  - vm_compute. split; congruence.
  - intros x y _ _. cbn. lia.
  - reflexivity.
Defined.

(** When adding the filter fails, the class added just before stays: the next
    attempt for the same address fails although the filter could now be added. *)
Example class_leaks :
  match setLimit [10; 0; 0; 7] Mbitps (fresh_tc true) with
  | Some (t1, e1) =>
      e1 = Some ErrAddFilter ∧ fail_filter (handle t1) = false ∧
      match setLimit [10; 0; 0; 7] Mbitps t1 with Some (_, e2) => e2 = Some ErrAddClass | None => False end
  | None => False
  end.
Proof. vm_compute. done. Qed.
