(* ===== verification/IPAM.v ===== *)
(** * ipam: the address manager

    Models [src/ipam/ipam.go]: the manager ties the address pool to the packet filter and
    the traffic control.  The two interfaces of [netfilter.go] and [tc.go] are type
    classes; [nft_linux.go], [nft_other.go], [tc_linux.go] and [tc_noop.go] are their
    instances.  Every call returns the manager after it, also when it fails; [None]
    is a panic. *)
From S2P Require Import Prelude Text Net IPPool Ports NetFilter TrafficControl.

Local Open Scope Z_scope.

Inductive ierr :=
  | ErrNoDefaultPolicy | ErrNoSubnet | ErrNoInterface | ErrNoBandwidth
  | EPool (e : poolerr) | ENf (e : nferr) | ETc (e : tcerr) | ELink.

(** [netFilter] (netfilter.go) *)
Class NetFilterI (N : Type) := {
  nf_init : N → N * option nferr;
  nf_isolatePeer : IP → N → option (N * option nferr);
  nf_isolateAll : IPNet → N → option (N * option nferr);
  nf_remove : bytes → N → N * option nferr;
  nf_fillPorts : PortRestrictionConfig → N → N * option nferr
}.

(** [trafficControl] (tc.go) *)
Class TrafficControlI (T : Type) := {
  tc_init : T → T * option tcerr;
  tc_setLimit : IP → Z → T → option (T * option tcerr);
  tc_removeLimit : IP → T → option (T * option tcerr);
  tc_cleanup : T → T * option tcerr
}.

#[global] Instance nft_filter {C} `{!NftConn C} (sortSlice : Sorter)
    : NetFilterI (netfilterWrapper C) := {
  nf_init := nft_init;
  nf_isolatePeer := newIsolatePeerRule;
  nf_isolateAll := newIsolateAllRule;
  nf_remove := findAndRemoveRule;
  nf_fillPorts := fillPortRestrictionRules sortSlice
}.

#[global] Instance noopNetfilter : NetFilterI unit := {
  nf_init n := (n, None);
  nf_isolatePeer _ n := Some (n, None);
  nf_isolateAll _ n := Some (n, None);
  nf_remove _ n := (n, None);
  nf_fillPorts _ n := (n, None)
}.

#[global] Instance tc_control {H} `{!Netlink H} : TrafficControlI (tcWrapper H) := {
  tc_init := init;
  tc_setLimit := setLimit;
  tc_removeLimit := removeLimit;
  tc_cleanup := cleanup
}.

#[global] Instance nopTC : TrafficControlI unit := {
  tc_init t := (t, None);
  tc_setLimit _ _ t := Some (t, None);
  tc_removeLimit _ t := Some (t, None);
  tc_cleanup t := (t, None)
}.

(** Either traffic control can be in the interface variable. *)
#[global] Instance sumTC {A B} `{!TrafficControlI A, !TrafficControlI B} : TrafficControlI (A + B) := {
  tc_init t := match t with inl a => let '(a, e) := tc_init a in (inl a, e)
                          | inr b => let '(b, e) := tc_init b in (inr b, e) end;
  tc_setLimit ip r t :=
    match t with inl a => x ← tc_setLimit ip r a; Some (inl x.1, x.2)
               | inr b => x ← tc_setLimit ip r b; Some (inr x.1, x.2) end;
  tc_removeLimit ip t :=
    match t with inl a => x ← tc_removeLimit ip a; Some (inl x.1, x.2)
               | inr b => x ← tc_removeLimit ip b; Some (inr x.1, x.2) end;
  tc_cleanup t := match t with inl a => let '(a, e) := tc_cleanup a in (inl a, e)
                             | inr b => let '(b, e) := tc_cleanup b in (inr b, e) end
}.

Record Policy := mkPolicy { Access : Z; RateLimit : Z }.

Record Config := mkConfig {
  Subnet : option IPNet; Interface : bytes; DefaultPolicy : Z;
  RateLimiter : option Z;                        (* TotalBandwidth *)
  PortRestrictions : option PortRestrictionConfig }.

Section ipam.
Context {N T : Type} `{!NetFilterI N, !TrafficControlI T}.

(** The fields are nil after [Shutdown]. *)
Record IPAM := mkIPAM { defaultPol : Z; nf : option N; tc : option T; ipp : option IPv4pool }.

Definition with_ipp (m : IPAM) (p : IPv4pool) : IPAM := mkIPAM (defaultPol m) (nf m) (tc m) (Some p).
Definition with_nf (m : IPAM) (n : N) : IPAM := mkIPAM (defaultPol m) (Some n) (tc m) (ipp m).
Definition with_tc (m : IPAM) (t : T) : IPAM := mkIPAM (defaultPol m) (nf m) (Some t) (ipp m).

(** Either [newTrafficControl] (which looks the interface up and may fail) or the
    no-op one, and [newNetfilter], are arguments: they build the two components. *)
Definition New (cfg : Config) (newTC : bytes → Z → option T) (nopTC : T) (newNF : IPNet → N)
    : option (ierr + IPAM) :=
  if DefaultPolicy cfg =? AccessPolicyDefault then Some (inl ErrNoDefaultPolicy) else
  match Subnet cfg with
  | None => Some (inl ErrNoSubnet)
  | Some subnet =>
      if zlen (Interface cfg) =? 0 then Some (inl ErrNoInterface) else
      if bool_decide (RateLimiter cfg = Some 0) then Some (inl ErrNoBandwidth) else
      match NewIPv4FromSubnet subnet with
      | Panic => None
      | Err e => Some (inl (EPool e))
      | Ok pool =>
          match match RateLimiter cfg with Some bw => newTC (Interface cfg) bw | None => Some nopTC end with
          | None => Some (inl ELink)
          | Some t =>
              let '(n, e) := nf_init (newNF subnet) in
              match e with
              | Some e => Some (inl (ENf e))
              | None =>
                  let '(t, e) := tc_init t in
                  match e with
                  | Some e => Some (inl (ETc e))
                  | None =>
                      x ← (if DefaultPolicy cfg =? AccessPolicyInternetOnly then nf_isolateAll subnet n else Some (n, None));
                      match x.2 with
                      | Some e => Some (inl (ENf e))
                      | None =>
                          let n := match PortRestrictions cfg with Some ports => (nf_fillPorts ports x.1).1 | None => x.1 end in
                          Some (inr (mkIPAM (DefaultPolicy cfg) (Some n) (Some t) (Some pool)))
                      end
                  end
              end
          end
      end
  end.

(** [_ = m.ipp.Unset(addr)]: the error is dropped, a fatal exit is not. *)
Definition giveBack (addr : IP) (m : IPAM) : option IPAM :=
  p ← ipp m;
  match Unset addr p with
  | Ok p => Some (with_ipp m p)
  | Err _ => Some m
  | Panic => None
  end.

Definition applyPolicy (addr : IP) (pol : Policy) (m : IPAM) : option (IPAM * option ierr) :=
  x ← (if (Access pol =? AccessPolicyInternetOnly) && (defaultPol m =? AccessPolicyAllowAll)
       then n ← nf m; r ← nf_isolatePeer addr n; Some (with_nf m r.1, r.2)
       else Some (m, None));
  match x with
  | (m, Some e) => m ← giveBack addr m; Some (m, Some (ENf e))
  | (m, None) =>
      t ← tc m;
      r ← tc_setLimit addr (RateLimit pol) t;
      let m := with_tc m r.1 in
      match r.2 with
      | Some e => m ← giveBack addr m; Some (m, Some (ETc e))
      | None => Some (m, None)
      end
  end.

(** The policy after the default and the fallback of [allocate]. *)
Definition defaultAccess (pol : Policy) (m : IPAM) : Policy :=
  if Access pol =? AccessPolicyDefault then mkPolicy (defaultPol m) (RateLimit pol) else pol.
Definition fallbackAccess (pol : Policy) (m : IPAM) : Policy :=
  if (defaultPol m =? AccessPolicyInternetOnly) && (Access pol =? AccessPolicyAllowAll)
  then mkPolicy AccessPolicyInternetOnly (RateLimit pol) else pol.

Definition allocate (r : Z) (pol : Policy) (m : IPAM) : option (IPAM * (ierr + IP)) :=
  let pol := fallbackAccess (defaultAccess pol m) m in
  p ← ipp m;
  match IPPool.Alloc r p with
  | Panic => None
  | Err e => Some (m, inl (EPool e))
  | Ok (addr, p) =>
      x ← applyPolicy addr pol (with_ipp m p);
      Some (x.1, match x.2 with Some e => inl e | None => inr addr end)
  end.

Definition Alloc (r : Z) (pol : Policy) (m : IPAM) : option (IPAM * (ierr + IP)) := allocate r pol m.

Definition Set_ (addr : IP) (pol : Policy) (m : IPAM) : option (IPAM * option ierr) :=
  let pol := defaultAccess pol m in
  p ← ipp m;
  match IPPool.Set_ addr p with
  | Panic => None
  | Err e => Some (m, Some (EPool e))
  | Ok p => applyPolicy addr pol (with_ipp m p)
  end.

Definition free (addr : IP) (m : IPAM) : option (IPAM * option ierr) :=
  p ← ipp m;
  match Unset addr p with
  | Panic => None
  | Err e => Some (m, Some (EPool e))
  | Ok p =>
      let m := with_ipp m p in
      t ← tc m; r ← tc_removeLimit addr t;
      let m := with_tc m r.1 in
      n ← nf m;
      let '(n, _) := nf_remove (default [] (To4 addr)) n in
      Some (with_nf m n, None)
  end.

Definition Unset_ (addr : IP) (m : IPAM) : option (IPAM * option ierr) := free addr m.

Definition IsAvailable_ (addr : IP) (m : IPAM) : option bool :=
  p ← ipp m; match IsAvailable addr p with Ok b => Some b | _ => None end.

Definition Available_ (r : Z) (m : IPAM) : option (ierr + IP) :=
  p ← ipp m; match Available r p with Ok a => Some (inr a) | Err e => Some (inl (EPool e)) | Panic => None end.

Definition Running_ (m : IPAM) : bool := bool_decide (is_Some (ipp m)).

(** Also what becomes of the filter and the traffic control. *)
Definition Shutdown_ (m : IPAM) : option (IPAM * N * T) :=
  p ← ipp m;
  match Shutdown p with
  | Panic => None
  | _ => n ← nf m; t ← tc m;
         Some (mkIPAM (-1) None None None, (nf_init n).1, (tc_cleanup t).1)
  end.
End ipam.

Arguments IPAM : clear implicits.
