(* ===== verification/IPAMProps.v ===== *)
(** * ipam: allocation is all-or-nothing for the pool *)
From S2P Require Import Prelude Text Net NetProps IPPool IPPoolProps Ports NetFilter TrafficControl IPAM.

Local Open Scope Z_scope.

(** ** What the manager relies on: no call panics on an IPv4 address *)
Class NetFilterLaws (N : Type) `{!NetFilterI N} := {
  nf_good : N → Prop;
  isolatePeer_good ip n : v4 ip → nf_good n → ∃ n' e, nf_isolatePeer ip n = Some (n', e) ∧ nf_good n';
  remove_good id n : nf_good n → nf_good (nf_remove id n).1
}.

Class TrafficControlLaws (T : Type) `{!TrafficControlI T} := {
  setLimit_total ip r (t : T) : v4 ip → ∃ t' e, tc_setLimit ip r t = Some (t', e);
  removeLimit_total ip (t : T) : v4 ip → ∃ t' e, tc_removeLimit ip t = Some (t', e)
}.

Lemma flushOr_size {C} `{!NftConn C} e (n : netfilterWrapper C) : subnetSize (flushOr e n).1 = subnetSize n.
Proof. unfold flushOr. by destruct (Flush (c n)). Qed.

#[global] Instance nft_laws {C} `{!NftConn C} sortSlice :
  NetFilterLaws (netfilterWrapper C) (NetFilterI0 := nft_filter sortSlice).
Proof.
  refine {| nf_good := λ n, subnetSize n ≤ 4 : Prop |}.
  - intros ip n Hip Hn. cbn. unfold newIsolatePeerRule.
    destruct (v4_inv ip Hip) as (b0 & b1 & b2 & b3 & -> & _). unfold To4.
    change (zlen [b0; b1; b2; b3] =? 4) with true. cbn [default from_option id].
    change (zlen [b0; b1; b2; b3]) with 4. rewrite (proj2 (Z.ltb_ge 4 _)) by done.
    destruct (flushOr _ _) as [n' e] eqn:E. exists n', e. split; [done|].
    change n' with (fst (n', e)). rewrite <- E, flushOr_size. done.
  - intros id n Hn. cbn. unfold findAndRemoveRule. destruct (ListChains (c n)); [|done].
    destruct (findRule _ _ _); [done|]. destruct (DelRule _ _) as [? []]; [|done]. by rewrite flushOr_size.
Defined.

#[global] Instance tc_laws {H} `{!Netlink H} : TrafficControlLaws (tcWrapper H).
Proof.
  split; intros ip; intros; cbn; destruct (v4_addr ip) as (a & _ & _ & E & _); try done.
  - unfold setLimit. rewrite E. case_match; [by eexists _, _|]. cbn [mbind option_bind].
    destruct (if bool_decide _ then _ else _). by eexists _, _.
  - unfold removeLimit. rewrite E. cbn [mbind option_bind].
    destruct (match ipToFilterHandler t !! a with Some _ => _ | None => _ end). by eexists _, _.
Qed.

#[global] Instance noop_nf_laws : NetFilterLaws unit.
Proof. refine {| nf_good := λ _, True |}; [|done]. intros ip n _ _. by exists n, None. Defined.

#[global] Instance nop_tc_laws : TrafficControlLaws unit.
Proof. split; intros; by eexists _, _. Qed.

Section ipam.
Context {N T : Type} `{!NetFilterI N, !TrafficControlI T, !NetFilterLaws N, !TrafficControlLaws T}.
Implicit Types (m : IPAM N T) (p : IPv4pool).

(** A manager that is running, with its pool. *)
Definition ipam_ok m p : Prop :=
  ipp m = Some p ∧ pool_wf p ∧ running p = true ∧
  (∃ n, nf m = Some n ∧ nf_good n) ∧ is_Some (tc m).

Lemma give_back_ok m p u :
  ipam_ok m p → in_u32 u → u ∈ used p →
  ∃ m', giveBack (Uint32ToIP u) m = Some m' ∧ ipam_ok m' (set_used p (used p ∖ {[ u ]})).
Proof.
  intros (Hp & Hwf & Hr & Hn & Ht) Hu Hin. unfold giveBack. rewrite Hp. cbn [mbind option_bind].
  pose proof (pexec_spec p (PUnset (Uint32ToIP u)) Hwf Hr (proj2 (Uint32ToIP_v4 u))) as Hs. cbn [pexec pool_spec] in Hs.
  apply v4_contract in Hs; [|apply Uint32ToIP_v4].
  destruct Hs as (a & Ea & Ha & Hs). apply (f_equal IP_ToUint32) in Ea. rewrite !to_uint32_inv in Ea by done.
  injection Ea as <-. destruct Hs as [[Hno _]|[_ Hs]]; [done|].
  destruct (Unset (Uint32ToIP u) p) as [p'| |]; try done. gosimp. revert Hs. gosimp. intros [= ->].
  eexists. split; [done|]. split_and!; try done. apply set_used_wf; [done|].
  intros b [? _]%elem_of_difference. by apply Hwf.
Qed.

(** [applyPolicy] either succeeds and leaves the pool alone, or fails and releases
    the address. *)
Lemma applyPolicy_spec m p u pol :
  ipam_ok m p → in_u32 u → u ∈ used p →
  ∃ m' e, applyPolicy (Uint32ToIP u) pol m = Some (m', e) ∧
    ipam_ok m' (if e is None then p else set_used p (used p ∖ {[ u ]})).
Proof.
  intros Hok Hu Hin. unfold applyPolicy.
  assert (∃ m1 e1, (if (Access pol =? AccessPolicyInternetOnly) && (defaultPol m =? AccessPolicyAllowAll)
       then n ← nf m; r ← nf_isolatePeer (Uint32ToIP u) n; Some (with_nf m r.1, r.2)
       else Some (m, None)) = Some (m1, e1) ∧ ipam_ok m1 p) as (m1 & e1 & -> & Hok1).
  { destruct (_ && _); [|by eexists _, _]. pose proof Hok as (Hp & Hwf & Hr & (n & Hn & Hg) & Ht).
    rewrite Hn. cbn [mbind option_bind].
    destruct (isolatePeer_good (Uint32ToIP u) n (Uint32ToIP_v4 u) Hg) as (n' & e & -> & Hg').
    cbn [mbind option_bind]. eexists _, _. split; [done|]. split_and!; try done. by exists n'. }
  cbn [mbind option_bind]. destruct e1 as [e1|].
  - destruct (give_back_ok m1 p u Hok1 Hu Hin) as (m2 & -> & Hok2). cbn [mbind option_bind]. by eexists _, _.
  - pose proof Hok1 as (Hp & Hwf & Hr & Hn & [t Ht]). rewrite Ht. cbn [mbind option_bind].
    destruct (setLimit_total (Uint32ToIP u) (RateLimit pol) t (Uint32ToIP_v4 u)) as (t' & e & ->).
    cbn [mbind option_bind fst snd].
    assert (ipam_ok (with_tc m1 t') p) as Hok2 by (split_and!; try done; by eexists).
    destruct e as [e|]; [|by eexists _, _].
    destruct (give_back_ok _ p u Hok2 Hu Hin) as (m2 & -> & Hok3). cbn [mbind option_bind]. by eexists _, _.
Qed.

Lemma roll_back p u : u ∉ used p → set_used (set_used p ({[ u ]} ∪ used p)) (({[ u ]} ∪ used p) ∖ {[ u ]}) = p.
Proof.
  intros Hu. destruct p as [s us lo hi r]. unfold set_used. cbn in *. f_equal.
  apply set_eq. intros x. rewrite elem_of_difference, elem_of_union, elem_of_singleton.
  split; [tauto|]. intros Hx. split; [by right|]. by intros ->.
Qed.

(** C8: allocating an address is all-or-nothing for the pool, whatever the filter and
    the traffic control answer: on success the returned address was free and is now
    used; on any failure the pool is exactly as before. *)
Theorem ipam_alloc m p (r : Z) (pol : Policy) :
  ipam_ok m p → in_u32 r →
  ∃ m' res p', Alloc r pol m = Some (m', res) ∧ ipam_ok m' p' ∧
    match res with
    | inr a => ∃ u, a = Uint32ToIP u ∧ in_range p u ∧ (u ∉ used p) ∧ p' = set_used p ({[ u ]} ∪ used p)
    | inl _ => p' = p
    end.
Proof.
  intros Hok Hr. pose proof Hok as (Hp & Hwf & Hrun & Hn & Ht). unfold Alloc, allocate. rewrite Hp. cbn [mbind option_bind].
  pose proof (pexec_spec p (PAlloc r) Hwf Hrun Hr) as Hs. cbn [pexec pool_spec] in Hs.
  destruct (IPPool.Alloc r p) as [[a p1]|e|]; gosimp; revert Hs; gosimp.
  - intros [[? _]|(u & Hu & Hnu & [= -> ->])]; [done|].
    assert (in_u32 u) as Hu32 by (destruct Hwf as ((? & ?) & ? & _); unfold in_range in Hu; unfold in_u32; lia).
    destruct (applyPolicy_spec (with_ipp m (set_used p ({[ u ]} ∪ used p))) (set_used p ({[ u ]} ∪ used p)) u
                (fallbackAccess (defaultAccess pol m) m)) as (m2 & e & -> & Hok2).
    { split_and!; try done. apply set_used_wf; [done|].
      intros b [->%elem_of_singleton|?]%elem_of_union; [done|by apply Hwf]. } { done. } { cbn. set_solver. }
    cbn [mbind option_bind fst snd]. destruct e as [e|].
    + eexists _, _, _. split; [done|]. split; [done|]. by apply roll_back.
    + eexists _, _, _. split; [done|]. split; [done|]. by exists u.
  - intros _. by eexists _, _, p.
  - by intros [[? _]|(u & _ & _ & ?)].
Qed.

(** Reserving a given address has the same guarantee, with the pool's errors for
    addresses out of range or in use. *)
Theorem ipam_set m p (addr : IP) (pol : Policy) :
  ipam_ok m p → v4 addr →
  ∃ m' res p', Set_ addr pol m = Some (m', res) ∧ ipam_ok m' p' ∧
    match res with
    | None => ∃ u, addr = Uint32ToIP u ∧ in_range p u ∧ (u ∉ used p) ∧ p' = set_used p ({[ u ]} ∪ used p)
    | Some _ => p' = p
    end.
Proof.
  intros Hok Hv. pose proof Hok as (Hp & Hwf & Hrun & Hn & Ht). unfold Set_. rewrite Hp. cbn [mbind option_bind].
  pose proof (pexec_spec p (PSet addr) Hwf Hrun (proj2 Hv)) as Hs. cbn [pexec pool_spec] in Hs.
  apply v4_contract in Hs; [|done].
  destruct Hs as (u & -> & Hu32 & Hs).
  destruct (IPPool.Set_ (Uint32ToIP u) p) as [p1|e|]; revert Hs; gosimp.
  - intros [[_ ?]|[(_ & _ & ?)|(Hu & Hnu & [= ->])]]; [done..|].
    destruct (applyPolicy_spec (with_ipp m (set_used p ({[ u ]} ∪ used p))) (set_used p ({[ u ]} ∪ used p)) u
                (defaultAccess pol m)) as (m2 & e & -> & Hok2).
    { split_and!; try done. apply set_used_wf; [done|].
      intros b [->%elem_of_singleton|?]%elem_of_union; [done|by apply Hwf]. } { done. } { cbn. set_solver. }
    destruct e as [e|].
    + eexists _, _, _. split; [done|]. split; [done|]. by apply roll_back.
    + eexists _, _, _. split; [done|]. split; [done|]. by exists u.
  - intros _. by eexists _, _, p.
  - by intros [[_ ?]|[(_ & _ & ?)|(_ & _ & ?)]].
Qed.

(** Releasing a used address gives it back to the pool, and removes its
    bandwidth limit and its packet-filter rule once each, ignoring their errors; an
    address that is not in use is refused and nothing changes. *)
Theorem ipam_unset m p n (t : T) (u : Z) :
  ipam_ok m p → nf m = Some n → tc m = Some t → in_u32 u →
  (u ∉ used p → Unset_ (Uint32ToIP u) m = Some (m, Some (EPool ErrNotUsed))) ∧
  (u ∈ used p → ∃ t' e, tc_removeLimit (Uint32ToIP u) t = Some (t', e) ∧
     Unset_ (Uint32ToIP u) m =
       Some (mkIPAM (defaultPol m) (Some (nf_remove (Uint32ToIP u) n).1) (Some t') (Some (set_used p (used p ∖ {[ u ]}))), None)).
Proof.
  intros (Hp & Hwf & Hr & _ & _) Hn Ht Hu. unfold Unset_, free. rewrite Hp. cbn [mbind option_bind].
  pose proof (pexec_spec p (PUnset (Uint32ToIP u)) Hwf Hr (proj2 (Uint32ToIP_v4 u))) as Hs. cbn [pexec pool_spec] in Hs.
  apply v4_contract in Hs; [|apply Uint32ToIP_v4].
  destruct Hs as (a & Ea & Ha & Hs). apply (f_equal IP_ToUint32) in Ea. rewrite !to_uint32_inv in Ea by done.
  injection Ea as <-. destruct (Unset (Uint32ToIP u) p) as [p1|e|] eqn:E; revert Hs; gosimp.
  - intros [[_ ?]|[Hin [= ->]]]; [done|]. split; [done|]. intros _. cbn [tc nf with_ipp]. rewrite Ht. cbn [mbind option_bind].
    destruct (removeLimit_total (Uint32ToIP u) t (Uint32ToIP_v4 u)) as (t' & e & ->). exists t', e. split; [done|].
    cbn [mbind option_bind nf with_tc with_ipp fst]. rewrite Hn. cbn [mbind option_bind].
    replace (default [] (To4 (Uint32ToIP u))) with (Uint32ToIP u) by done. by destruct (nf_remove (Uint32ToIP u) n).
  - intros [[Hni [= ->]]|[_ ?]]; [|done]. split; [done|]. intros Hin. by destruct Hni.
  - by intros [[_ ?]|[_ ?]].
Qed.
End ipam.

(** ** Witnesses: a filter that remembers the isolated peers, a traffic control
    that refuses every limit *)
#[local] Instance listNF : NetFilterI (list IP) := {
  nf_init n := (n, None);
  nf_isolatePeer ip n := Some (ip :: n, None);
  nf_isolateAll _ n := Some (n, None);
  nf_remove id n := (filter (λ x, x ≠ id) n, None);
  nf_fillPorts _ n := (n, None)
}.

#[local] Instance refusingTC : TrafficControlI bool := {
  tc_init t := (t, None);
  tc_setLimit _ _ t := Some (t, if t then None else Some ErrAddClass);
  tc_removeLimit _ t := Some (t, None);
  tc_cleanup t := (t, None)
}.

#[local] Instance listNF_laws : NetFilterLaws (list IP).
Proof. refine {| nf_good := λ _, True |}; [|done]. intros ip n _ _. by exists (ip :: n), None. Defined.
#[local] Instance refusingTC_laws : TrafficControlLaws bool.
Proof. split; intros; by eexists _, _. Qed.

Definition sample_ipam (accepts : bool) : IPAM (list IP) bool :=
  mkIPAM AccessPolicyAllowAll (Some []) (Some accepts) (Some sample_pool).

Lemma sample_ipam_ok accepts : ipam_ok (sample_ipam accepts) sample_pool.
Proof. split; [reflexivity|]. split; [apply sample_pool_wf|]. split; [reflexivity|]. split; [by exists []|by eexists]. Qed.

Lemma ipam_alloc_witness :
  ∃ m' res, Alloc 5 (mkPolicy AccessPolicyInternetOnly 1000) (sample_ipam false) = Some (m', res) ∧ ipp m' = Some sample_pool.
Proof.
  destruct (ipam_alloc (sample_ipam false) sample_pool 5 (mkPolicy AccessPolicyInternetOnly 1000) (sample_ipam_ok false))
    as (m' & res & p' & Hrun & Hok & Hres).
  - vm_compute. split; congruence.
  - exists m', res. split; [exact Hrun|]. vm_compute in Hrun. injection Hrun as <- <-. rewrite <- Hres. apply Hok.
Defined.

Lemma ipam_set_witness :
  ∃ m' res p', Set_ [10; 0; 0; 75] (mkPolicy AccessPolicyDefault 0) (sample_ipam true) = Some (m', res) ∧ ipam_ok m' p'.
Proof.
  destruct (ipam_set (sample_ipam true) sample_pool [10; 0; 0; 75] (mkPolicy AccessPolicyDefault 0) (sample_ipam_ok true))
    as (m' & res & p' & Hrun & Hok & _).
  - split; [reflexivity|repeat constructor; discriminate].
  - exists m', res, p'. split; [exact Hrun|exact Hok].
Defined.

Lemma ipam_unset_witness :
  Unset_ (Uint32ToIP 167772238) (sample_ipam true) = Some (sample_ipam true, Some (EPool ErrNotUsed)).
Proof.
  apply (ipam_unset (sample_ipam true) sample_pool [] true 167772238 (sample_ipam_ok true)).
  - reflexivity.
  - reflexivity.
  - vm_compute. split; congruence.
  - apply (bool_decide_unpack _). vm_compute. exact I.
Defined.

(** When the bandwidth limit cannot be set, the address goes back to the pool but
    the isolation rule that was added for it stays in the filter. *)
Example isolation_rule_leaks :
  match Alloc 5 (mkPolicy AccessPolicyInternetOnly 1000) (sample_ipam false) with
  | Some (m', inl (ETc ErrAddClass)) => ipp m' = Some sample_pool ∧ ∃ a, nf m' = Some [a]
  | _ => False
  end.
Proof. vm_compute. eauto. Qed.
