(* ===== verification/IPAMShared.v ===== *)
(** * ipam: the address manager shared by goroutines

    [IPAM] of [src/ipam/ipam.go] has no lock of its own: [Alloc], [Set] and [Unset] are sequences
    of calls of the pool, the packet filter and the traffic control, and the calls of
    several goroutines alternate.  Each such call is a section of a step relation here.
    The sections in sequence are the operations of [IPAM]; in any interleaving an
    address has one owner. *)
From S2P Require Import Prelude Text Net NetProps IPPool IPPoolProps Ports NetFilter TrafficControl TrafficControlProps IPAM IPAMProps.

Local Open Scope Z_scope.

Section shared.
Context {N T : Type} `{!NetFilterI N, !TrafficControlI T}.
Implicit Types (m : IPAM N T).

(** Where a call is: the address is reserved and the rule comes next; then the limit;
    the address has to be given back; the call has returned with the address, or
    with an error; the address is released and its limit, then its rule, have to go;
    released. *)
Inductive iphase :=
  | IReserved (a : IP) (pol : Policy) | IIsolated (a : IP) (pol : Policy) | IRollback (a : IP) (e : ierr)
  | IHeld (a : IP) (pol : Policy) | IFailed (e : ierr)
  | IReleased (a : IP) | IUnlimited (a : IP) | IFreed.

(** ** The sections *)

(** [m.ipp.Alloc()] and [m.ipp.Set(addr)], with the policy that is applied afterwards. *)
Inductive icall := CAlloc (r : Z) (pol : Policy) | CSet (addr : IP) (pol : Policy).

Definition start (c : icall) m : option (IPAM N T * iphase) :=
  p ← ipp m;
  match c with
  | CAlloc r pol =>
      match IPPool.Alloc r p with
      | Panic => None
      | Err e => Some (m, IFailed (EPool e))
      | Ok (addr, p) => Some (with_ipp m p, IReserved addr (fallbackAccess (defaultAccess pol m) m))
      end
  | CSet addr pol =>
      match IPPool.Set_ addr p with
      | Panic => None
      | Err e => Some (m, IFailed (EPool e))
      | Ok p => Some (with_ipp m p, IReserved addr (defaultAccess pol m))
      end
  end.

(** The first lines of [applyPolicy]. *)
Definition isolate (addr : IP) (pol : Policy) m : option (IPAM N T * iphase) :=
  if (Access pol =? AccessPolicyInternetOnly) && (defaultPol m =? AccessPolicyAllowAll) then
    n ← nf m; r ← nf_isolatePeer addr n;
    Some (with_nf m r.1, match r.2 with Some e => IRollback addr (ENf e) | None => IIsolated addr pol end)
  else Some (m, IIsolated addr pol).

Definition limit (addr : IP) (pol : Policy) m : option (IPAM N T * iphase) :=
  t ← tc m; r ← tc_setLimit addr (RateLimit pol) t;
  Some (with_tc m r.1, match r.2 with Some e => IRollback addr (ETc e) | None => IHeld addr pol end).

Definition rollback (addr : IP) (e : ierr) m : option (IPAM N T * iphase) :=
  m ← giveBack addr m; Some (m, IFailed e).

(** [free]: the pool, the limit, the rule. *)
Definition release (addr : IP) m : option (IPAM N T * iphase) :=
  p ← ipp m;
  match Unset addr p with
  | Panic => None
  | Err e => Some (m, IFailed (EPool e))
  | Ok p => Some (with_ipp m p, IReleased addr)
  end.
Definition unlimit (addr : IP) m : option (IPAM N T * iphase) :=
  t ← tc m; r ← tc_removeLimit addr t; Some (with_tc m r.1, IUnlimited addr).
Definition unfilter (addr : IP) m : option (IPAM N T * iphase) :=
  n ← nf m; Some (with_nf m (nf_remove (default [] (To4 addr)) n).1, IFreed).

(** The next section of a call that has not returned. *)
Definition advance (ph : iphase) m : option (IPAM N T * iphase) :=
  match ph with
  | IReserved a pol => isolate a pol m
  | IIsolated a pol => limit a pol m
  | IRollback a e => rollback a e m
  | IReleased a => unlimit a m
  | IUnlimited a => unfilter a m
  | IHeld _ _ | IFailed _ | IFreed => Some (m, ph)
  end.
Fixpoint advances (n : nat) (x : IPAM N T * iphase) : option (IPAM N T * iphase) :=
  match n with O => Some x | S n => x ← advance x.2 x.1; advances n x end.

(** ** One goroutine: the operations of the manager *)

Definition allocResult (ph : iphase) : ierr + IP :=
  match ph with IHeld a _ => inr a | IFailed e => inl e | _ => inl ELink end.
Definition callError (ph : iphase) : option ierr := match ph with IFailed e => Some e | _ => None end.

Definition returned (ph : iphase) : bool := match ph with IHeld _ _ | IFailed _ | IFreed => true | _ => false end.
Lemma advances_returned n m ph : returned ph = true → advances n (m, ph) = Some (m, ph).
Proof. induction n as [|n IH]; [done|]. destruct ph; try done. Qed.

(** How a call of [applyPolicy] ends. *)
Definition policyDone (a : IP) (x : option (IPAM N T * iphase)) : Prop :=
  ∀ m ph, x = Some (m, ph) → match ph with IHeld b _ => b = a | IFailed _ => True | _ => False end.
Definition outcome (x : option (IPAM N T * iphase)) : option (IPAM N T * option ierr) :=
  x ← x; Some (x.1, callError x.2).

Lemma rollback_sections n a e m :
  outcome (advances (S n) (m, IRollback a e)) = (m ← giveBack a m; Some (m, Some e)) ∧ policyDone a (advances (S n) (m, IRollback a e)).
Proof.
  unfold policyDone. cbn [advances fst snd advance]. unfold rollback.
  destruct (giveBack a m) as [m'|]; cbn [mbind option_bind]; [|done]. rewrite advances_returned by done.
  split; [done|]. by intros ? ? [= <- <-].
Qed.

Lemma limit_sections n a pol m :
  outcome (advances (2 + n) (m, IIsolated a pol)) =
    (t ← tc m; r ← tc_setLimit a (RateLimit pol) t;
     match r.2 with Some e => m ← giveBack a (with_tc m r.1); Some (m, Some (ETc e)) | None => Some (with_tc m r.1, None) end) ∧
  policyDone a (advances (2 + n) (m, IIsolated a pol)).
Proof.
  change (2 + n)%nat with (S (S n)). cbn [advances fst snd]. fold (advances (S n)). cbn [advance]. unfold limit.
  destruct (tc m) as [t|]; cbn [mbind option_bind]; [|done].
  destruct (tc_setLimit a (RateLimit pol) t) as [[t' [e|]]|]; cbn [mbind option_bind fst snd]; [|..|done].
  - apply (rollback_sections n a (ETc e) (with_tc m t')).
  - change (_ ≫= _) with (advances (S n) (with_tc m t', IHeld a pol)). rewrite advances_returned by done.
    split; [done|]. by intros ? ? [= <- <-].
Qed.

Lemma policy_sections a pol m :
  applyPolicy a pol m = outcome (advances 3 (m, IReserved a pol)) ∧ policyDone a (advances 3 (m, IReserved a pol)).
Proof.
  unfold applyPolicy. change (advances 3 (m, IReserved a pol)) with (x ← isolate a pol m; advances 2 x). unfold isolate.
  destruct (_ && _).
  - destruct (nf m) as [n|]; cbn [mbind option_bind]; [|done].
    destruct (nf_isolatePeer a n) as [[n' [e|]]|]; cbn [mbind option_bind fst snd]; [| |done].
    + by destruct (rollback_sections 1 a (ENf e) (with_nf m n')) as [<- ?].
    + by destruct (limit_sections 0 a pol (with_nf m n')) as [<- ?].
  - cbn [mbind option_bind]. by destruct (limit_sections 0 a pol m) as [<- ?].
Qed.

(** Alone, the sections of a call are the operation. *)
Lemma calls_sequential m :
  (∀ r pol, Alloc r pol m = (x ← start (CAlloc r pol) m; x ← advances 3 x; Some (x.1, allocResult x.2))) ∧
  (∀ a pol, Set_ a pol m = (x ← start (CSet a pol) m; outcome (advances 3 x))) ∧
  (∀ a, Unset_ a m = (x ← release a m; outcome (advances 2 x))).
Proof.
  split_and!.
  - intros r pol. unfold Alloc, allocate, start. destruct (ipp m) as [p|]; cbn [mbind option_bind]; [|done].
    destruct (IPPool.Alloc r p) as [[a p']|e|]; cbn [mbind option_bind]; [|done|done].
    destruct (policy_sections a (fallbackAccess (defaultAccess pol m) m) (with_ipp m p')) as [-> Hd].
    destruct (advances 3 _) as [[m' ph]|]; cbn; [|done]. specialize (Hd _ _ eq_refl). destruct ph; try done. by subst.
  - intros a pol. unfold Set_, start. destruct (ipp m) as [p|]; cbn [mbind option_bind]; [|done].
    destruct (IPPool.Set_ a p) as [p'|e|]; cbn [mbind option_bind]; [|done|done].
    apply policy_sections.
  - intros a. unfold Unset_, free, release. destruct (ipp m) as [p|]; cbn [mbind option_bind]; [|done].
    destruct (Unset a p) as [p'|e|]; cbn [mbind option_bind]; [|done|done].
    cbn [advances fst snd advance]. unfold unlimit, unfilter. destruct (tc (with_ipp m p')) as [t|]; cbn [mbind option_bind]; [|done].
    destruct (tc_removeLimit a t) as [[t' e]|]; cbn [mbind option_bind fst snd]; [|done]. cbn [advance]. unfold unfilter.
    destruct (nf _) as [n|]; cbn [mbind option_bind]; [|done]. by destruct (nf_remove _ n).
Qed.

(** ** Goroutines *)

Record istate := mkIS { is_ipam : IPAM N T; is_calls : gmap nat iphase }.

(** A goroutine calls [Alloc] or [Set], goes on with its call, or releases what it holds. *)
Inductive ievent := EvCall (g : nat) (c : icall) | EvNext (g : nat) | EvFree (g : nat).

Definition call_ok (c : icall) : Prop := match c with CAlloc r _ => in_u32 r | CSet a _ => v4 a end.
Definition ienabled (ev : ievent) (s : istate) : Prop :=
  match ev with
  | EvCall g c => is_calls s !! g = None ∧ call_ok c
  | EvNext g => ∃ ph, is_calls s !! g = Some ph ∧ returned ph = false
  | EvFree g => ∃ a pol, is_calls s !! g = Some (IHeld a pol)
  end.

Definition isection (ev : ievent) (s : istate) : option (IPAM N T * iphase) :=
  match ev with
  | EvCall _ c => start c (is_ipam s)
  | EvNext g => ph ← is_calls s !! g; advance ph (is_ipam s)
  | EvFree g => ph ← is_calls s !! g; match ph with IHeld a _ => release a (is_ipam s) | _ => None end
  end.
Definition ievent_of (ev : ievent) : nat := match ev with EvCall g _ | EvNext g | EvFree g => g end.

Inductive ireach (m0 : IPAM N T) : istate → Prop :=
  | ireach_init : ireach m0 (mkIS m0 ∅)
  | ireach_step s ev m ph : ireach m0 s → ienabled ev s → isection ev s = Some (m, ph) →
      ireach m0 (mkIS m (<[ievent_of ev := ph]> (is_calls s))).

(** ** Ownership *)

(** The address that a call has reserved and not given back. *)
Definition owned (ph : iphase) : option IP :=
  match ph with IReserved a _ | IIsolated a _ | IRollback a _ | IHeld a _ => Some a | _ => None end.
(** The address that a section is about. *)
Definition subject (ph : iphase) : option IP :=
  match ph with
  | IReserved a _ | IIsolated a _ | IRollback a _ | IHeld a _ | IReleased a | IUnlimited a => Some a
  | _ => None
  end.

(** Beyond what was in use at the beginning, the addresses in use are those that are
    owned, each by one goroutine. *)
Record owning (used0 used : gset Z) (held : gmap nat IP) : Prop := mkOwning {
  ow_initial : used0 ⊆ used;
  ow_range u : u ∈ used → in_u32 u;
  ow_held g a : held !! g = Some a → ∃ u, a = Uint32ToIP u ∧ in_u32 u ∧ u ∈ used ∧ (u ∉ used0);
  ow_used u : u ∈ used → u ∈ used0 ∨ ∃ g, held !! g = Some (Uint32ToIP u);
  ow_once g g' a : held !! g = Some a → held !! g' = Some a → g = g' }.

Lemma address_inj u v : in_u32 u → in_u32 v → Uint32ToIP u = Uint32ToIP v → u = v.
Proof. intros Hu Hv E. apply (f_equal IP_ToUint32) in E. rewrite !to_uint32_inv in E by done. by injection E. Qed.

Lemma owning_acquire used0 used held g u : in_u32 u → u ∉ used → held !! g = None →
  owning used0 used held → owning used0 ({[ u ]} ∪ used) (<[g := Uint32ToIP u]> held).
Proof.
  intros Hu Hn Hg [H1 H0 H2 H3 H4]. split.
  - set_solver.
  - intros v [->%elem_of_singleton|?]%elem_of_union; auto.
  - intros g' a. rewrite lookup_insert. case_decide as E.
    + intros [= <-]. exists u. split_and!; [done|done|set_solver|set_solver].
    + intros (v & -> & Hv & Hin & Hni)%H2. exists v. split_and!; [done|done|set_solver|done].
  - intros v [->%elem_of_singleton|[?|[g' Hg']]%H3]%elem_of_union; [|by left|].
    + right. exists g. by rewrite lookup_insert_eq.
    + right. exists g'. rewrite lookup_insert_ne; [done|]. by intros ->; rewrite Hg in Hg'.
  - assert (∀ g', held !! g' ≠ Some (Uint32ToIP u)) as Hno.
    { intros g' (v & E & Hv & Hin & _)%H2. apply address_inj in E; [|done..]. by subst. }
    intros g1 g2 a. destruct (decide (g = g1)) as [<-|], (decide (g = g2)) as [<-|]; rewrite ?lookup_insert_eq, ?lookup_insert_ne by done; [done|..].
    + intros [= <-] Ha. by apply Hno in Ha.
    + intros Ha [= <-]. by apply Hno in Ha.
    + apply H4.
Qed.

Lemma owning_release used0 used held g u : in_u32 u → held !! g = Some (Uint32ToIP u) →
  owning used0 used held → owning used0 (used ∖ {[ u ]}) (delete g held).
Proof.
  intros Hu Hg [H1 H0 H2 H3 H4]. assert (u ∉ used0) as Hu0.
  { destruct (H2 _ _ Hg) as (v & E & Hv & _ & Hn). apply address_inj in E; [|done..]. by subst. }
  split.
  - set_solver.
  - intros v [? _]%elem_of_difference. auto.
  - intros g' a. rewrite lookup_delete. case_decide as E; [done|]. intros Ha.
    destruct (H2 _ _ Ha) as (v & -> & Hv & Hin & Hni). exists v. split_and!; try done.
    apply elem_of_difference. split; [done|]. intros ->%elem_of_singleton. by apply (H4 _ _ _ Hg) in Ha.
  - intros v [Hv Hne%not_elem_of_singleton]%elem_of_difference. destruct (H3 v Hv) as [?|[g' Hg']]; [by left|].
    right. exists g'. rewrite lookup_delete_ne; [done|]. intros ->. assert (Uint32ToIP u = Uint32ToIP v) as E by congruence.
    apply Hne. symmetry. apply address_inj; auto.
  - intros g1 g2 a. rewrite !lookup_delete. repeat case_decide; try done. apply H4.
Qed.

Lemma owning_same used0 used held g a : held !! g = Some a → owning used0 used held → owning used0 used (<[g := a]> held).
Proof. intros Hg. by rewrite insert_id. Qed.

(** ** Sections keep the manager in order *)
Context `{!NetFilterLaws N, !TrafficControlLaws T}.
Implicit Types (p : IPv4pool).

Lemma range_u32 p u : pool_wf p → in_range p u → in_u32 u.
Proof. intros ((? & ?) & ? & _). unfold in_range, in_u32. lia. Qed.

Lemma reserve_wf p u : pool_wf p → in_range p u → pool_wf (set_used p ({[ u ]} ∪ used p)).
Proof. intros Hwf Hu. apply set_used_wf; [done|]. intros b [->%elem_of_singleton|?]%elem_of_union; [done|by apply Hwf]. Qed.

Lemma start_spec c m p : ipam_ok m p → call_ok c →
  ∃ m' ph, start c m = Some (m', ph) ∧
    ((∃ e, ph = IFailed e ∧ ipam_ok m' p) ∨
     ∃ u pol, ph = IReserved (Uint32ToIP u) pol ∧ in_range p u ∧ (u ∉ used p) ∧ ipam_ok m' (set_used p ({[ u ]} ∪ used p))).
Proof.
  intros (Hp & Hwf & Hrun & Hn & Ht) Hc. unfold start. rewrite Hp. cbn [mbind option_bind]. destruct c as [r pol|a pol].
  - pose proof (pexec_spec p (PAlloc r) Hwf Hrun Hc) as Hs. cbn [pexec pool_spec] in Hs.
    destruct (IPPool.Alloc r p) as [[a p1]|e|]; revert Hs; gosimp.
    + intros [[? _]|(u & Hu & Hnu & [= -> ->])]; [done|]. eexists _, _. split; [done|]. right. eexists u, _.
      split_and!; try done. split_and!; try done. by apply reserve_wf.
    + intros _. eexists _, _. split; [done|]. left. by eexists.
    + by intros [[? _]|(u & _ & _ & ?)].
  - pose proof (pexec_spec p (PSet a) Hwf Hrun (proj2 Hc)) as Hs. cbn [pexec pool_spec] in Hs. apply v4_contract in Hs; [|done]. destruct Hs as (u & -> & Hu32 & Hs).
    destruct (IPPool.Set_ (Uint32ToIP u) p) as [p1|e|]; revert Hs; gosimp.
    + intros [[_ ?]|[(_ & _ & ?)|(Hu & Hnu & [= ->])]]; [done..|]. eexists _, _. split; [done|]. right. eexists u, _.
      split_and!; try done. split_and!; try done. by apply reserve_wf.
    + intros _. eexists _, _. split; [done|]. left. by eexists.
    + by intros [[_ ?]|[(_ & _ & ?)|(_ & _ & ?)]].
Qed.

Lemma release_spec u m p : ipam_ok m p → in_u32 u → u ∈ used p →
  ∃ m', release (Uint32ToIP u) m = Some (m', IReleased (Uint32ToIP u)) ∧ ipam_ok m' (set_used p (used p ∖ {[ u ]})).
Proof.
  intros Hok Hu Hin. pose proof Hok as (Hp & Hwf & Hr & _). destruct (give_back_ok m p u Hok Hu Hin) as (m' & Hg & Hok').
  unfold release, giveBack in *. rewrite Hp in *. cbn [mbind option_bind] in *.
  pose proof (pexec_spec p (PUnset (Uint32ToIP u)) Hwf Hr (proj2 (Uint32ToIP_v4 u))) as Hs. cbn [pexec pool_spec] in Hs.
  apply v4_contract in Hs; [|apply Uint32ToIP_v4].
  destruct Hs as (a & Ea & Ha & Hs). apply address_inj in Ea as <-; [|done..].
  destruct (Unset (Uint32ToIP u) p) as [p'|e|]; [|by destruct Hs as [[? _]|[_ ?]]|done].
  injection Hg as <-. by eexists.
Qed.

(** A section of a call that owns its address keeps it, or gives it back and fails. *)
Lemma advance_owned ph u m p : ipam_ok m p → in_u32 u → u ∈ used p → owned ph = Some (Uint32ToIP u) → returned ph = false →
  ∃ m' ph', advance ph m = Some (m', ph') ∧
    ((owned ph' = Some (Uint32ToIP u) ∧ ipam_ok m' p) ∨
     (∃ e, ph' = IFailed e ∧ ipam_ok m' (set_used p (used p ∖ {[ u ]})))).
Proof.
  intros Hok Hu Hin Ho Hret. pose proof Hok as (Hp & Hwf & Hr & (n & Hn & Hg) & [t Ht]).
  assert (∀ a, owned ph = Some a → a = Uint32ToIP u) as Ha by (rewrite Ho; by intros a [= <-]).
  destruct ph as [a pol|a pol|a e| | | | |]; try done; rewrite (Ha a eq_refl) in *; cbn [advance].
  - unfold isolate. destruct (_ && _); [|eexists _, _; split; [done|]; by left].
    rewrite Hn. cbn [mbind option_bind].
    destruct (isolatePeer_good (Uint32ToIP u) n (Uint32ToIP_v4 u) Hg) as (n' & e & -> & Hg'). cbn [mbind option_bind fst snd].
    eexists _, _. split; [done|]. left. split; [by destruct e|]. split_and!; try done. by exists n'.
  - unfold limit. rewrite Ht. cbn [mbind option_bind].
    destruct (setLimit_total (Uint32ToIP u) (RateLimit pol) t (Uint32ToIP_v4 u)) as (t' & e & ->). cbn [mbind option_bind fst snd].
    eexists _, _. split; [done|]. left. split; [by destruct e|]. split_and!; try done. by exists n.
  - unfold rollback. destruct (give_back_ok m p u Hok Hu Hin) as (m' & -> & Hok'). cbn [mbind option_bind].
    eexists _, _. split; [done|]. right. by exists e.
Qed.

(** The sections after the release do not touch the pool. *)
Lemma advance_released ph m p : ipam_ok m p → owned ph = None → returned ph = false → (∀ a, subject ph = Some a → v4 a) →
  ∃ m' ph', advance ph m = Some (m', ph') ∧ owned ph' = None ∧ ipam_ok m' p ∧ (∀ a, subject ph' = Some a → v4 a).
Proof.
  intros Hok Ho Hret Hv. pose proof Hok as (Hp & Hwf & Hr & (n & Hn & Hg) & [t Ht]).
  destruct ph as [| | | | |a|a|]; try done; cbn [advance].
  - unfold unlimit. rewrite Ht. cbn [mbind option_bind].
    destruct (removeLimit_total a t (Hv a eq_refl)) as (t' & e & ->). cbn [mbind option_bind fst snd].
    eexists _, _. split; [done|]. split; [done|]. split; [|done]. split_and!; try done. by exists n.
  - unfold unfilter. rewrite Hn. cbn [mbind option_bind]. eexists _, _. split; [done|]. split; [done|]. split; [|done].
    split_and!; try done. eexists. split; [done|]. by apply remove_good.
Qed.

Definition iinv p0 (s : istate) p : Prop :=
  ipam_ok (is_ipam s) p ∧ min p = min p0 ∧ max p = max p0 ∧ owning (used p0) (used p) (omap owned (is_calls s)) ∧
  map_Forall (λ _ ph, ∀ a, subject ph = Some a → v4 a) (is_calls s).

(** The calls after a section: who owns what, and that addresses are IPv4. *)
Lemma calls_step p0 m g ph calls used1 p :
  ipam_ok m p → min p = min p0 → max p = max p0 → used p = used1 →
  owning (used p0) used1 (partial_alter (λ _, owned ph) g (omap owned calls)) →
  (∀ a, subject ph = Some a → v4 a) → map_Forall (λ _ ph, ∀ a, subject ph = Some a → v4 a) calls →
  iinv p0 (mkIS m (<[g := ph]> calls)) p.
Proof.
  intros Hok H1 H2 <- Ho Hv Hc. split_and!; try done.
  - cbn [is_calls]. destruct (owned ph) as [a|] eqn:E; [by rewrite (omap_insert_Some _ _ _ _ a)|].
    rewrite (omap_insert_None) by done. exact Ho.
  - cbn [is_calls]. by apply map_Forall_insert_2.
Qed.

Lemma lookup_owned (calls : gmap nat iphase) g ph a : calls !! g = Some ph → owned ph = Some a → omap owned calls !! g = Some a.
Proof. intros Hg Ho. by rewrite lookup_omap, Hg. Qed.

Lemma unowned_same (held : gmap nat IP) g : held !! g = None → partial_alter (λ _, None) g held = held.
Proof. exact (delete_id held g). Qed.

Lemma subject_owned ph u : owned ph = Some (Uint32ToIP u) → ∀ a, subject ph = Some a → v4 a.
Proof. intros Ho a Ha. assert (a = Uint32ToIP u) as -> by (destruct ph; cbn in *; congruence). apply Uint32ToIP_v4. Qed.

Lemma section_ok p0 s p ev : pool_wf p0 → iinv p0 s p → ienabled ev s →
  ∃ m ph p', isection ev s = Some (m, ph) ∧ iinv p0 (mkIS m (<[ievent_of ev := ph]> (is_calls s))) p'.
Proof.
  intros Hwf0 (Hok & Hmin & Hmax & Ho & Hv) Hen. destruct ev as [g c|g|g]; cbn [ienabled isection ievent_of] in *.
  - destruct Hen as [Hg Hc]. assert (omap owned (is_calls s) !! g = None) as Hng by (by rewrite lookup_omap, Hg).
    destruct (start_spec c _ p Hok Hc) as (m' & ph & -> & [(e & -> & Hok')|(u & pol & -> & Hu & Hnu & Hok')]).
    + eexists _, _, p. split; [done|]. eapply calls_step; try done. cbn [owned]. by rewrite unowned_same.
    + eexists _, _, _. split; [done|]. eapply calls_step; try done; [|by apply (subject_owned _ u)].
      apply owning_acquire; try done. by apply (range_u32 p); [apply Hok|].
  - destruct Hen as (ph & Hg & Hret). rewrite Hg. cbn [mbind option_bind]. destruct (owned ph) as [a|] eqn:Eo.
    + pose proof (lookup_owned _ _ _ _ Hg Eo) as Hl. destruct (ow_held _ _ _ Ho g a Hl) as (u & -> & Hu & Hin & _).
      destruct (advance_owned ph u _ p Hok Hu Hin Eo Hret) as (m' & ph' & -> & [[Eo' Hok']|(e & -> & Hok')]).
      * eexists _, _, p. split; [done|]. eapply calls_step; try done; [|by apply (subject_owned _ u)]. rewrite Eo'.
        by apply owning_same.
      * eexists _, _, _. split; [done|]. eapply calls_step; try done. by apply owning_release.
    + destruct (advance_released ph _ p Hok Eo Hret (Hv g ph Hg)) as (m' & ph' & -> & Eo' & Hok' & Hv').
      eexists _, _, p. split; [done|]. eapply calls_step; try done. rewrite Eo'.
      rewrite unowned_same; [done|]. by rewrite lookup_omap, Hg.
  - destruct Hen as (a & pol & Hg). rewrite Hg. cbn [mbind option_bind].
    pose proof (lookup_owned _ _ _ _ Hg eq_refl) as Hl. destruct (ow_held _ _ _ Ho g a Hl) as (u & -> & Hu & Hin & _).
    destruct (release_spec u _ p Hok Hu Hin) as (m' & -> & Hok').
    eexists _, _, _. split; [done|]. eapply calls_step; try done; [by apply owning_release|].
    intros a [= <-]. apply Uint32ToIP_v4.
Qed.

Lemma ireach_inv m0 p0 s : ipam_ok m0 p0 → ireach m0 s → ∃ p, iinv p0 s p.
Proof.
  intros Hok0. induction 1 as [|s ev m ph _ [p Hi] Hen Hs].
  - exists p0. pose proof Hok0 as (_ & Hwf & _). split_and!; try done. cbn [is_calls]. rewrite omap_empty. split; try done.
    + intros u Hu. apply (range_u32 p0); [done|]. by apply Hwf.
    + intros u Hu. by left.
  - destruct (section_ok p0 s p ev (proj1 (proj2 Hok0)) Hi Hen) as (m' & ph' & p' & Hs' & Hi').
    rewrite Hs in Hs'. injection Hs' as <- <-. by exists p'.
Qed.

(** C9: Goroutines that share a manager, in every interleaving of the calls it makes to
    the pool, the filter and the traffic control, and whatever these answer: no section
    panics; beyond the addresses that were in use from the start the pool holds exactly
    those that some goroutine has reserved or holds; and no address has two owners, so
    two goroutines never hold the same one. *)
Theorem ipam_shared m0 p0 s :
  ipam_ok m0 p0 → ireach m0 s →
  (∀ ev, ienabled ev s → ∃ x, isection ev s = Some x) ∧
  (∃ p, ipam_ok (is_ipam s) p ∧ min p = min p0 ∧ max p = max p0 ∧
     ∀ u, u ∈ used p ↔ u ∈ used p0 ∨ (in_u32 u ∧ ∃ g ph, is_calls s !! g = Some ph ∧ owned ph = Some (Uint32ToIP u))) ∧
  (∀ g g' ph ph' a, is_calls s !! g = Some ph → is_calls s !! g' = Some ph' →
     owned ph = Some a → owned ph' = Some a → g = g').
Proof.
  intros Hok Hr. destruct (ireach_inv m0 p0 s Hok Hr) as [p Hi]. pose proof Hi as (Hok' & Hmin & Hmax & Ho & _). split_and!.
  - intros ev Hen. destruct (section_ok p0 s p ev (proj1 (proj2 Hok)) Hi Hen) as (m & ph & _ & H & _). eauto.
  - exists p. split_and!; try done. intros u. split.
    + intros Hu. destruct (ow_used _ _ _ Ho u Hu) as [?|[g Hg]]; [by left|]. right. split; [by apply (ow_range _ _ _ Ho)|].
      rewrite lookup_omap in Hg. destruct (is_calls s !! g) as [ph|] eqn:E; [|done]. by exists g, ph.
    + intros [Hu|(Hu & g & ph & Hg & Hph)]; [by apply (ow_initial _ _ _ Ho)|].
      destruct (ow_held _ _ _ Ho g _ (lookup_owned _ _ _ _ Hg Hph)) as (v & E & Hv & Hin & _).
      apply address_inj in E as ->; done.
  - intros g g' ph ph' a Hg Hg' Ha Ha'. eapply (ow_once _ _ _ Ho); by eapply lookup_owned.
Qed.
End shared.

(** ** A concrete run: a release that is overtaken *)
#[local] Existing Instances listNF listNF_laws.

Definition race_addr : IP := Uint32ToIP 167772235.   (* 10.0.0.75 *)
Definition trusted : Policy := mkPolicy AccessPolicyAllowAll 0.
Definition limited : Policy := mkPolicy AccessPolicyInternetOnly Mbitps.
Definition race_ipam : IPAM (list IP) (tcWrapper fake) :=
  mkIPAM AccessPolicyAllowAll (Some []) (Some (fresh_tc false)) (Some sample_pool).

Lemma race_ipam_ok : ipam_ok race_ipam sample_pool.
Proof. split; [reflexivity|]. split; [apply sample_pool_wf|]. split; [reflexivity|]. split; [by exists []|by eexists]. Qed.

(** Goroutine 0 holds the address without restrictions and releases it; goroutine 1 gets
    it with a rule and a limit before goroutine 0 has removed what it never had. *)
Definition race_events : list ievent :=
  [EvCall 0 (CSet race_addr trusted); EvNext 0; EvNext 0; EvFree 0;
   EvCall 1 (CSet race_addr limited); EvNext 1; EvNext 1; EvNext 0; EvNext 0].
Definition istep (s : istate (N := list IP) (T := tcWrapper fake)) (ev : ievent) : istate :=
  match isection ev s with Some (m, ph) => mkIS m (<[ievent_of ev := ph]> (is_calls s)) | None => s end.
Definition race_state (n : nat) : istate := foldl istep (mkIS race_ipam ∅) (take n race_events).

Lemma race_reach n : (n ≤ 9)%nat → ireach race_ipam (race_state n).
Proof.
  assert (∀ k ev, race_events !! k = Some ev → race_state (S k) = istep (race_state k) ev) as Hstep.
  { intros k ev Hk. unfold race_state. rewrite (take_S_r _ _ _ Hk), foldl_app. done. }
  induction n as [|n IH]; intros Hn; [apply ireach_init|]. specialize (IH ltac:(lia)).
  assert (∃ ev m ph, race_events !! n = Some ev ∧ isection ev (race_state n) = Some (m, ph) ∧ ienabled ev (race_state n)) as (ev & m & ph & Hev & Hs & Hen).
  { assert (ienabled (EvCall 0 (CSet race_addr trusted)) (race_state 0) ∧ ienabled (EvCall 1 (CSet race_addr limited)) (race_state 4)) as [H0 H4].
    { split; (split; [vm_compute; reflexivity|apply Uint32ToIP_v4]). }
    do 9 (destruct n as [|n]; [eexists _, _, _; split; [reflexivity|]; split; [vm_compute; reflexivity|];
      solve [exact H0|exact H4|vm_compute; eauto]|]). lia. }
  rewrite (Hstep n ev Hev). unfold istep. rewrite Hs. by apply ireach_step.
Qed.

Lemma ipam_shared_witness :
  is_calls (race_state 9) !! 1%nat = Some (IHeld race_addr limited) ∧
  ∃ p, ipam_ok (is_ipam (race_state 9)) p ∧ 167772235 ∈ used p.
Proof.
  split; [vm_compute; reflexivity|].
  destruct (ipam_shared race_ipam sample_pool (race_state 9) race_ipam_ok (race_reach 9 (le_n 9)))
    as (_ & (p & Hok & _ & _ & Hu) & _).
  exists p. split; [exact Hok|]. apply Hu. right. split; [vm_compute; split; congruence|].
  exists 1%nat, (IHeld race_addr limited). split; vm_compute; reflexivity.
Defined.

(** The goroutine that got the address holds it with neither rule nor limit: the late
    sections of the release have removed them. *)
Example release_overtaken :
  is_calls (race_state 9) !! 1%nat = Some (IHeld race_addr limited) ∧ nf (is_ipam (race_state 7)) = Some [race_addr] ∧
  nf (is_ipam (race_state 9)) = Some [] ∧
  (λ t, ipToFilterHandler t !! 167772235) <$> tc (is_ipam (race_state 9)) = Some None.
Proof. vm_compute. done. Qed.
