(* ===== verification/XStats.v ===== *)
(** * xstats: traffic counters of sessions, kept in a cache

    Models [src/xstats/utils.go] (the byte layout of the counters) and
    [src/xstats/service.go] on top of [XCache].  Slices are byte sequences; writing
    into one is [overwrite]; an out-of-range slice or write is a panic ([None]).  The
    uuid package and the JSON codec of the session data are parameters. *)
From S2P Require Import Prelude XCache.

Local Open Scope Z_scope.

(** ** encoding/binary, little endian *)
Fixpoint le_put (n : nat) (v : Z) : bytes :=
  match n with O => [] | S n => u8 v :: le_put n (Z.shiftr v 8) end.
Fixpoint le_get (bs : bytes) : Z :=
  match bs with [] => 0 | b :: bs => b + 256 * le_get bs end.

(** [PutUint64(d[off:], v)] and the like: panics when the bytes are not there. *)
Definition put_at (off : Z) (w : nat) (v : Z) (d : bytes) : option bytes :=
  if zlen d <? off + Z.of_nat w then None else Some (overwrite off (le_put w v) d).

(** ** utils.go *)
Definition ParseUint64 (d : bytes) : Z := if zlen d <? 8 then 0 else le_get (slice 0 8 d).
Definition SetUint64 (v : Z) (d : bytes) : bytes := if zlen d <? 8 then d else overwrite 0 (le_put 8 v) d.
Definition ParseUint16 (d : bytes) : Z := if zlen d <? 2 then 0 else le_get (slice 0 2 d).
Definition SetUint16 (v : Z) (d : bytes) : bytes := if zlen d <? 2 then d else overwrite 0 (le_put 2 v) d.

Definition orMake16 (d : bytes) : bytes := if zlen d =? 0 then replicate 16 0 else d.

Definition RxTx (rx tx : Z) (d : bytes) : option bytes :=
  d ← put_at 0 8 rx (orMake16 d); put_at 8 8 tx d.
Definition Rx (rx : Z) (d : bytes) : option bytes := put_at 0 8 rx (orMake16 d).
Definition Tx (tx : Z) (d : bytes) : option bytes := put_at 8 8 tx (orMake16 d).

Definition ParseRxTx (d : bytes) : Z * Z :=
  if zlen d <? 16 then (0, 0) else (le_get (slice 0 8 d), le_get (slice 8 16 d)).
Definition ParseRx (d : bytes) : Z := if zlen d <? 8 then 0 else le_get (slice 0 8 d).
Definition ParseTx (d : bytes) : Z := if zlen d <? 16 then 0 else le_get (slice 8 16 d).

Definition AddRxTx (drx dtx : Z) (d : bytes) : option bytes :=
  if (drx =? 0) && (dtx =? 0) then Some d else
  let '(rx, tx) := ParseRxTx d in RxTx (u64 (rx + drx)) (u64 (tx + dtx)) d.
Definition AddRx (drx : Z) (d : bytes) : option bytes :=
  if drx =? 0 then Some d else Rx (u64 (ParseRx d + drx)) d.
Definition AddTx (dtx : Z) (d : bytes) : option bytes :=
  if dtx =? 0 then Some d else Tx (u64 (ParseTx d + dtx)) d.

(** ** service.go *)
Definition maxBytes : Z := Z.shiftl 32 20.

Record SessionData := mkData { InstallationID : bytes; UserID : bytes; Country : bytes }.
Record Report := mkReport {
  SessionID : bytes; Data : SessionData; CreatedNano : Z; DeltaRx : Z; DeltaTx : Z; DeltaTNano : Z }.

Section service.
Context {P : Type} `{!ChunkAlloc P}.
Variable Sum64 : bytes → Z.
(** [uuid.FromBytes(k)] then [String()]. *)
Variable uuidString : bytes → bytes.
(** [json.Marshal] of the session data, and [json.Unmarshal] into it. *)
Variable marshal : SessionData → bytes.
Variable unmarshal : bytes → SessionData.

(** [None]: a slice expression of [parse] is out of range. *)
Definition parse (k v : bytes) (nowNano : Z) : option Report :=
  if zlen v <? 26 then None else
  let '(rx, tx) := ParseRxTx (slice 0 16 v) in
  let created := ParseUint64 (slice 16 24 v) in
  let dataLen := ParseUint16 (slice 24 26 v) in
  if zlen v <? 26 + dataLen then None else
  Some (mkReport (uuidString k) (unmarshal (slice 26 (26 + dataLen) v)) created rx tx (u64 (nowNano - created))).

(** The value of a new session; [nowNano] is what [NowNano()] returns. *)
Definition toValue (data : SessionData) (drx dtx nowNano : Z) : bytes :=
  let js := marshal data in
  let d := replicate (Z.to_nat (8 + 8 + 8 + 2 + zlen js)) 0 in
  let d := overwrite 0 (le_put 8 drx) d in
  let d := overwrite 8 (le_put 8 dtx) d in
  let d := overwrite 16 (le_put 8 nowNano) d in
  let d := overwrite 24 (le_put 2 (u16 (zlen js))) d in
  overwrite 26 js d.

(** The mutator [ReportStats] hands to [Update]: an empty value is a new session,
    anything else is changed in place. *)
Definition reportMutator (data : SessionData) (drx dtx nowNano : Z) (v : bytes) : mutation :=
  if zlen v =? 0 then mkMutation v (toValue data drx dtx nowNano) true None
  else let v' := default v (AddRxTx drx dtx v) in mkMutation v' v' false None.

(** Errors of [Update] are dropped; the caches of chunks, buckets and the batches
    handed to [onEvict] remain. *)
Definition ReportStats (p : P) (c : Cache) (sessionID : bytes) (data : SessionData) (drx dtx nowNano : Z)
    : go cerr (P * Cache * list Items) :=
  '(p', c', evs, _) ← Cache_Update Sum64 p c sessionID (reportMutator data drx dtx nowNano);
  Ok (p', c', evs).

Definition New (p : P) : go cerr (P * Cache) := Cache_New p maxBytes true.

(** [onEvict]: one report per item, in order. *)
Fixpoint onEvictLoop (ks vs : list bytes) (nowNano : Z) : option (list Report) :=
  match vs, ks with
  | [], _ => Some []
  | v :: vs, k :: ks => r ← parse k v nowNano; rs ← onEvictLoop ks vs nowNano; Some (r :: rs)
  | _ :: _, [] => None
  end.
Definition onEvict (evicted : Items) (nowNano : Z) : option (list Report) :=
  onEvictLoop (Keys evicted) (Values evicted) nowNano.

(** One tick of [run]: [Reset] hands its items to [onEvict]. *)
Definition flush (p : P) (c : Cache) (nowNano : Z) : go cerr (P * Cache * list (option (list Report))) :=
  match Cache_Reset p c with
  | Ok (p', c', evs) => Ok (p', c', (λ it, onEvict it nowNano) <$> (evs : list Items))
  | Err e => Err e
  | Panic => Panic
  end.
End service.
