(* ===== verification/XStatsProps.v ===== *)
(** * xstats: counters accumulate, and reports carry their sums *)
From S2P Require Import Prelude XCache XCacheSpec XCacheProps XStats.

Local Open Scope Z_scope.

(** ** The codec *)
Lemma le_put_length n v : length (le_put n v) = n.
Proof. revert v. induction n as [|n IH]; intros v; cbn; [done|]. by rewrite IH. Qed.

Lemma zlen_le_put n v : zlen (le_put n v) = Z.of_nat n.
Proof. unfold zlen. by rewrite le_put_length. Qed.

Lemma le_get_put n v : 0 ≤ v < 256 ^ Z.of_nat n → le_get (le_put n v) = v.
Proof.
  revert v. induction n as [|n IH]; intros v Hv; [change (256 ^ Z.of_nat 0) with 1 in Hv; cbn; lia|].
  rewrite Nat2Z.inj_succ, Z.pow_succ_r in Hv by lia. cbn [le_put le_get].
  rewrite Z.shiftr_div_pow2 by lia. change (2 ^ 8) with 256. rewrite IH.
  - unfold u8. change (2 ^ 8) with 256. pose proof (Z.div_mod v 256). lia.
  - split; [apply Z.div_pos; lia|]. apply Z.div_lt_upper_bound; lia.
Qed.

Lemma get_put64 v : in_u64 v → le_get (le_put 8 v) = v.
Proof. unfold in_u64. intros Hv. apply le_get_put. change (256 ^ Z.of_nat 8) with (2 ^ 64). lia. Qed.
Lemma get_put16 v : in_u16 v → le_get (le_put 2 v) = v.
Proof. unfold in_u16. intros Hv. apply le_get_put. change (256 ^ Z.of_nat 2) with (2 ^ 16). lia. Qed.

Lemma slice_mid (a b c : bytes) : slice (zlen a) (zlen a + zlen b) (a ++ b ++ c) = b.
Proof.
  unfold slice, zlen. replace (Z.to_nat (Z.of_nat (length a) + Z.of_nat (length b) - Z.of_nat (length a))) with (length b) by lia.
  rewrite Nat2Z.id, drop_app_length. by rewrite take_app_length.
Qed.

(** The layout of a session value. *)
Definition layout (rx tx created : Z) (js : bytes) : bytes :=
  le_put 8 rx ++ le_put 8 tx ++ le_put 8 created ++ le_put 2 (zlen js) ++ js.

Lemma zlen_layout rx tx created js : zlen (layout rx tx created js) = 26 + zlen js.
Proof. unfold layout. rewrite !zlen_app, !zlen_le_put. lia. Qed.

Lemma overwrite_app (a b b' c : bytes) off :
  zlen a = off → zlen b' = zlen b → overwrite off b' (a ++ b ++ c) = a ++ b' ++ c.
Proof.
  intros <- Hl. unfold overwrite, zlen in *. apply Nat2Z.inj in Hl. rewrite Nat2Z.id, take_app_length.
  rewrite Hl, <- (length_app a b), (app_assoc a b c), drop_app_length. done.
Qed.

Lemma overwrite_head (b b' c : bytes) : zlen b' = zlen b → overwrite 0 b' (b ++ c) = b' ++ c.
Proof. intros Hl. by apply (overwrite_app []). Qed.

Lemma getLocked_err b k h e : getLocked b k h = Err e → getRef b k h = Err e.
Proof.
  unfold getLocked. destruct (getRef b k h) as [r| |]; gosimp; [|by intros [= ->]|done].
  unfold deref, of_slice. repeat case_match; done.
Qed.

Section service.
Context {P : Type} `{!ChunkAlloc P}.
Variable Sum64 : bytes → Z.
Variable uuidString : bytes → bytes.
Variable marshal : SessionData → bytes.
Variable unmarshal : bytes → SessionData.

Lemma toValue_layout data rx tx now :
  zlen (marshal data) < 65536 → toValue marshal data rx tx now = layout rx tx now (marshal data).
Proof.
  intros Hl. set (js := marshal data) in *. pose proof (zlen_nonneg js). unfold toValue. fold js.
  replace (replicate (Z.to_nat (8 + 8 + 8 + 2 + zlen js)) 0)
    with (replicate 8 0 ++ replicate 8 0 ++ replicate 8 0 ++ replicate 2 0 ++ replicate (length js) 0 : bytes).
  2: { rewrite <- !replicate_add. f_equal. unfold zlen. lia. }
  rewrite (overwrite_head (replicate 8 0)) by done.
  rewrite (overwrite_app (le_put 8 rx) (replicate 8 0)) by (rewrite ?zlen_le_put; done).
  rewrite (app_assoc (le_put 8 rx)).
  rewrite (overwrite_app (le_put 8 rx ++ le_put 8 tx) (replicate 8 0)) by (rewrite ?zlen_app, ?zlen_le_put; done).
  rewrite (app_assoc (le_put 8 rx ++ le_put 8 tx)).
  rewrite (overwrite_app _ (replicate 2 0)) by (rewrite ?zlen_app, ?zlen_le_put; done).
  rewrite (app_assoc _ (le_put 2 _)). rewrite <- (app_nil_r (replicate (length js) 0)).
  rewrite (overwrite_app _ (replicate (length js) 0)).
  - rewrite app_nil_r. unfold layout. rewrite u16_small by (unfold in_u16; lia). by rewrite <- !app_assoc.
  - by rewrite !zlen_app, !zlen_le_put.
  - unfold zlen. by rewrite length_replicate.
Qed.

Lemma parse_layout k rx tx created now js :
  in_u64 rx → in_u64 tx → in_u64 created → zlen js < 65536 →
  parse uuidString unmarshal k (layout rx tx created js) now =
    Some (mkReport (uuidString k) (unmarshal js) created rx tx (u64 (now - created))).
Proof.
  intros Hrx Htx Hc Hl. pose proof (zlen_nonneg js) as H0. unfold parse. rewrite zlen_layout.
  rewrite (proj2 (Z.ltb_ge _ 26)) by lia.
  assert (slice 0 16 (layout rx tx created js) = le_put 8 rx ++ le_put 8 tx) as E1.
  { pose proof (slice_mid [] (le_put 8 rx ++ le_put 8 tx) (le_put 8 created ++ le_put 2 (zlen js) ++ js)) as E.
    rewrite !zlen_app, !zlen_le_put in E. unfold layout. rewrite <- app_assoc in E. exact E. }
  assert (slice 16 24 (layout rx tx created js) = le_put 8 created) as E2.
  { pose proof (slice_mid (le_put 8 rx ++ le_put 8 tx) (le_put 8 created) (le_put 2 (zlen js) ++ js)) as E.
    rewrite !zlen_app, !zlen_le_put in E. unfold layout. rewrite <- !app_assoc in E. exact E. }
  assert (slice 24 26 (layout rx tx created js) = le_put 2 (zlen js)) as E3.
  { pose proof (slice_mid (le_put 8 rx ++ le_put 8 tx ++ le_put 8 created) (le_put 2 (zlen js)) js) as E.
    rewrite !zlen_app, !zlen_le_put in E. unfold layout. rewrite <- !app_assoc in E. exact E. }
  assert (slice 26 (26 + zlen js) (layout rx tx created js) = js) as E4.
  { pose proof (slice_mid (le_put 8 rx ++ le_put 8 tx ++ le_put 8 created ++ le_put 2 (zlen js)) js []) as E.
    rewrite !zlen_app, !zlen_le_put, app_nil_r in E. unfold layout. rewrite <- !app_assoc in E. exact E. }
  rewrite E1, E2, E3. unfold ParseRxTx, ParseUint64, ParseUint16. rewrite !zlen_app, !zlen_le_put.
  change (Z.of_nat 8 + Z.of_nat 8 <? 16) with false. change (Z.of_nat 8 <? 8) with false.
  change (Z.of_nat 2 <? 2) with false. cbv iota zeta beta.
  assert (slice 0 8 (le_put 8 rx ++ le_put 8 tx) = le_put 8 rx) as E5.
  { pose proof (slice_mid [] (le_put 8 rx) (le_put 8 tx)) as E. rewrite zlen_le_put in E. exact E. }
  assert (slice 8 16 (le_put 8 rx ++ le_put 8 tx) = le_put 8 tx) as E6.
  { pose proof (slice_mid (le_put 8 rx) (le_put 8 tx) []) as E. rewrite !zlen_le_put, app_nil_r in E. exact E. }
  assert (∀ n v, slice 0 (Z.of_nat n) (le_put n v) = le_put n v) as E7.
  { intros n v. rewrite <- (zlen_le_put n v). apply slice_full. }
  rewrite E5, E6, (E7 8%nat), (E7 2%nat), !get_put64, get_put16 by (done || unfold in_u16; lia).
  rewrite (proj2 (Z.ltb_ge _ _)) by lia. by rewrite E4.
Qed.

(** Counting in place. *)
Lemma AddRxTx_layout drx dtx rx tx created js :
  in_u64 rx → in_u64 tx → in_u64 drx → in_u64 dtx →
  AddRxTx drx dtx (layout rx tx created js) = Some (layout (u64 (rx + drx)) (u64 (tx + dtx)) created js).
Proof.
  intros Hrx Htx Hdrx Hdtx. unfold AddRxTx. destruct ((drx =? 0) && (dtx =? 0)) eqn:E; bsplit.
  { subst. by rewrite !Z.add_0_r, !u64_small. }
  pose proof (zlen_nonneg js). unfold ParseRxTx. rewrite zlen_layout, (proj2 (Z.ltb_ge _ 16)) by lia.
  assert (slice 0 8 (layout rx tx created js) = le_put 8 rx) as E1.
  { pose proof (slice_mid [] (le_put 8 rx) (le_put 8 tx ++ le_put 8 created ++ le_put 2 (zlen js) ++ js)) as E1.
    rewrite zlen_le_put in E1. exact E1. }
  assert (slice 8 16 (layout rx tx created js) = le_put 8 tx) as E2.
  { pose proof (slice_mid (le_put 8 rx) (le_put 8 tx) (le_put 8 created ++ le_put 2 (zlen js) ++ js)) as E2.
    rewrite !zlen_le_put in E2. exact E2. }
  rewrite E1, E2, !get_put64 by done. unfold RxTx, orMake16, put_at.
  rewrite zlen_layout, (proj2 (Z.eqb_neq _ 0)) by lia. cbv iota. rewrite zlen_layout, (proj2 (Z.ltb_ge _ _)) by lia.
  cbn [mbind option_bind]. unfold layout at 1 2.
  rewrite (overwrite_head (le_put 8 rx)) by (by rewrite !zlen_le_put).
  rewrite !zlen_app, !zlen_le_put, (proj2 (Z.ltb_ge _ _)) by lia.
  rewrite (overwrite_app (le_put 8 _) (le_put 8 tx)) by (by rewrite ?zlen_le_put). done.
Qed.

(** The report of a session carries, modulo 2^64, the sums of everything that was
    reported for it, the time of its first report and its data, however many
    reports were added to its value. *)
Theorem session_accumulates (k : bytes) (data : SessionData) (rx0 tx0 created now : Z) (ds : list (Z * Z)) :
  in_u64 rx0 → in_u64 tx0 → in_u64 created → Forall (λ d, in_u64 d.1 ∧ in_u64 d.2) ds →
  zlen (marshal data) < 65536 → unmarshal (marshal data) = data →
  (foldl (λ v d, v ≫= AddRxTx d.1 d.2) (Some (toValue marshal data rx0 tx0 created)) ds
     ≫= λ v, parse uuidString unmarshal k v now) =
  Some (mkReport (uuidString k) data created
          (u64 (foldl (λ s d, s + d.1) rx0 ds)) (u64 (foldl (λ s d, s + d.2) tx0 ds)) (u64 (now - created))).
Proof.
  intros Hrx Htx Hc Hds Hl Hum. rewrite toValue_layout by done.
  rewrite <- (u64_small rx0) at 1 by done. rewrite <- (u64_small tx0) at 1 by done.
  clear Hrx Htx. revert rx0 tx0. induction Hds as [|[drx dtx] ds [Hx Ht] _ IH]; intros rx0 tx0; cbn [foldl].
  - cbn [mbind option_bind]. rewrite parse_layout by (done || apply u64_range). by rewrite Hum.
  - cbn [mbind option_bind fst snd] in *. rewrite AddRxTx_layout by (done || apply u64_range).
    replace (u64 (u64 rx0 + drx)) with (u64 (rx0 + drx)) by (unfold u64; by rewrite Zplus_mod_idemp_l).
    replace (u64 (u64 tx0 + dtx)) with (u64 (tx0 + dtx)) by (unfold u64; by rewrite Zplus_mod_idemp_l).
    apply IH.
Qed.

(** Reporting for a session that is in the cache adds to its counters in place
    and changes no other session; for a session that is not, it stores a new value
    (given memory), which reads back as the reported counters. *)
Theorem report_stats (p : P) (c : Cache) (sid : bytes) (data : SessionData) (drx dtx now : Z) :
  cache_wf c → pool_ok p → is_Some (getChunk p) →
  in_u64 drx → in_u64 dtx → in_u64 now → zlen (marshal data) < 60000 → zlen sid = 16 →
  (∀ rx tx created js, in_u64 rx → in_u64 tx →
     Cache_Get Sum64 c sid = Ok (layout rx tx created js) →
     ∃ p' c', ReportStats Sum64 marshal p c sid data drx dtx now = Ok (p', c', []) ∧ cache_wf c' ∧
       Cache_Get Sum64 c' sid = Ok (layout (u64 (rx + drx)) (u64 (tx + dtx)) created js) ∧
       ∀ k', Sum64 k' ≠ Sum64 sid → Cache_Get Sum64 c' k' = Cache_Get Sum64 c k') ∧
  (Cache_Get Sum64 c sid = Err ErrNoData →
     ∃ p' c' evs, ReportStats Sum64 marshal p c sid data drx dtx now = Ok (p', c', evs) ∧ cache_wf c' ∧
       Cache_Get Sum64 c' sid = Ok (layout drx dtx now (marshal data))).
Proof.
  intros Hc Hp [x Hmem] Hdrx Hdtx Hnow Hjs Hsid.
  destruct (cache_bucket Sum64 c sid Hc) as (b & Hb & Hwf).
  unfold ReportStats, Cache_Update, Cache_Get. rewrite Hb. split.
  - intros rx tx created js Hrx Htx Hg.
    assert (reportMutator marshal data drx dtx now (layout rx tx created js) =
      let v' := layout (u64 (rx + drx)) (u64 (tx + dtx)) created js in mkMutation v' v' false None) as Em.
    { unfold reportMutator. rewrite zlen_layout. pose proof (zlen_nonneg js).
      rewrite (proj2 (Z.eqb_neq _ 0)) by lia. by rewrite AddRxTx_layout. }
    destruct (bucket_Update_inplace p b sid (Sum64 sid) _ (reportMutator marshal data drx dtx now) (XCache.onEvict c) Hwf Hg)
      as (b' & -> & Hwf' & Hcont); [by rewrite Em; cbn [m_left]; rewrite !zlen_layout|by rewrite Em|].
    rewrite Em. gosimp. cbn [m_err]. eexists p, _. split_and!; [done|by apply setBucket_wf|..].
    + pose proof (setBucket_get Sum64 c sid sid b b' Hc Hb) as E. rewrite decide_True in E by done.
      unfold Cache_Get in E. rewrite E, getLocked_contents, Hcont, lookup_insert_eq by done.
      rewrite bool_decide_eq_true_2 by done. by rewrite Em.
    + intros k' Hne. pose proof (setBucket_get Sum64 c sid k' b b' Hc Hb) as E. unfold Cache_Get in E. rewrite E.
      case_decide as Ei; [|done]. rewrite <- Ei, Hb.
      by rewrite !getLocked_contents, Hcont, lookup_insert_ne by done.
  - intros Hg. assert (reportMutator marshal data drx dtx now [] =
      mkMutation [] (layout drx dtx now (marshal data)) true None) as Em.
    { unfold reportMutator. cbn. by rewrite toValue_layout by lia. }
    assert (fits sid (layout drx dtx now (marshal data))) as Hfit.
    { unfold fits, recLen. rewrite zlen_layout, Hsid. unfold maxKeyLen, chunkSize. pose proof (zlen_nonneg (marshal data)). lia. }
    destruct (setLocked_run p b sid _ (Sum64 sid) (XCache.onEvict c) Hwf Hp Hfit)
      as [(p' & b' & evs & E & Hp' & Hs)|[E _]]; [|by rewrite Hmem in E].
    destruct (set_step_spec _ _ _ _ _ _ _ Hwf Hs) as (Hwf' & [Hnew Hold] & _).
    pose proof (getLocked_err _ _ _ _ Hg) as Href.
    unfold bucket_Update. rewrite Href. cbv zeta. rewrite Em. cbn [m_err m_update m_ret]. rewrite E. gosimp.
    eexists p', _, evs. split_and!; [done|by apply setBucket_wf|].
    pose proof (setBucket_get Sum64 c sid sid b b' Hc Hb) as Eg. rewrite decide_True in Eg by done.
    unfold Cache_Get in Eg. rewrite Eg, getLocked_contents, Hnew by done. by rewrite bool_decide_eq_true_2.
Qed.
End service.

(** ** Witnesses: a codec that stores the installation id *)
Definition marshal0 (d : SessionData) : bytes := InstallationID d.
Definition unmarshal0 (b : bytes) : SessionData := mkData b [] [].

Lemma session_accumulates_witness :
  (foldl (λ v d, v ≫= AddRxTx d.1 d.2) (Some (toValue marshal0 (mkData [7] [] []) 5 6 100)) [(10, 20); (2 ^ 64 - 1, 1)]
     ≫= λ v, parse id unmarshal0 [1] v 150) =
  Some (mkReport [1] (mkData [7] [] []) 100 14 27 50).
Proof.
  apply (session_accumulates id marshal0 unmarshal0 [1] (mkData [7] [] []) 5 6 100 150 [(10, 20); (2 ^ 64 - 1, 1)]).
  - vm_compute. split; congruence.
  - vm_compute. split; congruence.
  - vm_compute. split; congruence.
  - repeat constructor; vm_compute; congruence.
  - vm_compute. reflexivity.
  - reflexivity.
Defined.

Lemma report_stats_witness :
  ∃ p' c' evs, ReportStats sumHash marshal0 tt cache0 (replicate 16 1) (mkData [7] [] []) 5 6 100 = Ok (p', c', evs) ∧
    Cache_Get sumHash c' (replicate 16 1) = Ok (layout 5 6 100 [7]).
Proof.
  destruct (report_stats sumHash marshal0 tt cache0 (replicate 16 1) (mkData [7] [] []) 5 6 100 cache0_wf)
    as [_ (p' & c' & evs & Hrun & _ & Hget)].
  - exact I.
  - eexists. reflexivity.
  - vm_compute. split; congruence.
  - vm_compute. split; congruence.
  - vm_compute. split; congruence.
  - vm_compute. reflexivity.
  - vm_compute. reflexivity.
  - vm_compute. reflexivity.
  - exists p', c', evs. split; [exact Hrun|exact Hget].
Defined.
