(* ===== verification/XPipe.v ===== *)
(** * xpipe and xsync: an in-memory pipe and its condition variable

    Models [src/xpipe/pipe.go] and [src/xsync/waiter.go] as a machine whose steps are the
    sections that run under the pipe's lock.  The notification channel of a [Cond]
    has one buffered slot and, as Go's channels do, hands a value directly to the
    goroutine that has been waiting longest.  A goroutine is in one of the program
    points of [Read] or [Write]; time and the context's cancellation are inputs of
    the steps. *)
From S2P Require Import Prelude.

Local Open Scope Z_scope.

Inductive perr := ErrDeadlineExceeded | ErrClosed | ErrContext.
#[global] Instance perr_eq_dec : EqDecision perr.
Proof. solve_decision. Defined.

(** ** waiter.go *)

(** [notify]: the slot, the queue of blocked receivers, and the receivers that
    were handed a value and have not run yet. *)
Record Cond := mkCond { full : bool; recvq : list nat; handed : list nat; waiters : Z }.

Definition NewCond : Cond := mkCond false [] [] 0.

Definition Signal (c : Cond) : Cond :=
  if 0 <? waiters c then
    match recvq c with
    | t :: q => mkCond (full c) q (handed c ++ [t]) (waiters c)
    | [] => mkCond true [] (handed c) (waiters c)
    end
  else c.

Definition Broadcast (c : Cond) : Cond := Nat.iter (Z.to_nat (waiters c)) Signal c.

(** The first half of [Wait]: count the waiter (the lock is released). *)
Definition wait_begin (c : Cond) : Cond := mkCond (full c) (recvq c) (handed c) (waiters c + 1).
(** [case <-w.notify]: take the buffered value, or queue up. *)
Definition wait_select (t : nat) (c : Cond) : Cond * bool :=
  if full c then (mkCond false (recvq c) (handed c) (waiters c), true)
  else (mkCond false (recvq c ++ [t]) (handed c) (waiters c), false).
(** A blocked receiver that was handed a value leaves the select. *)
Definition wait_handed (t : nat) (c : Cond) : Cond :=
  mkCond (full c) (recvq c) (filter (λ x, x ≠ t) (handed c)) (waiters c).
(** [case <-ctx.Done()]. *)
Definition wait_cancel (t : nat) (c : Cond) : Cond :=
  mkCond (full c) (filter (λ x, x ≠ t) (recvq c)) (handed c) (waiters c).
(** The second half: the lock is held again. *)
Definition wait_end (c : Cond) : Cond := mkCond (full c) (recvq c) (handed c) (waiters c - 1).

(** [Destroy] closes the channel, which the pipe never does: a condition with that.  The
    receivers that are blocked all leave the select; sending, and closing again, panic. *)
Record closable := mkClosable { cond : Cond; destroyed : bool }.

Definition Destroy (w : closable) : go unit closable :=
  if destroyed w then Panic
  else Ok (mkClosable (mkCond (full (cond w)) [] (handed (cond w) ++ recvq (cond w)) (waiters (cond w))) true).
Definition Closable_Signal (w : closable) : go unit closable :=
  if destroyed w then (if 0 <? waiters (cond w) then Panic else Ok w)
  else Ok (mkClosable (Signal (cond w)) false).
Definition Closable_Broadcast (w : closable) : go unit closable :=
  Nat.iter (Z.to_nat (waiters (cond w))) (λ w, w ≫= Closable_Signal) (Ok w).
(** A closed channel can always be received from, the buffered value first. *)
Definition Closable_select (t : nat) (w : closable) : closable * bool :=
  if destroyed w then (mkClosable (mkCond false (recvq (cond w)) (handed (cond w)) (waiters (cond w))) true, true)
  else let '(c, now) := wait_select t (cond w) in (mkClosable c false, now).

(** ** pipe.go *)
Section pipe.
Variable MaxBufferSize : Z.

Record XPipe := mkPipe {
  closed : bool; buffer : bytes; rTrigger : Cond; wTrigger : Cond; rdeadline : time; wdeadline : time }.

Definition New : XPipe := mkPipe false [] NewCond NewCond time_zero time_zero.

Definition Available (p : XPipe) : Z := zlen (buffer p).

Inductive side := RSide | WSide.

Definition trigger (sd : side) (p : XPipe) : Cond := match sd with RSide => rTrigger p | WSide => wTrigger p end.
Definition deadline (sd : side) (p : XPipe) : time := match sd with RSide => rdeadline p | WSide => wdeadline p end.
Definition on_trigger (sd : side) (f : Cond → Cond) (p : XPipe) : XPipe :=
  match sd with
  | RSide => mkPipe (closed p) (buffer p) (f (rTrigger p)) (wTrigger p) (rdeadline p) (wdeadline p)
  | WSide => mkPipe (closed p) (buffer p) (rTrigger p) (f (wTrigger p)) (rdeadline p) (wdeadline p)
  end.
Definition set_buffer (b : bytes) (p : XPipe) : XPipe :=
  mkPipe (closed p) b (rTrigger p) (wTrigger p) (rdeadline p) (wdeadline p).

Definition isDeadlineHappened (d now : time) : bool := if IsZero d then false else After now d.

(** [p.close()] *)
Definition close (p : XPipe) : XPipe * option perr :=
  if closed p then (p, Some ErrClosed)
  else (mkPipe true (buffer p) (Broadcast (rTrigger p)) (Broadcast (wTrigger p)) (rdeadline p) (wdeadline p), None).

Definition Close : XPipe → XPipe * option perr := close.

Definition SetReadDeadline (t : time) (p : XPipe) : XPipe :=
  mkPipe (closed p) (buffer p) (Broadcast (rTrigger p)) (wTrigger p) t (wdeadline p).
Definition SetWriteDeadline (t : time) (p : XPipe) : XPipe :=
  mkPipe (closed p) (buffer p) (rTrigger p) (Broadcast (wTrigger p)) (rdeadline p) t.
Definition SetDeadline (t : time) (p : XPipe) : XPipe :=
  mkPipe (closed p) (buffer p) (Broadcast (rTrigger p)) (Broadcast (wTrigger p)) t t.

(** [p.wait] up to the point where the lock is released: an error, or waiting. *)
Definition wait_enter (sd : side) (now : time) (p : XPipe) : XPipe * option perr :=
  if isDeadlineHappened (deadline sd p) now then (p, Some ErrDeadlineExceeded)
  else if closed p then (p, Some ErrClosed)
  else (on_trigger sd wait_begin p, None).

(** [p.wait] from the point where the lock is held again. *)
Definition wait_leave (sd : side) (cancelled : bool) (now : time) (p : XPipe) : XPipe * option perr :=
  let p := on_trigger sd wait_end p in
  if cancelled then ((close p).1, Some ErrContext)
  else if closed p then (p, Some ErrClosed)
  else if isDeadlineHappened (deadline sd p) now then (p, Some ErrDeadlineExceeded)
  else (p, None).

(** What a section ends with: the call returned, or waits again. *)
Inductive outcome (A : Type) : Type :=
  | Returns (a : A) (err : option perr)
  | Waits.
Arguments Returns {A} _ _. Arguments Waits {A}.

(** Copy out the head of the buffer. *)
Definition read_take (n : Z) (p : XPipe) : XPipe * bytes :=
  let m := Z.to_nat (Z.min (zlen (buffer p)) n) in
  (on_trigger WSide Broadcast (set_buffer (drop m (buffer p)) p), take m (buffer p)).

(** The loop head of [Read], with the lock held. *)
Definition read_section (n : Z) (now : time) (p : XPipe) : XPipe * outcome bytes :=
  if zlen (buffer p) =? 0 then
    match wait_enter RSide now p with
    | (p, Some e) => (p, Returns [] (Some e))
    | (p, None) => (p, Waits)
    end
  else let '(p, d) := read_take n p in (p, Returns d None).

(** [Read] after [wait]. *)
Definition read_resume (n : Z) (cancelled : bool) (now : time) (p : XPipe) : XPipe * outcome bytes :=
  match wait_leave RSide cancelled now p with
  | (p, Some e) =>
      if zlen (buffer p) =? 0 then (p, Returns [] (Some e))
      else let '(p, d) := read_take n p in (p, Returns d None)
  | (p, None) => read_section n now p
  end.

(** Append the head of [b] to the buffer. *)
Definition write_put (b : bytes) (p : XPipe) : XPipe * bytes * Z :=
  let m := Z.min (zlen b) (MaxBufferSize - zlen (buffer p)) in
  (on_trigger RSide Broadcast (set_buffer (buffer p ++ take (Z.to_nat m) b) p), drop (Z.to_nat m) b, m).

(** The loop of [Write], with the lock held: [b] is left to write, [n] is written.
    Besides the outcome: what is left when the call waits.  Two rounds are enough
    (fill the buffer, then wait); [None] is a loop that is still spinning. *)
Fixpoint write_section (fuel : nat) (b : bytes) (n : Z) (now : time) (p : XPipe)
    : option (XPipe * outcome Z * bytes * Z) :=
  if zlen b =? 0 then Some (p, Returns n None, b, n) else
  let spaceleft := MaxBufferSize - zlen (buffer p) in
  if spaceleft =? 0 then
    match wait_enter WSide now p with
    | (p, Some e) => Some (p, Returns n (Some e), b, n)
    | (p, None) => Some (p, Waits, b, n)
    end
  else
    match fuel with
    | O => None
    | S fuel =>
        if 0 <? spaceleft then
          let '(p, b, m) := write_put b p in write_section fuel b (n + m) now p
        else write_section fuel b n now p
    end.

(** [Write] after [wait]. *)
Definition write_resume (b : bytes) (n : Z) (cancelled : bool) (now : time) (p : XPipe)
    : option (XPipe * outcome Z * bytes * Z) :=
  match wait_leave WSide cancelled now p with
  | (p, Some e) => Some (p, Returns n (Some e), b, n)
  | (p, None) => write_section 2 b n now p
  end.

(** ** The machine *)
Inductive pc : Type :=
  | Reading (n : Z)                                 (* about to lock *)
  | RParked (n : Z) | RBlocked (n : Z)              (* in Wait: before and in the select *)
  | RWoken (n : Z) (cancelled : bool)               (* about to lock again *)
  | RDone (data : bytes) (err : option perr)
  | Writing (b : bytes)
  | WParked (b : bytes) (n : Z) | WBlocked (b : bytes) (n : Z)
  | WWoken (b : bytes) (n : Z) (cancelled : bool)
  | WDone (n : Z) (err : option perr).

(** The pipe, its goroutines, and the bytes accepted and delivered so far. *)
Record world := mkWorld { pipe : XPipe; threads : gmap nat pc; sent : bytes; received : bytes }.

Definition set_thread (t : nat) (c : pc) (w : world) : world :=
  mkWorld (pipe w) (<[t := c]> (threads w)) (sent w) (received w).
Definition set_pipe (p : XPipe) (w : world) : world := mkWorld p (threads w) (sent w) (received w).

Definition end_read (t : nat) (n : Z) (r : XPipe * outcome bytes) (w : world) : world :=
  match r with
  | (p, Returns d e) => mkWorld p (<[t := RDone d e]> (threads w)) (sent w) (received w ++ d)
  | (p, Waits) => mkWorld p (<[t := RParked n]> (threads w)) (sent w) (received w)
  end.

(** [b0]: what the section had to write, [b]: what is left. *)
Definition end_write (t : nat) (b0 : bytes) (r : XPipe * outcome Z * bytes * Z) (w : world) : world :=
  let '(p, o, b, n) := r in
  let accepted := take (length b0 - length b) b0 in
  let c := match o with Returns n e => WDone n e | Waits => WParked b n end in
  mkWorld p (<[t := c]> (threads w)) (sent w ++ accepted) (received w).

Inductive action : Type :=
  | CallRead (t : nat) (n : Z) (now : time) | CallWrite (t : nat) (b : bytes) (now : time)
  | Lock (t : nat) (now : time)           (* take the lock and run the section *)
  | Select (t : nat) | Cancel (t : nat)   (* the select of Wait *)
  | CallClose | CallSetDeadline (d : time) | CallSetReadDeadline (d : time) | CallSetWriteDeadline (d : time).

Definition step (a : action) (w : world) : option world :=
  match a with
  | CallRead t n now =>
      match threads w !! t with
      | Some _ => None
      | None => Some (set_thread t (if isDeadlineHappened (rdeadline (pipe w)) now
                                    then RDone [] (Some ErrDeadlineExceeded) else Reading n) w)
      end
  | CallWrite t b now =>
      match threads w !! t with
      | Some _ => None
      | None => Some (set_thread t (if isDeadlineHappened (wdeadline (pipe w)) now then WDone 0 (Some ErrDeadlineExceeded)
                                    else if closed (pipe w) then WDone 0 (Some ErrClosed) else Writing b) w)
      end
  | Lock t now =>
      match threads w !! t with
      | Some (Reading n) => Some (end_read t n (read_section n now (pipe w)) w)
      | Some (RWoken n cancelled) => Some (end_read t n (read_resume n cancelled now (pipe w)) w)
      | Some (RBlocked n) =>
          if bool_decide (t ∈ handed (rTrigger (pipe w))) then
            Some (end_read t n (read_resume n false now (on_trigger RSide (wait_handed t) (pipe w))) w)
          else None
      | Some (Writing b) => r ← write_section 2 b 0 now (pipe w); Some (end_write t b r w)
      | Some (WWoken b n cancelled) => r ← write_resume b n cancelled now (pipe w); Some (end_write t b r w)
      | Some (WBlocked b n) =>
          if bool_decide (t ∈ handed (wTrigger (pipe w))) then
            r ← write_resume b n false now (on_trigger WSide (wait_handed t) (pipe w)); Some (end_write t b r w)
          else None
      | _ => None
      end
  | Select t =>
      match threads w !! t with
      | Some (RParked n) =>
          let '(c, got) := wait_select t (rTrigger (pipe w)) in
          Some (set_thread t (if got then RWoken n false else RBlocked n) (set_pipe (on_trigger RSide (λ _, c) (pipe w)) w))
      | Some (WParked b n) =>
          let '(c, got) := wait_select t (wTrigger (pipe w)) in
          Some (set_thread t (if got then WWoken b n false else WBlocked b n) (set_pipe (on_trigger WSide (λ _, c) (pipe w)) w))
      | _ => None
      end
  | Cancel t =>
      match threads w !! t with
      | Some (RParked n) | Some (RBlocked n) =>
          if bool_decide (t ∈ handed (rTrigger (pipe w))) then None else
          Some (set_thread t (RWoken n true) (set_pipe (on_trigger RSide (wait_cancel t) (pipe w)) w))
      | Some (WParked b n) | Some (WBlocked b n) =>
          if bool_decide (t ∈ handed (wTrigger (pipe w))) then None else
          Some (set_thread t (WWoken b n true) (set_pipe (on_trigger WSide (wait_cancel t) (pipe w)) w))
      | _ => None
      end
  | CallClose => Some (set_pipe (Close (pipe w)).1 w)
  | CallSetDeadline d => Some (set_pipe (SetDeadline d (pipe w)) w)
  | CallSetReadDeadline d => Some (set_pipe (SetReadDeadline d (pipe w)) w)
  | CallSetWriteDeadline d => Some (set_pipe (SetWriteDeadline d (pipe w)) w)
  end.

Inductive reachable : world → Prop :=
  | reach_init : reachable (mkWorld New ∅ [] [])
  | reach_step a w w' : reachable w → step a w = Some w' → reachable w'.
End pipe.

Arguments Returns {A} _ _.
Arguments Waits {A}.
