(* ===== verification/XPipeProps.v ===== *)
(** * xpipe: bytes come out in the order they went in *)
From S2P Require Import Prelude XPipe.

Local Open Scope Z_scope.

Section pipe.
Variable MaxBufferSize : Z.
Hypothesis max_pos : 0 < MaxBufferSize.
Implicit Types (p : XPipe) (w : world).

Local Abbreviation write_put := (write_put MaxBufferSize).
Local Abbreviation write_section := (write_section MaxBufferSize).
Local Abbreviation write_resume := (write_resume MaxBufferSize).
Local Abbreviation step := (step MaxBufferSize).
Local Abbreviation reachable := (reachable MaxBufferSize).

(** ** What the sections do to the buffer *)
Lemma on_trigger_buffer sd f p : buffer (on_trigger sd f p) = buffer p.
Proof. by destruct sd. Qed.

Lemma close_buffer p : buffer (close p).1 = buffer p.
Proof. unfold close. by destruct (closed p). Qed.

Lemma wait_enter_buffer sd now p p' e : wait_enter sd now p = (p', e) → buffer p' = buffer p.
Proof. unfold wait_enter. repeat bcase; intros [= <- <-]; by rewrite ?on_trigger_buffer. Qed.

Lemma wait_leave_buffer sd c now p p' e : wait_leave sd c now p = (p', e) → buffer p' = buffer p.
Proof.
  unfold wait_leave. repeat bcase; intros [= <- <-]; by rewrite ?close_buffer, ?on_trigger_buffer.
Qed.

Lemma read_take_buffer n p p' d : read_take n p = (p', d) → buffer p = d ++ buffer p'.
Proof. unfold read_take. intros [= <- <-]. cbn. by rewrite take_drop. Qed.

Lemma read_section_buffer n now p p' o :
  read_section n now p = (p', o) → buffer p = (if o is Returns d _ then d else []) ++ buffer p'.
Proof.
  unfold read_section. bcase.
  - destruct (wait_enter RSide now p) as [p1 [e|]] eqn:E; apply wait_enter_buffer in E; intros [= <- <-]; done.
  - destruct (read_take n p) as [p1 d] eqn:E. apply read_take_buffer in E. by intros [= <- <-].
Qed.

Lemma read_resume_buffer n c now p p' o :
  read_resume n c now p = (p', o) → buffer p = (if o is Returns d _ then d else []) ++ buffer p'.
Proof.
  unfold read_resume. destruct (wait_leave RSide c now p) as [p1 [e|]] eqn:E; apply wait_leave_buffer in E; rewrite <- E.
  - bcase; [by intros [= <- <-]|]. destruct (read_take n p1) as [p2 d] eqn:E2. apply read_take_buffer in E2. by intros [= <- <-].
  - apply read_section_buffer.
Qed.

(** The write loop accepts a prefix, never overfills the buffer, and ends. *)
Lemma write_section_spec fuel b n now p :
  zlen (buffer p) ≤ MaxBufferSize → (zlen b = 0 ∨ zlen (buffer p) = MaxBufferSize ∨ (2 ≤ fuel)%nat) →
  ∃ p' o b' n' acc, write_section fuel b n now p = Some (p', o, b', n') ∧
    b = acc ++ b' ∧ buffer p' = buffer p ++ acc ∧ zlen (buffer p') ≤ MaxBufferSize ∧ n' = n + zlen acc ∧
    (∀ m e, o = Returns m e → m = n' ∧ (e = None → b' = [])).
Proof.
  revert b n p. induction fuel as [|fuel IH]; intros b n p Hb Hf; cbn [XPipe.write_section].
  all: bcase; [apply zlen_0_nil in Heqb0 as ->; exists p, (Returns n None), [], n, []; rewrite !app_nil_r;
    split_and!; try done; [by rewrite zlen_nil; lia|by intros m e [= <- <-]]|].
  all: bcase; [destruct (wait_enter WSide now p) as [p1 [e|]] eqn:E; apply wait_enter_buffer in E;
    eexists _, _, b, n, []; rewrite E, ?app_nil_r; (split_and!; [done..|by rewrite zlen_nil; lia|]);
    [by intros m e' [= <- <-]|done]|].
  - lia.
  - rewrite (proj2 (Z.ltb_lt 0 _)) by lia. unfold XPipe.write_put.
    set (m := Z.min _ _). set (p1 := on_trigger _ _ _).
    assert (0 < m ≤ zlen b) as Hm by (pose proof (zlen_nonneg b); lia).
    assert (zlen (take (Z.to_nat m) b) = m) as Hl by (unfold zlen in *; rewrite length_take; lia).
    assert (buffer p1 = buffer p ++ take (Z.to_nat m) b) as Eb by done.
    destruct (IH (drop (Z.to_nat m) b) (n + m) p1) as (p' & o & b' & n' & acc & -> & E1 & E2 & E3 & E4 & E5).
    + rewrite Eb, zlen_app, Hl. lia.
    + rewrite Eb, zlen_app, Hl. destruct (decide (m = zlen b)); [left|right; left; lia].
      unfold zlen in *. rewrite length_drop. lia.
    + exists p', o, b', n', (take (Z.to_nat m) b ++ acc). split_and!; try done.
      * by rewrite <- app_assoc, <- E1, take_drop.
      * by rewrite E2, Eb, <- app_assoc.
      * rewrite zlen_app, Hl. lia.
Qed.

Lemma write_resume_spec b n c now p :
  zlen (buffer p) ≤ MaxBufferSize →
  ∃ p' o b' n' acc, write_resume b n c now p = Some (p', o, b', n') ∧
    b = acc ++ b' ∧ buffer p' = buffer p ++ acc ∧ zlen (buffer p') ≤ MaxBufferSize ∧ n' = n + zlen acc ∧
    (∀ m e, o = Returns m e → m = n' ∧ (e = None → b' = [])).
Proof.
  intros Hb. unfold XPipe.write_resume. destruct (wait_leave WSide c now p) as [p1 [e|]] eqn:E; apply wait_leave_buffer in E; rewrite <- E in Hb |- *.
  - exists p1, (Returns n (Some e)), b, n, []. rewrite !app_nil_r. split_and!; try done; [by rewrite zlen_nil; lia|by intros m e' [= <- <-]].
  - apply write_section_spec; [done|]. right. right. lia.
Qed.

(** ** The stream *)
Definition stream_ok w : Prop := sent w = received w ++ buffer (pipe w) ∧ zlen (buffer (pipe w)) ≤ MaxBufferSize.

Lemma end_read_ok t n r w p :
  stream_ok w → buffer p = buffer (pipe w) → buffer p = (if r.2 is Returns d _ then d else []) ++ buffer r.1 →
  stream_ok (end_read t n r w).
Proof.
  intros [Hs Hb] Hp Hr. destruct r as [p' [d e|]]; cbn in *; rewrite <- Hp in *; split; cbn.
  - by rewrite Hs, Hr, app_assoc.
  - rewrite Hr, zlen_app in Hb. pose proof (zlen_nonneg d). lia.
  - by rewrite Hs, Hr.
  - by rewrite <- Hr.
Qed.

Lemma end_write_ok t b p' o b' n' acc w p :
  stream_ok w → buffer p = buffer (pipe w) → b = acc ++ b' → buffer p' = buffer p ++ acc →
  zlen (buffer p') ≤ MaxBufferSize → stream_ok (end_write t b (p', o, b', n') w).
Proof.
  intros [Hs _] Hp Hb Hp' Hm. split; cbn; [|done]. rewrite Hp', Hp, Hs, Hb, length_app.
  replace (length acc + length b' - length b')%nat with (length acc) by lia. by rewrite take_app_length, app_assoc.
Qed.

Lemma step_stream a w w' : stream_ok w → step a w = Some w' → stream_ok w'.
Proof.
  intros Hok. destruct a; cbn [XPipe.step].
  - destruct (threads w !! t); [done|]. by intros [= <-].
  - destruct (threads w !! t); [done|]. by intros [= <-].
  - destruct (threads w !! t) as [[n|n|n|n c|d e|b|b n|b n|b n c|n e]|]; try done.
    + intros [= <-]. destruct (read_section n now (pipe w)) as [p' o] eqn:E. apply read_section_buffer in E.
      by apply (end_read_ok _ _ _ _ (pipe w)).
    + bcase; [|done]. set (p0 := on_trigger RSide (wait_handed t) (pipe w)). intros [= <-].
      destruct (read_resume n false now p0) as [p' o] eqn:E. apply read_resume_buffer in E.
      by apply (end_read_ok _ _ _ _ p0).
    + intros [= <-]. destruct (read_resume n c now (pipe w)) as [p' o] eqn:E. apply read_resume_buffer in E.
      by apply (end_read_ok _ _ _ _ (pipe w)).
    + destruct (write_section_spec 2 b 0 now (pipe w)) as (p' & o & b' & n' & acc & -> & ? & ? & ? & _ & _);
        [apply Hok|right; right; lia|]. intros [= <-]. by apply (end_write_ok _ _ _ _ _ _ acc _ (pipe w)).
    + bcase; [|done]. set (p0 := on_trigger WSide (wait_handed t) (pipe w)).
      destruct (write_resume_spec b n false now p0) as (p' & o & b' & n' & acc & -> & ? & ? & ? & _ & _); [apply Hok|].
      intros [= <-]. by apply (end_write_ok _ _ _ _ _ _ acc _ p0).
    + destruct (write_resume_spec b n c now (pipe w)) as (p' & o & b' & n' & acc & -> & ? & ? & ? & _ & _); [apply Hok|].
      intros [= <-]. by apply (end_write_ok _ _ _ _ _ _ acc _ (pipe w)).
  - destruct (threads w !! t) as [[]|]; try done; destruct (wait_select _ _) as [c []]; by intros [= <-].
  - destruct (threads w !! t) as [[]|]; try done; bcase; try done; by intros [= <-].
  - intros [= <-]. unfold stream_ok, set_pipe, Close. cbn [sent received pipe]. by rewrite close_buffer.
  - by intros [= <-].
  - by intros [= <-].
  - by intros [= <-].
Qed.

(** C5: whatever the interleaving of any number of readers and writers, the bytes
    delivered followed by the bytes buffered are exactly the bytes accepted, in
    order, and the buffer never exceeds its bound. *)
Theorem pipe_fifo w :
  reachable w → sent w = received w ++ buffer (pipe w) ∧ zlen (buffer (pipe w)) ≤ MaxBufferSize.
Proof using max_pos.
  induction 1 as [|a w w' _ IH Hs]; [split; [done|cbn; rewrite zlen_nil; lia]|]. by apply (step_stream a w w').
Qed.

(** One locked section of [Write] always ends; it accepts a prefix of the data,
    reports how much, and reports no error only when everything was accepted. *)
Theorem write_accepts_prefix (b : bytes) (n : Z) (now : time) p :
  zlen (buffer p) ≤ MaxBufferSize →
  ∃ p' o b' n' acc, write_section 2 b n now p = Some (p', o, b', n') ∧ b = acc ++ b' ∧
    buffer p' = buffer p ++ acc ∧ n' = n + zlen acc ∧ (∀ m e, o = Returns m e → m = n' ∧ (e = None → b' = [])).
Proof using max_pos.
  intros Hb. destruct (write_section_spec 2 b n now p) as (p' & o & b' & n' & acc & ? & ? & ? & _ & ? & ?);
    [done|right; right; lia|]. by exists p', o, b', n', acc.
Qed.

(** Closing loses no data: a reader of a closed pipe still gets what is buffered,
    and only an empty pipe reports [ErrClosed]. *)
Theorem close_drains (n : Z) (now : time) p :
  closed p = true → isDeadlineHappened (rdeadline p) now = false →
  read_section n now p =
    if zlen (buffer p) =? 0 then (p, Returns [] (Some ErrClosed))
    else let '(p', d) := read_take n p in (p', Returns d None).
Proof using. intros Hc Hd. unfold read_section, wait_enter. cbn [deadline]. rewrite Hc, Hd. done. Qed.

(** ** Wake-ups of a single reader *)
Definition is_reader (c : pc) : bool :=
  match c with Reading _ | RParked _ | RBlocked _ | RWoken _ _ => true | _ => false end.

(** Nothing to read, and not closed. *)
Definition quiet p : Prop := buffer p = [] ∧ closed p = false.

(** One goroutine at a time calls [Read]. *)
Inductive reachable1 : world → Prop :=
  | reach1_init : reachable1 (mkWorld New ∅ [] [])
  | reach1_step a w w' :
      reachable1 w → (∀ t n now, a = CallRead t n now → ∀ t' c, threads w !! t' = Some c → is_reader c = false) →
      step a w = Some w' → reachable1 w'.

Definition cinv (t : nat) (c : option pc) p : Prop :=
  let r := rTrigger p in
  match c with
  | Some (RParked _) => waiters r = 1 ∧ recvq r = [] ∧ handed r = [] ∧ (full r = true ∨ quiet p)
  | Some (RBlocked _) =>
      waiters r = 1 ∧ ((recvq r = [t] ∧ handed r = [] ∧ full r = false ∧ quiet p) ∨ (recvq r = [] ∧ handed r = [t]))
  | Some (RWoken _ _) => waiters r = 1 ∧ recvq r = [] ∧ handed r = []
  | _ => waiters r = 0 ∧ recvq r = [] ∧ handed r = []
  end.

Definition rinv w : Prop :=
  ∃ t, (∀ t' c, threads w !! t' = Some c → is_reader c = true → t' = t) ∧ cinv t (threads w !! t) (pipe w).

(** What others do to the reader's side: nothing, or a broadcast. *)
Definition rstep p p' : Prop :=
  (rTrigger p' = rTrigger p ∧ buffer p' = buffer p ∧ closed p' = closed p) ∨ rTrigger p' = Broadcast (rTrigger p).

Lemma cinv_rstep t c p p' : rstep p p' → cinv t c p → cinv t c p'.
Proof using.
  unfold cinv, quiet. intros [(-> & -> & ->)| ->]; [done|]. unfold Broadcast.
  destruct (rTrigger p) as [f q h n]. cbn. destruct c as [[]|]; cbn; intros Hc;
    (assert (n = 0 ∨ n = 1) as [->| ->] by tauto); try (destruct Hc as (Hc & _); lia); cbn; unfold Signal; cbn;
    naive_solver.
Qed.

Lemma cinv_rsteps t c p p' : rtc rstep p p' → cinv t c p → cinv t c p'.
Proof using. induction 1; [done|]. intros Hc. eauto using cinv_rstep. Qed.

Lemma write_section_rsteps fuel b n now p p' o b' n' :
  write_section fuel b n now p = Some (p', o, b', n') → rtc rstep p p'.
Proof using.
  revert b n p. induction fuel as [|fuel IH]; intros b n p; cbn [XPipe.write_section].
  all: bcase; [intros [= <- <- <- <-]; apply rtc_refl|].
  all: bcase; [unfold wait_enter; repeat bcase; intros [= <- <- <- <-]; (apply rtc_refl || (apply rtc_once; by left))|].
  - done.
  - bcase; [|apply IH]. unfold XPipe.write_put. intros H%IH. eapply rtc_l; [|exact H]. by right.
Qed.

Lemma wait_leave_rsteps c now p p' e : wait_leave WSide c now p = (p', e) → rtc rstep p p'.
Proof using.
  unfold wait_leave. repeat bcase; intros [= <- <-]; try (apply rtc_once; by left).
  unfold close. cbn [closed on_trigger]. destruct (closed p) eqn:Ec; cbn.
  - apply rtc_once. left. cbn. by rewrite Ec.
  - apply rtc_once. by right.
Qed.

Lemma write_resume_rsteps b n c now p p' o b' n' :
  write_resume b n c now p = Some (p', o, b', n') → rtc rstep p p'.
Proof using.
  unfold XPipe.write_resume. destruct (wait_leave WSide c now p) as [p1 [e|]] eqn:E; apply wait_leave_rsteps in E.
  - by intros [= <- <- <- <-].
  - intros H%write_section_rsteps. by etrans.
Qed.

(** Steps of goroutines that are not the reader. *)
Lemma rinv_other w t c p' s' r' :
  rinv w → (∀ c0, threads w !! t = Some c0 → is_reader c0 = false) → is_reader c = false → rtc rstep (pipe w) p' →
  rinv (mkWorld p' (<[t := c]> (threads w)) s' r').
Proof using.
  intros (t0 & Hu & Hc) Ht Hr Hp. exists t0. split.
  - intros t' c'. cbn. destruct (decide (t = t')) as [<-|Hne]; [rewrite lookup_insert_eq; intros [= <-]; congruence|].
    rewrite lookup_insert_ne by done. apply Hu.
  - cbn. apply (cinv_rsteps t0) with (c := threads w !! t0) in Hp; [|done].
    destruct (decide (t = t0)) as [<-|Hne]; [|by rewrite lookup_insert_ne].
    rewrite lookup_insert_eq. destruct (threads w !! t) as [c0|]; [specialize (Ht _ eq_refl); by destruct c0, c|by destruct c].
Qed.

Lemma rinv_pipe w p' : rinv w → rtc rstep (pipe w) p' → rinv (set_pipe p' w).
Proof using. intros (t0 & Hu & Hc) Hp. exists t0. split; [done|]. by eapply cinv_rsteps. Qed.

(** Steps of the reader itself. *)
Lemma rinv_reader w t c p' s' r' :
  (∀ t' c', threads w !! t' = Some c' → is_reader c' = true → t' = t) → cinv t (Some c) p' →
  rinv (mkWorld p' (<[t := c]> (threads w)) s' r').
Proof using.
  intros Hu Hc. exists t. split.
  - intros t' c'. cbn. destruct (decide (t = t')) as [<-|Hne]; [done|]. rewrite lookup_insert_ne by done. apply Hu.
  - cbn. by rewrite lookup_insert_eq.
Qed.

(** The reader's trigger when nobody waits on it. *)
Definition idle p : Prop := waiters (rTrigger p) = 0 ∧ recvq (rTrigger p) = [] ∧ handed (rTrigger p) = [].

Lemma read_section_rinv n now p p' o :
  idle p → read_section n now p = (p', o) →
  match o with Returns _ _ => idle p' | Waits => ∀ t, cinv t (Some (RParked n)) p' end.
Proof using.
  intros Hi. unfold read_section. destruct (zlen (buffer p) =? 0) eqn:Hb; bsplit.
  - unfold wait_enter. apply zlen_0_nil in Hb. destruct (isDeadlineHappened _ _); [by intros [= <- <-]|].
    destruct (closed p) eqn:Hc; [by intros [= <- <-]|]. intros [= <- <-]. intros t. cbn.
    destruct Hi as (-> & -> & ->). unfold quiet. cbn. split_and!; try done. by right.
  - by intros [= <- <-].
Qed.

Lemma read_resume_rinv n c now p p' o :
  waiters (rTrigger p) = 1 → recvq (rTrigger p) = [] → handed (rTrigger p) = [] → read_resume n c now p = (p', o) →
  match o with Returns _ _ => idle p' | Waits => ∀ t, cinv t (Some (RParked n)) p' end.
Proof using.
  intros Hw Hq Hh. unfold read_resume. destruct (wait_leave RSide c now p) as [p1 e] eqn:E.
  assert (idle p1) as Hi.
  { unfold wait_leave in E. destruct c.
    - assert (p1 = (close (on_trigger RSide wait_end p)).1) as -> by congruence. clear E.
      destruct p as [cl bf [f q h wt] wT rd wd]. cbn in Hw, Hq, Hh. subst. by destruct cl.
    - assert (p1 = on_trigger RSide wait_end p) as -> by (revert E; repeat bcase; congruence).
      unfold idle. cbn. by rewrite Hw, Hq, Hh. }
  destruct e; [|by apply read_section_rinv]. destruct (zlen (buffer p1) =? 0); by intros [= <- <-].
Qed.

Lemma end_read_rinv w t n r :
  (∀ t' c', threads w !! t' = Some c' → is_reader c' = true → t' = t) →
  match r.2 with Returns _ _ => idle r.1 | Waits => ∀ t, cinv t (Some (RParked n)) r.1 end →
  rinv (end_read t n r w).
Proof using. intros Hu Hr. destruct r as [p' [d e|]]; cbn [fst snd] in Hr; apply rinv_reader; [done|exact Hr|done|apply Hr]. Qed.

Lemma rinv_active w t c :
  rinv w → threads w !! t = Some c → is_reader c = true →
  (∀ t' c', threads w !! t' = Some c' → is_reader c' = true → t' = t) ∧ cinv t (Some c) (pipe w).
Proof using. intros (t0 & Hu & Hc) Ht Hr. assert (t = t0) as <- by eauto. by rewrite <- Ht. Qed.

(** The goroutine at a known program point is not the reader. *)
Ltac not_reader H := let c := fresh in let E := fresh in intros c E; rewrite H in E; injection E as <-; reflexivity.

Lemma step_rinv a w w' :
  rinv w → (∀ t n now, a = CallRead t n now → ∀ t' c, threads w !! t' = Some c → is_reader c = false) →
  step a w = Some w' → rinv w'.
Proof using.
  intros Hinv Hone. destruct a; cbn [XPipe.step].
  - destruct (threads w !! t) eqn:Ht; [done|]. intros [= <-]. specialize (Hone _ _ _ eq_refl).
    destruct Hinv as (t0 & Hu & Hc). apply rinv_reader; [intros t' c' E1 E2; rewrite (Hone _ _ E1) in E2; done|].
    assert (idle (pipe w)) as Hi.
    { unfold cinv in Hc. destruct (threads w !! t0) as [c0|] eqn:E0; [|done]. specialize (Hone _ _ E0). by destruct c0. }
    by destruct (isDeadlineHappened _ _).
  - destruct (threads w !! t) eqn:Ht; [done|]. intros [= <-]. apply rinv_other; [done|congruence| |apply rtc_refl].
    by repeat bcase.
  - destruct (threads w !! t) as [[n|n|n|n c|d e|b|b n|b n|b n c|n e]|] eqn:Ht; try done.
    + intros [= <-]. destruct (rinv_active _ _ _ Hinv Ht eq_refl) as [Hu Hc]. apply end_read_rinv; [done|].
      destruct (read_section n now (pipe w)) as [p' o] eqn:E. by eapply read_section_rinv.
    + destruct (rinv_active _ _ _ Hinv Ht eq_refl) as [Hu Hc]. case_bool_decide as Hin; [|done].
      set (p0 := on_trigger RSide (wait_handed t) (pipe w)). intros [= <-]. apply end_read_rinv; [done|].
      destruct Hc as [Hw [(_ & Hh & _)|(Hq & Hh)]]; rewrite Hh in Hin; [by apply not_elem_of_nil in Hin|].
      destruct (read_resume n false now p0) as [p' o] eqn:E. eapply read_resume_rinv; [..|exact E]; cbn; try done.
      rewrite Hh. by rewrite filter_cons_False by (intros H; by apply H).
    + destruct (rinv_active _ _ _ Hinv Ht eq_refl) as [Hu (Hw & Hq & Hh)]. intros [= <-]. apply end_read_rinv; [done|].
      destruct (read_resume n c now (pipe w)) as [p' o] eqn:E. by eapply read_resume_rinv.
    + destruct (write_section _ _ _ _ _) as [[[[p' o] b'] n']|] eqn:E; [|done]. intros [= <-].
      apply write_section_rsteps in E. apply rinv_other; [done|not_reader Ht|by destruct o|done].
    + case_bool_decide; [|done]. destruct (write_resume _ _ _ _ _) as [[[[p' o] b'] n']|] eqn:E; [|done]. intros [= <-].
      apply write_resume_rsteps in E. apply rinv_other; [done|not_reader Ht|by destruct o|].
      eapply rtc_l; [|exact E]. by left.
    + destruct (write_resume _ _ _ _ _) as [[[[p' o] b'] n']|] eqn:E; [|done]. intros [= <-].
      apply write_resume_rsteps in E. apply rinv_other; [done|not_reader Ht|by destruct o|done].
  - destruct (threads w !! t) as [c0|] eqn:Ht; [|done]. destruct c0; try done.
    + destruct (rinv_active _ _ _ Hinv Ht eq_refl) as [Hu (Hw & Hq & Hh & Hf)]. unfold wait_select.
      destruct (full (rTrigger (pipe w))) eqn:Ef; intros [= <-]; apply rinv_reader; try done; cbn.
      split; [done|]. left. rewrite Hq. destruct Hf as [?|[? ?]]; [done|]. by split_and!.
    + unfold wait_select. destruct (full _); intros [= <-]; (apply (rinv_other w); [done|not_reader Ht|done|]);
        apply rtc_once; by left.
  - destruct (threads w !! t) as [c0|] eqn:Ht; [|done]. destruct c0; try done; case_bool_decide as Hn; try done; intros [= <-].
    + destruct (rinv_active _ _ _ Hinv Ht eq_refl) as [Hu (Hw & Hq & Hh & _)]. apply rinv_reader; [done|]. cbn. by rewrite Hq.
    + destruct (rinv_active _ _ _ Hinv Ht eq_refl) as [Hu Hc]. apply rinv_reader; [done|].
      destruct Hc as [Hw [(Hq & Hh & _)|(Hq & Hh)]]; [|destruct Hn; rewrite Hh; by left]. cbn. rewrite Hq.
      by rewrite filter_cons_False by (intros H; by apply H).
    + apply (rinv_other w); [done|not_reader Ht|done|]. apply rtc_once. by left.
    + apply (rinv_other w); [done|not_reader Ht|done|]. apply rtc_once. by left.
  - intros [= <-]. apply rinv_pipe; [done|]. unfold Close, close. destruct (closed (pipe w)); [apply rtc_refl|].
    apply rtc_once. by right.
  - intros [= <-]. apply rinv_pipe; [done|]. apply rtc_once. by right.
  - intros [= <-]. apply rinv_pipe; [done|]. apply rtc_once. by right.
  - intros [= <-]. apply rinv_pipe; [done|]. apply rtc_once. by left.
Qed.

Lemma reach1_rinv w : reachable1 w → rinv w.
Proof using.
  induction 1 as [|a w w' _ IH Hone Hs]; [|by apply (step_rinv a w)].
  exists 0%nat. split; [intros t' c E; cbn in E; by rewrite lookup_empty in E|]. cbn [threads]. by rewrite lookup_empty.
Qed.

(** A resumed reader returns when there is data or the pipe is closed. *)
Lemma read_resume_returns n now p p' o :
  ¬ quiet p → read_resume n false now p = (p', o) → ∃ d e, o = Returns d e.
Proof using.
  unfold quiet, read_resume, wait_leave. cbn [closed on_trigger deadline]. intros Hq.
  destruct (closed p) eqn:Hc; [bcase; intros [= <- <-]; eauto|].
  assert ((zlen (buffer p) =? 0) = false) as Hb.
  { apply Z.eqb_neq. rewrite zlen_0_nil. intros Hb. by apply Hq. }
  destruct (isDeadlineHappened _ _); unfold read_section; cbn [buffer on_trigger]; rewrite Hb; intros [= <- <-]; eauto.
Qed.

(** C17: with one reader at a time no wake-up is lost: a reader that sleeps in
    [Wait] while there is data or the pipe is closed has been notified, and returns
    as soon as it runs; one that has not reached its select finds the notification
    there. *)
Theorem no_lost_wakeup w t (n : Z) (now : time) :
  reachable1 w → ¬ quiet (pipe w) →
  (threads w !! t = Some (RBlocked n) →
     ∃ w' d e, step (Lock t now) w = Some w' ∧ threads w' !! t = Some (RDone d e)) ∧
  (threads w !! t = Some (RParked n) →
     ∃ w', step (Select t) w = Some w' ∧ threads w' !! t = Some (RWoken n false)).
Proof using.
  intros Hr%reach1_rinv Hq. split; intros Ht.
  - destruct (rinv_active _ _ _ Hr Ht eq_refl) as [_ [_ [(_ & _ & _ & ?)|(_ & Hh)]]]; [done|].
    cbn [XPipe.step]. rewrite Ht, Hh, bool_decide_eq_true_2 by (by left).
    set (p0 := on_trigger RSide (wait_handed t) (pipe w)).
    destruct (read_resume n false now p0) as [p' o] eqn:E.
    destruct (read_resume_returns n now p0 p' o Hq E) as (d & e & ->).
    eexists _, d, e. split; [done|]. cbn. by rewrite lookup_insert_eq.
  - destruct (rinv_active _ _ _ Hr Ht eq_refl) as [_ (_ & _ & _ & [Hf|?])]; [|done].
    cbn [XPipe.step]. rewrite Ht. unfold wait_select. rewrite Hf. eexists. split; [done|]. cbn. by rewrite lookup_insert_eq.
Qed.

(** ** Runs *)
Fixpoint run (acts : list action) w : option world :=
  match acts with [] => Some w | a :: acts => w ← step a w; run acts w end.

Lemma run_reachable acts w w' : reachable w → run acts w = Some w' → reachable w'.
Proof using.
  revert w. induction acts as [|a acts IH]; intros w Hr; cbn [run]; [by intros [= <-]|].
  destruct (step a w) as [w1|] eqn:E; [|done]. cbn. apply IH. by eapply reach_step.
Qed.
End pipe.

Definition init_world : world := mkWorld New ∅ [] [].

(** Two readers wait, the pipe is closed before they reach their selects, and the
    first one returns. *)
Definition close_race : list action :=
  [CallRead 0 10 0; CallRead 1 10 0; Lock 0 0; Lock 1 0; CallClose; Select 0; Select 1; Lock 0 0].

(** With two waiting readers a broadcast leaves at most one value in the
    channel: after this run the pipe is closed, one reader got [ErrClosed], and the
    other sleeps although nothing will wake it: closing again does not broadcast and
    its section cannot run. *)
Example close_loses_reader :
  match run 16384 close_race init_world with
  | Some w => reachable 16384 w ∧ closed (pipe w) = true ∧ threads w !! 0%nat = Some (RDone [] (Some ErrClosed)) ∧
      threads w !! 1%nat = Some (RBlocked 10) ∧ (∀ now, step 16384 (Lock 1 now) w = None) ∧
      step 16384 CallClose w = Some w
  | None => False
  end.
Proof.
  destruct (run 16384 close_race init_world) as [w|] eqn:E; [|vm_compute in E; done].
  pose proof (run_reachable 16384 _ _ _ (reach_init 16384) E) as Hr.
  vm_compute in E. injection E as <-. split; [exact Hr|]. split_and!; try done.
Qed.

(** A deadline that passes while a reader waits does not wake it: nothing in the
    pipe watches the clock, and the reader's section cannot run at any later time. *)
Example deadline_not_enforced :
  match run 16384 [CallSetReadDeadline 100; CallRead 0 10 50; Lock 0 50; Select 0] init_world with
  | Some w => threads w !! 0%nat = Some (RBlocked 10) ∧ isDeadlineHappened (rdeadline (pipe w)) 200 = true ∧
      ∀ now, step 16384 (Lock 0 now) w = None
  | None => False
  end.
Proof. vm_compute. by split_and!. Qed.

(** ** Witnesses *)
Definition one_reader : world :=
  default init_world (run 16384 [CallRead 0 10 0; Lock 0 0; Select 0; CallWrite 1 [1; 2; 3] 0; Lock 1 0] init_world).

Lemma one_reader_reach : reachable1 16384 one_reader.
Proof.
  assert (∀ w, step 16384 (CallRead 0 10 0) init_world = Some w → reachable1 16384 w) as H0.
  { intros w. apply (reach1_step 16384 (CallRead 0 10 0) init_world); [apply reach1_init|].
    intros t n now _ t' c E. cbn in E. by rewrite lookup_empty in E. }
  assert (∀ acts w w', reachable1 16384 w → (∀ t n now, CallRead t n now ∉ acts) → run 16384 acts w = Some w' →
            reachable1 16384 w') as Hrun.
  { induction acts as [|a acts IH]; intros w w' Hr Ha; cbn [run]; [by intros [= <-]|].
    destruct (step 16384 a w) as [w1|] eqn:E; [|done]. cbn. apply IH.
    - eapply reach1_step; [done| |done]. intros t n now ->. destruct (Ha t n now). by left.
    - intros t n now Hin. destruct (Ha t n now). by right. }
  destruct (step 16384 (CallRead 0 10 0) init_world) as [w0|] eqn:E0; [|vm_compute in E0; done].
  apply (Hrun [Lock 0 0; Select 0; CallWrite 1 [1; 2; 3] 0; Lock 1 0] w0); [by apply H0| |].
  - intros t n now [?|[?|[?|[?|Hin]%elem_of_cons]%elem_of_cons]%elem_of_cons]%elem_of_cons; try done.
    by apply not_elem_of_nil in Hin.
  - vm_compute in E0. injection E0 as <-. vm_compute. reflexivity.
Qed.

Lemma no_lost_wakeup_witness :
  ∃ w' d e, step 16384 (Lock 0 7) one_reader = Some w' ∧ threads w' !! 0%nat = Some (RDone d e).
Proof.
  apply (no_lost_wakeup 16384 one_reader 0 10 7 one_reader_reach).
  - intros [Hb _]. vm_compute in Hb. discriminate.
  - vm_compute. reflexivity.
Defined.

Lemma pipe_fifo_witness : sent one_reader = received one_reader ++ buffer (pipe one_reader).
Proof.
  apply (pipe_fifo 16384 ltac:(reflexivity) one_reader).
  apply (run_reachable 16384 [CallRead 0 10 0; Lock 0 0; Select 0; CallWrite 1 [1; 2; 3] 0; Lock 1 0] init_world).
  - apply reach_init.
  - vm_compute. reflexivity.
Defined.

Lemma write_accepts_prefix_witness :
  ∃ p' o b' n' acc, write_section 4 2 [1; 2; 3; 4; 5] 0 0 New = Some (p', o, b', n') ∧ [1; 2; 3; 4; 5] = acc ++ b'.
Proof.
  destruct (write_accepts_prefix 4 ltac:(reflexivity) [1; 2; 3; 4; 5] 0 0 New) as (p' & o & b' & n' & acc & E & Hb & _).
  - vm_compute. discriminate.
  - exists p', o, b', n', acc. split; [exact E|exact Hb].
Defined.

Lemma close_drains_witness :
  ∃ p', read_section 2 0 (set_buffer [7; 8; 9] (close New).1) = (p', Returns [7; 8] None).
Proof.
  eexists. rewrite (close_drains 2 0 (set_buffer [7; 8; 9] (close New).1)); [vm_compute; reflexivity|reflexivity|reflexivity].
Defined.

(** ** Destroying a condition *)

Lemma closable_iter n c : Nat.iter n (λ w, w ≫= Closable_Signal) (Ok (mkClosable c false)) = Ok (mkClosable (Nat.iter n Signal c) false).
Proof. induction n as [|n IH]; [done|]. by rewrite !Nat.iter_succ, IH. Qed.

Lemma closable_panics n w : destroyed w = true → 0 < waiters (cond w) →
  Nat.iter (S n) (λ w, w ≫= Closable_Signal) (Ok w) = (Panic : go unit closable).
Proof.
  intros Hd Hw. induction n as [|n IH].
  - cbn. unfold Closable_Signal. rewrite Hd. by rewrite (proj2 (Z.ltb_lt _ _) Hw).
  - by rewrite Nat.iter_succ, IH.
Qed.

(** Until it is destroyed a condition broadcasts as the pipe's do.  Destroying it once lets
    every blocked goroutine go, and none blocks on it again; but a broadcast before all of
    them have taken the lock back panics, as does destroying it twice. *)
Lemma destroy_releases w : destroyed w = false →
  Closable_Broadcast w = Ok (mkClosable (Broadcast (cond w)) false) ∧
  ∃ w', Destroy w = Ok w' ∧ recvq (cond w') = [] ∧
    (∀ t, t ∈ handed (cond w') ↔ t ∈ handed (cond w) ∨ t ∈ recvq (cond w)) ∧
    (∀ t, (Closable_select t w').2 = true ∧ destroyed (Closable_select t w').1 = true ∧ recvq (cond (Closable_select t w').1) = []) ∧
    Destroy w' = Panic ∧
    Closable_Broadcast w' = if 0 <? waiters (cond w) then Panic else Ok w'.
Proof.
  destruct w as [c d]. cbn [destroyed cond]. intros ->. split; [apply closable_iter|].
  eexists. split; [reflexivity|]. cbn [cond recvq handed destroyed]. split_and!; try done.
  - intros t. apply elem_of_app.
  - unfold Closable_Broadcast. cbn [cond waiters]. destruct (0 <? waiters c) eqn:E.
    + apply Z.ltb_lt in E. destruct (Z.to_nat (waiters c)) eqn:Ez; [lia|]. by apply closable_panics.
    + apply Z.ltb_ge in E. by rewrite (Z2Nat.nonpos _ E).
Qed.
