(* ===== verification/Protect.v ===== *)
(** * protect: reference-counted protection of addresses

    Models [src/protect]: [interface.go], [counter.go] and [dummy.go].  The methods of the
    interface that change state are the fields of a class; [SocketProtector] only
    returns a callback for the dialer and is left out.  The lock makes every method
    of the counter atomic. *)
From S2P Require Import Prelude.

Local Open Scope Z_scope.

(** [netip.Addr] as an opaque comparable value. *)
Definition Addr := bytes.

(** [type Protector interface]; [Some e] is the error [e]. *)
Class Protector (P : Type) := {
  ProtectAddresses : P → list Addr → P * option Z;
  UnprotectAddresses : P → list Addr → P * option Z }.

(** dummy.go *)
Inductive Dummy := dummy.
#[export] Instance dummy_protector : Protector Dummy := {
  ProtectAddresses p _ := (p, None);
  UnprotectAddresses p _ := (p, None) }.

Section counter.
Context {P : Type} `{!Protector P}.

Record ProtectCounter := mkCounter { protector : P; protected : gmap Addr Z }.

Definition WithProtectCounter (p : P) : ProtectCounter := mkCounter p ∅.

(** [m[addr]]: zero for a missing key. *)
Definition count (m : gmap Addr Z) (a : Addr) : Z := default 0 (m !! a).

(** [pc.protected[addr] += 1] *)
Definition incr (m : gmap Addr Z) (a : Addr) : gmap Addr Z := <[a := count m a + 1]> m.

(** [pc.protected[addr] -= 1], and [delete] when that is zero. *)
Definition decr (m : gmap Addr Z) (a : Addr) : gmap Addr Z :=
  if count m a - 1 =? 0 then delete a (<[a := count m a - 1]> m) else <[a := count m a - 1]> m.

Definition counter_protect (pc : ProtectCounter) (addrs : list Addr) : ProtectCounter * option Z :=
  let unprotected := filter (λ a, protected pc !! a = None) addrs in
  let '(p, err) := ProtectAddresses (protector pc) unprotected in
  match err with
  | Some e => (mkCounter p (protected pc), Some e)
  | None => (mkCounter p (foldl incr (protected pc) addrs), None)
  end.

Definition counter_unprotect (pc : ProtectCounter) (addrs : list Addr) : ProtectCounter * option Z :=
  let unprotect := filter (λ a, count (protected pc) a = 1) addrs in
  let '(p, err) := UnprotectAddresses (protector pc) unprotect in
  (mkCounter p (foldl decr (protected pc) addrs), err).

(** The addresses in the order in which Go happens to range over the map: any order. *)
Definition UnprotectAll (order : list Addr → list Addr) (pc : ProtectCounter) : ProtectCounter :=
  let '(p, _) := UnprotectAddresses (protector pc) (order (map_to_list (protected pc)).*1) in
  mkCounter p ∅.

#[export] Instance counter_protector : Protector ProtectCounter := {
  ProtectAddresses := counter_protect;
  UnprotectAddresses := counter_unprotect }.
End counter.

(** helpers.go: the calls with logging. *)
Definition TryProtecSlice {P} `{!Protector P} (p : P) (ips : list Addr) : P * option Z :=
  let '(p, err) := ProtectAddresses p ips in
  match err with Some e => (p, Some e) | None => (p, None) end.
Definition TryUnprotecSlice {P} `{!Protector P} (p : P) (ips : list Addr) : P * option Z :=
  let '(p, err) := UnprotectAddresses p ips in
  match err with Some e => (p, Some e) | None => (p, None) end.
Definition TryProtect {P} `{!Protector P} (p : P) (ips : list Addr) : P * option Z := TryProtecSlice p ips.
Definition TryUnprotect {P} `{!Protector P} (p : P) (ips : list Addr) : P * option Z := TryUnprotecSlice p ips.

(** * protect: the counter keeps an address protected while someone uses it *)
From S2P Require Import Prelude.

Local Open Scope Z_scope.

(** Nothing is assumed of the wrapped protector.  What it is told is: its calls are logged
    with their results, and [asked] are the addresses it was successfully told to protect
    and has not been told to release since. *)
Inductive fcall := FProtect (addrs : list Addr) (err : option Z) | FUnprotect (addrs : list Addr) (err : option Z).
Record Logged {P : Type} := mkLogged { inner : P; log : list fcall }.
Arguments Logged : clear implicits.
Arguments mkLogged {P}.
#[export] Instance logged_protector {P} `{!Protector P} : Protector (Logged P) := {
  ProtectAddresses p addrs := let '(q, err) := ProtectAddresses (inner p) addrs in (mkLogged q (log p ++ [FProtect addrs err]), err);
  UnprotectAddresses p addrs := let '(q, err) := UnprotectAddresses (inner p) addrs in (mkLogged q (log p ++ [FUnprotect addrs err]), err) }.

Definition asked1 (s : gset Addr) (f : fcall) : gset Addr :=
  match f with
  | FProtect addrs None => s ∪ list_to_set addrs
  | FProtect _ (Some _) => s
  | FUnprotect addrs _ => s ∖ list_to_set addrs
  end.
Definition asked (l : list fcall) : gset Addr := foldl asked1 ∅ l.
Lemma asked_snoc l f : asked (l ++ [f]) = asked1 (asked l) f.
Proof. unfold asked. by rewrite foldl_app. Qed.

Section props.
Context {P : Type} `{!Protector P}.
Implicit Types (pc : ProtectCounter (P := Logged P)) (m : gmap Addr Z).

Definition bump (d : Z) (addrs : list Addr) (a : Addr) : Z := if decide (a ∈ addrs) then d else 0.

Lemma count_insert m a b n : count (<[a := n]> m) b = if decide (a = b) then n else count m b.
Proof. unfold count. rewrite lookup_insert. by case_decide. Qed.

Lemma count_decr m a b : count (decr m a) b = if decide (a = b) then count m a - 1 else count m b.
Proof.
  unfold decr. destruct (Z.eqb_spec (count m a - 1) 0) as [E|E]; [|apply count_insert].
  unfold count at 1. rewrite lookup_delete. case_decide; [by rewrite E|].
  rewrite lookup_insert_ne by done. done.
Qed.

Lemma counts_incr addrs : ∀ m a, NoDup addrs → count (foldl incr m addrs) a = count m a + bump 1 addrs a.
Proof.
  unfold bump. induction addrs as [|b addrs IH]; intros m a; cbn [foldl].
  { intros _. rewrite decide_False by apply not_elem_of_nil. lia. }
  intros [Hb Hnd]%NoDup_cons. rewrite IH by done. unfold incr. rewrite count_insert.
  pose proof (elem_of_cons addrs a b). repeat case_decide; subst; first [lia|exfalso; naive_solver].
Qed.

Lemma counts_decr addrs : ∀ m a, NoDup addrs → count (foldl decr m addrs) a = count m a + bump (-1) addrs a.
Proof.
  unfold bump. induction addrs as [|b addrs IH]; intros m a; cbn [foldl].
  { intros _. rewrite decide_False by apply not_elem_of_nil. lia. }
  intros [Hb Hnd]%NoDup_cons. rewrite IH by done. rewrite count_decr.
  pose proof (elem_of_cons addrs a b). repeat case_decide; subst; first [lia|exfalso; naive_solver].
Qed.

(** A map without zero counts is determined by them. *)
Definition positive m : Prop := ∀ a n, m !! a = Some n → 1 ≤ n.

Lemma positive_present m a : positive m → (is_Some (m !! a) ↔ 1 ≤ count m a).
Proof.
  intros Hp. unfold count. specialize (Hp a). destruct (m !! a) as [n|]; cbn.
  - specialize (Hp n eq_refl). split; [done|by eexists].
  - split; [by intros []|lia].
Qed.

Lemma uses_nonneg m a : positive m → 0 ≤ count m a.
Proof. intros Hp. unfold count. specialize (Hp a). destruct (m !! a); cbn; [specialize (Hp _ eq_refl)|]; lia. Qed.

Lemma incr_positive addrs : ∀ m, positive m → positive (foldl incr m addrs).
Proof.
  induction addrs as [|b addrs IH]; intros m Hp; [done|]. apply IH. intros a n. unfold incr. rewrite lookup_insert.
  case_decide; [|apply Hp]. intros [= <-]. unfold count. specialize (Hp b). destruct (m !! b); cbn; [specialize (Hp _ eq_refl)|]; lia.
Qed.

Lemma decr_positive addrs : ∀ m, NoDup addrs → positive m → (∀ a, a ∈ addrs → 1 ≤ count m a) → positive (foldl decr m addrs).
Proof.
  induction addrs as [|b addrs IH]; intros m Hnd Hp Hc; [done|]. apply NoDup_cons in Hnd as [Hb Hnd]. apply IH; [done| |].
  - intros a n. unfold decr. pose proof (Hc b ltac:(by left)). destruct (Z.eqb_spec (count m b - 1) 0).
    + rewrite lookup_delete. case_decide; [done|]. rewrite lookup_insert_ne by done. apply Hp.
    + rewrite lookup_insert. case_decide; [|apply Hp]. intros [= <-]. lia.
  - intros a Ha. rewrite count_decr. case_decide; [by subst|]. apply Hc. by right.
Qed.

(** Calls of the counter's users, with the errors they got. *)
Inductive pcall := PProtect (addrs : list Addr) | PUnprotect (addrs : list Addr).
(** How many users hold an address: those whose request was granted, less those who released it. *)
Definition hold1 (a : Addr) (c : pcall * option Z) : Z :=
  match c with
  | (PProtect addrs, None) => bump 1 addrs a
  | (PProtect _, Some _) => 0
  | (PUnprotect addrs, _) => bump (-1) addrs a
  end.
Definition holds (h : list (pcall * option Z)) (a : Addr) : Z := foldl (λ n c, n + hold1 a c) 0 h.

(** Users that name an address once per call and release only what somebody holds. *)
Inductive counter_runs : list (pcall * option Z) → ProtectCounter (P := Logged P) → Prop :=
  | runs_new (p : P) : counter_runs [] (WithProtectCounter (mkLogged p []))
  | runs_protect h pc addrs : counter_runs h pc → NoDup addrs →
      counter_runs (h ++ [(PProtect addrs, (ProtectAddresses pc addrs).2)]) (ProtectAddresses pc addrs).1
  | runs_unprotect h pc addrs : counter_runs h pc → NoDup addrs → (∀ a, a ∈ addrs → 0 < holds h a) →
      counter_runs (h ++ [(PUnprotect addrs, (UnprotectAddresses pc addrs).2)]) (UnprotectAddresses pc addrs).1.

(** The wrapped protector is told nothing it was told already. *)
Definition told_once (l : list fcall) : Prop := ∀ l1 f l2, l = l1 ++ f :: l2 →
  match f with
  | FProtect addrs _ => ∀ a, a ∈ addrs → a ∉ asked l1
  | FUnprotect addrs _ => ∀ a, a ∈ addrs → a ∈ asked l1
  end.

Lemma told_snoc l f : told_once l → match f with
  | FProtect addrs _ => ∀ a, a ∈ addrs → a ∉ asked l
  | FUnprotect addrs _ => ∀ a, a ∈ addrs → a ∈ asked l
  end → told_once (l ++ [f]).
Proof.
  intros Hl Hf l1 g l2 E. destruct l2 as [|g2 l2 _] using rev_ind.
  - apply app_inj_tail in E as [<- <-]. done.
  - rewrite app_comm_cons, app_assoc in E. apply app_inj_tail in E as [-> _]. by eapply Hl.
Qed.

(** The addresses that are counted are those the wrapped protector was asked for. *)
Record counter_ok (h : list (pcall * option Z)) pc : Prop := mkCok {
  co_positive : positive (protected pc);
  co_count a : count (protected pc) a = holds h a;
  co_asked a : a ∈ asked (log (protector pc)) ↔ 1 ≤ count (protected pc) a;
  co_told : told_once (log (protector pc)) }.

Lemma holds_snoc h c a : holds (h ++ [c]) a = holds h a + hold1 a c.
Proof. unfold holds. by rewrite foldl_app. Qed.

Lemma protect_ok h pc addrs : counter_ok h pc → NoDup addrs →
  counter_ok (h ++ [(PProtect addrs, (ProtectAddresses pc addrs).2)]) (ProtectAddresses pc addrs).1.
Proof.
  intros [Hp Hc Ha Ht] Hnd. cbn [ProtectAddresses counter_protector]. unfold counter_protect.
  set (fresh := filter (λ a, protected pc !! a = None) addrs). cbn [ProtectAddresses logged_protector].
  assert (∀ a, a ∈ fresh → a ∉ asked (log (protector pc))) as Hf.
  { intros a [Hn _]%list_elem_of_filter. rewrite Ha, <-positive_present, Hn by done. by intros []. }
  destruct (ProtectAddresses (inner (protector pc)) fresh) as [q [e|]]; cbn [fst snd].
  - split; cbn [protected protector log]; [done| |by rewrite asked_snoc|by apply told_snoc].
    intros a. rewrite holds_snoc. cbn. rewrite Hc. lia.
  - split; cbn [protected protector log]; [by apply incr_positive| | |by apply told_snoc].
    + intros a. rewrite counts_incr, holds_snoc, Hc by done. done.
    + intros a. rewrite asked_snoc. cbn [asked1]. rewrite elem_of_union, elem_of_list_to_set, Ha, counts_incr by done.
      unfold fresh, bump. rewrite list_elem_of_filter. pose proof (positive_present _ a Hp) as Hs. pose proof (uses_nonneg _ a Hp).
      assert (protected pc !! a = None ↔ ¬ 1 ≤ count (protected pc) a) as -> by (rewrite <-Hs; apply eq_None_not_Some).
      destruct (decide (1 ≤ count (protected pc) a)); case_decide; intuition lia.
Qed.

Lemma unprotect_ok h pc addrs : counter_ok h pc → NoDup addrs → (∀ a, a ∈ addrs → 0 < holds h a) →
  counter_ok (h ++ [(PUnprotect addrs, (UnprotectAddresses pc addrs).2)]) (UnprotectAddresses pc addrs).1.
Proof.
  intros [Hp Hc Ha Ht] Hnd Hh. cbn [UnprotectAddresses counter_protector]. unfold counter_unprotect.
  set (last := filter (λ a, count (protected pc) a = 1) addrs). cbn [UnprotectAddresses logged_protector].
  assert (∀ a, a ∈ addrs → 1 ≤ count (protected pc) a) as Hcnt by (intros a Hin; rewrite Hc; specialize (Hh a Hin); lia).
  destruct (UnprotectAddresses (inner (protector pc)) last) as [q e]. split; cbn [fst snd protected protector log].
  - by apply decr_positive.
  - intros a. rewrite counts_decr, holds_snoc, Hc by done. done.
  - intros a. rewrite asked_snoc. cbn [asked1]. rewrite elem_of_difference, elem_of_list_to_set, Ha, counts_decr by done.
    unfold last, bump. rewrite list_elem_of_filter. specialize (Hcnt a).
    destruct (decide (count (protected pc) a = 1)); case_decide; intuition lia.
  - apply told_snoc; [done|]. intros a [E _]%list_elem_of_filter. apply Ha. lia.
Qed.

(** C36: the counter tells the wrapped protector, whatever that is and whatever it answers,
    to protect an address when its first user comes and to release it when its last user
    goes.  In every sequence of calls in which no call names an address twice and only
    addresses that somebody holds are released: the count of an address is the number of its
    holders; the addresses the wrapped protector was told to protect, and not to release since, are exactly
    those with a holder; and it is never told to protect one of them again, nor to release another. *)
Theorem protect_counter h pc :
  counter_runs h pc →
  (∀ a, count (protected pc) a = holds h a ∧ 0 ≤ holds h a ∧ (a ∈ asked (log (protector pc)) ↔ 0 < holds h a)) ∧
  told_once (log (protector pc)).
Proof.
  intros Hr. assert (counter_ok h pc) as [Hp Hc Ha Ht].
  { induction Hr as [p|h pc addrs _ IH Hnd|h pc addrs _ IH Hnd Hh]; [|by apply protect_ok|by apply unprotect_ok].
    split; cbn.
    - intros a n. by rewrite lookup_empty.
    - intros a. unfold count. by rewrite lookup_empty.
    - intros a. unfold count. rewrite lookup_empty, elem_of_empty. cbn. lia.
    - by intros [|? ?] ? ? ?. }
  split; [|done]. intros a. rewrite Ha, <-Hc. pose proof (uses_nonneg _ a Hp). split_and!; [done|lia|lia].
Qed.

(** [UnprotectAll] releases everything that is counted, in whatever order the map is
    read. *)
Lemma unprotect_all_releases h pc (order : list Addr → list Addr) :
  counter_ok h pc → (∀ l a, a ∈ order l ↔ a ∈ l) →
  asked (log (protector (UnprotectAll order pc))) = ∅ ∧ protected (UnprotectAll order pc) = ∅.
Proof.
  intros [Hp _ Ha _] Hord. unfold UnprotectAll. cbn [UnprotectAddresses logged_protector].
  destruct (UnprotectAddresses (inner (protector pc)) _) as [q e]. cbn [protector protected log]. split; [|done]. rewrite asked_snoc. cbn [asked1].
  apply set_eq. intros a. rewrite elem_of_difference, elem_of_list_to_set, Hord, Ha, <-positive_present, elem_of_empty by done.
  split; [|done]. intros [[n Hn] Hno]. apply Hno, list_elem_of_fmap. exists (a, n). split; [done|]. by apply elem_of_map_to_list.
Qed.
End props.

(** ** Concrete runs *)

(** Two users of an address; the protector is the dummy. *)
Definition fresh_counter : ProtectCounter (P := Logged Dummy) := WithProtectCounter (mkLogged dummy []).
Definition both_in : ProtectCounter (P := Logged Dummy) :=
  (ProtectAddresses (ProtectAddresses fresh_counter [[1]; [2]]).1 [[2]]).1.

Lemma protect_counter_witness :
  count (protected both_in) [2] = 2 ∧ [2] ∈ asked (log (protector both_in)) ∧ told_once (log (protector both_in)).
Proof.
  destruct (protect_counter [(PProtect [[1]; [2]], None); (PProtect [[2]], None)] both_in) as [H Ht].
  - refine (runs_protect [(PProtect [[1]; [2]], None)] (ProtectAddresses fresh_counter [[1]; [2]]).1 [[2]] (runs_protect [] fresh_counter [[1]; [2]] (runs_new dummy) _) _).
    + apply (bool_decide_eq_true_1 _). vm_compute. reflexivity.
    + apply (bool_decide_eq_true_1 _). vm_compute. reflexivity.
  - destruct (H [2]) as (H1 & _ & H2). split; [rewrite H1; vm_compute; reflexivity|]. split; [apply H2; vm_compute; reflexivity|exact Ht].
Defined.

(** Outside that use the counts and the wrapped protector part ways.  An address
    named twice in one call is protected, then released twice in one call, and
    stays protected although nothing counts it; an address released without being
    counted keeps a negative count, and the next request to protect it does
    nothing. *)
Example protect_counter_leaks :
  let twice := (UnprotectAddresses (ProtectAddresses fresh_counter [[1]; [1]]).1 [[1]; [1]]).1 in
  let early := (ProtectAddresses (UnprotectAddresses fresh_counter [[1]]).1 [[1]]).1 in
  (protected twice = ∅ ∧ asked (log (protector twice)) = {[ [1] ]}) ∧
  (protected early = {[ [1] := 0 ]} ∧ asked (log (protector early)) = ∅).
Proof. vm_compute. done. Qed.
