(* ===== verification/DNSPriority.v ===== *)
(** * xdns/client: responses and the priority resolver

    Models [src/xdns/client]: [response.go] and [priority.go].  The nested resolvers
    are a parameter: what each answers to a request at a point in time.
    [PriorityResolver] is modelled with Go's slices, arrays shared by slices
    included, because its [add] modifies the slice it ranges over. *)
From S2P Require Import Prelude.

Local Open Scope Z_scope.

Inductive derr := ErrExists | ErrNotExists | ErrNoCache | ErrDNSNotExists | ErrDNSNoResponse | ErrDNSEmptyResponse
  | EOther (code : Z).
#[global] Instance derr_eq_dec : EqDecision derr.
Proof. solve_decision. Defined.

Record Request := mkRequest { Domain : bytes; QueryType : Z; NoLazy : bool }.

(** ** response.go; addresses are opaque values *)
Record Response := mkResponse { Exists : bool; Addresses : list bytes; Expires : time; ProtectionRequired : bool }.

(** [Clone] copies the address slice: an equal value. *)
Definition Clone (r : Response) : Response :=
  mkResponse (Exists r) (Addresses r) (Expires r) (ProtectionRequired r).
Definition Successful (r : option Response) : bool :=
  match r with Some r => Exists r && (0 <? zlen (Addresses r)) | None => false end.
Definition Expired (r : Response) (now : time) : bool :=
  if IsZero (Expires r) then false else After now (Expires r).
(** [var r Response] *)
Definition zeroResponse : Response := mkResponse false [] time_zero false.

(** ** priority.go *)
Section client.
(** The nested resolvers and their answers. *)
Context {R : Type} (lookup : R → Request → time → derr + Response).

Record priorityEntity := mkEntity { priority : Z; resolver : R; failureTimeout : Z; failedAt : time }.

(** A slice of pointers: a prefix of an array.  The array's length is the capacity. *)
Record slice_ := mkSlice { s_arr : nat; s_len : nat }.

(** The entities and arrays allocated so far, and [r.resolvers]. *)
Record PriorityResolver := mkPR {
  entities : gmap nat priorityEntity; newEntity : nat;
  arrays : gmap nat (list nat); newArray : nat; resolvers : slice_ }.

Definition NewPriorityResolver : PriorityResolver := mkPR ∅ 0 {[ 0%nat := [] ]} 1 (mkSlice 0 0).

Definition array (r : PriorityResolver) (s : slice_) : list nat := default [] (arrays r !! s_arr s).
(** The elements of a slice. *)
Definition elems (r : PriorityResolver) (s : slice_) : list nat := take (s_len s) (array r s).

Definition set_array (r : PriorityResolver) (a : nat) (xs : list nat) : PriorityResolver :=
  mkPR (entities r) (newEntity r) (<[a := xs]> (arrays r)) (newArray r) (resolvers r).
Definition set_resolvers (r : PriorityResolver) (s : slice_) : PriorityResolver :=
  mkPR (entities r) (newEntity r) (arrays r) (newArray r) s.

(** [append(s, xs...)]: in place when the capacity is there, else into a new array,
    which [grow] makes at least as long as needed. *)
Variable grow : nat → nat → nat.

Definition append (r : PriorityResolver) (s : slice_) (xs : list nat) : PriorityResolver * slice_ :=
  let n := (s_len s + length xs)%nat in
  let arr := array r s in
  if bool_decide (n ≤ length arr)%nat then
    (set_array r (s_arr s) (take (s_len s) arr ++ xs ++ drop n arr), mkSlice (s_arr s) n)
  else
    let new := take (s_len s) arr ++ xs in
    (mkPR (entities r) (newEntity r)
       (<[newArray r := new ++ replicate (grow (length arr) n - n) 0%nat]> (arrays r)) (S (newArray r)) (resolvers r),
     mkSlice (newArray r) n).

(** The loop of [add] over the slice [src] as it was at the start; [idx] is the
    next index, [fuel] the number of elements left.  [true]: returned early. *)
Fixpoint addLoop (fuel : nat) (src : slice_) (idx : nat) (prio : Z) (res : R) (replace : bool) (r : PriorityResolver)
    : PriorityResolver * bool :=
  match fuel with
  | O => (r, false)
  | S fuel =>
      match array r src !! idx with
      | None => (r, false)
      | Some p =>
          match entities r !! p with
          | None => (r, false)
          | Some e =>
              if (priority e =? prio) && replace then
                match elems r (resolvers r) !! idx with
                | Some q =>
                    (mkPR (alter (λ e, mkEntity (priority e) res (failureTimeout e) (failedAt e)) q (entities r))
                       (newEntity r) (arrays r) (newArray r) (resolvers r), true)
                | None => (r, true)
                end
              else
                let r :=
                  if prio <? priority e then
                    let '(r1, s1) := append r (mkSlice (s_arr (resolvers r)) idx) [p] in
                    let '(r2, s2) := append r1 s1 (drop idx (elems r1 (resolvers r))) in
                    set_resolvers r2 s2
                  else r in
                addLoop fuel src (S idx) prio res replace r
          end
      end
  end.

Definition add (prio : Z) (res : R) (timeout : Z) (replace : bool) (r : PriorityResolver) : PriorityResolver :=
  let p := newEntity r in
  let r := mkPR (<[p := mkEntity prio res timeout time_zero]> (entities r)) (S p) (arrays r) (newArray r) (resolvers r) in
  let '(r, done) := addLoop (s_len (resolvers r)) (resolvers r) 0 prio res replace r in
  if done then r else
  let '(r, s) := append r (resolvers r) [p] in set_resolvers r s.

Definition With (prio : Z) (res : R) (timeout : Z) (r : PriorityResolver) : PriorityResolver := add prio res timeout true r.
Definition Add (prio : Z) (res : R) (timeout : Z) (r : PriorityResolver) : PriorityResolver * option derr :=
  (add prio res timeout false r, None).

(** The entities in order. *)
Definition ordered (r : PriorityResolver) : list (nat * priorityEntity) :=
  omap (λ p, (λ e, (p, e)) <$> entities r !! p) (elems r (resolvers r)).

Definition Get (prio : Z) (r : PriorityResolver) : derr + R :=
  match list_find (λ x, priority x.2 = prio) (ordered r) with
  | Some (_, x) => inr (resolver x.2)
  | None => inl ErrNotExists
  end.

(** [append(r.resolvers[:idx], r.resolvers[idx+1:]...)] never grows. *)
Definition Unset (prio : Z) (r : PriorityResolver) : PriorityResolver * option derr :=
  match list_find (λ x, priority x.2 = prio) (ordered r) with
  | Some (idx, _) =>
      let '(r', s) := append r (mkSlice (s_arr (resolvers r)) idx) (drop (S idx) (elems r (resolvers r))) in
      (set_resolvers r' s, None)
  | None => (r, Some ErrNotExists)
  end.

(** The error of a nested lookup that suspends the entity. *)
Definition isFailure (e : derr) : bool :=
  negb (bool_decide (e = ErrDNSEmptyResponse)) && negb (bool_decide (e = ErrDNSNotExists)).

Definition set_failed (p : nat) (t : time) (r : PriorityResolver) : PriorityResolver :=
  mkPR (alter (λ e, mkEntity (priority e) (resolver e) (failureTimeout e) t) p (entities r))
    (newEntity r) (arrays r) (newArray r) (resolvers r).

(** The loop of [Lookup]; [now] is the time of every call. *)
Fixpoint plookup (ps : list nat) (req : Request) (now : time) (r : PriorityResolver) : PriorityResolver * (derr + Response) :=
  match ps with
  | [] => (r, inl ErrDNSNoResponse)
  | p :: ps =>
      match entities r !! p with
      | None => (r, inl ErrDNSNoResponse)
      | Some e =>
          if failureTimeout e <? Sub now (failedAt e) then
            match lookup (resolver e) req now with
            | inr res => (r, inr res)
            | inl err => plookup ps req now (if isFailure err then set_failed p now r else r)
            end
          else plookup ps req now r
      end
  end.

Definition Priority_Lookup (req : Request) (now : time) (r : PriorityResolver) : PriorityResolver * (derr + Response) :=
  plookup (elems r (resolvers r)) req now r.
End client.
