(* ===== verification/DNSPriorityProps.v ===== *)
(** * xdns/client: what the priority resolver guarantees *)
From S2P Require Import Prelude Ring DNSPriority.

Local Open Scope Z_scope.

Section props.
Context {R : Type} (lookup : R → Request → time → derr + Response).
Implicit Types (r : PriorityResolver (R := R)) (p q : nat) (e : priorityEntity (R := R)).

(** The slice lies in its array, holds pointers to entities, none of them twice,
    and new entities and arrays are new. *)
Definition pr_ok r : Prop :=
  (s_len (resolvers r) ≤ length (array r (resolvers r)))%nat ∧ NoDup (elems r (resolvers r)) ∧
  (∀ p, p ∈ elems r (resolvers r) → is_Some (entities r !! p)) ∧
  (∀ p, is_Some (entities r !! p) → (p < newEntity r)%nat) ∧
  is_Some (arrays r !! s_arr (resolvers r)) ∧ (∀ a, is_Some (arrays r !! a) → (a < newArray r)%nat).

Definition pair_of e : Z * R := (priority e, resolver e).
(** Priorities and resolvers in the order of the slice. *)
Definition listing r : list (Z * R) := omap (λ p, pair_of <$> entities r !! p) (elems r (resolvers r)).

(** ** Lookup *)

(** The answer of the entity at [p], unless it is suspended or fails. *)
Definition answers (req : Request) (now : time) r p : option Response :=
  e ← entities r !! p;
  if failureTimeout e <? Sub now (failedAt e)
  then match lookup (resolver e) req now with inr v => Some v | inl _ => None end else None.

(** The entity at [p] is asked and fails in a way that suspends it. *)
Definition fails (req : Request) (now : time) e : bool :=
  (failureTimeout e <? Sub now (failedAt e)) &&
  match lookup (resolver e) req now with inr _ => false | inl err => isFailure err end.

Definition suspend (t : time) e : priorityEntity := mkEntity (priority e) (resolver e) (failureTimeout e) t.

Definition suspended (req : Request) (now : time) (asked : list nat) p e : priorityEntity :=
  if decide (p ∈ asked ∧ fails req now e = true) then suspend now e else e.

(** [r1] is [r] but that the entities in [asked] that failed are suspended. *)
Definition suspends (req : Request) (now : time) (asked : list nat) r r1 : Prop :=
  elems r1 (resolvers r1) = elems r (resolvers r) ∧
  ∀ p, entities r1 !! p = suspended req now asked p <$> entities r !! p.

Lemma suspends_nil req now r : suspends req now [] r r.
Proof.
  split; [done|]. intros q. destruct (entities r !! q) as [e|]; [|done]. cbn.
  unfold suspended. rewrite decide_False; [done|]. intros [Hq _]. by apply not_elem_of_nil in Hq.
Qed.

Lemma suspends_cons req now p asked r r1 r2 :
  suspends req now [p] r r1 → suspends req now asked r1 r2 → suspends req now (p :: asked) r r2.
Proof.
  intros [E1 H1] [E2 H2]. split; [congruence|]. intros q. rewrite H2, H1. destruct (entities r !! q) as [e|]; [|done].
  cbn. f_equal. unfold suspended. pose proof (list_elem_of_singleton q p). pose proof (elem_of_cons asked q p).
  repeat case_decide; try done; tauto.
Qed.

(** An entity that is suspended for not answering still does not answer. *)
Lemma answers_suspended req now p r r1 q :
  answers req now r p = None → suspends req now [p] r r1 → answers req now r1 q = answers req now r q.
Proof.
  intros Hnone [_ H1]. unfold answers in *. rewrite H1. unfold suspended.
  destruct (entities r !! q) as [e|] eqn:He; [|done]. cbn. case_decide as Hd; [|done].
  destruct Hd as [Hq Hd]. apply list_elem_of_singleton in Hq as ->. rewrite He in Hnone. cbn in Hnone. rewrite Hnone.
  unfold fails in Hd. cbn [failureTimeout failedAt resolver suspend].
  destruct (lookup (resolver e) req now); [by destruct (failureTimeout e <? Sub now now)|]. by rewrite andb_false_r in Hd.
Qed.

(** The effect of the loop on an entity that does not answer. *)
Lemma no_answer_suspends req now r p e :
  entities r !! p = Some e → answers req now r p = None →
  suspends req now [p] r (if fails req now e then set_failed p now r else r).
Proof.
  intros He Hn. split; [by destruct (fails req now e)|]. intros q. unfold suspended.
  destruct (decide (q = p)) as [->|Hne].
  - rewrite He. cbn. destruct (fails req now e) eqn:Hf.
    + cbn [set_failed entities]. rewrite lookup_alter_eq, He. cbn. rewrite decide_True; [done|]. split; [by left|done].
    + rewrite He, decide_False; [done|]. by intros [].
  - assert (entities (if fails req now e then set_failed p now r else r) !! q = entities r !! q) as ->.
    { destruct (fails req now e); [|done]. cbn [set_failed entities]. by rewrite lookup_alter_ne. }
    destruct (entities r !! q); [|done]. cbn. rewrite decide_False; [done|]. rewrite list_elem_of_singleton. tauto.
Qed.

Lemma plookup_step req now p ps r e :
  entities r !! p = Some e →
  plookup lookup (p :: ps) req now r =
  match answers req now r p with
  | Some v => (r, inr v)
  | None => plookup lookup ps req now (if fails req now e then set_failed p now r else r)
  end.
Proof.
  intros He. cbn [plookup]. unfold answers, fails. rewrite He. cbn.
  destruct (failureTimeout e <? Sub now (failedAt e)); [|done]. by destruct (lookup (resolver e) req now).
Qed.

Lemma plookup_spec req now ps : ∀ r,
  (∀ p, p ∈ ps → is_Some (entities r !! p)) →
  ∃ asked rest, ps = asked ++ rest ∧ Forall (λ p, answers req now r p = None) asked ∧
    suspends req now asked r (plookup lookup ps req now r).1 ∧
    match rest with
    | [] => (plookup lookup ps req now r).2 = inl ErrDNSNoResponse
    | p :: _ => ∃ v, answers req now r p = Some v ∧ (plookup lookup ps req now r).2 = inr v
    end.
Proof.
  induction ps as [|p ps IH]; intros r Hp.
  { exists [], []. split_and!; try done. apply suspends_nil. }
  destruct (Hp p) as [e He]; [by left|]. rewrite (plookup_step _ _ _ _ _ _ He).
  destruct (answers req now r p) as [v|] eqn:Ha.
  { exists [], (p :: ps). split_and!; try done; [apply suspends_nil|]. by exists v. }
  pose proof (no_answer_suspends _ _ _ _ _ He Ha) as Hs.
  destruct (IH (if fails req now e then set_failed p now r else r)) as (asked & rest & -> & Hn & Hs2 & Hres).
  { intros q Hq. destruct Hs as [_ ->]. apply fmap_is_Some, Hp. by right. }
  exists (p :: asked), rest. split_and!; [done| |by eapply suspends_cons|].
  - constructor; [done|]. eapply Forall_impl; [exact Hn|]. intros q. cbn. by rewrite (answers_suspended _ _ _ _ _ _ Ha Hs).
  - destruct rest; [done|]. by rewrite (answers_suspended _ _ _ _ _ _ Ha Hs) in Hres.
Qed.

(** A lookup asks the resolvers in the order of the slice and returns the first
    answer; the error [ErrDNSNoResponse] is returned exactly when every resolver is
    suspended or fails.  The resolvers that were asked and failed, other than with an
    empty answer or a missing name, are suspended from now on; nothing else changes. *)
Theorem priority_lookup req now r :
  pr_ok r →
  ∃ asked rest, elems r (resolvers r) = asked ++ rest ∧ Forall (λ p, answers req now r p = None) asked ∧
    suspends req now asked r (Priority_Lookup lookup req now r).1 ∧
    match rest with
    | [] => (Priority_Lookup lookup req now r).2 = inl ErrDNSNoResponse
    | p :: _ => ∃ v, answers req now r p = Some v ∧ (Priority_Lookup lookup req now r).2 = inr v
    end.
Proof. intros (_ & _ & H3 & _). by apply plookup_spec. Qed.

(** ** Adding and removing *)
Context (grow : nat → nat → nat).

Lemma elems_at r p idx :
  pr_ok r → elems r (resolvers r) !! idx = Some p →
  array r (resolvers r) !! idx = Some p ∧ (idx < s_len (resolvers r))%nat.
Proof. intros _ Hp. unfold elems in Hp. by apply lookup_take_Some in Hp. Qed.

(** [append] to a slice of a known array. *)
Lemma append_spec r s xs :
  (s_len s ≤ length (array r s))%nat → (∀ a, is_Some (arrays r !! a) → (a < newArray r)%nat) →
  is_Some (arrays r !! s_arr s) →
  let '(r', s') := append grow r s xs in
  elems r' s' = elems r s ++ xs ∧ entities r' = entities r ∧ newEntity r' = newEntity r ∧
  (s_len s' ≤ length (array r' s'))%nat ∧ is_Some (arrays r' !! s_arr s') ∧
  (∀ a, is_Some (arrays r' !! a) → (a < newArray r')%nat).
Proof.
  intros Hlen Hnew Hs. unfold append. change (elems r s) with (take (s_len s) (array r s)).
  set (arr := array r s) in *. case_bool_decide as Hcap.
  - unfold elems, array, set_array. cbn [arrays s_arr s_len entities newEntity newArray].
    rewrite lookup_insert_eq. cbn [default from_option id]. unfold id. split_and!; try done.
    + rewrite app_assoc, take_app_length'; [done|]. rewrite length_app, length_take. lia.
    + rewrite !length_app, length_take, length_drop. lia.
    + intros a. rewrite lookup_insert. case_decide; [subst; by intros _; apply Hnew|apply Hnew].
  - unfold elems, array. cbn [arrays s_arr s_len entities newEntity newArray].
    rewrite lookup_insert_eq. cbn [default from_option id]. unfold id. split_and!; try done.
    + rewrite take_app_length'; [done|]. rewrite length_app, length_take. lia.
    + rewrite !length_app, length_take. lia.
    + intros a. rewrite lookup_insert. case_decide; [subst; lia|]. intros Ha. specialize (Hnew a Ha). lia.
Qed.

(** The entity at [p] is one that [With] replaces. *)
Definition has_prio (prio : Z) r p : bool :=
  match entities r !! p with Some e => priority e =? prio | None => false end.

Definition set_res (res : R) p r : PriorityResolver :=
  mkPR (alter (λ e, mkEntity (priority e) res (failureTimeout e) (failedAt e)) p (entities r))
    (newEntity r) (arrays r) (newArray r) (resolvers r).

(** The loop of [add] when no priority is larger: it replaces or does nothing. *)
Lemma addLoop_spec prio res replace r : pr_ok r →
  (∀ q e, q ∈ elems r (resolvers r) → entities r !! q = Some e → priority e ≤ prio) → ∀ fuel idx,
  (idx + fuel = s_len (resolvers r))%nat →
  addLoop grow fuel (resolvers r) idx prio res replace r =
  match list_find (λ p, has_prio prio r p && replace = true) (drop idx (elems r (resolvers r))) with
  | Some (_, p) => (set_res res p r, true)
  | None => (r, false)
  end.
Proof.
  intros Hok Hle. induction fuel as [|fuel IH]; intros idx Hi; cbn [addLoop].
  - rewrite drop_ge; [done|]. unfold elems. rewrite length_take. lia.
  - assert (∃ p, elems r (resolvers r) !! idx = Some p) as [p Hp].
    { apply lookup_lt_is_Some. unfold elems. rewrite length_take. destruct Hok as [? _]. lia. }
    destruct (elems_at _ _ _ Hok Hp) as [Ha _]. rewrite Ha.
    assert (p ∈ elems r (resolvers r)) as Hin by (by eapply list_elem_of_lookup_2).
    destruct Hok as (H1 & H2 & H3 & H4). destruct (H3 p Hin) as [e He]. rewrite He.
    rewrite (drop_S _ _ _ Hp). cbn [list_find].
    assert (has_prio prio r p = (priority e =? prio)) as Hh by (unfold has_prio; by rewrite He).
    specialize (Hle p e Hin He). destruct ((priority e =? prio) && replace) eqn:Hr.
    + rewrite decide_True by (by rewrite Hh). by rewrite Hp.
    + rewrite decide_False by (by rewrite Hh, Hr). rewrite (proj2 (Z.ltb_ge _ _)) by lia. rewrite IH by lia.
      destruct (list_find _ (drop (S idx) _)) as [[? ?]|]; done.
Qed.

Lemma omap_split {A B} (f : A → option B) (l : list A) (l1 l2 : list B) x :
  omap f l = l1 ++ x :: l2 → ∃ (p1 : list A) (p : A) (p2 : list A), l = p1 ++ p :: p2 ∧ omap f p1 = l1 ∧ f p = Some x ∧ omap f p2 = l2.
Proof.
  revert l1. induction l as [|a l IH]; intros l1 H; cbn in H; [by destruct l1|].
  destruct (f a) as [y|] eqn:Hf.
  - destruct l1 as [|z l1]; cbn in H; injection H as -> H.
    + by exists [], a, l.
    + destruct (IH _ H) as (p1 & p & p2 & -> & H1 & H2 & H3). exists (a :: p1), p, p2. cbn. by rewrite Hf, H1.
  - destruct (IH _ H) as (p1 & p & p2 & -> & H1 & H2 & H3). exists (a :: p1), p, p2. cbn. by rewrite Hf.
Qed.

Lemma listing_elem r p e :
  p ∈ elems r (resolvers r) → entities r !! p = Some e → pair_of e ∈ listing r.
Proof. intros Hp He. apply list_elem_of_omap. exists p. by rewrite He. Qed.

(** The loop finds the entity at a known place. *)
Lemma find_prio prio replace r (p1 : list nat) p (p2 : list nat) e :
  elems r (resolvers r) = p1 ++ p :: p2 → entities r !! p = Some e → priority e = prio →
  (∀ q e, q ∈ p1 → entities r !! q = Some e → priority e ≠ prio) → replace = true →
  list_find (λ p, has_prio prio r p && replace = true) (elems r (resolvers r)) = Some (length p1, p).
Proof.
  intros -> He Hp Hn ->. apply list_find_Some. split_and!.
  - by rewrite list_lookup_middle.
  - unfold has_prio. rewrite He, Hp. by rewrite Z.eqb_refl.
  - intros j q Hj Hlt. rewrite lookup_app_l in Hj by done. apply list_elem_of_lookup_2 in Hj.
    unfold has_prio. destruct (entities r !! q) as [e'|] eqn:Hq; [|done].
    rewrite andb_true_r, Z.eqb_eq. by eapply Hn.
Qed.

Lemma find_no_prio prio replace r ps :
  (∀ q e, q ∈ ps → entities r !! q = Some e → priority e ≠ prio ∨ replace = false) →
  list_find (λ p, has_prio prio r p && replace = true) ps = None.
Proof.
  intros Hn. apply list_find_None, Forall_forall. intros q Hq. unfold has_prio.
  destruct (entities r !! q) as [e'|] eqn:He; [|done]. destruct (Hn q e' Hq He) as [H| ->]; [|by rewrite andb_false_r].
  rewrite andb_true_iff, Z.eqb_eq. tauto.
Qed.

Lemma omap_ext_in {A B} (f g : A → option B) (l : list A) :
  (∀ x, x ∈ l → f x = g x) → omap f l = omap g l.
Proof.
  induction l as [|x l IH]; intros H; [done|]. cbn. rewrite (H x) by (by left). rewrite IH; [done|].
  intros y Hy. apply H. by right.
Qed.

(** Replacing the resolver of one entity changes one pair. *)
Lemma set_res_spec res r (p1 : list nat) p (p2 : list nat) e :
  pr_ok r → elems r (resolvers r) = p1 ++ p :: p2 → entities r !! p = Some e →
  pr_ok (set_res res p r) ∧
  listing (set_res res p r) = omap (λ q, pair_of <$> entities r !! q) p1 ++ (priority e, res) ::
                             omap (λ q, pair_of <$> entities r !! q) p2.
Proof.
  intros (H1 & H2 & H3 & H4 & H5 & H6) Hel He.
  assert (∀ q, is_Some (entities (set_res res p r) !! q) ↔ is_Some (entities r !! q)) as Hdom.
  { intros q. cbn [set_res entities]. destruct (decide (q = p)) as [->|Hne].
    - rewrite lookup_alter_eq, He. by split; eauto.
    - by rewrite lookup_alter_ne. }
  split.
  - split_and!; try done.
    + intros q Hq. apply Hdom, H3, Hq.
    + intros q Hq. apply H4, Hdom, Hq.
  - unfold listing. change (elems (set_res res p r) (resolvers (set_res res p r))) with (elems r (resolvers r)).
    rewrite Hel in H2 |- *. apply NoDup_app in H2 as (_ & Hd & Hp2). apply NoDup_cons in Hp2 as [Hp2 _].
    rewrite omap_app. cbn [omap list_omap]. cbn [set_res entities]. rewrite lookup_alter_eq, He. cbn.
    f_equal; [|f_equal]; apply omap_ext_in; intros q Hq; rewrite lookup_alter_ne; [done| |done|]; intros ->; [|done].
    apply (Hd _ Hq). by left.
Qed.

(** Appending an entity that is not in the slice. *)
Lemma append_new r prio res timeout :
  pr_ok r →
  let p := newEntity r in
  let r1 := mkPR (<[p := mkEntity prio res timeout time_zero]> (entities r)) (S p) (arrays r) (newArray r) (resolvers r) in
  let '(r2, s2) := append grow r1 (resolvers r1) [p] in
  pr_ok (set_resolvers r2 s2) ∧ listing (set_resolvers r2 s2) = listing r ++ [(prio, res)].
Proof.
  intros (H1 & H2 & H3 & H4 & H5 & H6) p r1.
  pose proof (append_spec r1 (resolvers r1) [p] H1 H6 H5) as Ha.
  destruct (append grow r1 (resolvers r1) [p]) as [r2 s2]. destruct Ha as (A1 & A2 & A3 & A4 & A5 & A6).
  assert (elems (set_resolvers r2 s2) (resolvers (set_resolvers r2 s2)) = elems r (resolvers r) ++ [p]) as Hel by done.
  assert (p ∉ elems r (resolvers r)) as Hfresh by (intros Hin; specialize (H4 p (H3 p Hin)); unfold p in *; lia).
  split; [split_and!; try done|].
  - rewrite Hel. apply NoDup_app. split_and!; [done| |apply NoDup_singleton].
    intros q Hq ->%list_elem_of_singleton. done.
  - rewrite Hel. intros q. cbn [set_resolvers entities]. rewrite A2. cbn [entities r1].
    rewrite elem_of_app, list_elem_of_singleton, lookup_insert. case_decide; [by eauto|]. intros [Hq|Hq]; [by apply H3|by subst].
  - intros q. cbn [set_resolvers entities newEntity]. rewrite A2, A3. cbn [entities newEntity r1]. rewrite lookup_insert.
    case_decide; [subst; lia|]. intros Hq%H4. unfold p. lia.
  - unfold listing. rewrite Hel, omap_app. cbn [set_resolvers entities]. rewrite A2. cbn [entities r1]. f_equal.
    + apply omap_ext_in. intros q Hq. rewrite lookup_insert_ne; [done|]. by intros <-.
    + cbn. by rewrite lookup_insert_eq.
Qed.

Lemma add_spec prio res timeout replace r :
  pr_ok r → (∀ x, x ∈ listing r → x.1 ≤ prio) →
  let r' := add grow prio res timeout replace r in
  (((∀ x, x ∈ listing r → x.1 ≠ prio) ∨ replace = false) →
    pr_ok r' ∧ listing r' = listing r ++ [(prio, res)]) ∧
  (∀ l1 old l2, replace = true → listing r = l1 ++ (prio, old) :: l2 → (∀ x, x ∈ l1 → x.1 ≠ prio) →
    pr_ok r' ∧ listing r' = l1 ++ (prio, res) :: l2).
Proof.
  intros Hok Hle r'. set (p := newEntity r). set (ent := mkEntity prio res timeout time_zero).
  set (r1 := mkPR (<[p := ent]> (entities r)) (S p) (arrays r) (newArray r) (resolvers r)).
  pose proof Hok as (H1 & H2 & H3 & H4 & H5 & H6).
  assert (∀ q, q ∈ elems r (resolvers r) → entities r1 !! q = entities r !! q) as Hsame.
  { intros q Hq. cbn [r1 entities]. rewrite lookup_insert_ne; [done|]. intros <-. specialize (H4 p (H3 p Hq)). unfold p in *. lia. }
  assert (pr_ok r1) as Hok1.
  { split_and!; try done.
    - intros q Hq. rewrite (Hsame q Hq). by apply H3.
    - intros q. cbn [r1 entities newEntity]. rewrite lookup_insert. case_decide; [subst; lia|]. intros Hq%H4. unfold p. lia. }
  assert (listing r1 = listing r) as Hl1.
  { apply omap_ext_in. intros q Hq. by rewrite (Hsame q Hq). }
  assert (r' = match list_find (λ p, has_prio prio r1 p && replace = true) (elems r1 (resolvers r1)) with
    | Some (_, q) => set_res res q r1
    | None => let '(r2, s) := append grow r1 (resolvers r1) [p] in set_resolvers r2 s
    end) as Er'.
  { unfold r', add. fold p ent r1.
    rewrite (addLoop_spec prio res replace r1 Hok1) by (try lia; intros q e Hq He; rewrite <-Hl1 in Hle;
      apply (Hle (pair_of e)), listing_elem with q; done).
    change (drop 0 (elems r1 (resolvers r1))) with (elems r1 (resolvers r1)).
    by destruct (list_find _ _) as [[? ?]|]. }
  split.
  - intros Hno. rewrite find_no_prio in Er'.
    + rewrite Er'. pose proof (append_new r prio res timeout Hok) as Ha. cbv zeta in Ha. fold p ent r1 in Ha.
      by destruct (append grow r1 (resolvers r1) [p]).
    + intros q e Hq He. destruct Hno as [Hno|]; [left|by right]. rewrite <-Hl1 in Hno.
      apply (Hno (pair_of e)), listing_elem with q; done.
  - intros l1 old l2 Hr Hl Hno. rewrite <-Hl1 in Hl. destruct (omap_split _ _ _ _ _ Hl) as (p1 & q & p2 & Hel & E1 & Eq & E2).
    apply fmap_Some in Eq as (e & He & Hpe). injection Hpe as Hpe _.
    rewrite (find_prio prio replace r1 p1 q p2 e) in Er'; try done.
    + rewrite Er', Hpe, <-E1, <-E2. by apply set_res_spec.
    + intros q' e' Hq' He'. apply (Hno (pair_of e')). rewrite <-E1. apply list_elem_of_omap. exists q'. by rewrite He'.
Qed.

Lemma omap_length {A B} (f : A → option B) (l : list A) :
  (∀ x, x ∈ l → is_Some (f x)) → length (omap f l) = length l.
Proof.
  induction l as [|x l IH]; intros H; [done|]. cbn. destruct (H x) as [y ->]; [by left|]. cbn. f_equal. apply IH.
  intros z Hz. apply H. by right.
Qed.

(** Where [Get] and [Unset] find a priority. *)
Lemma find_ordered prio r l1 old l2 :
  pr_ok r → listing r = l1 ++ (prio, old) :: l2 → (∀ x, x ∈ l1 → x.1 ≠ prio) →
  ∃ (p1 : list nat) p (p2 : list nat) e, elems r (resolvers r) = p1 ++ p :: p2 ∧ entities r !! p = Some e ∧ resolver e = old ∧
    list_find (λ x, priority x.2 = prio) (ordered r) = Some (length p1, (p, e)) ∧
    omap (λ q, pair_of <$> entities r !! q) (p1 ++ p2) = l1 ++ l2.
Proof.
  intros (_ & _ & H3 & _) Hl Hno. destruct (omap_split _ _ _ _ _ Hl) as (p1 & p & p2 & Hel & E1 & Ep & E2).
  apply fmap_Some in Ep as (e & He & Hpe). injection Hpe as Hp1 Hp2. exists p1, p, p2, e.
  split_and!; try done; [|by rewrite omap_app, E1, E2].
  assert (ordered r = omap (λ p, (λ e, (p, e)) <$> entities r !! p) p1 ++ (p, e) ::
    omap (λ p, (λ e, (p, e)) <$> entities r !! p) p2) as Ho.
  { unfold ordered. rewrite Hel, omap_app. cbn [omap list_omap]. by rewrite He. }
  assert (length (omap (λ p, (λ e, (p, e)) <$> entities r !! p) p1) = length p1) as Hlen.
  { apply omap_length. intros q Hq. apply fmap_is_Some, H3. rewrite Hel. apply elem_of_app. by left. }
  rewrite Ho. apply list_find_Some. split_and!; [|done|].
  - rewrite lookup_app_r by lia. by rewrite Hlen, Nat.sub_diag.
  - intros j [q e'] Hj Hlt. rewrite lookup_app_l in Hj by lia.
    apply list_elem_of_lookup_2, list_elem_of_omap in Hj as (q' & Hq' & Eq).
    apply fmap_Some in Eq as (e'' & He'' & [= <- ->]). apply (Hno (pair_of e'')). rewrite <-E1. apply list_elem_of_omap.
    exists q. by rewrite He''.
Qed.

(** Cutting one pointer out of the slice, in place. *)
Lemma cut_spec r (p1 : list nat) p (p2 : list nat) :
  pr_ok r → elems r (resolvers r) = p1 ++ p :: p2 →
  let '(r', s') := append grow r (mkSlice (s_arr (resolvers r)) (length p1)) p2 in
  pr_ok (set_resolvers r' s') ∧ listing (set_resolvers r' s') = omap (λ q, pair_of <$> entities r !! q) (p1 ++ p2).
Proof.
  intros (H1 & H2 & H3 & H4 & H5 & H6) Hel. set (s := mkSlice (s_arr (resolvers r)) (length p1)).
  assert (length p1 ≤ s_len (resolvers r))%nat as Hlt.
  { unfold elems in Hel. apply (f_equal length) in Hel. rewrite length_take, length_app in Hel. cbn in Hel. lia. }
  assert (elems r s = p1) as Hs.
  { unfold elems, s in *. cbn [s_len]. change (array r (mkSlice (s_arr (resolvers r)) (length p1))) with (array r (resolvers r)).
    apply (f_equal (take (length p1))) in Hel. rewrite take_take, take_app_length in Hel. by rewrite Nat.min_l in Hel by done. }
  pose proof (append_spec r s p2 ltac:(cbn [s s_len]; change (array r s) with (array r (resolvers r)); lia) H6 H5) as Ha.
  destruct (append grow r s p2) as [r' s']. destruct Ha as (A1 & A2 & A3 & A4 & A5 & A6).
  assert (elems (set_resolvers r' s') (resolvers (set_resolvers r' s')) = p1 ++ p2) as Hel' by (rewrite <-Hs; exact A1).
  rewrite Hel in H2, H3. split; [split_and!; try done|].
  - rewrite Hel'. apply NoDup_app in H2 as (N1 & N2 & N3). apply NoDup_cons in N3 as [_ N3].
    apply NoDup_app. split_and!; try done. intros q Hq Hq2. apply (N2 q Hq). by right.
  - rewrite Hel'. intros q Hq. cbn [set_resolvers entities]. rewrite A2. apply H3, elem_skip. by right.
  - cbn [set_resolvers entities newEntity]. by rewrite A2, A3.
  - unfold listing. rewrite Hel'. cbn [set_resolvers entities]. by rewrite A2.
Qed.

(** Registering resolvers in ascending order of priority works as the methods
    say: [With] replaces the resolver of its priority or, like [Add], appends it;
    so the slice stays ordered.  (See [priority_add_broken] for other orders.) *)
Theorem priority_add_ascending prio res timeout replace r :
  pr_ok r → (∀ x, x ∈ listing r → x.1 ≤ prio) →
  let r' := add grow prio res timeout replace r in
  (((∀ x, x ∈ listing r → x.1 ≠ prio) ∨ replace = false) →
    pr_ok r' ∧ listing r' = listing r ++ [(prio, res)]) ∧
  (∀ l1 old l2, replace = true → listing r = l1 ++ (prio, old) :: l2 → (∀ x, x ∈ l1 → x.1 ≠ prio) →
    pr_ok r' ∧ listing r' = l1 ++ (prio, res) :: l2).
Proof. apply add_spec. Qed.

(** [Get] returns the first resolver of a priority and [Unset] removes exactly
    that one, in place; for a priority that is not there both report
    [ErrNotExists] and nothing changes. *)
Theorem priority_get_unset prio r :
  pr_ok r →
  (∀ l1 old l2, listing r = l1 ++ (prio, old) :: l2 → (∀ x, x ∈ l1 → x.1 ≠ prio) →
    Get prio r = inr old ∧ (Unset grow prio r).2 = None ∧
    pr_ok (Unset grow prio r).1 ∧ listing (Unset grow prio r).1 = l1 ++ l2) ∧
  ((∀ x, x ∈ listing r → x.1 ≠ prio) → Get prio r = inl ErrNotExists ∧ Unset grow prio r = (r, Some ErrNotExists)).
Proof.
  intros Hok. split.
  - intros l1 old l2 Hl Hno. destruct (find_ordered _ _ _ _ _ Hok Hl Hno) as (p1 & p & p2 & e & Hel & He & Hres & Hf & Hom).
    unfold Get, Unset. rewrite Hf. split; [by rewrite <-Hres|]. rewrite Hel, drop_app_ge by lia.
    replace (S (length p1) - length p1)%nat with 1%nat by lia. change (drop 1 (p :: p2)) with p2.
    pose proof (cut_spec r p1 p p2 Hok Hel) as Hc. rewrite Hom in Hc.
    destruct (append grow r (mkSlice (s_arr (resolvers r)) (length p1)) p2) as [r' s']. done.
  - intros Hno. assert (list_find (λ x, priority x.2 = prio) (ordered r) = None) as Hf.
    { apply list_find_None, Forall_forall. intros [p e] (q & Hq & Eq)%list_elem_of_omap.
      apply fmap_Some in Eq as (e' & He & [= -> ->]). apply (Hno (pair_of e')), listing_elem with q; done. }
    unfold Get, Unset. by rewrite Hf.
Qed.
End props.

(** ** Concrete runs: [append] doubles, resolver [n] answers with address [n] *)
Definition doubles (cap n : nat) : nat := Nat.max n (2 * cap).
Definition numbered (n : nat) (req : Request) (now : time) : derr + Response :=
  if (n =? 7)%nat then inl (EOther 1) else inr (mkResponse true [[Z.of_nat n]] 0 false).
Definition two_resolvers : PriorityResolver :=
  With doubles 20 8%nat 15 (With doubles 10 7%nat 15 NewPriorityResolver).

Lemma new_ok {R} : pr_ok (NewPriorityResolver (R := R)).
Proof.
  split; [|split; [|split; [|split; [|split]]]].
  - vm_compute. lia.
  - constructor.
  - intros p Hp. by apply not_elem_of_nil in Hp.
  - by intros p [? ?].
  - by eexists.
  - intros a. destruct (decide (a = 0%nat)) as [->|Hne]; [cbn; lia|].
    cbn [arrays NewPriorityResolver newArray]. rewrite lookup_singleton_ne by done. by intros [].
Qed.

Lemma two_ok : pr_ok two_resolvers ∧ listing two_resolvers = [(10, 7%nat); (20, 8%nat)].
Proof.
  destruct (add_spec doubles 10 7%nat 15 true NewPriorityResolver new_ok) as [H1 _].
  { intros x Hx. vm_compute in Hx. by apply not_elem_of_nil in Hx. }
  destruct H1 as [H1 E1]. { left. intros x Hx. vm_compute in Hx. by apply not_elem_of_nil in Hx. }
  change (listing NewPriorityResolver) with (@nil (Z * nat)) in E1. cbn [app] in E1.
  assert (∀ x, x ∈ listing (add doubles 10 7%nat 15 true NewPriorityResolver) → x = (10, 7%nat)) as Hx.
  { intros x. rewrite E1. apply list_elem_of_singleton. }
  destruct (add_spec doubles 20 8%nat 15 true _ H1) as [H2 _].
  { intros x ->%Hx. cbn. lia. }
  destruct H2 as [H2 E2]. { left. by intros x ->%Hx. }
  split; [exact H2|]. unfold two_resolvers, With. by rewrite E2, E1.
Qed.

Lemma priority_lookup_witness :
  (Priority_Lookup numbered (mkRequest [97] 1 false) 100 two_resolvers).2 = inr (mkResponse true [[8]] 0 false).
Proof.
  destruct (priority_lookup numbered (mkRequest [97] 1 false) 100 two_resolvers (proj1 two_ok))
    as (asked & rest & Hel & Hn & _ & Hres).
  vm_compute in Hel. destruct asked as [|p asked]; cbn in Hel.
  - subst rest. destruct Hres as (v & Ha & _). vm_compute in Ha. discriminate Ha.
  - injection Hel as <- Hel. destruct asked as [|q asked]; cbn in Hel.
    + subst rest. destruct Hres as (v & Ha & ->). vm_compute in Ha. injection Ha as <-. reflexivity.
    + injection Hel as <- Hel. apply Forall_inv_tail, Forall_inv in Hn. vm_compute in Hn. discriminate Hn.
Defined.

Lemma priority_add_ascending_witness :
  listing (add doubles 30 9%nat 15 false two_resolvers) = [(10, 7%nat); (20, 8%nat); (30, 9%nat)].
Proof.
  destruct two_ok as [Hok Hl].
  destruct (priority_add_ascending doubles 30 9%nat 15 false two_resolvers Hok) as [H _].
  - intros x. rewrite Hl. rewrite !elem_of_cons. intros [->|[->|Hx]]; [cbn; lia..|by apply not_elem_of_nil in Hx].
  - destruct H as [_ ->]; [by right|]. rewrite Hl. reflexivity.
Defined.

Lemma priority_get_unset_witness :
  Get 10 two_resolvers = inr 7%nat ∧ listing (Unset doubles 10 two_resolvers).1 = [(20, 8%nat)].
Proof.
  destruct two_ok as [Hok Hl]. destruct (priority_get_unset doubles 10 two_resolvers Hok) as [H _].
  destruct (H [] 7%nat [(20, 8%nat)] Hl) as (Hg & _ & _ & Hu).
  - intros x Hx. by apply not_elem_of_nil in Hx.
  - split; [exact Hg|exact Hu].
Defined.

(** Adding a resolver with a smaller priority than one that is already there
    does not insert it before: the existing entries are duplicated and the new one
    goes to the end, so it is asked last. *)
Example priority_add_broken :
  listing (add doubles 5 9%nat 15 false (With doubles 10 7%nat 15 NewPriorityResolver)) =
    [(10, 7%nat); (10, 7%nat); (5, 9%nat)] ∧
  listing (add doubles 5 9%nat 15 false two_resolvers) =
    [(10, 7%nat); (20, 8%nat); (20, 8%nat); (20, 8%nat); (5, 9%nat)].
Proof. split; vm_compute; reflexivity. Qed.
