(* ===== verification/DNSActive.v ===== *)
(** * xdns/client: the last-active resolver

    Models [src/xdns/client/lastactive.go] with the methods of [LinkedList]. *)
From S2P Require Import Prelude LinkedList DNSPriority.

Local Open Scope Z_scope.

Section lastactive.
Context {R : Type} (lookup : R → Request → time → derr + Response).

Record lastActiveEntity := mkLA { tag : bytes; la_resolver : R }.
Local Abbreviation LM := (M (V := lastActiveEntity)).

(** The list is at [l]; [zero] is the value of its sentinel. *)
Definition NewLastActive (zero : lastActiveEntity) (l : nat) : LM nat := New zero l.

(** [entity.resolver = resolver] through the pointer in the element. *)
Definition set_resolver (a : addr) (res : R) : LM unit :=
  update a (λ e, mkElement (e_next e) (e_prev e) (e_list e) (mkLA (tag (e_value e)) res)).

(** The search loop of [add] and [Unset]: the element with the tag; [fuel] bounds
    the length of the list. *)
Fixpoint findTag (fuel : nat) (t : bytes) (e : option addr) : LM (option addr) :=
  match fuel, e with
  | _, None => mret None
  | O, Some _ => panic
  | S fuel, Some a =>
      x ← load a;
      if bool_decide (tag (e_value x) = t) then mret (Some a)
      else n ← Next a; findTag fuel t n
  end.

Definition la_add (fuel : nat) (l : nat) (t : bytes) (res : R) (replace : bool) : LM (option derr) :=
  f ← Front l;
  found ← findTag fuel t f;
  match found with
  | Some a => if replace then (_ ← set_resolver a res; mret None) else mret (Some ErrExists)
  | None => _ ← PushBack l (mkLA t res); mret None
  end.

Definition la_Unset (fuel : nat) (l : nat) (t : bytes) : LM (option derr) :=
  f ← Front l;
  found ← findTag fuel t f;
  match found with
  | Some a => _ ← Remove l a; mret None
  | None => mret (Some ErrNotExists)
  end.

(** The loop of [Lookup]: the first element whose resolver answers with addresses. *)
Fixpoint findActive (fuel : nat) (req : Request) (now : time) (e : option addr) : LM (option (addr * Response)) :=
  match fuel, e with
  | _, None => mret None
  | O, Some _ => panic
  | S fuel, Some a =>
      x ← load a;
      match lookup (la_resolver (e_value x)) req now with
      | inr res => if Successful (Some res) then mret (Some (a, res)) else n ← Next a; findActive fuel req now n
      | inl _ => n ← Next a; findActive fuel req now n
      end
  end.

Definition la_Lookup (fuel : nat) (l : nat) (req : Request) (now : time) : LM (derr + Response) :=
  f ← Front l;
  found ← findActive fuel req now f;
  match found with
  | Some (a, res) =>
      f ← Front l;
      if bool_decide (Some a = f) then mret (inr res) else (_ ← MoveToFront l a; mret (inr res))
  | None => mret (inl ErrDNSNoResponse)
  end.
End lastactive.

(** * xdns/client: what the last-active resolver guarantees *)
From S2P Require Import Prelude Ring LinkedList LinkedListSpec LinkedListProps DNSPriority.

Local Open Scope Z_scope.

Section props.
Context {R : Type} (lookup : R → Request → time → derr + Response).
Local Abbreviation entity := (lastActiveEntity (R := R)).
Implicit Types (h : heap entity) (l x : nat).

(** The answer of a resolver, if it is a success with addresses. *)
Definition active (req : Request) (now : time) (v : entity) : option Response :=
  match lookup (la_resolver v) req now with
  | inr res => if Successful (Some res) then Some res else None
  | inl _ => None
  end.

(** The elements with their values, in order. *)
Definition order h (xs : list nat) : list entity := values h xs.

Lemma load_val h x e : load (Elem x) h = Some (e, h) → val h (Elem x) = Some (e_value e).
Proof. unfold load, val. destruct (h_elems h !! Elem x); [|done]. by intros [= ->]. Qed.

(** [Next] at the end of a sequence, or before its next element. *)
Lemma next_of h σ l (l1 : list nat) x (l2 : list nat) :
  lists_ok h σ → σ !! l = Some (l1 ++ x :: l2) →
  Next (Elem x) h = Some (match l2 with [] => None | y :: _ => Some (Elem y) end, h).
Proof.
  intros Hok Hl. destruct l2 as [|y l2]; [|by apply (next_in _ _ _ _ _ _ _ Hok Hl)].
  unfold Next, mbind, M_bind, mret, M_ret. destruct (elem_load _ _ _ _ _ _ Hok Hl) as (_ & _ & e & -> & -> & _ & ->).
  cbn. by rewrite bool_decide_eq_true_2.
Qed.

Definition start (xs : list nat) : option addr := match xs with [] => None | x :: _ => Some (Elem x) end.

Lemma front_start h σ l xs : lists_ok h σ → σ !! l = Some xs → Front l h = Some (start xs, h).
Proof.
  intros Hok Hl. destruct (front_back _ _ _ _ Hok Hl) as [(e & He & Hs) _]. destruct xs as [|x xs]; [|by rewrite He, Hs].
  unfold Front, mbind, M_bind. by rewrite (len_read _ _ _ _ Hok Hl).
Qed.

Lemma findActive_spec req now h σ l : lists_ok h σ → ∀ (l2 l1 : list nat) fuel,
  σ !! l = Some (l1 ++ l2) → (length l2 ≤ fuel)%nat →
  (∃ p1 x p2 v res, l2 = p1 ++ x :: p2 ∧ val h (Elem x) = Some v ∧ active req now v = Some res ∧
     Forall (λ v, active req now v = None) (order h p1) ∧
     findActive lookup fuel req now (start l2) h = Some (Some (Elem x, res), h)) ∨
  (Forall (λ v, active req now v = None) (order h l2) ∧ findActive lookup fuel req now (start l2) h = Some (None, h)).
Proof.
  intros Hok. induction l2 as [|x l2 IH]; intros l1 fuel Hl Hf.
  { right. split; [constructor|]. by destruct fuel. }
  destruct fuel as [|fuel]; [cbn in Hf; lia|].
  destruct (elem_load _ _ _ _ _ _ Hok Hl) as (_ & _ & e & He & _). pose proof (load_val _ _ _ He) as Hv.
  assert (findActive lookup (S fuel) req now (start (x :: l2)) h =
    match active req now (e_value e) with
    | Some res => Some (Some (Elem x, res), h)
    | None => findActive lookup fuel req now (start l2) h
    end) as Hstep.
  { cbn [start findActive]. unfold mbind at 1, M_bind at 1. rewrite He. unfold active.
    assert ((Next (Elem x) ≫= findActive lookup fuel req now) h = findActive lookup fuel req now (start l2) h) as Hn.
    { unfold mbind, M_bind. by rewrite (next_of _ _ _ _ _ _ Hok Hl). }
    destruct (lookup (la_resolver (e_value e)) req now) as [err|res]; [exact Hn|].
    destruct (Successful (Some res)); [done|exact Hn]. }
  rewrite Hstep. destruct (active req now (e_value e)) as [res|] eqn:Ha.
  - left. exists [], x, l2, (e_value e), res. split_and!; try done.
  - assert (∀ p, order h (x :: p) = e_value e :: order h p) as Ho.
    { intros p. unfold order, values. cbn [omap list_omap]. by rewrite Hv. }
    destruct (IH (l1 ++ [x]) fuel) as [(p1 & y & p2 & v & res & -> & Hy & Hr & Hn & Hrun)|[Hn Hrun]].
    { by rewrite <-app_assoc. } { cbn in Hf. lia. }
    + left. exists (x :: p1), y, p2, v, res. split_and!; try done. rewrite Ho. by constructor.
    + right. split; [|done]. rewrite Ho. by constructor.
Qed.

(** A lookup asks the resolvers from the front and returns the first answer that
    has addresses; its resolver moves to the front and the others keep their order.
    When none answers, [ErrDNSNoResponse] is returned and the list is unchanged. *)
Theorem last_active_lookup req now h σ l (xs : list nat) fuel :
  lists_ok h σ → σ !! l = Some xs → small h → (length xs ≤ fuel)%nat →
  (∃ p1 x p2 v res h', xs = p1 ++ x :: p2 ∧ val h (Elem x) = Some v ∧ active req now v = Some res ∧
     Forall (λ v, active req now v = None) (order h p1) ∧
     la_Lookup lookup fuel l req now h = Some (inr res, h') ∧
     lists_ok h' (<[l := x :: p1 ++ p2]> σ) ∧ order h' (x :: p1 ++ p2) = v :: order h p1 ++ order h p2) ∨
  (Forall (λ v, active req now v = None) (order h xs) ∧
     la_Lookup lookup fuel l req now h = Some (inl ErrDNSNoResponse, h)).
Proof.
  intros Hok Hl Hsm Hf. unfold la_Lookup, mbind, M_bind, mret, M_ret. rewrite (front_start _ _ _ _ Hok Hl).
  destruct (findActive_spec req now h σ l Hok xs [] fuel Hl Hf)
    as [(p1 & x & p2 & v & res & -> & Hv & Ha & Hn & Hrun)|[Hn Hrun]]; rewrite Hrun; [left|right; done].
  assert (order h (x :: p1 ++ p2) = v :: order h p1 ++ order h p2) as Ho.
  { unfold order. rewrite <-values_app. unfold values. cbn [omap list_omap]. by rewrite Hv. }
  rewrite (front_start _ _ _ _ Hok Hl). case_bool_decide as Hfront.
  - assert (p1 = []) as ->.
    { destruct p1 as [|y p1]; [done|]. cbn in Hfront. injection Hfront as ->.
      destruct (elem_load _ _ _ _ _ _ Hok Hl) as (Hx & _). destruct Hx. by left. }
    exists [], x, p2, v, res, h. split_and!; try done. cbn [app]. by rewrite insert_id.
  - destruct (proj1 (move_end_refines h σ l x) l (p1 ++ x :: p2)) as (h' & Hm & Hok' & Hval); try done.
    { constructor; [|done]. unfold val in Hv. destruct (h_elems h !! Elem x); [by eexists|done]. }
    destruct (elem_load _ _ _ _ _ _ Hok Hl) as (Hx1 & Hx2 & _).
    cbn [exec abs_op] in Hm, Hok'. rewrite Hm. rewrite decide_True in Hok' by apply elem_mid.
    rewrite without_app in Hok' by done.
    exists p1, x, p2, v, res, h'. split_and!; try done. rewrite <-Ho. unfold order. apply values_ext.
    intros y Hy. apply Hval. intros [= ->].
    assert (h_new h ∈ p1 ++ x :: p2) as Hin by (apply elem_skip; rewrite <-elem_of_cons; done).
    pose proof (member_below _ _ _ _ _ Hok Hl Hin). lia.
Qed.

(** ** Adding and removing by tag *)

Lemma findTag_spec t h σ l : lists_ok h σ → ∀ (l2 l1 : list nat) fuel,
  σ !! l = Some (l1 ++ l2) → (length l2 ≤ fuel)%nat →
  (∃ p1 x p2 v, l2 = p1 ++ x :: p2 ∧ val h (Elem x) = Some v ∧ tag v = t ∧ (t ∉ (tag <$> order h p1)) ∧
     findTag fuel t (start l2) h = Some (Some (Elem x), h)) ∨
  ((t ∉ (tag <$> order h l2)) ∧ findTag fuel t (start l2) h = Some (None, h)).
Proof.
  intros Hok. induction l2 as [|x l2 IH]; intros l1 fuel Hl Hf.
  { right. split; [apply not_elem_of_nil|]. by destruct fuel. }
  destruct fuel as [|fuel]; [cbn in Hf; lia|].
  destruct (elem_load _ _ _ _ _ _ Hok Hl) as (_ & _ & e & He & _). pose proof (load_val _ _ _ He) as Hv.
  assert ((Next (Elem x) ≫= findTag fuel t) h = findTag fuel t (start l2) h) as Hn.
  { unfold mbind, M_bind. by rewrite (next_of _ _ _ _ _ _ Hok Hl). }
  assert (findTag (S fuel) t (start (x :: l2)) h =
    if bool_decide (tag (e_value e) = t) then Some (Some (Elem x), h) else findTag fuel t (start l2) h) as ->.
  { cbn [start findTag]. unfold mbind at 1, M_bind at 1. rewrite He. by case_bool_decide. }
  case_bool_decide as Ht.
  { left. exists [], x, l2, (e_value e). split_and!; try done. apply not_elem_of_nil. }
  assert (∀ p, t ∉ (tag <$> order h p) → t ∉ (tag <$> order h (x :: p))) as Ho.
  { intros p Hp. unfold order, values. cbn [omap list_omap]. rewrite Hv. cbn. rewrite not_elem_of_cons. split; [congruence|done]. }
  destruct (IH (l1 ++ [x]) fuel) as [(p1 & y & p2 & v & -> & Hy & Hr & Hp & Hrun)|[Hp Hrun]].
  { by rewrite <-app_assoc. } { cbn in Hf. lia. }
  + left. exists (x :: p1), y, p2, v. split_and!; try done. by apply Ho.
  + right. split; [|done]. by apply Ho.
Qed.

(** Storing through the pointer in an element keeps the links. *)
Lemma set_resolver_spec h σ l (p1 : list nat) x (p2 : list nat) v res :
  lists_ok h σ → σ !! l = Some (p1 ++ x :: p2) → val h (Elem x) = Some v →
  ∃ h', set_resolver (Elem x) res h = Some (tt, h') ∧ lists_ok h' σ ∧
    order h' (p1 ++ x :: p2) = order h p1 ++ mkLA (tag v) res :: order h p2 ∧ h_new h' = h_new h.
Proof.
  intros Hok Hl Hv. unfold set_resolver, update. unfold val in Hv.
  destruct (h_elems h !! Elem x) as [e|] eqn:He; [|done]. injection Hv as <-. eexists. split; [done|].
  set (e' := mkElement _ _ _ _). set (h' := mkHeap _ _ _).
  assert (∀ a, nxt h' a = nxt h a) as En.
  { intros a. unfold nxt, h'. cbn [h_elems]. rewrite lookup_insert. case_decide; [by subst; rewrite He|done]. }
  assert (∀ a, prv h' a = prv h a) as Ep.
  { intros a. unfold prv, h'. cbn [h_elems]. rewrite lookup_insert. case_decide; [by subst; rewrite He|done]. }
  assert (∀ a, own h' a = own h a) as Eo.
  { intros a. unfold own, h'. cbn [h_elems]. rewrite lookup_insert. case_decide; [by subst; rewrite He|done]. }
  destruct (elem_load _ _ _ _ _ _ Hok Hl) as (Hx1 & Hx2 & _). split; [|split; [|done]].
  - destruct Hok as (H1 & H2 & H3 & H4). split_and!.
    + intros l' xs Hl'. destruct (H1 l' xs Hl') as (Hc & Hnd & Hlen). split_and!; try done.
      eapply chain_frame; [..|exact Hc]; intros; by rewrite ?En, ?Ep.
    + intros y l'. by rewrite Eo, H2.
    + intros l'. by rewrite Eo.
    + intros y. unfold h'. cbn [h_elems h_new]. rewrite lookup_insert. case_decide as E; [|apply H4].
      injection E as <-. intros _. apply H4. by rewrite He.
  - unfold order. rewrite values_app. unfold values at 2. cbn [omap list_omap].
    unfold val at 1. cbn [h' h_elems]. rewrite lookup_insert_eq. cbn [fmap option_fmap option_map e_value e'].
    f_equal; [|f_equal]; apply values_ext; intros y Hy; unfold val; cbn [h' h_elems];
      rewrite lookup_insert_ne by (intros [= ->]; done); done.
Qed.

Lemma pushBack_run h σ l (xs : list nat) (v : entity) :
  lists_ok h σ → σ !! l = Some xs → small h →
  ∃ h', PushBack l v h = Some (Elem (h_new h), h') ∧ lists_ok h' (<[l := xs ++ [h_new h]]> σ) ∧
    h_new h' = S (h_new h) ∧ val h' (Elem (h_new h)) = Some v ∧ (∀ a, a ≠ Elem (h_new h) → val h' a = val h a).
Proof.
  intros Hok Hl Hsm. destruct (root_load _ _ _ _ Hok Hl) as (r & Hr & _ & Ep). rewrite <- (app_nil_r xs) in Hl.
  destruct (insertValue_spec h σ l xs [] v Hok Hl Hsm) as (h' & Hrun & Hok' & Hnew & Hval & Hv).
  rewrite app_nil_r in Hl. exists h'. unfold PushBack, mbind, M_bind.
  rewrite (lazyInit_noop _ _ _ _ Hok Hl), Hr, Ep. cbn [deref mret M_ret]. unfold mret, M_ret. by rewrite Hrun.
Qed.

Lemma la_add_spec h σ l (xs : list nat) fuel t res replace :
  lists_ok h σ → σ !! l = Some xs → small h → (length xs ≤ fuel)%nat →
  ((t ∉ (tag <$> order h xs)) → ∃ h', la_add fuel l t res replace h = Some (None, h') ∧
     lists_ok h' (<[l := xs ++ [h_new h]]> σ) ∧ order h' xs = order h xs ∧ order h' [h_new h] = [mkLA t res] ∧ h_new h' = S (h_new h)) ∧
  (t ∈ (tag <$> order h xs) → ∃ v1 v v2, order h xs = v1 ++ v :: v2 ∧ tag v = t ∧ (t ∉ (tag <$> v1)) ∧
     if replace
     then ∃ h', la_add fuel l t res replace h = Some (None, h') ∧ lists_ok h' σ ∧ order h' xs = v1 ++ mkLA t res :: v2 ∧ h_new h' = h_new h
     else la_add fuel l t res replace h = Some (Some ErrExists, h)).
Proof.
  intros Hok Hl Hsm Hf. unfold la_add, mbind, M_bind, mret, M_ret. rewrite (front_start _ _ _ _ Hok Hl).
  destruct (findTag_spec t h σ l Hok xs [] fuel Hl Hf) as [(p1 & x & p2 & v & -> & Hv & Ht & Hn & ->)|[Hn ->]].
  - assert (order h (p1 ++ x :: p2) = order h p1 ++ v :: order h p2) as Ho.
    { unfold order. rewrite values_app. unfold values at 2. cbn [omap list_omap]. by rewrite Hv. }
    split.
    { intros []. rewrite Ho, fmap_app, fmap_cons, Ht. apply elem_mid. }
    intros _. exists (order h p1), v, (order h p2). split_and!; try done. destruct replace; [|done].
    destruct (set_resolver_spec h σ l p1 x p2 v res Hok Hl Hv) as (h' & -> & Hok' & Ho' & Hn'). exists h'.
    split_and!; try done. by rewrite Ho', Ht.
  - split; [|by intros ?]. intros _.
    destruct (pushBack_run h σ l xs (mkLA t res) Hok Hl Hsm) as (h' & -> & Hok' & Hn' & Hv & Hval).
    exists h'. split_and!; try done.
    + apply values_ext. intros x Hx. apply Hval. intros [= ->]. pose proof (member_below _ _ _ _ _ Hok Hl Hx). lia.
    + unfold order, values. cbn [omap list_omap]. by rewrite Hv.
Qed.

(** Resolvers are registered by tag: a new tag goes to the end, [With] on a tag
    that is there replaces its resolver in place, [Add] reports [ErrExists] and
    changes nothing. *)
Theorem last_active_add h σ l (xs : list nat) fuel t res replace :
  lists_ok h σ → σ !! l = Some xs → small h → (length xs ≤ fuel)%nat →
  ((t ∉ (tag <$> order h xs)) → ∃ h', la_add fuel l t res replace h = Some (None, h') ∧
     lists_ok h' (<[l := xs ++ [h_new h]]> σ) ∧ order h' xs = order h xs ∧ order h' [h_new h] = [mkLA t res]) ∧
  (t ∈ (tag <$> order h xs) → ∃ v1 v v2, order h xs = v1 ++ v :: v2 ∧ tag v = t ∧ (t ∉ (tag <$> v1)) ∧
     if replace
     then ∃ h', la_add fuel l t res replace h = Some (None, h') ∧ lists_ok h' σ ∧ order h' xs = v1 ++ mkLA t res :: v2
     else la_add fuel l t res replace h = Some (Some ErrExists, h)).
Proof.
  intros Hok Hl Hsm Hf. destruct (la_add_spec h σ l xs fuel t res replace Hok Hl Hsm Hf) as [H1 H2]. split.
  - intros Ht. destruct (H1 Ht) as (h' & ? & ? & ? & ? & _). by exists h'.
  - intros Ht. destruct (H2 Ht) as (v1 & v & v2 & ? & ? & ? & H). exists v1, v, v2. split_and!; try done.
    destruct replace; [|done]. destruct H as (h' & ? & ? & ? & _). by exists h'.
Qed.

(** [Unset] removes exactly the resolver of its tag and keeps the order of the
    rest; for an unknown tag it reports [ErrNotExists] and changes nothing. *)
Theorem last_active_unset h σ l (xs : list nat) fuel t :
  lists_ok h σ → σ !! l = Some xs → small h → (length xs ≤ fuel)%nat →
  ((t ∉ (tag <$> order h xs)) → la_Unset fuel l t h = Some (Some ErrNotExists, h)) ∧
  (t ∈ (tag <$> order h xs) → ∃ v1 v v2 h' ys, order h xs = v1 ++ v :: v2 ∧ tag v = t ∧ (t ∉ (tag <$> v1)) ∧
     la_Unset fuel l t h = Some (None, h') ∧ lists_ok h' (<[l := ys]> σ) ∧ order h' ys = v1 ++ v2).
Proof.
  intros Hok Hl Hsm Hf. unfold la_Unset, mbind, M_bind, mret, M_ret. rewrite (front_start _ _ _ _ Hok Hl).
  destruct (findTag_spec t h σ l Hok xs [] fuel Hl Hf) as [(p1 & x & p2 & v & -> & Hv & Ht & Hn & ->)|[Hn ->]].
  - assert (order h (p1 ++ x :: p2) = order h p1 ++ v :: order h p2) as Ho.
    { unfold order. rewrite values_app. unfold values at 2. cbn [omap list_omap]. by rewrite Hv. }
    split.
    { intros []. rewrite Ho, fmap_app, fmap_cons, Ht. apply elem_mid. }
    intros _. destruct (remove_refines h σ l x l (p1 ++ x :: p2)) as (h' & Hm & Hok' & Hval); try done.
    { constructor; [|done]. unfold val in Hv. destruct (h_elems h !! Elem x); [by eexists|done]. }
    destruct (elem_load _ _ _ _ _ _ Hok Hl) as (Hx1 & Hx2 & _).
    cbn [exec abs_op] in Hm, Hok'. rewrite without_app in Hok' by done.
    unfold drop_result, mbind, M_bind, mret, M_ret in Hm.
    destruct (Remove l (Elem x) h) as [[w h1]|]; [|done]. injection Hm as ->.
    exists (order h p1), v, (order h p2), h', (p1 ++ p2). split_and!; try done.
    unfold order. rewrite <-values_app. apply values_ext. intros y Hy. apply Hval. intros [= ->].
    assert (h_new h ∈ p1 ++ x :: p2) as Hin by (apply elem_skip; by right).
    pose proof (member_below _ _ _ _ _ Hok Hl Hin). lia.
  - split; [done|by intros ?].
Qed.
End props.

(** ** Concrete runs *)
Definition silent (n : nat) (req : Request) (now : time) : derr + Response :=
  if (n =? 7)%nat then inl ErrDNSEmptyResponse else inr (mkResponse true [[Z.of_nat n]] 0 false).

(** Two resolvers: [a] does not answer, [b] does. *)
Definition ab_run : option (option derr * heap (lastActiveEntity (R := nat))) :=
  (_ ← NewLastActive (mkLA [] 0%nat) 0;
   _ ← la_add 5 0 [97] 7%nat true; la_add 5 0 [98] 8%nat true) empty_heap.
Definition ab_heap : heap (lastActiveEntity (R := nat)) := match ab_run with Some (_, h) => h | None => empty_heap end.

Lemma ab_ok : lists_ok ab_heap {[ 0%nat := [0; 1]%nat ]}.
Proof.
  destruct (New_spec (mkLA [] 0%nat) empty_heap ∅ 0) as (h1 & R1 & Hok1 & N1 & _); [apply empty_heap_ok|done|].
  destruct (pushBack_run h1 _ 0 [] (mkLA [97] 7%nat) Hok1) as (h2 & R2 & Hok2 & _); [done|unfold small; by rewrite N1|].
  vm_compute in R1. injection R1 as <-. vm_compute in R2. injection R2 as <-.
  destruct (pushBack_run _ _ 0 [0%nat] (mkLA [98] 8%nat) Hok2) as (h3 & R3 & Hok3 & _); [done|done|].
  vm_compute in R3. injection R3 as <-. vm_compute in Hok3 |- *. exact Hok3.
Qed.

Lemma last_active_lookup_witness :
  ∃ h', la_Lookup silent 2 0 (mkRequest [97] 1 false) 100 ab_heap = Some (inr (mkResponse true [[8]] 0 false), h') ∧
    order h' [1; 0]%nat = [mkLA [98] 8%nat; mkLA [97] 7%nat].
Proof.
  destruct (last_active_lookup silent (mkRequest [97] 1 false) 100 ab_heap _ 0 [0; 1]%nat 2 ab_ok)
    as [(p1 & x & p2 & v & res & h' & Hxs & Hv & Ha & Hn & Hrun & _ & Ho)|[Hn _]]; [reflexivity|reflexivity|cbn; lia|..].
  - destruct p1 as [|y p1]; cbn in Hxs.
    + injection Hxs as <- _. vm_compute in Hv. injection Hv as <-. vm_compute in Ha. discriminate Ha.
    + injection Hxs as <- Hxs. destruct p1 as [|z p1]; cbn in Hxs.
      * injection Hxs as <- <-. vm_compute in Hv. injection Hv as <-. vm_compute in Ha. injection Ha as <-.
        exists h'. split; [exact Hrun|exact Ho].
      * injection Hxs as _ Hxs. destruct p1; discriminate Hxs.
  - apply Forall_inv_tail, Forall_inv in Hn. vm_compute in Hn. discriminate Hn.
Defined.

Lemma last_active_add_witness : la_add 2 0 [97] 9%nat false ab_heap = Some (Some ErrExists, ab_heap).
Proof.
  destruct (last_active_add ab_heap _ 0 [0; 1]%nat 2 [97] 9%nat false ab_ok) as [_ H]; [reflexivity|reflexivity|cbn; lia|].
  destruct H as (v1 & v & v2 & _ & _ & _ & H); [vm_compute; left|exact H].
Defined.

Lemma last_active_unset_witness :
  ∃ h' ys, la_Unset 2 0 [97] ab_heap = Some (None, h') ∧ lists_ok h' (<[0%nat := ys]> {[ 0%nat := [0; 1]%nat ]}).
Proof.
  destruct (last_active_unset ab_heap _ 0 [0; 1]%nat 2 [97] ab_ok) as [_ H]; [reflexivity|reflexivity|cbn; lia|].
  destruct H as (v1 & v & v2 & h' & ys & _ & _ & _ & Hr & Hok & _); [vm_compute; left|].
  exists h', ys. split; [exact Hr|exact Hok].
Defined.
