(* ===== verification/DNSShared.v ===== *)
(** * xdns/client: the last-active resolver shared by goroutines

    [Lookup] of [src/xdns/client/lastactive.go] holds the read lock while it asks the
    resolvers one after the other, gives it up, and takes the write lock to move the
    one that answered to the front.  In between, other goroutines add, replace and
    remove resolvers.  The sections between the operations on the lock are the events
    of a step relation; the nested resolvers are a relation between a request and the
    answers they may give. *)
From S2P Require Import Prelude Ring LinkedList LinkedListSpec LinkedListProps DNSPriority DNSActive.

Local Open Scope Z_scope.

Section shared.
Context {R : Type} (answers : R → Request → derr + Response → Prop).
Local Abbreviation entity := (lastActiveEntity (R := R)).
Local Abbreviation LM := (M (V := entity)).

(** Where a call of [Lookup] is: in the loop with the read lock, at the element [e];
    between the two locks; returned. *)
Inductive lphase :=
  | LReading (req : Request) (e : option addr)
  | LMoving (req : Request) (e : addr) (result : Response)
  | LDone (req : Request) (r : derr + Response).

Definition reading (p : lphase) : bool := match p with LReading _ _ => true | _ => false end.

Definition successful (ans : derr + Response) : option Response :=
  match ans with
  | inr res => if Successful (Some res) then Some res else None
  | inl _ => None
  end.

(** One round of the loop, with the answer that [entity.resolver.Lookup] gave. *)
Definition read_round (l : nat) (req : Request) (a : addr) (ans : derr + Response) : LM lphase :=
  match successful ans with
  | Some res =>
      f ← Front l;
      if bool_decide (Some a = f) then mret (LDone req (inr res)) else mret (LMoving req a res)
  | None => n ← Next a; mret (LReading req n)
  end.

Record lstate := mkLS { ls_heap : heap entity; ls_calls : gmap nat lphase }.

(** The sections: a lookup [g] takes the read lock, asks a resolver, ends without an
    answer, moves an element; and the calls that run under the write lock. *)
Inductive levent :=
  | EvRLock (g : nat) (req : Request)
  | EvAsk (g : nat) (v : entity) (ans : derr + Response)
  | EvEnd (g : nat)
  | EvMove (g : nat)
  | EvAdd (t : bytes) (res : R) (replace : bool)
  | EvUnset (t : bytes).

(** What the read-write lock and the control flow require; [EvAsk] asks the resolver of
    the current element. *)
Definition noReaders (s : lstate) : Prop := map_Forall (λ _ p, reading p = false) (ls_calls s).

Definition enabled (ev : levent) (s : lstate) : Prop :=
  match ev with
  | EvRLock g _ => ls_calls s !! g = None
  | EvAsk g v ans => ∃ req a, ls_calls s !! g = Some (LReading req (Some a)) ∧
      val (ls_heap s) a = Some v ∧ answers (la_resolver v) req ans
  | EvEnd g => ∃ req, ls_calls s !! g = Some (LReading req None)
  | EvMove g => noReaders s ∧ ∃ req a res, ls_calls s !! g = Some (LMoving req a res)
  | EvAdd _ _ _ | EvUnset _ => noReaders s
  end.

(** The section itself; [None] is a panic, and the answer when the event is not enabled. *)
Definition set_call (g : nat) (s : lstate) (x : option (lphase * heap entity)) : option lstate :=
  match x with Some (p, h) => Some (mkLS h (<[g := p]> (ls_calls s))) | None => None end.

Definition run_event (l : nat) (ev : levent) (s : lstate) : option lstate :=
  let h := ls_heap s in
  match ev with
  | EvRLock g req => set_call g s ((e ← Front l; mret (LReading req e)) h)
  | EvAsk g _ ans =>
      match ls_calls s !! g with
      | Some (LReading req (Some a)) => set_call g s ((_ ← load a; read_round l req a ans) h)
      | _ => None
      end
  | EvEnd g =>
      match ls_calls s !! g with
      | Some (LReading req None) => set_call g s (Some (LDone req (inl ErrDNSNoResponse), h))
      | _ => None
      end
  | EvMove g =>
      match ls_calls s !! g with
      | Some (LMoving req a res) => set_call g s ((_ ← MoveToFront l a; mret (LDone req (inr res))) h)
      | _ => None
      end
  | EvAdd t res replace => (λ x, mkLS x.2 (ls_calls s)) <$> la_add (h_new h) l t res replace h
  | EvUnset t => (λ x, mkLS x.2 (ls_calls s)) <$> la_Unset (h_new h) l t h
  end.

(** The states after a sequence of events, from a new resolver. *)
Inductive lruns (zero : entity) (l : nat) : list levent → lstate → Prop :=
  | lruns_new h : NewLastActive zero l empty_heap = Some (l, h) → lruns zero l [] (mkLS h ∅)
  | lruns_step tr s ev s' : lruns zero l tr s → enabled ev s → run_event l ev s = Some s' → lruns zero l (tr ++ [ev]) s'.

(** ** The specification: a table of resolvers by tag *)

Definition register (m : gmap bytes R) (ev : levent) : gmap bytes R :=
  match ev with
  | EvAdd t res replace => if replace || bool_decide (m !! t = None) then <[t := res]> m else m
  | EvUnset t => delete t m
  | _ => m
  end.
Definition registry (tr : list levent) : gmap bytes R := foldl register ∅ tr.

(** The call asked a resolver that was registered at that moment, which gave the answer. *)
Definition answered (tr : list levent) (g : nat) (req : Request) (res : Response) : Prop :=
  ∃ tr1 tr2 t r, tr = tr1 ++ EvAsk g (mkLA t r) (inr res) :: tr2 ∧ registry tr1 !! t = Some r ∧
    answers r req (inr res) ∧ Successful (Some res) = true.

(** When the call ended it had asked every resolver registered then, and none had answered. *)
Definition unanswered (tr : list levent) (g : nat) : Prop :=
  ∃ tr1 tr2, tr = tr1 ++ EvEnd g :: tr2 ∧ ∀ t r, registry tr1 !! t = Some r →
    ∃ ans, EvAsk g (mkLA t r) ans ∈ tr1 ∧ successful ans = None.

Definition pairs (vs : list entity) : list (bytes * R) := (λ v, (tag v, la_resolver v)) <$> vs.
Definition table (vs : list entity) : gmap bytes R := list_to_map (pairs vs).

(** ** The invariant *)

Definition phase_ok (tr : list levent) (h : heap entity) (xs : list nat) (g : nat) (p : lphase) : Prop :=
  match p with
  | LReading _ e => ∃ p1 p2, xs = p1 ++ p2 ∧ e = start p2 ∧
      Forall (λ v, ∃ ans, EvAsk g v ans ∈ tr ∧ successful ans = None) (order h p1)
  | LMoving req a res => (∃ x, a = Elem x ∧ is_Some (h_elems h !! a)) ∧ answered tr g req res
  | LDone req (inr res) => answered tr g req res
  | LDone _ (inl e) => e = ErrDNSNoResponse ∧ unanswered tr g
  end.

Record linv (l : nat) (tr : list levent) (s : lstate) (xs : list nat) : Prop := mkLinv {
  li_list : lists_ok (ls_heap s) {[ l := xs ]};
  li_new : (h_new (ls_heap s) ≤ length tr)%nat;
  li_tags : NoDup (tag <$> order (ls_heap s) xs);
  li_table : table (order (ls_heap s) xs) = registry tr;
  li_calls : map_Forall (phase_ok tr (ls_heap s) xs) (ls_calls s) }.

(** ** What every run of a method keeps *)

Definition kept (h h' : heap entity) : Prop := ∀ a, is_Some (h_elems h !! a) → is_Some (h_elems h' !! a).
Definition unallocated (h h' : heap entity) : Prop := h_new h' = h_new h.
#[local] Instance kept_preorder : PreOrder kept.
Proof. split; [by intros h a|intros h1 h2 h3 H1 H2 a Ha; by apply H2, H1]. Qed.
#[local] Instance unallocated_preorder : PreOrder unallocated.
Proof. unfold unallocated. split; [by intros h|intros h1 h2 h3; congruence]. Qed.

Class Along {A} (P : relation (heap entity)) (m : LM A) := along : ∀ h r h', m h = Some (r, h') → P h h'.

Section along.
Context (P : relation (heap entity)) `{!PreOrder P}.
#[local] Instance along_ret {A} (x : A) : Along P (mret x : LM A).
Proof. intros h r h' [= _ <-]. done. Qed.
#[local] Instance along_panic {A} : Along P (panic : LM A).
Proof. by intros h r h'. Qed.
#[local] Instance along_bind {A B} (m : LM A) (f : A → LM B) : Along P m → (∀ x, Along P (f x)) → Along P (m ≫= f).
Proof.
  intros Hm Hf h r h'. unfold mbind, M_bind. destruct (m h) as [[x h1]|] eqn:E; [|done].
  intros Hr. etrans; [by apply (Hm _ _ _ E)|by apply (Hf x _ r)].
Qed.
#[local] Instance along_load a : Along P (load a : LM _).
Proof. intros h r h'. unfold load. destruct (h_elems h !! a); [|done]. by intros [= _ <-]. Qed.
#[local] Instance along_deref o : Along P (deref o : LM _).
Proof. unfold deref. destruct o; apply _. Qed.
#[local] Instance along_get_len l : Along P (get_len l : LM _).
Proof. intros h r h'. unfold get_len. destruct (h_lens h !! l); [|done]. by intros [= _ <-]. Qed.
#[local] Instance along_if {A} (b : bool) (m1 m2 : LM A) : Along P m1 → Along P m2 → Along P (if b then m1 else m2).
Proof. by destruct b. Qed.
#[local] Instance along_option {A B} (o : option B) (m1 : B → LM A) (m2 : LM A) :
  (∀ x, Along P (m1 x)) → Along P m2 → Along P (match o with Some x => m1 x | None => m2 end).
Proof. by destruct o. Qed.
#[local] Instance along_next a : Along P (Next a : LM _).
Proof. unfold Next. apply _. Qed.
#[local] Instance along_findTag fuel t e : Along P (findTag fuel t e : LM _).
Proof. revert e. induction fuel; intros []; cbn [findTag]; apply _. Qed.

Context `{Hu : ∀ a f, Along P (update a f : LM _)} `{Hs : ∀ l n, Along P (set_len l n : LM _)}.
#[local] Existing Instances Hu Hs.
Lemma move_along l a : Along P (MoveToFront l a : LM _).
Proof. unfold MoveToFront, move, set_next, set_prev. apply _. Qed.
Lemma unset_along fuel l t : Along P (la_Unset fuel l t : LM _).
Proof. unfold la_Unset, Front, Remove, remove, set_next, set_prev, set_list. apply _. Qed.
Lemma add_along fuel l t res replace : (∀ v, Along P (alloc v : LM _)) → Along P (la_add fuel l t res replace : LM _).
Proof.
  intros Ha. unfold la_add, Front, PushBack, lazyInit, Init, insertValue, insert, set_resolver, set_next, set_prev, set_list.
  apply _.
Qed.
End along.

#[local] Instance kept_update a f : Along kept (update a f : LM _).
Proof.
  intros h r h'. unfold update. destruct (h_elems h !! a); [|done]. intros [= _ <-] b. cbn.
  rewrite lookup_insert_is_Some'. auto.
Qed.
#[local] Instance kept_set_len l n : Along kept (set_len l n : LM _).
Proof. by intros h r h' [= _ <-] b. Qed.
#[local] Instance kept_alloc v : Along kept (alloc v : LM _).
Proof. intros h r h' [= _ <-] b. cbn. rewrite lookup_insert_is_Some'. auto. Qed.
Lemma add_kept fuel l t res replace : Along kept (la_add fuel l t res replace : LM _).
Proof. apply add_along; apply _. Qed.
#[local] Instance unallocated_update a f : Along unallocated (update a f : LM _).
Proof. intros h r h'. unfold update. destruct (h_elems h !! a); [|done]. by intros [= _ <-]. Qed.
#[local] Instance unallocated_set_len l n : Along unallocated (set_len l n : LM _).
Proof. by intros h r h' [= _ <-]. Qed.

(** ** The table of a list of entities *)

Lemma pairs_keys vs : (pairs vs).*1 = tag <$> vs.
Proof. unfold pairs. by rewrite <-list_fmap_compose. Qed.

Lemma table_perm vs ws : vs ≡ₚ ws → NoDup (tag <$> vs) → table vs = table ws ∧ NoDup (tag <$> ws).
Proof.
  intros Hp Hnd. split; [|by rewrite <-Hp]. apply list_to_map_proper; [by rewrite pairs_keys|].
  unfold pairs. by rewrite Hp.
Qed.

Lemma table_split v1 v v2 : NoDup (tag <$> v1 ++ v :: v2) →
  table (v1 ++ v :: v2) = <[tag v := la_resolver v]> (table (v1 ++ v2)) ∧
  table (v1 ++ v2) !! tag v = None ∧ NoDup (tag <$> v1 ++ v2) ∧ tag v ∉ (tag <$> v1 ++ v2).
Proof.
  intros Hnd. destruct (table_perm (v1 ++ v :: v2) (v :: v1 ++ v2)) as [-> Hnd']; [by rewrite Permutation_middle|done|].
  rewrite fmap_cons, NoDup_cons in Hnd'. destruct Hnd' as [Hv Hnd']. split_and!; try done.
  apply not_elem_of_list_to_map. by rewrite pairs_keys.
Qed.

Lemma table_lookup vs v : NoDup (tag <$> vs) → v ∈ vs → table vs !! tag v = Some (la_resolver v).
Proof.
  intros Hnd (v1 & v2 & ->)%list_elem_of_split. destruct (table_split _ _ _ Hnd) as [-> _]. apply lookup_insert_eq.
Qed.

Lemma table_elem vs t r : table vs !! t = Some r → mkLA t r ∈ vs.
Proof.
  intros H%elem_of_list_to_map_2. unfold pairs in H. apply list_elem_of_fmap in H as (v & [= -> ->] & Hv).
  by destruct v.
Qed.

Lemma table_none vs t : t ∉ (tag <$> vs) → table vs !! t = None.
Proof. intros Ht. apply not_elem_of_list_to_map. by rewrite pairs_keys. Qed.

(** ** Events keep the invariant *)

Lemma registry_snoc tr ev : registry (tr ++ [ev]) = register (registry tr) ev.
Proof. unfold registry. by rewrite foldl_app. Qed.

Lemma answered_app tr ev g req res : answered tr g req res → answered (tr ++ [ev]) g req res.
Proof. intros (tr1 & tr2 & t & r & -> & ?). exists tr1, (tr2 ++ [ev]), t, r. by rewrite <-app_assoc. Qed.

Lemma unanswered_app tr ev g : unanswered tr g → unanswered (tr ++ [ev]) g.
Proof. intros (tr1 & tr2 & -> & ?). exists tr1, (tr2 ++ [ev]). by rewrite <-app_assoc. Qed.

(** A section that runs without readers: only the elements between the locks matter. *)
Lemma phase_written tr ev h h' xs xs' g p :
  kept h h' → reading p = false →
  phase_ok tr h xs g p → phase_ok (tr ++ [ev]) h' xs' g p.
Proof.
  intros Hk Hr. destruct p as [?|req a res|req [e|res]]; cbn [phase_ok]; [done|..].
  - intros [(x & -> & Ha) Hans]. split; [exists x; auto|by apply answered_app].
  - intros [? ?]. split; [done|by apply unanswered_app].
  - apply answered_app.
Qed.

Lemma phase_same tr ev h xs g p : phase_ok tr h xs g p → phase_ok (tr ++ [ev]) h xs g p.
Proof.
  destruct (reading p) eqn:Hr; [|by apply phase_written].
  destruct p as [req e| |]; try done. intros (p1 & p2 & -> & -> & Hp). exists p1, p2. split_and!; try done.
  eapply Forall_impl; [exact Hp|]. intros v (ans & Hin & Hs). exists ans. split; [|done]. apply elem_of_app. by left.
Qed.

Lemma linv_call l tr s xs g p :
  linv l tr s xs → phase_ok tr (ls_heap s) xs g p → linv l tr (mkLS (ls_heap s) (<[g := p]> (ls_calls s))) xs.
Proof. intros [Hl Hn Ht Htab Hc] Hp. split; cbn [ls_heap ls_calls]; try done. by apply map_Forall_insert_2. Qed.

(** A section under the read lock changes one call and not the list. *)
Lemma linv_read l tr ev s xs g p :
  linv l tr s xs → register (registry tr) ev = registry tr → phase_ok (tr ++ [ev]) (ls_heap s) xs g p →
  linv l (tr ++ [ev]) (mkLS (ls_heap s) (<[g := p]> (ls_calls s))) xs.
Proof.
  intros [Hl Hn Ht Htab Hc] Hreg Hp. split; cbn [ls_heap ls_calls]; try done.
  - rewrite length_app. cbn. lia.
  - by rewrite registry_snoc, Hreg.
  - apply map_Forall_insert_2; [done|]. intros g' p' Hg'. by apply phase_same, Hc.
Qed.

(** A section under the write lock. *)
Lemma linv_written l tr ev s xs h' xs' :
  linv l tr s xs → noReaders s → kept (ls_heap s) h' →
  lists_ok h' {[ l := xs' ]} → (h_new h' ≤ S (h_new (ls_heap s)))%nat → NoDup (tag <$> order h' xs') →
  table (order h' xs') = register (registry tr) ev → linv l (tr ++ [ev]) (mkLS h' (ls_calls s)) xs'.
Proof.
  intros [Hl Hn Ht Htab Hc] Hnr Hk Hl' Hn' Ht' Htab'. split; cbn [ls_heap ls_calls]; try done.
  - rewrite length_app. cbn. lia.
  - by rewrite registry_snoc.
  - intros g p Hg. eapply phase_written; [done|by apply (Hnr g)|by apply Hc].
Qed.

Lemma singleton_list (l : nat) (xs : list nat) : ({[ l := xs ]} : gmap nat (list nat)) !! l = Some xs.
Proof. apply lookup_singleton_eq. Qed.

Lemma rlock_ok l tr s xs g req : linv l tr s xs → enabled (EvRLock g req) s →
  ∃ s', run_event l (EvRLock g req) s = Some s' ∧ linv l (tr ++ [EvRLock g req]) s' xs.
Proof.
  intros Hi _. cbn [run_event]. unfold mbind, M_bind, mret, M_ret.
  rewrite (front_start _ _ _ _ (li_list _ _ _ _ Hi) (singleton_list l xs)). eexists. split; [done|].
  apply linv_read; [done|done|]. exists [], xs. split_and!; done.
Qed.

Lemma end_ok l tr s xs g : linv l tr s xs → enabled (EvEnd g) s →
  ∃ s', run_event l (EvEnd g) s = Some s' ∧ linv l (tr ++ [EvEnd g]) s' xs.
Proof.
  intros Hi (req & Hg). cbn [run_event]. rewrite Hg. eexists. split; [done|]. apply linv_read; [done|done|].
  split; [done|]. exists tr, []. split; [done|]. intros t r Htr.
  destruct (li_calls _ _ _ _ Hi g _ Hg) as (p1 & p2 & -> & He & Hp). destruct p2; [|done].
  rewrite app_nil_r in *. rewrite <-(li_table _ _ _ _ Hi) in Htr. apply table_elem in Htr.
  rewrite Forall_forall in Hp. by apply Hp.
Qed.

Lemma order_one (h : heap entity) x v : val h (Elem x) = Some v → order h [x] = [v].
Proof. intros Hv. unfold order, values. cbn [omap list_omap]. by rewrite Hv. Qed.
Lemma order_app (h : heap entity) (xs ys : list nat) : order h (xs ++ ys) = order h xs ++ order h ys.
Proof. apply values_app. Qed.

Lemma ask_ok l tr s xs g v ans : linv l tr s xs → enabled (EvAsk g v ans) s →
  ∃ s', run_event l (EvAsk g v ans) s = Some s' ∧ linv l (tr ++ [EvAsk g v ans]) s' xs.
Proof.
  intros Hi (req & a & Hg & Hv & Hans). cbn [run_event]. rewrite Hg.
  destruct (li_calls _ _ _ _ Hi g _ Hg) as (p1 & p2 & Hxs & He & Hp).
  destruct p2 as [|x p2]; [done|]. injection He as ->. pose proof (li_list _ _ _ _ Hi) as Hok.
  assert (({[ l := xs ]} : gmap nat (list nat)) !! l = Some (p1 ++ x :: p2)) as Hl by (rewrite <-Hxs; apply singleton_list).
  destruct (elem_load _ _ _ _ _ _ Hok Hl) as (_ & _ & e & He & _).
  assert (v ∈ order (ls_heap s) xs) as Hin.
  { rewrite Hxs. change (x :: p2) with ([x] ++ p2). rewrite !order_app, (order_one _ _ _ Hv). set_solver. }
  assert (∀ res, successful ans = Some res → answered (tr ++ [EvAsk g v ans]) g req res) as Hres.
  { intros res Hs. destruct v as [t rs], ans as [|res']; [done|]. cbn [successful] in Hs.
    destruct (Successful (Some res')) eqn:Es; [injection Hs as <-|done]. exists tr, [], t, rs.
    rewrite <-(li_table _ _ _ _ Hi). split_and!; try done. by apply (table_lookup _ (mkLA t rs)); [apply (li_tags _ _ _ _ Hi)|]. }
  unfold mbind, M_bind, mret, M_ret, read_round. rewrite He. destruct (successful ans) as [res|] eqn:Hs.
  - unfold mbind, M_bind, mret, M_ret. rewrite (front_start _ _ _ _ Hok (singleton_list l xs)).
    case_bool_decide; (eexists; split; [done|]; apply linv_read; [done|done|]); [by apply Hres|].
    split; [|by apply Hres]. exists x. split; [done|]. apply val_some. by rewrite Hv.
  - unfold mbind, M_bind, mret, M_ret. rewrite (next_of _ _ _ _ _ _ Hok Hl). eexists. split; [done|].
    apply linv_read; [done|done|]. exists (p1 ++ [x]), p2. split_and!; [by rewrite <-app_assoc|done|].
    rewrite order_app, (order_one _ _ _ Hv). apply Forall_app. split.
    + eapply Forall_impl; [exact Hp|]. intros w (b & ? & ?). exists b. set_solver.
    + constructor; [|constructor]. exists ans. set_solver.
Qed.

Lemma small_events l tr s xs : linv l tr s xs → Z.of_nat (length tr) < 2 ^ 63 - 1 → small (ls_heap s).
Proof. intros Hi Hlen. pose proof (li_new _ _ _ _ Hi). unfold small. lia. Qed.

Lemma fuel_events l tr s xs : linv l tr s xs → (length xs ≤ h_new (ls_heap s))%nat.
Proof.
  intros Hi. pose proof (li_list _ _ _ _ Hi) as Hok. apply nodup_bounded.
  - destruct Hok as (H & _). by destruct (H l xs (singleton_list l xs)) as (_ & ? & _).
  - intros x. by apply (member_below _ _ _ _ _ Hok (singleton_list l xs)).
Qed.

Lemma move_ok l tr s xs g : linv l tr s xs → Z.of_nat (length tr) < 2 ^ 63 - 1 → enabled (EvMove g) s →
  ∃ s' xs', run_event l (EvMove g) s = Some s' ∧ linv l (tr ++ [EvMove g]) s' xs'.
Proof.
  intros Hi Hlen (Hnr & req & a & res & Hg). cbn [run_event]. rewrite Hg. pose proof (li_list _ _ _ _ Hi) as Hok.
  destruct (li_calls _ _ _ _ Hi g _ Hg) as ((x & -> & Hx) & Hans).
  destruct (proj1 (move_end_refines (ls_heap s) {[ l := xs ]} l x) l xs) as (h' & Hm & Hok' & Hval); try done.
  { apply singleton_list. } { by eapply small_events. } { by constructor. }
  cbn [exec] in Hm. pose proof (move_along kept _ _ _ _ _ Hm) as Hk.
  pose proof (move_along unallocated _ _ _ _ _ Hm) as Hnew.
  unfold mbind, M_bind, mret, M_ret. rewrite Hm. rewrite insert_singleton_eq in Hok'.
  set (ys := abs_op _ _ _) in Hok'. eexists _, ys. split; [done|].
  assert (xs ≡ₚ ys) as Hperm.
  { unfold ys. cbn [abs_op]. case_decide as Hin; [|done]. apply list_elem_of_split in Hin as (l1 & l2 & ->).
    destruct (elem_load _ _ _ _ _ _ Hok (singleton_list l _)) as (H1 & H2 & _). rewrite without_app by done.
    by rewrite Permutation_middle. }
  destruct (table_perm (order (ls_heap s) xs) (order h' ys)) as [Ht Hnd].
  { unfold order. rewrite (values_ext (ls_heap s) h'); [unfold values; by rewrite Hperm|]. intros y Hy. apply Hval.
    intros [= ->]. rewrite <-Hperm in Hy. pose proof (member_below _ _ _ _ _ Hok (singleton_list l xs) Hy). lia. }
  { apply (li_tags _ _ _ _ Hi). }
  apply (linv_call _ _ (mkLS h' (ls_calls s))); [|by apply answered_app].
  apply (linv_written _ _ _ _ _ _ _ Hi); try done; [by rewrite Hnew; lia|]. by rewrite <-Ht, (li_table _ _ _ _ Hi).
Qed.

Lemma add_ok l tr s xs t res replace :
  linv l tr s xs → Z.of_nat (length tr) < 2 ^ 63 - 1 → enabled (EvAdd t res replace) s →
  ∃ s' xs', run_event l (EvAdd t res replace) s = Some s' ∧ linv l (tr ++ [EvAdd t res replace]) s' xs'.
Proof.
  intros Hi Hlen Hnr. cbn [run_event]. pose proof (li_list _ _ _ _ Hi) as Hok.
  pose proof (li_tags _ _ _ _ Hi) as Hnd. pose proof (li_table _ _ _ _ Hi) as Htab.
  destruct (la_add_spec (ls_heap s) _ l xs (h_new (ls_heap s)) t res replace Hok (singleton_list l xs)) as [Hnew Hold].
  { by eapply small_events. } { by eapply fuel_events. }
  destruct (decide (t ∈ (tag <$> order (ls_heap s) xs))) as [Hin|Hnin].
  - destruct (Hold Hin) as (v1 & v & v2 & Ho & <- & Hv1 & Hrun). rewrite Ho in Hnd, Htab.
    destruct (table_split _ _ _ Hnd) as (Hsplit & Hnone & Hnd' & Hv). destruct replace.
    + destruct Hrun as (h' & Hrun & Hok' & Ho' & Hn'). rewrite Hrun. eexists _, xs. split; [done|]. cbn [snd].
      assert (NoDup (tag <$> v1 ++ mkLA (tag v) res :: v2)) as Hnd2 by (by rewrite fmap_app in Hnd |- *).
      eapply linv_written; [done|done|exact (add_kept _ _ _ _ _ _ _ _ Hrun)|done|by rewrite Hn'; lia|by rewrite Ho'|].
      rewrite Ho', <-Htab. destruct (table_split _ _ _ Hnd2) as [-> _]. cbn. by rewrite Hsplit, insert_insert_eq.
    + rewrite Hrun. eexists _, xs. split; [done|]. cbn [snd].
      eapply linv_written; [done|done|done|done|lia|by rewrite Ho|].
      rewrite Ho, <-Htab. cbn. by rewrite Hsplit, lookup_insert_eq.
  - destruct (Hnew Hnin) as (h' & Hrun & Hok' & Ho1 & Ho2 & Hn'). rewrite Hrun. rewrite insert_singleton_eq in Hok'.
    eexists _, _. split; [done|]. cbn [snd]. assert (NoDup (tag <$> order (ls_heap s) xs ++ mkLA t res :: [])) as Hnd2.
    { rewrite fmap_app. apply NoDup_app. split_and!; [done|set_solver|apply NoDup_singleton]. }
    eapply linv_written; [done|done|exact (add_kept _ _ _ _ _ _ _ _ Hrun)|done|by rewrite Hn'|..]; rewrite order_app, Ho1, Ho2; [done|].
    destruct (table_split _ _ _ Hnd2) as [-> _]. rewrite app_nil_r, Htab. cbn [register].
    rewrite (bool_decide_eq_true_2 (_ = None)), orb_true_r; [done|]. rewrite <-Htab. by apply table_none.
Qed.

Lemma unset_ok l tr s xs t : linv l tr s xs → Z.of_nat (length tr) < 2 ^ 63 - 1 → enabled (EvUnset t) s →
  ∃ s' xs', run_event l (EvUnset t) s = Some s' ∧ linv l (tr ++ [EvUnset t]) s' xs'.
Proof.
  intros Hi Hlen Hnr. cbn [run_event]. pose proof (li_list _ _ _ _ Hi) as Hok.
  pose proof (li_tags _ _ _ _ Hi) as Hnd. pose proof (li_table _ _ _ _ Hi) as Htab.
  destruct (last_active_unset (ls_heap s) _ l xs (h_new (ls_heap s)) t Hok (singleton_list l xs)) as [Hnone Hsome].
  { by eapply small_events. } { by eapply fuel_events. }
  destruct (decide (t ∈ (tag <$> order (ls_heap s) xs))) as [Hin|Hnin].
  - destruct (Hsome Hin) as (v1 & v & v2 & h' & ys & Ho & <- & _ & Hrun & Hok' & Ho'). rewrite Hrun.
    eexists _, ys. split; [done|]. cbn [snd]. rewrite insert_singleton_eq in Hok'. rewrite Ho in Hnd, Htab.
    destruct (table_split _ _ _ Hnd) as (Hsplit & Hn & Hnd' & _).
    pose proof (unset_along unallocated _ _ _ _ _ _ Hrun) as Hnew.
    eapply linv_written; [done|done|exact (unset_along kept _ _ _ _ _ _ Hrun)|done|by rewrite Hnew; lia|by rewrite Ho'|].
    rewrite Ho', <-Htab, Hsplit. cbn. by rewrite delete_insert_id.
  - rewrite (Hnone Hnin). eexists _, xs. split; [done|]. cbn [snd].
    eapply linv_written; [done|done|done|done|lia|done|]. rewrite Htab. cbn. symmetry. apply delete_id.
    rewrite <-Htab. by apply table_none.
Qed.

Lemma event_ok l tr s xs ev : linv l tr s xs → Z.of_nat (length tr) < 2 ^ 63 - 1 → enabled ev s →
  ∃ s' xs', run_event l ev s = Some s' ∧ linv l (tr ++ [ev]) s' xs'.
Proof.
  intros Hi Hlen. destruct ev; intros Hen.
  - destruct (rlock_ok _ _ _ _ _ _ Hi Hen) as (s' & ? & ?). by exists s', xs.
  - destruct (ask_ok _ _ _ _ _ _ _ Hi Hen) as (s' & ? & ?). by exists s', xs.
  - destruct (end_ok _ _ _ _ _ Hi Hen) as (s' & ? & ?). by exists s', xs.
  - by apply (move_ok _ _ _ xs).
  - by apply (add_ok _ _ _ xs).
  - by apply (unset_ok _ _ _ xs).
Qed.

Lemma lruns_inv zero l tr s : lruns zero l tr s → Z.of_nat (length tr) < 2 ^ 63 → ∃ xs, linv l tr s xs.
Proof.
  induction 1 as [h Hnew|tr s ev s' Hr IH Hen Hev]; intros Hlen.
  - destruct (New_spec zero empty_heap ∅ l) as (h' & Hnew' & Hok & Hn & _); [apply empty_heap_ok|done|].
    unfold NewLastActive in Hnew. rewrite Hnew' in Hnew. injection Hnew as <-. exists [].
    rewrite insert_empty in Hok. split; cbn; [done|by rewrite Hn|constructor|done|done].
  - rewrite length_app in Hlen. cbn in Hlen. destruct IH as [xs Hi]; [lia|].
    destruct (event_ok _ _ _ _ _ Hi ltac:(lia) Hen) as (s'' & xs' & Hev' & Hi'). rewrite Hev in Hev'.
    injection Hev' as <-. by exists xs'.
Qed.

(** The calls that wait for the lock or for a resolver to answer. *)
Definition pending (s : lstate) : Prop := ∃ g p, ls_calls s !! g = Some p ∧ match p with LDone _ _ => False | _ => True end.

(** A resolver gives some answer. *)
Definition answering : Prop := ∀ r req, ∃ ans, answers r req ans.

(** Some section of a lookup can always run. *)
Lemma some_enabled l tr s xs : answering → linv l tr s xs → pending s →
  ∃ ev, enabled ev s ∧ match ev with EvAsk _ _ _ | EvEnd _ | EvMove _ => True | _ => False end.
Proof.
  intros Ha Hi (g & p & Hg & Hp). destruct (decide (noReaders s)) as [Hnr|Hr].
  - destruct p as [req e|req a res|]; [by specialize (Hnr _ _ Hg)| |done]. exists (EvMove g). cbn. eauto 6.
  - unfold noReaders in Hr. rewrite map_not_Forall in Hr by apply _. destruct Hr as (g' & p' & Hg' & Hp').
    destruct p' as [req [a|]| |]; try done; [|exists (EvEnd g'); cbn; eauto].
    destruct (li_calls _ _ _ _ Hi g' _ Hg') as (p1 & p2 & Hxs & He & _). destruct p2 as [|x p2]; [done|]. injection He as ->.
    assert (({[ l := xs ]} : gmap nat (list nat)) !! l = Some (p1 ++ x :: p2)) as Hl by (rewrite <-Hxs; apply singleton_list).
    destruct (elem_load _ _ _ _ _ _ (li_list _ _ _ _ Hi) Hl) as (_ & _ & e & He & _).
    destruct (Ha (la_resolver (e_value e)) req) as [ans Hans].
    exists (EvAsk g' (e_value e) ans). split; [|done]. exists req, (Elem x). split_and!; try done. by apply load_val.
Qed.

(** C12: Goroutines that share a last-active resolver, in every interleaving of their
    sections: no section that the lock admits panics, also when the element that a
    lookup is about to move has been removed meanwhile; the list holds every registered
    resolver exactly once under its tag, moved or not; a lookup that returns an answer
    asked a resolver for it that was registered at that moment, and one that fails had, when
    it ended, asked every resolver registered then and none had an answer; and as
    long as a lookup has not returned some lookup can go on. *)
Theorem last_active_shared zero l tr s :
  lruns zero l tr s → Z.of_nat (length tr) < 2 ^ 63 - 1 →
  (∀ ev, enabled ev s → ∃ s', run_event l ev s = Some s') ∧
  (∃ xs, lists_ok (ls_heap s) {[ l := xs ]} ∧ NoDup (tag <$> order (ls_heap s) xs) ∧
     ∀ t r, mkLA t r ∈ order (ls_heap s) xs ↔ registry tr !! t = Some r) ∧
  (∀ g req res, ls_calls s !! g = Some (LDone req (inr res)) → answered tr g req res) ∧
  (∀ g req e, ls_calls s !! g = Some (LDone req (inl e)) → e = ErrDNSNoResponse ∧ unanswered tr g) ∧
  (answering → pending s →
     ∃ ev, enabled ev s ∧ match ev with EvAsk _ _ _ | EvEnd _ | EvMove _ => True | _ => False end).
Proof.
  intros Hr Hlen. destruct (lruns_inv _ _ _ _ Hr ltac:(lia)) as [xs Hi]. split_and!.
  - intros ev Hen. destruct (event_ok _ _ _ _ _ Hi Hlen Hen) as (s' & _ & ? & _). eauto.
  - exists xs. split_and!; [apply (li_list _ _ _ _ Hi)|apply (li_tags _ _ _ _ Hi)|]. intros t r.
    rewrite <-(li_table _ _ _ _ Hi). split; [|apply table_elem].
    intros Hin. by apply (table_lookup _ (mkLA t r)) in Hin; [|apply (li_tags _ _ _ _ Hi)].
  - intros g req res Hg. by apply (li_calls _ _ _ _ Hi) in Hg.
  - intros g req e Hg. by apply (li_calls _ _ _ _ Hi) in Hg.
  - intros Ha Hp. by eapply some_enabled.
Qed.
End shared.

(** ** A concrete run: the resolver that answered is removed before it is moved *)
Definition asked (r : nat) (req : Request) (ans : derr + Response) : Prop := ans = silent r req 0.
Definition race_req : Request := mkRequest [97] 1 false.
Definition race_answer : Response := mkResponse true [[8]] 0 false.
Definition race : list (levent (R := nat)) :=
  [EvAdd [97] 7%nat true; EvAdd [98] 8%nat true; EvRLock 0 race_req;
   EvAsk 0 (mkLA [97] 7%nat) (inl ErrDNSEmptyResponse); EvAsk 0 (mkLA [98] 8%nat) (inr race_answer);
   EvUnset [98]; EvMove 0].
Definition race_new : lstate (R := nat) :=
  match NewLastActive (mkLA [] 0%nat) 0 empty_heap with Some (_, h) => mkLS h ∅ | None => mkLS empty_heap ∅ end.
Definition race_at (n : nat) : lstate :=
  default race_new (foldl (λ o ev, o ≫= run_event 0 ev) (Some race_new) (take n race)).

Ltac decided := refine (bool_decide_eq_true_1 _ _); vm_compute; reflexivity.
Ltac race_step n ev := refine (lruns_step asked _ 0 (take n race) (race_at n) ev (race_at (S n)) _ _ _); [| |vm_compute; reflexivity].
Lemma race_runs : lruns asked (mkLA [] 0%nat) 0 race (race_at 7).
Proof.
  race_step 6%nat (EvMove (R := nat) 0).
  2: { split; [decided|]. exists race_req, (Elem 1), race_answer. vm_compute. reflexivity. }
  race_step 5%nat (EvUnset (R := nat) [98]); [|decided].
  race_step 4%nat (EvAsk 0 (mkLA [98] 8%nat) (inr race_answer)).
  2: { exists race_req, (Elem 1). split_and!; vm_compute; reflexivity. }
  race_step 3%nat (EvAsk 0 (mkLA [97] 7%nat) (inl ErrDNSEmptyResponse)).
  2: { exists race_req, (Elem 0). split_and!; vm_compute; reflexivity. }
  race_step 2%nat (EvRLock (R := nat) 0 race_req); [|vm_compute; reflexivity].
  race_step 1%nat (EvAdd [98] 8%nat true); [|decided].
  race_step 0%nat (EvAdd [97] 7%nat true); [|decided].
  apply lruns_new. vm_compute. reflexivity.
Qed.

Lemma last_active_shared_witness :
  ls_calls (race_at 7) !! 0%nat = Some (LDone race_req (inr race_answer)) ∧ answered asked race 0 race_req race_answer ∧
  registry race = {[ [97] := 7%nat ]}.
Proof.
  destruct (last_active_shared asked _ 0 race _ race_runs ltac:(vm_compute; reflexivity)) as (_ & _ & H & _).
  split; [vm_compute; reflexivity|]. split; [apply (H 0%nat); vm_compute; reflexivity|vm_compute; reflexivity].
Defined.
