(* ===== verification/DNSCached.v ===== *)
(** * xdns/client: the caching resolver

    Models [src/xdns/client/cached.go] with the operations of [TTLMap]; the section [shared] has the
    lookups of several goroutines, interleaved. *)
From S2P Require Import Prelude TTLMap DNSPriority.

Local Open Scope Z_scope.

Section cached.
(** The nested resolver: its state, and what a lookup does to it and answers. *)
Context {R : Type} (lookup : R → Request → time → R * (derr + Response)).

Definition cacheKey := (bytes * Z)%type.

Record CachedResolver := mkCached {
  cache : TTLMap.TTLMap cacheKey Response; nestedResolver : R; minTtl : Z; maxTtl : Z; keepTime : Z }.

Definition with_cache (r : CachedResolver) (c : TTLMap.TTLMap cacheKey Response) : CachedResolver :=
  mkCached c (nestedResolver r) (minTtl r) (maxTtl r) (keepTime r).

Definition NewCachedResolver (nested : R) (maxSize mint maxt keep : Z) (now : time) : CachedResolver :=
  mkCached (TTLMap.New maxSize now) nested mint maxt keep.

Definition WithMaxSize (value : Z) (r : CachedResolver) : option CachedResolver :=
  c ← TTLMap.Resize value (cache r); Some (with_cache r c).
Definition WithMinTtl (value : Z) (r : CachedResolver) : CachedResolver :=
  mkCached (cache r) (nestedResolver r) value (maxTtl r) (keepTime r).
Definition WithMaxTtl (value : Z) (r : CachedResolver) : CachedResolver :=
  mkCached (cache r) (nestedResolver r) (minTtl r) value (keepTime r).
Definition WithKeepTime (value : Z) (r : CachedResolver) : CachedResolver :=
  mkCached (cache r) (nestedResolver r) (minTtl r) (maxTtl r) value.

(** The stored copy of a result and the deadline of its entry. *)
Definition clampExpiry (r : CachedResolver) (now : time) (res : Response) : Response * time :=
  let res := Clone res in
  if IsZero (Expires res) then (res, time_zero)
  else
    let ttl := Sub (Expires res) now in
    let set_expires res t := mkResponse (Exists res) (Addresses res) t (ProtectionRequired res) in
    let res := if ttl <? minTtl r then set_expires res (now + minTtl r) else res in
    let res := if maxTtl r <? ttl then set_expires res (now + maxTtl r) else res in
    (res, now + keepTime r).

Definition cacheResult (key : cacheKey) (res : Response) (now : time) (r : CachedResolver) : option CachedResolver :=
  let '(res, deadline) := clampExpiry r now res in
  p ← TTLMap.Set_ key res deadline now now (cache r);
  Some (with_cache r p.1).

Definition Preset (dom : bytes) (qt : Z) (response : option Response) (now : time) (r : CachedResolver) : option CachedResolver :=
  match response with
  | None => Some (with_cache r (TTLMap.Delete (dom, qt) now now (cache r)).1)
  | Some res => cacheResult (dom, qt) res now r
  end.

(** [now] stands for every reading of the clock during the call.  Never an error:
    when the nested lookup fails, the cached value is returned, or the zero value
    if there is none. *)
Definition Cached_Lookup (req : Request) (now : time) (r : CachedResolver) : option (CachedResolver * Response) :=
  let key : cacheKey := (Domain req, QueryType req) in
  let '(c, hit) := TTLMap.Get key now (cache r) in
  let r := with_cache r c in
  let cachedResult := default zeroResponse hit in
  if bool_decide (is_Some hit) && negb (Expired cachedResult now) then Some (r, cachedResult)
  else
    let '(nested, answer) := lookup (nestedResolver r) req now in
    let r := mkCached (cache r) nested (minTtl r) (maxTtl r) (keepTime r) in
    match answer with
    | inl _ => Some (r, cachedResult)
    | inr res => r ← cacheResult key res now r; Some (r, res)
    end.
End cached.

(** * xdns/client: what the caching resolver guarantees *)
From S2P Require Import Prelude Ring TTLMap TTLMapSpec TTLMapProps DNSPriority.

Local Open Scope Z_scope.

Section props.
Context {R : Type} (lookup : R → Request → time → R * (derr + Response)).
Implicit Types (r : CachedResolver (R := R)) (es : list (cacheKey * Response * time)) (xs : list nat).

Definition keyOfReq (req : Request) : cacheKey := (Domain req, QueryType req).

(** The cache of [r] is well formed and holds the entries [es]. *)
Definition caches r es : Prop := ∃ xs, ttl_inv (cache r) xs ∧ view (cache r) xs = es.

(** The parts that lookups leave alone. *)
Definition same_config r r' : Prop :=
  minTtl r' = minTtl r ∧ maxTtl r' = maxTtl r ∧ keepTime r' = keepTime r ∧ maxSize (cache r') = maxSize (cache r).

Lemma cacheResult_spec r es key res now :
  caches r es →
  ∃ r', cacheResult key res now r = Some r' ∧ same_config r r' ∧ nestedResolver r' = nestedResolver r ∧
    caches r' (aset key (clampExpiry r now res).1 (clampExpiry r now res).2 (maxSize (cache r)) es).
Proof.
  intros (xs & Hinv & <-). unfold cacheResult. destruct (clampExpiry r now res) as [res' d]. cbn [fst snd].
  destruct (set_refined (cache r) key res' d now now xs Hinv) as (s & ys & v & Hrun & Hinv' & Hm & Hv);
    [by destruct Hinv as (_ & ? & _)|].
  cbn in Hrun, Hv, Hm. destruct (Set_ key res' d now now (cache r)) as [[s' b]|]; [|done].
  cbn in Hrun. injection Hrun as -> <-. injection Hv as Hv. cbn. eexists. split; [done|].
  split_and!; try done. by exists ys.
Qed.

Lemma cache_get r es key now :
  caches r es →
  ∃ s, TTLMap.Get key now (cache r) = (s, (aget key now es).2) ∧ maxSize s = maxSize (cache r) ∧
    caches (with_cache r s) (aget key now es).1.
Proof.
  intros (xs & Hinv & <-). destruct (get_refined (cache r) key now xs Hinv) as (s & ys & v & Hrun & Hinv' & Hm & Hv);
    [by destruct Hinv as (_ & ? & _)|].
  cbn in Hrun, Hm, Hv. injection Hrun as Hrun. exists s. rewrite Hrun, <-Hv. cbn. split_and!; [done..|]. by exists ys.
Qed.

(** What a lookup answers: a cached value that has not expired, else what the
    nested resolver answers, else the expired value, else the zero response. *)
Definition answer r es (req : Request) (now : time) : R * Response :=
  let hit := (aget (keyOfReq req) now es).2 in
  match hit with
  | Some v => if Expired v now then
                match lookup (nestedResolver r) req now with (n, inl _) => (n, v) | (n, inr w) => (n, w) end
              else (nestedResolver r, v)
  | None => match lookup (nestedResolver r) req now with (n, inl _) => (n, zeroResponse) | (n, inr w) => (n, w) end
  end.

(** The entries after a lookup. *)
Definition recached r es (req : Request) (now : time) : list (cacheKey * Response * time) :=
  let '(es', hit) := aget (keyOfReq req) now es in
  if match hit with Some v => negb (Expired v now) | None => false end then es' else
  match (lookup (nestedResolver r) req now).2 with
  | inl _ => es'
  | inr w => aset (keyOfReq req) (clampExpiry r now w).1 (clampExpiry r now w).2 (maxSize (cache r)) es'
  end.

(** The part of [Lookup] after a miss or an expired hit, on the cache [s]. *)
Definition ask (req : Request) (now : time) (old : Response) r : option (CachedResolver * Response) :=
  let '(nested, answer) := lookup (nestedResolver r) req now in
  let r := mkCached (cache r) nested (minTtl r) (maxTtl r) (keepTime r) in
  match answer with
  | inl _ => Some (r, old)
  | inr res => r ← cacheResult (keyOfReq req) res now r; Some (r, res)
  end.

Lemma ask_spec r es req now old :
  caches r es →
  ∃ r', ask req now old r = Some (r', match (lookup (nestedResolver r) req now).2 with inl _ => old | inr w => w end) ∧
    nestedResolver r' = (lookup (nestedResolver r) req now).1 ∧ same_config r r' ∧
    caches r' (match (lookup (nestedResolver r) req now).2 with
      | inl _ => es
      | inr w => aset (keyOfReq req) (clampExpiry r now w).1 (clampExpiry r now w).2 (maxSize (cache r)) es
      end).
Proof.
  intros Hc. unfold ask. destruct (lookup (nestedResolver r) req now) as [n [e|w]]; cbn [fst snd].
  - eexists. by split_and!.
  - set (r1 := mkCached _ n _ _ _).
    destruct (cacheResult_spec r1 es (keyOfReq req) w now) as (r' & -> & Hs & Hn & Hc2); [done|].
    exists r'. by split_and!.
Qed.

Lemma lookup_spec r es req now :
  caches r es →
  ∃ r', Cached_Lookup lookup req now r = Some (r', (answer r es req now).2) ∧
    nestedResolver r' = (answer r es req now).1 ∧ same_config r r' ∧ caches r' (recached r es req now).
Proof.
  intros Hc. destruct (cache_get r es (keyOfReq req) now Hc) as (s & Hg & Hm & Hc').
  unfold Cached_Lookup, answer, recached. cbv zeta. change (Domain req, QueryType req) with (keyOfReq req). rewrite Hg.
  destruct (aget (keyOfReq req) now es) as [es' hit]. cbn [fst snd] in *.
  assert (∀ old, ∃ r', ask req now old (with_cache r s) =
    Some (r', match (lookup (nestedResolver r) req now).2 with inl _ => old | inr w => w end) ∧
    nestedResolver r' = (lookup (nestedResolver r) req now).1 ∧ same_config r r' ∧
    caches r' (match (lookup (nestedResolver r) req now).2 with
      | inl _ => es'
      | inr w => aset (keyOfReq req) (clampExpiry r now w).1 (clampExpiry r now w).2 (maxSize (cache r)) es'
      end)) as Hask.
  { intros old. destruct (ask_spec (with_cache r s) es' req now old Hc') as (r' & E & Hn & Hs & Hc2).
    cbn [cache with_cache] in Hc2. rewrite Hm in Hc2. exists r'. split_and!; try done.
    unfold same_config in *. cbn in *. naive_solver congruence. }
  destruct hit as [v|].
  - rewrite bool_decide_eq_true_2 by done. cbn [default from_option id andb]. unfold id. destruct (Expired v now); cbn [negb].
    + specialize (Hask v). unfold ask in Hask. cbn [nestedResolver with_cache] in *.
      by destruct (lookup (nestedResolver r) req now) as [n [e|w]].
    + eexists. by split_and!.
  - rewrite bool_decide_eq_false_2 by (by intros []). cbn [default from_option id andb].
    specialize (Hask zeroResponse). unfold ask in Hask. cbn [nestedResolver with_cache] in *.
    by destruct (lookup (nestedResolver r) req now) as [n [e|w]].
Qed.

Lemma afind_aset (key : cacheKey) (v : Response) d max es : afind key (aset key v d max es) = Some (key, v, d).
Proof. unfold aset. case_match; unfold afind; by rewrite filter_cons_True. Qed.

Lemma clamp_range r now res :
  let e := Expires (clampExpiry r now res).1 in
  Expires res ≠ 0 → 0 ≤ minTtl r ≤ maxTtl r → maxTtl r < 2 ^ 63 - 1 →
  now + minTtl r ≤ e ≤ now + maxTtl r ∧ (minTtl r ≤ Expires res - now ≤ maxTtl r → e = Expires res).
Proof.
  intros e He Hm Hx. unfold e, clampExpiry, IsZero. cbn [Expires Clone]. rewrite (proj2 (Z.eqb_neq _ _) He). cbv zeta.
  unfold Sub. destruct (Z.ltb_spec (Z.max (- 2 ^ 63) (Z.min (2 ^ 63 - 1) (Expires res - now))) (minTtl r));
  destruct (Z.ltb_spec (maxTtl r) (Z.max (- 2 ^ 63) (Z.min (2 ^ 63 - 1) (Expires res - now))));
    cbn [fst Expires Clone]; lia.
Qed.

(** A cached resolver always answers without an error: with the cached value
    while it has not expired (the nested resolver is not asked), else with what the
    nested resolver answers, which is cached, else with the expired value, else with
    a zero response.  Its cache stays well formed and bounded. *)
Theorem cached_lookup r es req now :
  caches r es →
  ∃ r', Cached_Lookup lookup req now r = Some (r', (answer r es req now).2) ∧
    nestedResolver r' = (answer r es req now).1 ∧ same_config r r' ∧ caches r' (recached r es req now).
Proof. apply lookup_spec. Qed.

(** C34: an answer that had to be fetched at [now] is served from the cache until the
    clamped expiry: the expiry lies between [minTtl] and [maxTtl] from [now], and any
    lookup of the same name up to it returns the stored copy and does not ask the
    nested resolver (if the entry is kept at least that long). *)
Theorem cached_until_expiry r es req now t w :
  caches r es → (aget (keyOfReq req) now es).2 = None → (lookup (nestedResolver r) req now).2 = inr w →
  Expires w ≠ 0 → 0 < now → 0 ≤ minTtl r ≤ maxTtl r → maxTtl r ≤ keepTime r → maxTtl r < 2 ^ 63 - 1 →
  let stored := (clampExpiry r now w).1 in
  now ≤ t ≤ Expires stored →
  Addresses stored = Addresses w ∧ now + minTtl r ≤ Expires stored ≤ now + maxTtl r ∧
  ∃ r1 r2, Cached_Lookup lookup req now r = Some (r1, w) ∧
    Cached_Lookup lookup req t r1 = Some (r2, stored) ∧ nestedResolver r2 = nestedResolver r1.
Proof.
  intros Hc Hmiss Hw He Hnow Hm Hk Hx stored Ht.
  destruct (clamp_range r now w He Hm Hx) as [Hr _]. fold stored in Hr.
  split; [|split; [done|]].
  { unfold stored, clampExpiry. by repeat case_match. }
  destruct (lookup_spec r es req now Hc) as (r1 & E1 & N1 & S1 & C1). exists r1.
  unfold answer, recached in *. destruct (aget (keyOfReq req) now es) as [es' hit]. cbn [fst snd] in *. subst hit.
  rewrite Hw in C1. fold stored in C1. set (d := (clampExpiry r now w).2) in *.
  destruct (lookup_spec r1 _ req t C1) as (r2 & E2 & N2 & _ & _). exists r2.
  assert (aget (keyOfReq req) t (aset (keyOfReq req) stored d (maxSize (cache r)) es') =
    ((keyOfReq req, stored, d) :: adel (keyOfReq req) (aset (keyOfReq req) stored d (maxSize (cache r)) es'), Some stored)) as Hg.
  { unfold aget. rewrite afind_aset. assert (d = now + keepTime r) as Hd.
    { unfold d, clampExpiry, IsZero. cbn [Expires Clone]. by rewrite (proj2 (Z.eqb_neq _ _) He). }
    unfold dead, IsZero, After. cbn [snd]. rewrite Hd.
    rewrite (proj2 (Z.eqb_neq _ _)), (proj2 (Z.ltb_ge _ _)) by lia. done. }
  assert (Expired stored t = false) as Hx'.
  { unfold Expired, IsZero, After. rewrite (proj2 (Z.eqb_neq _ _)), (proj2 (Z.ltb_ge _ _)) by lia. done. }
  unfold answer in E2, N2. rewrite Hg in E2, N2. cbn [snd] in E2, N2. rewrite Hx' in E2, N2.
  split_and!; [|done..]. destruct (lookup (nestedResolver r) req now) as [n [?|?]]; cbn in *; congruence.
Qed.
End props.

(** ** Concrete runs *)
Definition answer60 : Response := mkResponse true [[1; 1; 1; 1]] (1000 * 10 ^ 9 + 1) false.
Definition asked (n : nat) (req : Request) (now : time) : nat * (derr + Response) := (S n, inr answer60).
Definition refused (n : nat) (req : Request) (now : time) : nat * (derr + Response) := (S n, inl ErrDNSNoResponse).
Definition fresh_resolver : CachedResolver (R := nat) :=
  NewCachedResolver 0%nat 1024 (60 * 10 ^ 9) (3600 * 10 ^ 9) (86400 * 10 ^ 9) (999 * 10 ^ 9).
Definition example_req : Request := mkRequest [97] 1 false.

Lemma fresh_caches : caches fresh_resolver [].
Proof. exists []. split; [by apply New_inv|done]. Qed.

Lemma cached_lookup_witness :
  ∃ r', Cached_Lookup asked example_req (1000 * 10 ^ 9) fresh_resolver = Some (r', answer60) ∧ nestedResolver r' = 1%nat.
Proof.
  destruct (cached_lookup asked fresh_resolver [] example_req (1000 * 10 ^ 9) fresh_caches) as (r' & E & N & _).
  exists r'. split; [exact E|exact N].
Defined.

Lemma cached_until_expiry_witness :
  ∃ r1 r2, Cached_Lookup asked example_req (1000 * 10 ^ 9) fresh_resolver = Some (r1, answer60) ∧
    Cached_Lookup asked example_req (1059 * 10 ^ 9) r1 = Some (r2, mkResponse true [[1; 1; 1; 1]] (1060 * 10 ^ 9) false) ∧
    nestedResolver r2 = nestedResolver r1.
Proof.
  destruct (cached_until_expiry asked fresh_resolver [] example_req (1000 * 10 ^ 9) (1059 * 10 ^ 9) answer60 fresh_caches)
    as (_ & _ & r1 & r2 & E1 & E2 & N); [vm_compute; (reflexivity || lia || intuition discriminate)..|].
  exists r1, r2. split_and!; [exact E1| |exact N]. rewrite E2. reflexivity.
Defined.

(** When the nested resolver fails and nothing is cached, the caller gets a
    response without an error: it says that the name does not exist and has no
    addresses. *)
Example cached_hides_errors :
  match Cached_Lookup refused example_req (1000 * 10 ^ 9) fresh_resolver with
  | Some (r', res) => res = zeroResponse ∧ Successful (Some res) = false ∧ nestedResolver r' = 1%nat
  | None => False
  end.
Proof. vm_compute. done. Qed.

(** * Lookups that share a cache

    The sections of concurrent lookups, presets, resizes and cleanups as events: [Get] is
    the three or four sections of [TTLMap], the nested resolver is a relation between requests and
    answers.  [Set] and [Resize] may have to evict entries, and hold the map's lock while
    they do: every round of the eviction loop is an event, and the sections that take
    the lock wait meanwhile. *)
Section shared.
Context (answers : Request → derr + Response → Prop) (presets : cacheKey → Response → Prop).
Local Abbreviation resolver := (CachedResolver (R := unit)).
Local Abbreviation ttlmap := (TTLMap.TTLMap cacheKey Response).
Implicit Types (r : resolver).

(** Where a lookup is: the node is found; it has expired and is to be dropped; it is to
    be promoted; its value is to be read; the nested resolver is to be asked, with the
    expired value, if any; its answer is to be stored; entries are evicted for it; returned. *)
Inductive cphase :=
  | CFound (req : Request) (x : nat) | CStale (req : Request) (now : time) | CLive (req : Request) (x : nat)
  | CPromoted (req : Request) (x : nat) | CMissed (req : Request) (cachedResult : Response)
  | CFetched (req : Request) (res : Response) | CStoring (req : Request) (res : Response) | CDone (req : Request) (res : Response).

(** What the lock is held for, if it is held between two events: storing an entry, for a
    lookup or for a preset, or resizing. *)
Inductive ctask :=
  | TStore (owner : option nat) (key : cacheKey) (v : Response) (deadline now : time)
  | TResize (value : Z).

Record cstate := mkCS { cs_resolver : resolver; cs_calls : gmap nat cphase; cs_lock : option ctask }.

Definition locked (st : cstate) : bool := bool_decide (is_Some (cs_lock st)).
Definition needs_lock (ph : cphase) : bool := match ph with CStale _ _ | CLive _ _ | CFetched _ _ => true | _ => false end.

(** The call that stored its answer returns it. *)
Definition stored_for (owner : option nat) (calls : gmap nat cphase) : gmap nat cphase :=
  match owner with
  | Some g => match calls !! g with Some (CStoring req res) => <[g := CDone req res]> calls | _ => calls end
  | None => calls
  end.

(** [cacheResult] up to the eviction loop of [Set]: an entry that is there is replaced. *)
Definition cstore (owner : option nat) (key : cacheKey) (res : Response) (now : time) (st : cstate) : cstate :=
  let r := cs_resolver st in
  let '(v, d) := clampExpiry r now res in
  match items (cache r) !! key with
  | Some x => mkCS (with_cache r (moveToFront x (set_item x v d (cache r)))) (stored_for owner (cs_calls st)) None
  | None => mkCS r (cs_calls st) (Some (TStore owner key v d now))
  end.

(** One round of the loop that holds the lock, or what comes after it. *)
Definition cround (t : ctask) (st : cstate) : cstate :=
  let r := cs_resolver st in
  let evicted := mkCS (with_cache r (removeOldest (cache r))) (cs_calls st) (Some t) in
  match t with
  | TStore owner key v d now =>
      if maxSize (cache r) - 1 <? len (cache r) then evicted
      else mkCS (with_cache r (insertNew key v d now now (cache r)).1) (stored_for owner (cs_calls st)) None
  | TResize value =>
      if value <? len (cache r) then evicted
      else mkCS (with_cache r (set_maxSize value (cache r))) (cs_calls st) None
  end.

Definition cput (g : nat) (ph : cphase) (st : cstate) : cstate := mkCS (cs_resolver st) (<[g := ph]> (cs_calls st)) (cs_lock st).
Definition con_cache (c : ttlmap) (st : cstate) : cstate := mkCS (with_cache (cs_resolver st) c) (cs_calls st) (cs_lock st).

(** The next section of a lookup at a time; the nested resolver's answer is [CvAnswer]. *)
Definition cnext (g : nat) (ph : cphase) (now : time) (st : cstate) : option cstate :=
  let c := cache (cs_resolver st) in
  match ph with
  | CFound req x => Some (cput g (if get_expired x now c then CStale req now else CLive req x) st)
  | CStale req now => Some (cput g (CMissed req zeroResponse) (con_cache (dropExpired (keyOfReq req) now c) st))
  | CLive req x => Some (cput g (CPromoted req x) (con_cache (moveToFront x c) st))
  | CPromoted req x =>
      cachedResult ← get_value x c;
      Some (cput g (if negb (Expired cachedResult now) then CDone req cachedResult else CMissed req cachedResult) st)
  | CFetched req res => Some (cstore (Some g) (keyOfReq req) res now (cput g (CStoring req res) st))
  | CMissed _ _ | CStoring _ _ | CDone _ _ => None
  end.

Inductive cevent :=
  | CvLookup (g : nat) (req : Request) | CvNext (g : nat) (now : time) | CvAnswer (g : nat) (ans : derr + Response)
  | CvPreset (dom : bytes) (qt : Z) (response : option Response) (now : time)
  | CvResize (value : Z) | CvSweep (keys : list cacheKey) (now : time) | CvCleaned | CvRound.

Definition cunlocked (st : cstate) (x : option cstate) : option cstate := if locked st then None else x.

Definition crun (ev : cevent) (st : cstate) : option cstate :=
  let c := cache (cs_resolver st) in
  match ev with
  | CvLookup g req =>
      cunlocked st (Some (cput g (match get_lookup (keyOfReq req) c with Some x => CFound req x | None => CMissed req zeroResponse end) st))
  | CvNext g now => ph ← cs_calls st !! g; if needs_lock ph then cunlocked st (cnext g ph now st) else cnext g ph now st
  | CvAnswer g ans =>
      ph ← cs_calls st !! g;
      match ph with
      | CMissed req cachedResult => Some (cput g (match ans with inl _ => CDone req cachedResult | inr res => CFetched req res end) st)
      | _ => None
      end
  | CvPreset dom qt None now => cunlocked st (Some (con_cache (Delete (dom, qt) now now c).1 st))
  | CvPreset dom qt (Some res) now => cunlocked st (Some (cstore None (dom, qt) res now st))
  | CvResize value =>
      cunlocked st (Some (if value <? maxSize c then mkCS (cs_resolver st) (cs_calls st) (Some (TResize value))
                          else con_cache (set_maxSize value c) st))
  | CvSweep keys now => cunlocked st (Some (con_cache (cleanup_sweep keys now c) st))
  | CvCleaned => cunlocked st (Some (con_cache (cleanup_done c) st))
  | CvRound => t ← cs_lock st; Some (cround t st)
  end.

Fixpoint cruns (evs : list cevent) (st : cstate) : option cstate :=
  match evs with [] => Some st | ev :: evs => st ← crun ev st; cruns evs st end.

Definition cenabled (ev : cevent) (st : cstate) : Prop :=
  match ev with
  | CvLookup g _ => cs_calls st !! g = None
  | CvAnswer g ans => ∃ req old, cs_calls st !! g = Some (CMissed req old) ∧ answers req ans
  | CvPreset dom qt (Some res) _ => presets (dom, qt) res
  | _ => True
  end.

Inductive creach (r0 : resolver) : cstate → Prop :=
  | creach_init : creach r0 (mkCS r0 ∅ None)
  | creach_step st ev st' : creach r0 st → cenabled ev st → crun ev st = Some st' → creach r0 st'.

(** ** A lookup on its own is [Cached_Lookup] *)

Lemma cruns_app evs1 evs2 st st1 : cruns evs1 st = Some st1 → cruns (evs1 ++ evs2) st = cruns evs2 st1.
Proof.
  revert st. induction evs1 as [|ev evs1 IH]; intros st; cbn [cruns app]; [by intros [= ->]|].
  destruct (crun ev st) as [st'|]; cbn [mbind option_bind]; [apply IH|done].
Qed.

Lemma oldest_max (c : ttlmap) : maxSize (removeOldest c) = maxSize c.
Proof. unfold removeOldest, drop, removeNode. destruct (s_tail _); [|done]. destruct (heap _ !! _); [|done]. by repeat case_match. Qed.

Lemma evict_rounds owner key v d now fuel : ∀ r calls c', evict fuel (maxSize (cache r) - 1) (cache r) = Some c' →
  ∃ n, cruns (replicate n CvRound) (mkCS r calls (Some (TStore owner key v d now))) =
    Some (mkCS (with_cache r (insertNew key v d now now c').1) (stored_for owner calls) None).
Proof.
  induction fuel as [|fuel IH]; intros r calls c'; cbn [evict]; destruct (_ <? _) eqn:E; try done.
  1,3: intros [= <-]; exists 1%nat; cbn [replicate cruns crun cs_lock mbind option_bind cround cs_resolver cs_calls]; by rewrite E.
  intros He.
  destruct (IH (with_cache r (removeOldest (cache r))) calls c') as [n Hn]; [by cbn [with_cache cache]; rewrite oldest_max|].
  exists (S n). cbn [replicate cruns crun cs_lock mbind option_bind cround cs_resolver cs_calls]. by rewrite E.
Qed.

Lemma cacheResult_run owner key res now r calls r' : cacheResult key res now r = Some r' →
  ∃ n, cruns (replicate n CvRound) (cstore owner key res now (mkCS r calls None)) = Some (mkCS r' (stored_for owner calls) None).
Proof.
  unfold cacheResult, cstore, Set_. cbn [cs_resolver cs_calls]. destruct (clampExpiry r now res) as [v d].
  destruct (items (cache r) !! key) as [x|]; cbn [mbind option_bind fst]; [intros [= <-]; by exists 0%nat|].
  destruct (evict _ _ (cache r)) as [c'|] eqn:E; cbn [mbind option_bind fst]; [|done]. intros [= <-]. by eapply evict_rounds.
Qed.

Lemma unlocked_none st x : cs_lock st = None → cunlocked st x = x.
Proof. intros E. unfold cunlocked, locked. rewrite E. by rewrite bool_decide_eq_false_2 by (by intros []). Qed.

(** A section of the only lookup. *)
Lemma alone_next r g ph now st evs : cnext g ph now (mkCS r {[ g := ph ]} None) = Some st →
  cruns (CvNext g now :: evs) (mkCS r {[ g := ph ]} None) = cruns evs st.
Proof.
  intros E. cbn [cruns crun cs_calls]. rewrite lookup_singleton_eq. cbn [mbind option_bind]. rewrite unlocked_none by done.
  rewrite E. by destruct (needs_lock ph).
Qed.

Lemma alone_answer r g req old ans evs : cruns (CvAnswer g ans :: evs) (mkCS r {[ g := CMissed req old ]} None) =
  cruns evs (mkCS r {[ g := match ans with inl _ => CDone req old | inr res => CFetched req res end ]} None).
Proof.
  cbn [cruns]. replace (crun (CvAnswer g ans) (mkCS r {[ g := CMissed req old ]} None))
    with (Some (mkCS r {[ g := match ans with inl _ => CDone req old | inr res => CFetched req res end ]} None)); [done|].
  cbn [crun cs_calls]. rewrite lookup_singleton_eq. cbn [mbind option_bind]. unfold cput. cbn [cs_resolver cs_calls cs_lock].
  by rewrite insert_singleton_eq.
Qed.

(** What is left after [Get]: ask, and store. *)
Lemma missed_run g req old now (ans : derr + Response) r r' res :
  match ans with inl _ => Some (r, old) | inr res => r ← cacheResult (keyOfReq req) res now r; Some (r, res) end = Some (r', res) →
  ∃ evs, cruns evs (mkCS r {[ g := CMissed req old ]} None) = Some (mkCS r' {[ g := CDone req res ]} None).
Proof.
  destruct ans as [e|ans]; [intros [= <- <-]; exists [CvAnswer g (inl e)]; by rewrite alone_answer|].
  destruct (cacheResult (keyOfReq req) ans now r) as [r1|] eqn:E; cbn [mbind option_bind]; [|done]. intros [= <- <-].
  destruct (cacheResult_run (Some g) (keyOfReq req) ans now r {[ g := CStoring req ans ]} r1 E) as [n Hn].
  exists (CvAnswer g (inr ans) :: CvNext g now :: replicate n CvRound). rewrite alone_answer.
  erewrite alone_next; [|reflexivity]. unfold cput. cbn [cs_resolver cs_calls cs_lock]. rewrite insert_singleton_eq, Hn.
  cbn [stored_for]. by rewrite lookup_singleton_eq, insert_singleton_eq.
Qed.

Theorem lookup_sequential P g req now ans r r' res : values_of P (cache r) →
  Cached_Lookup (λ u _ _, (u, ans)) req now r = Some (r', res) →
  ∃ evs, cruns evs (mkCS r ∅ None) = Some (mkCS r' {[ g := CDone req res ]} None).
Proof.
  intros Hv. unfold Cached_Lookup, TTLMap.Get. change (Domain req, QueryType req) with (keyOfReq req). cbv zeta.
  assert (∀ q : resolver, mkCached (cache q) (nestedResolver q) (minTtl q) (maxTtl q) (keepTime q) = q) as Heta by (by intros []).
  assert (∀ evs, cruns (CvLookup g req :: evs) (mkCS r ∅ None) = cruns evs (mkCS r {[ g :=
    match get_lookup (keyOfReq req) (cache r) with Some x => CFound req x | None => CMissed req zeroResponse end ]} None)) as Hstart.
  { intros evs. cbn [cruns crun]. by rewrite unlocked_none. }
  destruct (get_lookup (keyOfReq req) (cache r)) as [x|] eqn:Ex.
  - destruct (get_expired x now (cache r)) eqn:Ee.
    + rewrite bool_decide_eq_false_2 by (by intros []). cbn [andb default from_option]. rewrite Heta. intros Hm.
      destruct (missed_run g req zeroResponse now ans _ r' res Hm) as [evs Hevs].
      exists (CvLookup g req :: CvNext g now :: CvNext g now :: evs). rewrite Hstart.
      erewrite alone_next; [|cbn [cnext cs_resolver]; rewrite Ee; reflexivity]. unfold cput. cbn [cs_resolver cs_calls cs_lock].
      rewrite insert_singleton_eq. erewrite alone_next; [|reflexivity]. unfold cput, con_cache. cbn [cs_resolver cs_calls cs_lock].
      by rewrite insert_singleton_eq.
    + assert (node_of (moveToFront x (cache r)) (keyOfReq req) x) as Hn.
      { apply (safe_move P x (cache r) Hv), (vo_item _ _ Hv). exact Ex. }
      destruct (node_value P _ _ _ (proj1 (safe_move P x (cache r) Hv)) Hn) as (v & Hg & _). rewrite Hg.
      rewrite bool_decide_eq_true_2 by done. cbn [andb default from_option id]. unfold id. intros Hm.
      assert (∀ evs, cruns (CvLookup g req :: CvNext g now :: CvNext g now :: CvNext g now :: evs) (mkCS r ∅ None) =
        cruns evs (mkCS (with_cache r (moveToFront x (cache r)))
          {[ g := if negb (Expired v now) then CDone req v else CMissed req v ]} None)) as Hrun.
      { intros evs. rewrite Hstart. erewrite alone_next; [|cbn [cnext cs_resolver]; rewrite Ee; reflexivity].
        unfold cput. cbn [cs_resolver cs_calls cs_lock]. rewrite insert_singleton_eq. erewrite alone_next; [|reflexivity].
        unfold cput, con_cache. cbn [cs_resolver cs_calls cs_lock]. rewrite insert_singleton_eq.
        erewrite alone_next; [|cbn [cnext cs_resolver cache with_cache]; rewrite Hg; reflexivity].
        unfold cput. cbn [cs_resolver cs_calls cs_lock]. by rewrite insert_singleton_eq. }
      destruct (Expired v now); cbn [negb] in Hm, Hrun.
      * rewrite Heta in Hm. destruct (missed_run g req v now ans _ r' res Hm) as [evs Hevs].
        exists (CvLookup g req :: CvNext g now :: CvNext g now :: CvNext g now :: evs). by rewrite Hrun.
      * injection Hm as <- <-. exists [CvLookup g req; CvNext g now; CvNext g now; CvNext g now]. by rewrite Hrun.
  - rewrite bool_decide_eq_false_2 by (by intros []). cbn [andb default from_option]. rewrite Heta. intros Hm.
    destruct (missed_run g req zeroResponse now ans _ r' res Hm) as [evs Hevs]. exists (CvLookup g req :: evs). rewrite Hstart.
    destruct r. exact Hevs.
Qed.

(** ** The invariant *)

(** The answers and presets of a question. *)
Definition source (key : cacheKey) (res : Response) : Prop :=
  (∃ req, keyOfReq req = key ∧ answers req (inr res)) ∨ presets key res.
(** A cached value: a copy of one of them, its expiry clamped. *)
Definition cached_value (r0 : resolver) (key : cacheKey) (v : Response) : Prop :=
  ∃ res now, source key res ∧ v = (clampExpiry r0 now res).1.

(** What a lookup may return. *)
Definition right_answer (r0 : resolver) (req : Request) (res : Response) : Prop :=
  answers req (inr res) ∨ cached_value r0 (keyOfReq req) res ∨ (res = zeroResponse ∧ ∃ e, answers req (inl e)).

Definition cphase_ok (r0 : resolver) (c : ttlmap) (ph : cphase) : Prop :=
  match ph with
  | CFound req x | CLive req x | CPromoted req x => node_of c (keyOfReq req) x
  | CStale _ _ => True
  | CMissed req old => old = zeroResponse ∨ cached_value r0 (keyOfReq req) old
  | CFetched req res | CStoring req res => answers req (inr res)
  | CDone req res => right_answer r0 req res
  end.

Definition task_ok (r0 : resolver) (t : ctask) : Prop :=
  match t with TStore _ key v _ _ => cached_value r0 key v | TResize _ => True end.

Definition same_times (r0 r : resolver) : Prop := minTtl r = minTtl r0 ∧ maxTtl r = maxTtl r0 ∧ keepTime r = keepTime r0.

(** A lookup that waits for its answer to be stored is the one the lock is held for. *)
Definition storing_locked (st : cstate) : Prop := ∀ g req res, cs_calls st !! g = Some (CStoring req res) →
  ∃ key v d now, cs_lock st = Some (TStore (Some g) key v d now).

Record cinv (r0 : resolver) (st : cstate) : Prop := mkCinv {
  ci_times : same_times r0 (cs_resolver st);
  ci_cache : values_of (cached_value r0) (cache (cs_resolver st));
  ci_calls : map_Forall (λ _ ph, cphase_ok r0 (cache (cs_resolver st)) ph) (cs_calls st);
  ci_task t : cs_lock st = Some t → task_ok r0 t;
  ci_storing : storing_locked st }.

Lemma cphase_kept r0 c c' ph : nodes_kept c c' → cphase_ok r0 c ph → cphase_ok r0 c' ph.
Proof. intros Hk. destruct ph; cbn; auto. Qed.

(** A section that changes the cache safely. *)
Lemma cinv_cache r0 st c : cinv r0 st → safe (cached_value r0) (cache (cs_resolver st)) c → cinv r0 (con_cache c st).
Proof.
  intros [H1 H2 H3 H4 H5] Hs. destruct (Hs H2) as [Hv Hk]. split; cbn; try done. intros g ph Hg. by eapply cphase_kept, H3.
Qed.
(** A lookup goes on. *)
Lemma cinv_put r0 st g ph : cinv r0 st →
  match ph with CStoring _ _ => False | _ => True end → cphase_ok r0 (cache (cs_resolver st)) ph → cinv r0 (cput g ph st).
Proof.
  intros [H1 H2 H3 H4 H5] Hns Hp. split; cbn; try done; [by apply map_Forall_insert_2|].
  intros g' req res. cbn. rewrite lookup_insert. case_decide; [by intros [= ->]|apply H5].
Qed.

Lemma clamp_times r0 r now res : same_times r0 r → clampExpiry r now res = clampExpiry r0 now res.
Proof. intros (E1 & E2 & E3). unfold clampExpiry. by rewrite E1, E2, E3. Qed.

(** The owner of the lock is done and gives it up. *)
Lemma cinv_stored r0 r c calls owner : same_times r0 r → values_of (cached_value r0) c →
  map_Forall (λ _ ph, cphase_ok r0 c ph) calls →
  (∀ g req res, calls !! g = Some (CStoring req res) → owner = Some g) →
  cinv r0 (mkCS (with_cache r c) (stored_for owner calls) None).
Proof.
  intros Ht Hv Hc Ho.
  assert (stored_for owner calls = calls ∨ ∃ g req res, owner = Some g ∧ calls !! g = Some (CStoring req res) ∧
    stored_for owner calls = <[g := CDone req res]> calls) as [E|(g & req & res & -> & Hg & E)].
  { unfold stored_for. destruct owner as [g|]; [|by left]. destruct (calls !! g) as [ph|] eqn:Eg; [|by left].
    destruct ph; try (by left). right. by eexists _, _, _. }
  - split; cbn [cs_resolver cs_calls cs_lock with_cache cache]; rewrite ?E; try done.
    intros g req res. cbn [cs_calls]. rewrite ?E. intros Hg. pose proof (Ho _ _ _ Hg) as ->.
    cbn [stored_for] in E. rewrite Hg in E. rewrite <-E, lookup_insert_eq in Hg. done.
  - split; cbn [cs_resolver cs_calls cs_lock with_cache cache]; rewrite ?E; try done.
    + apply map_Forall_insert_2; [|done]. left. apply (Hc _ _ Hg).
    + intros g' req' res'. cbn [cs_calls]. rewrite ?E, lookup_insert. case_decide as Eg; [done|]. intros Hg'. apply Ho in Hg'. by injection Hg' as ->.
Qed.

Lemma cinv_store r0 st owner key res now : cinv r0 st → source key res → cs_lock st = None →
  (∀ g req res, cs_calls st !! g = Some (CStoring req res) → owner = Some g) →
  cinv r0 (cstore owner key res now st).
Proof.
  intros [H1 H2 H3 H4 H5] Hs Hl Ho. unfold cstore. destruct (clampExpiry (cs_resolver st) now res) as [v d] eqn:E.
  assert (cached_value r0 key v) as Hv by (exists res, now; split; [done|]; by rewrite <-(clamp_times r0 (cs_resolver st)), E).
  destruct (items _ !! key) as [x|] eqn:Ei.
  - destruct (safe_replace _ _ v d x _ Hv Ei H2) as [Hv' Hk]. apply cinv_stored; try done.
    intros g ph Hg. by eapply cphase_kept, H3.
  - split; cbn; try done; [by intros t [= <-]|]. intros g req' res' Hg. cbn in *. rewrite (Ho _ _ _ Hg). eauto.
Qed.

Lemma cinv_round r0 st t : cinv r0 st → cs_lock st = Some t → cinv r0 (cround t st).
Proof.
  intros Hi Hl. pose proof Hi as [H1 H2 H3 H4 H5].
  assert (cinv r0 (mkCS (with_cache (cs_resolver st) (removeOldest (cache (cs_resolver st)))) (cs_calls st) (Some t))) as He.
  { rewrite <-Hl. apply (cinv_cache r0 st); [done|apply safe_oldest]. }
  destruct t as [owner key v d now|value]; cbn [cround]; (destruct (_ <? _); [exact He|]).
  - destruct (safe_insert _ key v d now now (cache (cs_resolver st)) (H4 _ Hl) H2) as [Hv Hk]. apply cinv_stored; try done.
    + intros g ph Hg. by eapply cphase_kept, H3.
    + intros g req res Hg. destruct (H5 _ _ _ Hg) as (? & ? & ? & ? & E). rewrite Hl in E. by injection E as ->.
  - pose proof (safe_fields (cached_value r0) (cache (cs_resolver st)) (set_maxSize value (cache (cs_resolver st))) eq_refl eq_refl (reflexivity _)) as Hs.
    destruct (Hs H2) as [Hv Hk]. split; cbn; try done.
    intros g req res Hg. destruct (H5 _ _ _ Hg) as (? & ? & ? & ? & E). by rewrite Hl in E.
Qed.

Lemma unlocked_inv st x st' : cunlocked st x = Some st' → cs_lock st = None ∧ x = Some st'.
Proof. unfold cunlocked, locked. destruct (cs_lock st); [by rewrite bool_decide_eq_true_2|by rewrite bool_decide_eq_false_2 by (by intros [])]. Qed.

Lemma unlocked_storing r0 st g req res : cinv r0 st → cs_lock st = None → cs_calls st !! g ≠ Some (CStoring req res).
Proof. intros Hi Hl Hg. destruct (ci_storing _ _ Hi _ _ _ Hg) as (? & ? & ? & ? & E). by rewrite Hl in E. Qed.

Lemma cnext_ok r0 st g ph now st' : cinv r0 st → cs_calls st !! g = Some ph → (needs_lock ph = true → cs_lock st = None) →
  cnext g ph now st = Some st' → cinv r0 st'.
Proof.
  intros Hi Hg Hl. pose proof (ci_calls _ _ Hi g ph Hg) as Hp. cbn beta in Hp.
  destruct ph as [req x|req t|req x|req x|req old|req res|req res|req res]; cbn [cnext cphase_ok needs_lock] in *; try done.
  - intros [= <-]. apply cinv_put; [done|by destruct (get_expired _ _ _)|by destruct (get_expired _ _ _)].
  - intros [= <-]. apply cinv_put; [apply cinv_cache; [done|apply safe_dropExpired]|done|by left].
  - intros [= <-]. pose proof (safe_move (cached_value r0) x (cache (cs_resolver st))) as Hs.
    apply cinv_put; [by apply cinv_cache|done|]. cbn. by apply (Hs (ci_cache _ _ Hi)).
  - destruct (node_value _ _ _ _ (ci_cache _ _ Hi) Hp) as (v & -> & Hv). cbn [mbind option_bind]. intros [= <-].
    apply cinv_put; [done|by destruct (negb _)|]. destruct (negb (Expired v now)); cbn; [right; by left|by right].
  - intros [= <-]. specialize (Hl eq_refl). destruct Hi as [H1 H2 H3 H4 H5].
    unfold cstore, cput. cbn [cs_resolver cs_calls cs_lock].
    destruct (clampExpiry (cs_resolver st) now res) as [v d] eqn:E.
    assert (cached_value r0 (keyOfReq req) v) as Hv.
    { exists res, now. split; [left; by exists req|]. by rewrite <-(clamp_times r0 (cs_resolver st)), E. }
    assert (∀ g' req' res', <[g := CStoring req res]> (cs_calls st) !! g' = Some (CStoring req' res') → Some g = Some g') as Ho.
    { intros g' req' res'. rewrite lookup_insert. case_decide; [by subst|]. intros Hg'.
      destruct (H5 _ _ _ Hg') as (? & ? & ? & ? & El). by rewrite Hl in El. }
    destruct (items _ !! keyOfReq req) as [x|] eqn:Ei.
    + destruct (safe_replace _ _ v d x _ Hv Ei H2) as [Hv' Hk]. apply cinv_stored; try done.
      apply map_Forall_insert_2; [done|]. intros g' ph Hg'. by eapply cphase_kept, H3.
    + split; cbn; try done; [by apply map_Forall_insert_2|by intros t [= <-]|]. intros g' req' res' Hg'. cbn in *. rewrite <-(Ho _ _ _ Hg'). eauto.
Qed.

Lemma crun_ok r0 st ev st' : cinv r0 st → cenabled ev st → crun ev st = Some st' → cinv r0 st'.
Proof.
  intros Hi Hen. destruct ev as [g req|g now|g ans|dom qt [res|] now|value|keys now| |]; cbn [crun cenabled] in *.
  - intros [Hl [= <-]]%unlocked_inv. apply cinv_put; [done|by destruct (get_lookup _ _)|].
    destruct (get_lookup (keyOfReq req) (cache (cs_resolver st))) as [x|] eqn:E; [|by left]. by apply (vo_item _ _ (ci_cache _ _ Hi)).
  - destruct (cs_calls st !! g) as [ph|] eqn:Hg; cbn [mbind option_bind]; [|done]. destruct (needs_lock ph) eqn:En.
    + intros [Hl Hn]%unlocked_inv. by eapply cnext_ok.
    + intros Hn. eapply cnext_ok; [done|done| |done]. by rewrite En.
  - destruct Hen as (req & old & Hg & Ha). rewrite Hg. cbn [mbind option_bind]. intros [= <-].
    pose proof (ci_calls _ _ Hi g _ Hg) as Hp. cbn in Hp. apply cinv_put; [done|by destruct ans|]. destruct ans as [e|res]; [|done].
    cbn. destruct Hp as [->|Hp]; [right; right; by eauto|right; by left].
  - intros [Hl [= <-]]%unlocked_inv. apply cinv_store; [done|by right|done|]. intros g req res' Hg. by eapply unlocked_storing in Hg.
  - intros [Hl [= <-]]%unlocked_inv. apply cinv_cache; [done|apply safe_delete].
  - intros [Hl [= <-]]%unlocked_inv. destruct (value <? _); [|apply cinv_cache; [done|by apply safe_fields]].
    destruct Hi as [H1 H2 H3 H4 H5]. split; cbn; try done; [by intros t [= <-]|]. intros g req res Hg.
    destruct (H5 _ _ _ Hg) as (? & ? & ? & ? & E). by rewrite Hl in E.
  - intros [Hl [= <-]]%unlocked_inv. apply cinv_cache; [done|apply safe_sweep].
  - intros [Hl [= <-]]%unlocked_inv. apply cinv_cache; [done|by apply safe_fields].
  - destruct (cs_lock st) as [t|] eqn:Hl; cbn [mbind option_bind]; [|done]. intros [= <-]. by apply cinv_round.
Qed.

(** C13: Lookups that share a caching resolver, interleaved with each other, with presets,
    resizes and the cleanup, section by section: a lookup returns what the nested resolver
    answered to it, or a copy, with its expiry clamped, of an answer or preset for the
    same name and type, never one of another; only when nothing was cached and the nested
    resolver failed does it return the empty response.  No section panics, and a lookup
    waits for nothing but its own nested resolver and the lock: as long as nobody holds
    the lock to evict entries it can go on; and who holds it can go on evicting.  Whether
    the eviction ends is another matter: it does on a map in order, not with a capacity
    below one. *)
Theorem cached_shared nested maxSize mint maxt keep now0 st :
  let r0 := NewCachedResolver nested maxSize mint maxt keep now0 in
  creach r0 st →
  (∀ g req res, cs_calls st !! g = Some (CDone req res) → right_answer r0 req res) ∧
  (∀ g ph now, cs_calls st !! g = Some ph →
     match ph with
     | CFound _ _ | CPromoted _ _ => ∃ st', crun (CvNext g now) st = Some st'
     | CStale _ _ | CLive _ _ | CFetched _ _ => cs_lock st = None → ∃ st', crun (CvNext g now) st = Some st'
     | CMissed _ _ => ∀ ans, ∃ st', crun (CvAnswer g ans) st = Some st'
     | CStoring _ _ => ∃ key v d t, cs_lock st = Some (TStore (Some g) key v d t)
     | CDone _ _ => True
     end) ∧
  (cs_lock st ≠ None → ∃ st', crun CvRound st = Some st').
Proof.
  intros r0 Hr. assert (cinv r0 st) as Hi.
  { induction Hr as [|st ev st' _ IH Hen Hev]; [|by eapply crun_ok].
    split; [done|apply values_new| |done|]; cbn; [apply map_Forall_empty|]. intros g req res. cbn. by rewrite lookup_empty. }
  split_and!.
  - intros g req res Hg. by apply (ci_calls _ _ Hi) in Hg.
  - intros g ph now Hg. pose proof (ci_calls _ _ Hi g ph Hg) as Hp. pose proof (ci_storing _ _ Hi g) as Hst. rewrite Hg in Hst. cbn [crun]. rewrite Hg. cbn [mbind option_bind].
    destruct ph; cbn [needs_lock cnext]; try done; eauto; try (intros Hl; rewrite unlocked_none by done; eauto).
    cbn in Hp. destruct (node_value _ _ _ _ (ci_cache _ _ Hi) Hp) as (v & -> & _). cbn. eauto.
  - intros Hl. cbn [crun]. destruct (cs_lock st) as [t|]; [|done]. cbn. eauto.
Qed.

(** With a capacity below one a store evicts for ever, and no section that takes the lock
    runs again. *)
Definition hung (t : ctask) (st : cstate) : Prop :=
  cs_lock st = Some t ∧ maxSize (cache (cs_resolver st)) < 1 ∧ match t with TStore _ _ _ _ _ => True | TResize _ => False end.

Lemma hung_waits t st x : hung t st → cunlocked st x = None.
Proof. intros [Hl _]. unfold cunlocked, locked. rewrite Hl. by rewrite bool_decide_eq_true_2. Qed.

Lemma hung_step t ev st st' : hung t st → crun ev st = Some st' → hung t st'.
Proof.
  intros Hh E. pose proof (λ x, hung_waits t st x Hh) as Hu. destruct Hh as (Hl & Hm & Ht).
  destruct ev as [g req|g now|g ans|dom qt [res|] now|value|keys now| |]; cbn [crun] in E; rewrite ?Hu in E; try done.
  - destruct (cs_calls st !! g) as [ph|]; cbn [mbind option_bind] in E; [|done]. rewrite Hu in E.
    destruct ph; cbn [needs_lock cnext] in E; try done; [by injection E as <-|].
    destruct (get_value x _); cbn [mbind option_bind] in E; [|done]. by injection E as <-.
  - destruct (cs_calls st !! g) as [ph|]; cbn [mbind option_bind] in E; [|done]. destruct ph; try done. by injection E as <-.
  - rewrite Hl in E. cbn [mbind option_bind] in E. injection E as <-. destruct t as [owner key v d now|]; [|done]. cbn [cround].
    rewrite (proj2 (Z.ltb_lt _ _)) by (unfold len; lia). split; [done|]. cbn [cs_resolver cache with_cache]. by rewrite oldest_max.
Qed.

Theorem store_hangs t st evs st' : hung t st → cruns evs st = Some st' →
  cs_lock st' = Some t ∧ (∀ g req, crun (CvLookup g req) st' = None) ∧ ∃ st'', crun CvRound st' = Some st''.
Proof.
  intros Hh Hr. assert (hung t st') as Hh'.
  { revert st Hh Hr. induction evs as [|ev evs IH]; intros st Hh; cbn [cruns]; [by intros [= <-]|].
    destruct (crun ev st) as [st1|] eqn:E; cbn [mbind option_bind]; [|done]. apply IH. by eapply hung_step. }
  pose proof (proj1 Hh') as Hl. split_and!; [done| |]; intros; cbn [crun]; [by eapply hung_waits|]. rewrite Hl. cbn. eauto.
Qed.
End shared.

(** A lookup is overtaken by a preset of its entry, and another by its removal. *)
Definition told (req : Request) (ans : derr + Response) : Prop := ans = inr answer60.
Definition any_preset (_ : cacheKey) (_ : Response) : Prop := True.
Definition shared0 : CachedResolver (R := unit) := NewCachedResolver tt 1024 (60 * 10 ^ 9) (3600 * 10 ^ 9) (86400 * 10 ^ 9) (999 * 10 ^ 9).
Definition preset1 : Response := mkResponse true [[8; 8; 8; 8]] 0 false.
Definition overtaken : list cevent :=
  [CvPreset [97] 1 (Some answer60) (1000 * 10 ^ 9); CvRound; CvLookup 0 example_req; CvNext 0 (1001 * 10 ^ 9);
   CvPreset [97] 1 (Some preset1) (1001 * 10 ^ 9); CvNext 0 (1002 * 10 ^ 9);
   CvPreset [97] 1 None (1002 * 10 ^ 9); CvNext 0 (1002 * 10 ^ 9)].
Definition overtaken_at (n : nat) : cstate := default (mkCS shared0 ∅ None) (cruns (take n overtaken) (mkCS shared0 ∅ None)).

Lemma overtaken_reach n : (n ≤ 8)%nat → creach told any_preset shared0 (overtaken_at n).
Proof.
  induction n as [|n IH]; intros Hn; [apply creach_init|]. specialize (IH ltac:(lia)).
  assert (∃ ev, overtaken !! n = Some ev ∧ cenabled told any_preset ev (overtaken_at n) ∧
    crun ev (overtaken_at n) = Some (overtaken_at (S n))) as (ev & _ & Hen & Hev); [|by eapply creach_step].
  do 8 (destruct n as [|n]; [eexists; split; [reflexivity|]; split; [vm_compute; done|vm_compute; reflexivity]|]). lia.
Qed.

Lemma cached_shared_witness :
  cs_calls (overtaken_at 8) !! 0%nat = Some (CDone example_req preset1) ∧ right_answer told any_preset shared0 example_req preset1.
Proof.
  assert (cs_calls (overtaken_at 8) !! 0%nat = Some (CDone example_req preset1)) as Hg by (vm_compute; reflexivity).
  split; [exact Hg|].
  destruct (cached_shared told any_preset tt 1024 (60 * 10 ^ 9) (3600 * 10 ^ 9) (86400 * 10 ^ 9) (999 * 10 ^ 9)
    (overtaken_at 8) (overtaken_reach 8 (le_n 8))) as [H _].
  exact (H 0%nat example_req preset1 Hg).
Defined.
