(* ===== verification/DNSDirect.v ===== *)
(** * xdns/client: the resolvers that ask a server or the system

    Models [src/xdns/client]: [options.go], [direct.go] and [system.go].  The exchange of
    messages with a server (miekg/dns) and the system's resolver (package net) are
    parameters.  What [DirectResolver] does with its protector is modelled against
    the interface [Protector]. *)
From S2P Require Import Prelude Protect DNSPriority.

Local Open Scope Z_scope.

(** ** options.go *)
Definition Second_ : Z := 10 ^ 9.

Record options {P : Type} := mkOptions {
  systemTtl : Z; cacheMaxSize : Z; cacheMinTtl : Z; cacheMaxTtl : Z; cacheKeepTime : Z;
  priorityFailureTimeout : Z; directTimeout : Z; directProtector : P }.
Arguments options : clear implicits.
Arguments mkOptions {P}.

Definition systemDefaultTtl : Z := 60 * Second_.
Definition cachedDefaultMaxSize : Z := 1024.
Definition cachedDefaultMinTtl : Z := 60 * Second_.
Definition cachedDefaultMaxTtl : Z := 3600 * Second_.
Definition cachedDefaultKeepTime : Z := 24 * 3600 * Second_.
Definition directDefaultTimeout : Z := 15 * Second_.
Definition directDefaultProtector : Dummy := dummy.
Definition Defaults : options Dummy :=
  mkOptions systemDefaultTtl cachedDefaultMaxSize cachedDefaultMinTtl cachedDefaultMaxTtl cachedDefaultKeepTime
    (15 * Second_) directDefaultTimeout directDefaultProtector.

Section options.
Context {P : Type}.
Implicit Types (o : options P).
Definition WithSystemTTL (value : Z) o : options P :=
  mkOptions value (cacheMaxSize o) (cacheMinTtl o) (cacheMaxTtl o) (cacheKeepTime o) (priorityFailureTimeout o) (directTimeout o) (directProtector o).
Definition WithCacheMaxSize (value : Z) o : options P :=
  mkOptions (systemTtl o) value (cacheMinTtl o) (cacheMaxTtl o) (cacheKeepTime o) (priorityFailureTimeout o) (directTimeout o) (directProtector o).
Definition WithCacheMinTTL (value : Z) o : options P :=
  mkOptions (systemTtl o) (cacheMaxSize o) value (cacheMaxTtl o) (cacheKeepTime o) (priorityFailureTimeout o) (directTimeout o) (directProtector o).
Definition WithCacheMaxTTL (value : Z) o : options P :=
  mkOptions (systemTtl o) (cacheMaxSize o) (cacheMinTtl o) value (cacheKeepTime o) (priorityFailureTimeout o) (directTimeout o) (directProtector o).
Definition WithCacheKeepTime (value : Z) o : options P :=
  mkOptions (systemTtl o) (cacheMaxSize o) (cacheMinTtl o) (cacheMaxTtl o) value (priorityFailureTimeout o) (directTimeout o) (directProtector o).
Definition WithPriorityFailureTimeout (value : Z) o : options P :=
  mkOptions (systemTtl o) (cacheMaxSize o) (cacheMinTtl o) (cacheMaxTtl o) (cacheKeepTime o) value (directTimeout o) (directProtector o).
Definition WithDirectTimeout (value : Z) o : options P :=
  mkOptions (systemTtl o) (cacheMaxSize o) (cacheMinTtl o) (cacheMaxTtl o) (cacheKeepTime o) (priorityFailureTimeout o) value (directProtector o).
Definition WithDirectProtector (value : P) o : options P :=
  mkOptions (systemTtl o) (cacheMaxSize o) (cacheMinTtl o) (cacheMaxTtl o) (cacheKeepTime o) (priorityFailureTimeout o) (directTimeout o) value.
End options.

(** ** direct.go *)

(** The header of a record ([Rrtype], [Ttl]) and the payload of the two record types
    that are looked at. *)
Inductive rdata := A (ip : bytes) | AAAA (ip : bytes) | OtherData.
Record RR := mkRR { Rrtype : Z; Ttl : Z; rr_data : rdata }.
(** [dns.Msg]: the operation code and the response code are different fields. *)
Record Msg := mkMsg { Opcode : Z; Rcode : Z; Answer : list RR }.

Definition RcodeNameError : Z := 3.
Definition infiniteTtl : Z := 365 * 24 * 3600.

(** [netip.AddrFromSlice] *)
Definition AddrFromSlice (ip : bytes) : option bytes :=
  if (zlen ip =? 4) || (zlen ip =? 16) then Some ip else None.

Section direct.
Context {P : Type} `{!Protector P}.
(** [client.ExchangeContext] for a server, a question and the protection of the
    socket: the message and the error; not both are nil. *)
Context (exchange : Addr → Request → bool → option Msg * option Z).

(** The [protector] field is the state that [once] threads; the direct resolvers of a builder
    all have the one of its options. *)
Record DirectResolver := mkDirect { server : Addr; timeout : Z }.

Definition NewDirectResolver (s : Addr) (o : options P) : DirectResolver := mkDirect s (directTimeout o).
Definition WithTimeout (t : Z) (r : DirectResolver) : DirectResolver := mkDirect (server r) t.
(** A copy, and the protector that its lookups use from now on. *)
Definition WithProtector (p : P) (r : DirectResolver) : DirectResolver * P := (mkDirect (server r) (timeout r), p).

(** The loop over the answers. *)
Definition collect (qtype : Z) (acc : list bytes * Z) (rr : RR) : list bytes * Z :=
  let '(addresses, ttl) := acc in
  if negb (Rrtype rr =? qtype) then acc
  else
    let '(address, ttl) :=
      match rr_data rr with
      | A ip | AAAA ip => (AddrFromSlice ip, Z.min ttl (Ttl rr))
      | OtherData => (None, ttl)
      end in
    match address with
    | Some a => (addresses ++ [a], ttl)
    | None => (addresses, ttl)
    end.

(** The part of [once] after the protection; [None]: a nil message is dereferenced. *)
Definition ask (r : DirectResolver) (req : Request) (protected : bool) (now : time) : option (derr + Response) :=
  let '(msg, err) := exchange (server r) req protected in
  if match msg with Some m => Opcode m =? RcodeNameError | None => false end then Some (inl ErrNotExists)
  else match err with
  | Some e => Some (inl (EOther e))
  | None =>
      m ← msg;
      let '(addresses, ttl) := foldl (collect (QueryType req)) ([], infiniteTtl) (Answer m) in
      if zlen addresses =? 0 then Some (inl ErrDNSEmptyResponse)
      else Some (inr (mkResponse true addresses (now + ttl * Second_) protected))
  end.

(** The state of the protector is threaded through; [UnprotectAddresses] is deferred. *)
Definition once (r : DirectResolver) (req : Request) (protected : bool) (now : time) (p : P) : option (P * (derr + Response)) :=
  if protected then
    let '(p, err) := ProtectAddresses p [server r] in
    match err with
    | Some e => Some (p, inl (EOther e))
    | None => res ← ask r req true now; Some ((UnprotectAddresses p [server r]).1, res)
    end
  else res ← ask r req false now; Some (p, res).

Definition Direct_Lookup (r : DirectResolver) (req : Request) (now : time) (p : P) : option (P * (derr + Response)) :=
  if negb (NoLazy req) then
    first ← once r req false now p;
    match first.2 with
    | inr _ => Some first
    | inl _ => once r req true now first.1
    end
  else once r req true now p.
End direct.

(** ** system.go *)
Section system.
(** The errors of package net that are told apart. *)
Inductive sysErr := DNSError (isTimeout isNotFound : bool) (code : Z) | SysOther (code : Z).
(** [net.DefaultResolver.LookupIPAddr] *)
Context (LookupIPAddr : bytes → sysErr + list bytes).

Definition System_Lookup (ttl : Z) (req : Request) (now : time) : derr + Response :=
  match LookupIPAddr (Domain req) with
  | inl (DNSError isTimeout isNotFound code) =>
      if isTimeout then inl ErrDNSNoResponse else if isNotFound then inl ErrDNSNotExists else inl (EOther code)
  | inl (SysOther code) => inl (EOther code)
  | inr addrs =>
      if zlen addrs =? 0 then inl ErrDNSEmptyResponse
      else inr (mkResponse (0 <? zlen addrs) (omap AddrFromSlice addrs) (now + ttl) false)
  end.
Definition LookupNonCached (ttl : Z) (req : Request) (now : time) : derr + Response := System_Lookup ttl req now.
End system.

(** * xdns/client: answers of servers and of the system *)
From S2P Require Import Prelude Protect DNSPriority.

Local Open Scope Z_scope.

Section props.
Context {P : Type} `{!Protector P}.
Context (exchange : Addr → Request → bool → option Msg * option Z).
Implicit Types (r : DirectResolver) (req : Request) (m : Msg).

(** The address of a record of the queried type. *)
Definition record_addr (qtype : Z) (rr : RR) : option bytes :=
  if Rrtype rr =? qtype then match rr_data rr with A ip | AAAA ip => AddrFromSlice ip | OtherData => None end else None.
(** The lifetime of a record that counts. *)
Definition record_ttl (qtype : Z) (rr : RR) : option Z :=
  if Rrtype rr =? qtype then match rr_data rr with OtherData => None | _ => Some (Ttl rr) end else None.

Lemma collect_spec qtype (rrs : list RR) : ∀ addrs ttl,
  foldl (collect qtype) (addrs, ttl) rrs =
  (addrs ++ omap (record_addr qtype) rrs, foldl Z.min ttl (omap (record_ttl qtype) rrs)).
Proof.
  induction rrs as [|rr rrs IH]; intros addrs ttl; cbn [foldl omap list_omap]; [by rewrite app_nil_r|].
  assert (collect qtype (addrs, ttl) rr = (addrs ++ match record_addr qtype rr with Some a => [a] | None => [] end,
    match record_ttl qtype rr with Some t => Z.min ttl t | None => ttl end)) as ->.
  { unfold collect, record_addr, record_ttl. destruct (Rrtype rr =? qtype); cbn [negb]; [|by rewrite app_nil_r].
    destruct (rr_data rr) as [ip|ip|]; [destruct (AddrFromSlice ip)..|]; by rewrite ?app_nil_r. }
  rewrite IH, <-app_assoc. by destruct (record_addr qtype rr), (record_ttl qtype rr).
Qed.

Lemma fold_min_le (ts : list Z) : ∀ t, foldl Z.min t ts ≤ t ∧ ∀ u, u ∈ ts → foldl Z.min t ts ≤ u.
Proof.
  induction ts as [|u ts IH]; intros t; cbn [foldl]; [split; [lia|intros u Hu; by apply not_elem_of_nil in Hu]|].
  destruct (IH (Z.min t u)) as [H1 H2]. split; [lia|]. intros v [->|Hv]%elem_of_cons; [lia|by apply H2].
Qed.

(** A successful answer of a server carries exactly the valid addresses of the
    records of the queried type, at least one, in their order; it expires no later
    than any of these records, and within a year; and it says whether the socket
    was protected. *)
Theorem direct_answer r req protected now res :
  ask exchange r req protected now = Some (inr res) →
  ∃ m, (exchange (server r) req protected).1 = Some m ∧
    Addresses res = omap (record_addr (QueryType req)) (Answer m) ∧
    Addresses res ≠ [] ∧ Successful (Some res) = true ∧ ProtectionRequired res = protected ∧
    Expires res ≤ now + infiniteTtl * Second_ ∧
    ∀ rr t, rr ∈ Answer m → record_ttl (QueryType req) rr = Some t → Expires res ≤ now + t * Second_.
Proof.
  unfold ask. destruct (exchange (server r) req protected) as [[m|] [e|]]; cbn [mbind option_bind]; try done;
    (destruct (Opcode m =? RcodeNameError); [done|]); [done|].
  rewrite collect_spec. cbn [app]. destruct (Z.eqb_spec (zlen (omap (record_addr (QueryType req)) (Answer m))) 0) as [|Hne]; [done|].
  intros [= <-]. exists m. cbn [Addresses ProtectionRequired Expires fst].
  destruct (fold_min_le (omap (record_ttl (QueryType req)) (Answer m)) infiniteTtl) as [H1 H2].
  split_and!; try done.
  - intros E. rewrite E in Hne. done.
  - unfold Successful. cbn [Exists Addresses andb]. apply Z.ltb_lt. pose proof (zlen_nonneg (omap (record_addr (QueryType req)) (Answer m))). lia.
  - unfold Second_. lia.
  - intros rr t Hrr Ht. unfold Second_. assert (foldl Z.min infiniteTtl (omap (record_ttl (QueryType req)) (Answer m)) ≤ t); [|lia].
    apply H2, list_elem_of_omap. by exists rr.
Qed.

(** What the resolver relies on of miekg/dns: without an error there is a message. *)
Definition exchange_ok : Prop := ∀ s req b, (exchange s req b).2 = None → is_Some (exchange s req b).1.

Lemma ask_total r req b now : exchange_ok → ∃ res, ask exchange r req b now = Some res.
Proof.
  intros Hx. specialize (Hx (server r) req b). unfold ask. destruct (exchange (server r) req b) as [[m|] [e|]]; cbn in *; eauto.
  - destruct (Opcode m =? RcodeNameError); eauto.
  - destruct (Opcode m =? RcodeNameError); [by eauto|]. destruct (foldl _ _ _). destruct (_ =? _); eauto.
  - destruct (Hx eq_refl). done.
Qed.
End props.

Section protection.
Context {P : Type} `{!Protector P}.
Context (exchange : Addr → Request → bool → option Msg * option Z) (Hx : exchange_ok exchange).
Implicit Types (r : DirectResolver) (req : Request) (p : Logged P).

(** What a query tells the protector: nothing; or to protect the server's address, which
    it refuses; or to protect and then to release it. *)
Definition told_protector r (b : bool) (l : list fcall) : Prop :=
  if b then (∃ e, l = [FProtect [server r] (Some e)]) ∨ (∃ e, l = [FProtect [server r] None; FUnprotect [server r] e])
  else l = [].

Lemma once_told r req b now p :
  ∃ p' res l, once exchange r req b now p = Some (p', res) ∧ log p' = log p ++ l ∧ told_protector r b l.
Proof.
  destruct (ask_total exchange r req b now Hx) as [res Hres]. unfold once. destruct b.
  - cbn [ProtectAddresses UnprotectAddresses logged_protector]. destruct (ProtectAddresses (inner p) [server r]) as [q [e|]].
    + eexists _, _, _. split; [done|]. split; [done|]. left. by exists e.
    + rewrite Hres. cbn [mbind option_bind inner log]. destruct (UnprotectAddresses q [server r]) as [q' e'].
      eexists _, _, _. split; [done|]. cbn [fst log]. rewrite <-app_assoc. split; [done|]. right. by exists e'.
  - rewrite Hres. cbn. eexists _, _, _. split; [done|]. split; [by rewrite app_nil_r|done].
Qed.

(** A lookup protects the server's address only for the time of a protected query: it
    tells the protector to release it whenever that had granted the protection, whether the query succeeded
    or not.  The lazy mode protects only after an unprotected query failed. *)
Theorem direct_protection r req now p :
  ∃ p' res l, Direct_Lookup exchange r req now p = Some (p', res) ∧ log p' = log p ++ l ∧
    (told_protector r false l ∨ told_protector r true l) ∧
    (NoLazy req = false → ∀ w, ask exchange r req false now = Some (inr w) → l = [] ∧ res = inr w).
Proof.
  unfold Direct_Lookup. destruct (NoLazy req); cbn [negb].
  - destruct (once_told r req true now p) as (p' & res & l & -> & Hl & Ht). exists p', res, l. by split_and!; [..|right|].
  - destruct (ask_total exchange r req false now Hx) as [w Hw]. assert (once exchange r req false now p = Some (p, w)) as -> by (unfold once; by rewrite Hw).
    cbn [mbind option_bind snd fst]. rewrite Hw. destruct w as [e|w].
    2: { exists p, (inr w), []. rewrite app_nil_r. split_and!; try done; [by left|]. by intros _ w' [= <-]. }
    destruct (once_told r req true now p) as (p' & res & l & -> & Hl & Ht). exists p', res, l.
    split_and!; [done|done|by right|]. by intros _ w' [=].
Qed.
End protection.

(** ** Concrete runs *)
Definition replies (s : Addr) (req : Request) (b : bool) : option Msg * option Z :=
  if b then (Some (mkMsg 0 0 [mkRR 5 10 OtherData; mkRR 1 300 (A [10; 0; 0; 1]); mkRR 1 60 (A [10; 0; 0; 2])]), None)
  else (None, Some 110).
Definition a_req : Request := mkRequest [97] 1 false.

Lemma replies_ok : exchange_ok replies.
Proof. intros s req []; cbn; [by eauto|done]. Qed.

Lemma direct_answer_witness :
  Addresses (mkResponse true [[10; 0; 0; 1]; [10; 0; 0; 2]] (1000 + 60 * Second_) true) ≠ [].
Proof.
  destruct (direct_answer replies (mkDirect [1; 1; 1; 1] 15) a_req true 1000
    (mkResponse true [[10; 0; 0; 1]; [10; 0; 0; 2]] (1000 + 60 * Second_) true)) as (m & _ & _ & Hne & _).
  - vm_compute. reflexivity.
  - exact Hne.
Defined.

Lemma direct_protection_witness :
  ∃ p' res l, Direct_Lookup (P := Logged Dummy) replies (mkDirect [1; 1; 1; 1] 15) a_req 1000 (mkLogged dummy []) = Some (p', res) ∧ log p' = l.
Proof.
  destruct (direct_protection (P := Dummy) replies replies_ok (mkDirect [1; 1; 1; 1] 15) a_req 1000 (mkLogged dummy []))
    as (p' & res & l & Hr & Hl & _).
  exists p', res, l. split; [exact Hr|exact Hl].
Defined.

(** A server's "no such name" is not recognised: the code compares the operation
    code, not the response code, with [RcodeNameError].  Such an answer is reported as
    an empty response, and an answer with operation code 3 as a missing name. *)
Example name_error_not_seen :
  ask (λ _ _ _, (Some (mkMsg 0 RcodeNameError []), None)) (mkDirect [1; 1; 1; 1] 15) a_req false 1000 =
    Some (inl ErrDNSEmptyResponse) ∧
  ask (λ _ _ _, (Some (mkMsg 3 0 [mkRR 1 60 (A [10; 0; 0; 1])]), None)) (mkDirect [1; 1; 1; 1] 15) a_req false 1000 =
    Some (inl ErrNotExists).
Proof. vm_compute. done. Qed.
