(* ===== verification/DNSBuilder.v ===== *)
(** * xdns/client: the builder

    Models [src/xdns/client/builder.go] on the models of the resolvers it puts
    together.  Pointers to resolvers are what is shared: a [LastActiveResolver] is a
    list in the common heap, [System] resolvers are values. *)
From S2P Require Import Prelude LinkedList TTLMap Protect DNSPriority DNSActive DNSCached DNSDirect.

Local Open Scope Z_scope.

Section builder.
Context {P : Type}.
(** The parameters of the models: growth of slices and the text of an address. *)
Context (grow : nat → nat → nat) (addr_string : Addr → bytes).

(** The resolvers that the builder registers by priority. *)
Inductive Member := MLast (l : nat) | MSystem (ttl : Z).

(** [b.root] *)
Inductive Root :=
  | RPriority (r : PriorityResolver (R := Member))
  | RCached (r : CachedResolver (R := PriorityResolver (R := Member))).

(** [root], and the lists of the last-active resolvers. *)
Record Builder := mkBuilder { root : Root; lists : LinkedList.heap (lastActiveEntity (R := DirectResolver)); newList : nat }.

Definition NewBuilder : Builder := mkBuilder (RPriority NewPriorityResolver) (mkHeap ∅ ∅ 0) 0.

Definition priorityResolver (b : Builder) : PriorityResolver :=
  match root b with RCached r => nestedResolver r | RPriority r => r end.

(** The change of the priority resolver that the root points to. *)
Definition set_priority (r : PriorityResolver) (b : Builder) : Builder :=
  mkBuilder
    (match root b with
     | RCached c => RCached (mkCached (cache c) r (minTtl c) (maxTtl c) (keepTime c))
     | RPriority _ => RPriority r
     end) (lists b) (newList b).

Definition cachedResolver (b : Builder) : option CachedResolver :=
  match root b with RCached r => Some r | RPriority _ => None end.

Definition WithCache (o : options P) (now : time) (b : Builder) : Builder :=
  match root b with
  | RCached _ => b
  | RPriority r =>
      mkBuilder (RCached (NewCachedResolver r (cacheMaxSize o) (cacheMinTtl o) (cacheMaxTtl o) (cacheKeepTime o) now))
        (lists b) (newList b)
  end.

(** The loop over the servers; [None]: the type assertion panics. *)
Fixpoint addServers (m : Member) (o : options P) (servers : list Addr) (b : Builder) : option Builder :=
  match servers with
  | [] => Some b
  | s :: servers =>
      match m with
      | MSystem _ => None
      | MLast l =>
          r ← la_add (h_new (lists b)) l (addr_string s) (NewDirectResolver s o) true (lists b);
          addServers m o servers (mkBuilder (root b) r.2 (newList b))
      end
  end.

(** The value of a list's sentinel is never read. *)
Definition no_entity : lastActiveEntity (R := DirectResolver) := mkLA [] (mkDirect [] 0).

Definition WithDNSServers (prio : Z) (servers : list Addr) (o : options P) (b : Builder) : option Builder :=
  match Get prio (priorityResolver b) with
  | inr m => addServers m o servers b
  | inl _ =>
      r ← NewLastActive no_entity (newList b) (lists b);
      let m := MLast (newList b) in
      let b := mkBuilder (root b) r.2 (S (newList b)) in
      let b := set_priority (With grow prio m (priorityFailureTimeout o) (priorityResolver b)) b in
      addServers m o servers b
  end.

Definition WithSystem (prio : Z) (o : options P) (b : Builder) : Builder :=
  set_priority (With grow prio (MSystem (systemTtl o)) (priorityFailureTimeout o) (priorityResolver b)) b.

(** The outer [None] is the hang of the cache with no room. *)
Definition Builder_Preset (dom : bytes) (qt : Z) (response : option Response) (now : time) (b : Builder)
    : option (Builder * option derr) :=
  match root b with
  | RCached c => c ← Preset dom qt response now c; Some (mkBuilder (RCached c) (lists b) (newList b), None)
  | RPriority _ => Some (b, Some ErrNoCache)
  end.
End builder.

(** * xdns/client: what the builder puts together *)
From S2P Require Import Prelude Ring LinkedList LinkedListSpec LinkedListProps Protect.
From S2P Require Import DNSPriority DNSPriorityProps DNSActive DNSDirect.

Local Open Scope Z_scope.

Section props.
Context {P : Type} (addr_string : Addr → bytes).
Implicit Types (b : Builder) (o : options P) (σ : gmap nat (list nat)).

(** The servers of a last-active resolver, with their tags. *)
Definition servers_of b (xs : list nat) : list (bytes * Addr) := (λ e, (tag e, server (la_resolver e))) <$> order (lists b) xs.

Lemma members_bound {V} (h : heap V) σ l (xs : list nat) : lists_ok h σ → σ !! l = Some xs → (length xs ≤ h_new h)%nat.
Proof.
  intros Hok Hl. apply nodup_bounded; [by destruct Hok as (H & _); destruct (H _ _ Hl) as (_ & ? & _)|].
  intros x Hx. by eapply member_below.
Qed.

(** One server: its entry is there afterwards, the tags of the others are kept. *)
Lemma add_server o s b σ l (xs : list nat) :
  lists_ok (lists b) σ → σ !! l = Some xs → small (lists b) → NoDup (servers_of b xs).*1 →
  ∃ r h xs', la_add (h_new (lists b)) l (addr_string s) (NewDirectResolver s o) true (lists b) = Some (r, h) ∧
    let b' := mkBuilder (root b) h (newList b) in
    lists_ok h (<[l := xs']> σ) ∧ NoDup (servers_of b' xs').*1 ∧
    (∀ t a, (t, a) ∈ servers_of b' xs' ↔ (t, a) = (addr_string s, s) ∨ (t ≠ addr_string s ∧ (t, a) ∈ servers_of b xs)) ∧
    (h_new h ≤ S (h_new (lists b)))%nat.
Proof.
  intros Hok Hl Hsm Hnd. set (t := addr_string s). set (d := NewDirectResolver s o).
  assert (∀ b xs, (servers_of b xs).*1 = tag <$> order (lists b) xs) as Htags.
  { intros b0 xs0. unfold servers_of. rewrite <-list_fmap_compose. by apply list_fmap_ext. }
  destruct (la_add_spec (lists b) σ l xs (h_new (lists b)) t d true Hok Hl Hsm (members_bound _ _ _ _ Hok Hl)) as [H1 H2].
  rewrite Htags in Hnd. destruct (decide (t ∈ (tag <$> order (lists b) xs))) as [Hin|Hnin].
  - destruct (H2 Hin) as (v1 & v & v2 & Ho & Ht & Hv1 & h & Hrun & Hok' & Ho' & Hn). rewrite Ho, fmap_app, fmap_cons, Ht in Hnd.
    exists None, h, xs. split; [done|]. cbv zeta. split_and!; [by rewrite insert_id| | |lia].
    + rewrite Htags. cbn [lists]. by rewrite Ho', fmap_app, fmap_cons.
    + intros t' a. unfold servers_of. cbn [lists]. rewrite Ho', Ho, !fmap_app, !fmap_cons, !elem_of_app, !elem_of_cons.
      cbn [tag la_resolver server]. change (server d) with s. apply NoDup_app in Hnd as (_ & Hd & [Hv2 _]%NoDup_cons).
      assert (∀ vs : list (lastActiveEntity (R := DirectResolver)), (t', a) ∈ ((λ e, (tag e, server (la_resolver e))) <$> vs) → t ∉ (tag <$> vs) → t' ≠ t) as Hne.
      { intros vs (e & [= -> ->] & He)%list_elem_of_fmap Hno E. apply Hno. rewrite <-E. by apply list_elem_of_fmap_2. }
      pose proof (Hne v1). pose proof (Hne v2). rewrite Ht. naive_solver.
  - destruct (H1 Hnin) as (h & Hrun & Hok' & Ho & Hnew & Hn). exists None, h, (xs ++ [h_new (lists b)]). split; [done|].
    assert (order h (xs ++ [h_new (lists b)]) = order (lists b) xs ++ [mkLA t d]) as Ho'.
    { unfold order in *. by rewrite values_app, Ho, Hnew. }
    cbv zeta. split_and!; [done| | |lia].
    + rewrite Htags. cbn [lists]. rewrite Ho', fmap_app. apply NoDup_app. split_and!; [done| |apply NoDup_singleton].
      intros t' Ht' ->%list_elem_of_singleton. done.
    + intros t' a. unfold servers_of. cbn [lists]. rewrite Ho', fmap_app, elem_of_app. cbn [fmap list_fmap].
      rewrite list_elem_of_singleton. cbn [tag la_resolver server]. change (server d) with s.
      assert ((t', a) ∈ ((λ e, (tag e, server (la_resolver e))) <$> order (lists b) xs) → t' ≠ t).
      { intros (e & [= -> ->] & He)%list_elem_of_fmap E. apply Hnin. rewrite <-E. by apply list_elem_of_fmap_2. }
      naive_solver.
Qed.

Lemma addServers_spec o l (servers : list Addr) : ∀ b σ (xs : list nat),
  Inj (=) (=) addr_string →
  lists_ok (lists b) σ → σ !! l = Some xs → Z.of_nat (h_new (lists b) + length servers) < 2 ^ 63 - 1 →
  NoDup (servers_of b xs).*1 →
  ∃ b' xs', addServers addr_string (MLast l) o servers b = Some b' ∧ root b' = root b ∧
    lists_ok (lists b') (<[l := xs']> σ) ∧ NoDup (servers_of b' xs').*1 ∧
    ∀ t a, (t, a) ∈ servers_of b' xs' ↔
      (t = addr_string a ∧ a ∈ servers) ∨ ((t ∉ (addr_string <$> servers)) ∧ (t, a) ∈ servers_of b xs).
Proof.
  induction servers as [|s servers IH]; intros b σ xs Hinj Hok Hl Hsm Hnd.
  { exists b, xs. split_and!; try done; [by rewrite insert_id|]. intros t a. rewrite elem_of_nil. cbn. rewrite elem_of_nil. tauto. }
  cbn [addServers length] in *.
  destruct (add_server o s b σ l xs Hok Hl) as (r & h & ys & -> & Hok1 & Hnd1 & Hin1 & Hn1); [unfold small; lia|done|].
  cbn [mbind option_bind snd]. set (b1 := mkBuilder (root b) h (newList b)) in *.
  destruct (IH b1 (<[l := ys]> σ) ys Hinj Hok1) as (b' & zs & Hrun & Hroot & Hok2 & Hnd2 & Hin2);
    [by rewrite lookup_insert_eq|cbn [lists b1]; lia|done|].
  exists b', zs. rewrite Hrun. rewrite insert_insert_eq in Hok2. split_and!; try done.
  intros t a. rewrite Hin2, Hin1, elem_of_cons. cbn [fmap list_fmap]. rewrite not_elem_of_cons.
  assert (addr_string s ∈ (addr_string <$> servers) → s ∈ servers) as Hs.
  { by intros (s' & ->%(inj addr_string) & ?)%list_elem_of_fmap. }
  destruct (decide (t ∈ (addr_string <$> servers))); naive_solver.
Qed.

(** Registering DNS servers under a priority that holds a server list (or
    nothing) leaves each of them registered exactly once under the text of its
    address, next to the servers that were already there; the call returns. *)
Theorem builder_servers o l (servers : list Addr) b σ (xs : list nat) :
  Inj (=) (=) addr_string →
  lists_ok (lists b) σ → σ !! l = Some xs → Z.of_nat (h_new (lists b) + length servers) < 2 ^ 63 - 1 →
  NoDup (servers_of b xs).*1 →
  ∃ b' xs', addServers addr_string (MLast l) o servers b = Some b' ∧ root b' = root b ∧
    lists_ok (lists b') (<[l := xs']> σ) ∧ NoDup (servers_of b' xs').*1 ∧
    ∀ t a, (t, a) ∈ servers_of b' xs' ↔
      (t = addr_string a ∧ a ∈ servers) ∨ ((t ∉ (addr_string <$> servers)) ∧ (t, a) ∈ servers_of b xs).
Proof. apply addServers_spec. Qed.
End props.

(** ** Concrete runs; the text of an address is its bytes *)
Definition with_list : Builder :=
  default NewBuilder (WithDNSServers doubles (λ a, a) 10 [] Defaults NewBuilder).

Lemma with_list_ok : lists_ok (lists with_list) {[ 0%nat := [] ]}.
Proof.
  destruct (New_spec no_entity (mkHeap ∅ ∅ 0) ∅ 0) as (h1 & R1 & Hok1 & _); [apply empty_heap_ok|done|].
  vm_compute in R1. injection R1 as <-. vm_compute in Hok1 |- *. exact Hok1.
Qed.

Lemma builder_servers_witness :
  ∃ b' xs', addServers (λ a, a) (MLast 0) Defaults [[1; 1; 1; 1]; [8; 8; 8; 8]] with_list = Some b' ∧
    ([8; 8; 8; 8], [8; 8; 8; 8]) ∈ servers_of b' xs'.
Proof.
  destruct (builder_servers (λ a, a) Defaults 0 [[1; 1; 1; 1]; [8; 8; 8; 8]] with_list _ [] (λ x y e, e) with_list_ok)
    as (b' & xs' & Hr & _ & _ & _ & Hin).
  - reflexivity.
  - vm_compute. reflexivity.
  - constructor.
  - exists b', xs'. split; [exact Hr|]. apply Hin. left. split; [reflexivity|]. right. left.
Defined.

(** A priority that already holds the system resolver makes [WithDNSServers]
    panic: it asserts that what it finds is a list of servers. *)
Example builder_type_panic :
  WithDNSServers doubles (λ a, a) 10 [[1; 1; 1; 1]] Defaults (WithSystem doubles 10 Defaults NewBuilder) = None ∧
  is_Some (WithDNSServers doubles (λ a, a) 20 [[1; 1; 1; 1]] Defaults (WithSystem doubles 10 Defaults NewBuilder)).
Proof. split; [vm_compute; reflexivity|]. vm_compute. by eexists. Qed.
