(* ===== verification/DNSStack.v ===== *)
(** * xdns/client: a lookup through all resolvers of a builder

    [Builder.Lookup] calls the resolver at the root, which calls the ones below it through
    the interface [Resolver]: the cache, the resolvers by priority, the last-active lists
    and the servers or the system.  The models of the single resolvers take what is below
    as a function; here the calls are composed and the state of all of them is threaded:
    the lists, the cache, the suspensions and the protector. *)
From S2P Require Import Prelude Text Net IPText LinkedList Protect DNSPriority DNSActive DNSCached DNSDirect DNSBuilder.

Local Open Scope Z_scope.

Section stack.
Context {P : Type} `{!Protector P}.
Context (exchange : Addr → Request → bool → option Msg * option Z) (LookupIPAddr : bytes → sysErr + list bytes).
Local Abbreviation LM := (M (V := lastActiveEntity (R := DirectResolver))).
Local Abbreviation Priority := (PriorityResolver (R := Member)).

(** A call that does not touch the lists; [None] is a panic. *)
Definition lift {A} (o : option A) : LM A := λ h, match o with Some a => Some (a, h) | None => None end.

(** The loop of [LastActiveResolver.Lookup] over its servers. *)
Fixpoint stack_active (fuel : nat) (req : Request) (now : time) (e : option addr) (p : P) : LM (P * option (addr * Response)) :=
  match fuel, e with
  | _, None => mret (p, None)
  | O, Some _ => panic
  | S fuel, Some a =>
      x ← load a;
      d ← lift (Direct_Lookup exchange (la_resolver (e_value x)) req now p);
      match d.2 with
      | inr res => if Successful (Some res) then mret (d.1, Some (a, res)) else n ← Next a; stack_active fuel req now n d.1
      | inl _ => n ← Next a; stack_active fuel req now n d.1
      end
  end.
Definition stack_last (l : nat) (req : Request) (now : time) (p : P) : LM (P * (derr + Response)) := λ h,
  (f ← Front l;
   found ← stack_active (h_new h) req now f p;
   match found.2 with
   | Some (a, res) =>
       f ← Front l;
       if bool_decide (Some a = f) then mret (found.1, inr res) else (_ ← MoveToFront l a; mret (found.1, inr res))
   | None => mret (found.1, inl ErrDNSNoResponse)
   end) h.

Definition stack_member (m : Member) (req : Request) (now : time) (p : P) : LM (P * (derr + Response)) :=
  match m with
  | MLast l => stack_last l req now p
  | MSystem ttl => mret (p, System_Lookup LookupIPAddr ttl req now)
  end.

(** The loop of [PriorityResolver.Lookup]. *)
Fixpoint stack_priority (ps : list nat) (req : Request) (now : time) (r : Priority) (p : P) : LM (Priority * P * (derr + Response)) :=
  match ps with
  | [] => mret (r, p, inl ErrDNSNoResponse)
  | i :: ps =>
      e ← lift (entities r !! i);
      if failureTimeout e <? Sub now (failedAt e) then
        d ← stack_member (resolver e) req now p;
        match d.2 with
        | inr res => mret (r, d.1, inr res)
        | inl err => stack_priority ps req now (if isFailure err then set_failed i now r else r) d.1
        end
      else stack_priority ps req now r p
  end.

(** The state below the cache; [None] after a panic. *)
Local Abbreviation Below := (option (Priority * P * heap (lastActiveEntity (R := DirectResolver)))).
Definition below_lookup (s : Below) (req : Request) (now : time) : Below * (derr + Response) :=
  match s with
  | None => (None, inl ErrDNSNoResponse)
  | Some (r, p, h) =>
      match stack_priority (elems r (resolvers r)) req now r p h with
      | Some ((r, p, res), h) => (Some (r, p, h), res)
      | None => (None, inl ErrDNSNoResponse)
      end
  end.

(** The caching resolver on top of what is below it. *)
Definition on_below {R R'} (c : CachedResolver (R := R)) (n : R') : CachedResolver (R := R') :=
  mkCached (cache c) n (minTtl c) (maxTtl c) (keepTime c).

Definition Builder_Lookup (req : Request) (now : time) (b : Builder) (p : P) : option (Builder * P * (derr + Response)) :=
  match root b with
  | RPriority r =>
      '((r, p, res), h) ← stack_priority (elems r (resolvers r)) req now r p (lists b);
      Some (mkBuilder (RPriority r) h (newList b), p, res)
  | RCached c =>
      '(c', res) ← Cached_Lookup below_lookup req now (on_below c (Some (nestedResolver c, p, lists b)));
      '(r, p, h) ← nestedResolver c';
      Some (mkBuilder (RCached (on_below c' r)) h (newList b), p, inr res)
  end.
End stack.

(** ** response.go: addresses as text *)

(** [netip.Addr.String]; an address inside the IPv4 part of IPv6 keeps its prefix. *)
Definition netip_String (a : Addr) : bytes :=
  if zlen a =? 4 then string4 a
  else if zlen a =? 16 then
    if bool_decide (take 12 a = v4InV6Prefix) then txt "::ffff:" ++ string4 (drop 12 a) else string6 a
  else txt "invalid IP".
Definition AddressesAsStrings (r : Response) : list bytes := netip_String <$> Addresses r.

(** * xdns/client: a lookup through a whole builder

    The composed lookup always returns, keeps the resolvers as they were registered, and
    answers only what a registered server, the system or the cache gave it. *)
From S2P Require Import Prelude Ring TTLMap TTLMapSpec TTLMapProps LinkedList LinkedListSpec LinkedListProps Protect.
From S2P Require Import DNSPriority DNSPriorityProps DNSActive DNSCached DNSDirect DNSBuilder.

Local Open Scope Z_scope.

Section stack.
Context {P : Type} `{!Protector P}.
Context (exchange : Addr → Request → bool → option Msg * option Z) (LookupIPAddr : bytes → sysErr + list bytes).
Hypothesis Hx : exchange_ok exchange.
Local Abbreviation entity := (lastActiveEntity (R := DirectResolver)).
Implicit Types (h : heap entity) (σ : gmap nat (list nat)) (req : Request) (now : time) (d : DirectResolver).

(** ** One server *)
(** The server gave this answer, with a protected socket or without. *)
Definition served req now d (v : Response) : Prop := ∃ protected, ask exchange d req protected now = Some (inr v).

Lemma once_served d req b now p : ∃ p' res, once exchange d req b now p = Some (p', res) ∧ ∀ v, res = inr v → served req now d v.
Proof using Hx.
  destruct (ask_total exchange d req b now Hx) as [res Hres]. unfold once. destruct b.
  - destruct (ProtectAddresses p [server d]) as [p1 [e|]]; [eexists _, _; by split|]. rewrite Hres. cbn. eexists _, res. split; [done|]. intros v ->. by exists true.
  - rewrite Hres. cbn. eexists _, res. split; [done|]. intros v ->. by exists false.
Qed.
Lemma direct_served d req now p : ∃ p' res, Direct_Lookup exchange d req now p = Some (p', res) ∧ ∀ v, res = inr v → served req now d v.
Proof using Hx.
  unfold Direct_Lookup. destruct (NoLazy req); cbn [negb]; [apply once_served|].
  destruct (once_served d req false now p) as (p1 & res & -> & Hs). cbn [mbind option_bind snd]. destruct res as [e|v]; [apply once_served|].
  eexists _, _. by split.
Qed.

(** ** A list of servers *)
Lemma active_found req now h σ l : lists_ok h σ → ∀ (l2 l1 : list nat) fuel p,
  σ !! l = Some (l1 ++ l2) → (length l2 ≤ fuel)%nat →
  ∃ p' found, stack_active exchange fuel req now (start l2) p h = Some ((p', found), h) ∧
    match found with
    | Some (a, res) => ∃ p1 x p2 v, l2 = p1 ++ x :: p2 ∧ a = Elem x ∧ val h (Elem x) = Some v ∧ Successful (Some res) = true ∧ served req now (la_resolver v) res
    | None => True
    end.
Proof using Hx.
  intros Hok. induction l2 as [|x l2 IH]; intros l1 fuel p Hl Hf; [exists p, None; by destruct fuel|].
  destruct fuel as [|fuel]; [cbn in Hf; lia|]. destruct (elem_load _ _ _ _ _ _ Hok Hl) as (_ & _ & e & He & _). pose proof (load_val _ _ _ He) as Hv.
  destruct (direct_served (la_resolver (e_value e)) req now p) as (p1 & res & Hd & Hs).
  assert (∃ p' found, (Next (Elem x) ≫= λ n, stack_active exchange fuel req now n p1) h = Some ((p', found), h) ∧
    match found with
    | Some (a, res) => ∃ q1 y q2 v, x :: l2 = q1 ++ y :: q2 ∧ a = Elem y ∧ val h (Elem y) = Some v ∧ Successful (Some res) = true ∧ served req now (la_resolver v) res
    | None => True
    end) as Hn.
  { destruct (IH (l1 ++ [x]) fuel p1) as (p' & found & Hrun & Hfd); [by rewrite <-app_assoc|cbn in Hf; lia|]. exists p', found.
    unfold mbind, M_bind. rewrite (next_of _ _ _ _ _ _ Hok Hl). split; [exact Hrun|]. destruct found as [[a r]|]; [|done].
    destruct Hfd as (q1 & y & q2 & v & -> & Hy). by exists (x :: q1), y, q2, v. }
  cbn [start stack_active]. unfold mbind at 1, M_bind at 1. rewrite He. unfold mbind at 1, M_bind at 1, lift. rewrite Hd. cbn [snd fst].
  destruct res as [err|r]; [exact Hn|]. destruct (Successful (Some r)) eqn:Es; [|exact Hn].
  exists p1, (Some (Elem x, r)). split; [done|]. exists [], x, l2, (e_value e). split_and!; try done. by apply Hs.
Qed.

(** Moving an element to the front. *)
Lemma front_move h σ l (l1 l2 : list nat) x : lists_ok h σ → σ !! l = Some (l1 ++ x :: l2) → l1 ≠ [] →
  ∃ h', MoveToFront l (Elem x) h = Some (tt, h') ∧ lists_ok h' (<[l := x :: l1 ++ l2]> σ) ∧ h_new h' = h_new h ∧ (∀ a, val h' a = val h a).
Proof.
  intros Hok Hl Hne. destruct (root_load _ _ _ _ Hok Hl) as (r & Hr & En & Ep).
  destruct (elem_load _ _ _ _ _ _ Hok Hl) as (Hx1 & _ & e & He & Eo & _).
  unfold MoveToFront, mbind, M_bind. rewrite He, Hr, En, Eo, !bool_decide_eq_false_2.
  - destruct (move_spec h σ l l1 l2 [] (l1 ++ l2) x Hok Hl eq_refl) as (h' & Hrun & H3). exists h'. by split.
  - destruct l1 as [|y l1]; [done|]. cbn. intros [= ->]. apply Hx1. by left.
  - intros Hf. by apply Hf.
Qed.

(** A lookup among the servers of a list: the servers are kept. *)
Lemma last_found req now h σ l (xs : list nat) p : lists_ok h σ → σ !! l = Some xs →
  ∃ p' res h' xs', stack_last exchange l req now p h = Some ((p', res), h') ∧
    lists_ok h' (<[l := xs']> σ) ∧ h_new h' = h_new h ∧ (∀ a, val h' a = val h a) ∧ xs' ≡ₚ xs ∧
    ∀ v, res = inr v → Successful (Some v) = true ∧ ∃ e, e ∈ order h xs ∧ served req now (la_resolver e) v.
Proof using Hx.
  intros Hok Hl. unfold stack_last, mbind, M_bind, mret, M_ret. rewrite (front_start _ _ _ _ Hok Hl).
  destruct (active_found req now h σ l Hok xs [] (h_new h) p Hl (members_bound _ _ _ _ Hok Hl)) as (p' & found & -> & Hfd). cbn [snd fst].
  destruct found as [[a r]|]; [|exists p', (inl ErrDNSNoResponse), h, xs; split_and!; try done; by rewrite insert_id].
  destruct Hfd as (p1 & x & p2 & v & -> & -> & Hv & Hsu & Hs). rewrite (front_start _ _ _ _ Hok Hl).
  assert (∀ w : Response, (inr r : derr + Response) = inr w → Successful (Some w) = true ∧ ∃ e, e ∈ order h (p1 ++ x :: p2) ∧ served req now (la_resolver e) w) as Hend.
  { intros w [= <-]. split; [done|]. exists v. split; [|done]. unfold order, values. apply list_elem_of_omap. exists x. split; [apply elem_mid|done]. }
  case_bool_decide as Hf.
  - exists p', (inr r), h, (p1 ++ x :: p2). split_and!; try done. by rewrite insert_id.
  - destruct (front_move h σ l p1 p2 x Hok Hl) as (h' & -> & Hok' & Hnew & Hval); [by intros ->|].
    exists p', (inr r), h', (x :: p1 ++ p2). split_and!; try done. by rewrite Permutation_middle.
Qed.
(** ** All resolvers *)
(** The lists after a lookup: the same elements, possibly in another order. *)
Definition kept h σ h' σ' : Prop :=
  lists_ok h' σ' ∧ h_new h' = h_new h ∧ (∀ a, val h' a = val h a) ∧ ∀ l, option_Forall2 (≡ₚ) (σ !! l) (σ' !! l).

Lemma lists_kept_refl h σ : lists_ok h σ → kept h σ h σ.
Proof. intros Hok. split_and!; try done. Qed.
Lemma lists_kept_trans h1 σ1 h2 σ2 h3 σ3 : kept h1 σ1 h2 σ2 → kept h2 σ2 h3 σ3 → kept h1 σ1 h3 σ3.
Proof.
  intros (_ & H2 & H3 & H4) (K1 & K2 & K3 & K4). split_and!; [done|congruence|intros a; by rewrite K3|]. intros l. specialize (H4 l). specialize (K4 l).
  destruct H4 as [xs ys Hxy|]; [|by inversion K4]. inversion K4 as [? zs Hyz|]; subst. constructor. by rewrite Hxy.
Qed.
Lemma order_ext h h' (xs : list nat) : (∀ a, val h' a = val h a) → order h' xs = order h xs.
Proof. intros Hv. unfold order. apply values_ext. intros y _. apply Hv. Qed.

Definition member_ok σ (m : Member) : Prop := match m with MLast l => is_Some (σ !! l) | MSystem _ => True end.
(** Where an answer comes from: a server of a list, which has addresses then, or the system. *)
Definition source h σ req now (m : Member) (v : Response) : Prop :=
  match m with
  | MLast l => Successful (Some v) = true ∧ ∃ xs e, σ !! l = Some xs ∧ e ∈ order h xs ∧ served req now (la_resolver e) v
  | MSystem ttl => System_Lookup LookupIPAddr ttl req now = inr v
  end.
Lemma member_ok_kept h σ h' σ' m : kept h σ h' σ' → member_ok σ m → member_ok σ' m.
Proof. intros (_ & _ & _ & Hk). destruct m as [l|]; [|done]. intros [xs Hl]. specialize (Hk l). rewrite Hl in Hk. inversion Hk. by eexists. Qed.
Lemma source_kept h σ h' σ' req now m v : kept h σ h' σ' → source h' σ' req now m v → source h σ req now m v.
Proof.
  intros (_ & _ & Hv & Hk). destruct m as [l|]; [|done]. intros (Hsu & xs & e & Hl & He & Hs). split; [done|]. specialize (Hk l). rewrite Hl in Hk.
  inversion Hk as [xs0 ? Hp Hl0|]; subst. exists xs0, e. split; [done|]. split; [|done]. rewrite (order_ext h h') in He by done.
  unfold order, values in *. apply list_elem_of_omap in He as (y & Hy & Hye). apply list_elem_of_omap. exists y. by rewrite Hp.
Qed.

Lemma member_found req now h σ m p : lists_ok h σ → member_ok σ m →
  ∃ p' res h' σ', stack_member exchange LookupIPAddr m req now p h = Some ((p', res), h') ∧ kept h σ h' σ' ∧ ∀ v, res = inr v → source h σ req now m v.
Proof using Hx.
  intros Hok Hm. destruct m as [l|ttl]; cbn [stack_member].
  - destruct Hm as [xs Hl]. destruct (last_found req now h σ l xs p Hok Hl) as (p' & res & h' & xs' & -> & Hok' & Hn & Hv & Hp & Hs).
    exists p', res, h', (<[l := xs']> σ). split; [done|]. split.
    + split; [done|]. split; [done|]. split; [done|]. intros l'. rewrite lookup_insert. case_decide as E; [|done]. subst l'. rewrite Hl. by constructor.
    + intros v Hr. destruct (Hs v Hr) as (Hsu & e & He & Hse). split; [done|]. by exists xs, e.
  - eexists _, _, h, σ. split; [done|]. split; [by apply lists_kept_refl|]. by intros v.
Qed.

(** The registrations of a priority resolver are left alone. *)
Definition registered (r r' : PriorityResolver (R := Member)) : Prop :=
  resolvers r' = resolvers r ∧ arrays r' = arrays r ∧ newArray r' = newArray r ∧ newEntity r' = newEntity r ∧
  ∀ i, pair_of <$> entities r' !! i = pair_of <$> entities r !! i.
Lemma registered_trans r1 r2 r3 : registered r1 r2 → registered r2 r3 → registered r1 r3.
Proof. intros (?&?&?&?&H) (?&?&?&?&K). split_and!; congruence. Qed.
Lemma registered_failed i now r : registered r (set_failed i now r).
Proof.
  split_and!; try done. intros j. cbn [set_failed entities]. rewrite lookup_alter. case_decide as E; [|done]. rewrite E. by destruct (entities r !! j).
Qed.
Lemma registered_ok r r' : registered r r' → pr_ok r → pr_ok r' ∧ listing r' = listing r.
Proof.
  intros (E1 & E2 & E3 & E4 & E5). assert (∀ i, is_Some (entities r' !! i) ↔ is_Some (entities r !! i)) as Hs.
  { intros i. rewrite <-!(fmap_is_Some pair_of). by rewrite E5. }
  assert (array r' (resolvers r') = array r (resolvers r)) as Ea by (unfold array; by rewrite E1, E2).
  assert (elems r' (resolvers r') = elems r (resolvers r)) as Ee by (unfold elems; by rewrite Ea, E1).
  intros (H1 & H2 & H3 & H4 & H5 & H6). split.
  - unfold pr_ok. rewrite Ee, Ea, E1, E2, E3, E4. split_and!; try done; intros i Hi; [apply Hs, H3, Hi|apply H4, Hs, Hi].
  - unfold listing. rewrite Ee. apply list_omap_ext. apply Forall2_same_length_lookup_2; [done|]. intros k i j Hi Hj. assert (i = j) as -> by congruence. apply E5.
Qed.

Lemma priority_found req now : ∀ ps r h σ p, lists_ok h σ →
  (∀ i, i ∈ ps → ∃ e, entities r !! i = Some e ∧ member_ok σ (resolver e)) →
  ∃ r' p' res h' σ', stack_priority exchange LookupIPAddr ps req now r p h = Some ((r', p', res), h') ∧ registered r r' ∧ kept h σ h' σ' ∧
    ∀ v, res = inr v → ∃ i e, i ∈ ps ∧ entities r !! i = Some e ∧ source h σ req now (resolver e) v.
Proof using Hx.
  induction ps as [|i ps IH]; intros r h σ p Hok Hps.
  { exists r, p, (inl ErrDNSNoResponse), h, σ. split_and!; try done; by apply lists_kept_refl. }
  destruct (Hps i) as (e & He & Hm); [by left|]. cbn [stack_priority]. unfold mbind at 1, M_bind at 1, lift. rewrite He.
  assert (∀ r1 p1 h1 σ1, registered r r1 → kept h σ h1 σ1 →
    ∃ r' p' res h' σ', stack_priority exchange LookupIPAddr ps req now r1 p1 h1 = Some ((r', p', res), h') ∧ registered r r' ∧ kept h σ h' σ' ∧
    ∀ v, res = inr v → ∃ j e, j ∈ i :: ps ∧ entities r !! j = Some e ∧ source h σ req now (resolver e) v) as Hrest.
  { intros r1 p1 h1 σ1 Hr1 Hk1. destruct (IH r1 h1 σ1 p1) as (r' & p' & res & h' & σ' & Hrun & Hr' & Hk' & Hs); [by destruct Hk1| |].
    - intros j Hj. destruct (Hps j) as (e0 & He0 & Hm0); [by right|]. destruct Hr1 as (_ & _ & _ & _ & Hp). specialize (Hp j). rewrite He0 in Hp.
      destruct (entities r1 !! j) as [e1|]; [|done]. injection Hp as _ Hres. exists e1. split; [done|]. rewrite Hres. by eapply member_ok_kept.
    - exists r', p', res, h', σ'. split; [done|]. split; [by eapply registered_trans|]. split; [by eapply lists_kept_trans|].
      intros v Hv. destruct (Hs v Hv) as (j & e1 & Hj & He1 & Hsrc). destruct Hr1 as (_ & _ & _ & _ & Hp). specialize (Hp j). rewrite He1 in Hp.
      destruct (entities r !! j) as [e2|] eqn:E2; [|done]. injection Hp as _ Hres. exists j, e2. split; [by right|]. split; [done|].
      rewrite <-Hres. by eapply source_kept. }
  assert (registered r r) as Hrr by done.
  destruct (failureTimeout e <? Sub now (failedAt e)); [|by apply (Hrest r p h σ Hrr), lists_kept_refl].
  destruct (member_found req now h σ (resolver e) p Hok Hm) as (p1 & res & h1 & σ1 & Hrun & Hk & Hs).
  unfold mbind at 1, M_bind at 1. rewrite Hrun. cbn [fst snd]. destruct res as [err|v].
  - destruct (isFailure err); apply (Hrest _ p1 h1 σ1); try done. apply registered_failed.
  - exists r, p1, (inr v), h1, σ1. split_and!; try done. intros w [= <-]. exists i, e. split; [by left|]. split; [done|]. by apply Hs.
Qed.

(** ** The builder *)
Definition builder_ok (b : Builder) σ : Prop :=
  pr_ok (priorityResolver b) ∧ lists_ok (lists b) σ ∧ (∀ prio m, (prio, m) ∈ listing (priorityResolver b) → member_ok σ m) ∧
  match root b with RCached c => ∃ es, caches c es | RPriority _ => True end.
(** The answer is one of the cache, or the zero value. *)
Definition from_cache (b : Builder) req now (v : Response) : Prop :=
  ∃ c es, root b = RCached c ∧ caches c es ∧ (v = zeroResponse ∨ (aget (keyOfReq req) now es).2 = Some v).
(** The answer is one of a registered resolver. *)
Definition from_registered (b : Builder) σ req now (v : Response) : Prop :=
  ∃ prio m, (prio, m) ∈ listing (priorityResolver b) ∧ source (lists b) σ req now m v.

Lemma below_found r h σ p req now : pr_ok r → lists_ok h σ → (∀ prio m, (prio, m) ∈ listing r → member_ok σ m) →
  ∃ r' p' res h' σ', stack_priority exchange LookupIPAddr (elems r (resolvers r)) req now r p h = Some ((r', p', res), h') ∧
    pr_ok r' ∧ listing r' = listing r ∧ kept h σ h' σ' ∧
    ∀ v, res = inr v → ∃ prio m, (prio, m) ∈ listing r ∧ source h σ req now m v.
Proof using Hx.
  intros Hpr Hok Hm. assert (∀ i e, i ∈ elems r (resolvers r) → entities r !! i = Some e → (priority e, resolver e) ∈ listing r) as Hin.
  { intros i e Hi He. unfold listing. apply list_elem_of_omap. exists i. by rewrite He. }
  destruct (priority_found req now (elems r (resolvers r)) r h σ p Hok) as (r' & p' & res & h' & σ' & Hrun & Hreg & Hk & Hs).
  { intros i Hi. pose proof Hpr as (_ & _ & H3 & _). destruct (H3 i Hi) as [e He]. exists e. split; [done|]. by eapply Hm, Hin. }
  destruct (registered_ok r r' Hreg Hpr) as [Hpr' Hl]. exists r', p', res, h', σ'. split_and!; try done.
  intros v Hv. destruct (Hs v Hv) as (i & e & Hi & He & Hsrc). exists (priority e), (resolver e). split; [by eapply Hin|done].
Qed.

(** C11: a lookup through a builder, whatever servers, system resolver and cache were configured, returns
    without a panic and leaves the same resolvers registered, with the same servers; an answer is one
    that a registered server or the system gave to this question, or one of the cache.  With a cache
    there is always an answer, which is the zero value when nothing was found. *)
Theorem lookup_from_registered (b : Builder) σ p req now : builder_ok b σ →
  ∃ b' p' res σ', Builder_Lookup exchange LookupIPAddr req now b p = Some (b', p', res) ∧ builder_ok b' σ' ∧
    listing (priorityResolver b') = listing (priorityResolver b) ∧ kept (lists b) σ (lists b') σ' ∧
    (∀ v, res = inr v → from_registered b σ req now v ∨ from_cache b req now v) ∧
    (is_Some (cachedResolver b) → ∃ v, res = inr v).
Proof using Hx.
  destruct b as [root ls nl]. intros (Hpr & Hok & Hm & Hc). unfold Builder_Lookup, from_registered. cbn [DNSBuilder.root lists] in *. destruct root as [r|c].
  - destruct (below_found r ls σ p req now Hpr Hok Hm) as (r' & p' & res & h' & σ' & -> & Hpr' & Hl & Hk & Hs). cbn [mbind option_bind].
    eexists _, p', res, σ'. split; [done|]. split.
    { split; [done|]. split; [by destruct Hk|]. split; [|done]. cbn [priorityResolver DNSBuilder.root]. rewrite Hl. intros prio m Hin. eapply member_ok_kept; [done|]. by eapply Hm. }
    split; [done|]. split; [done|]. split; [intros v Hv; left; by apply Hs|]. by intros [? ?].
  - destruct Hc as [es Hes]. set (c0 := on_below c (Some (nestedResolver c, p, ls))). assert (caches c0 es) as Hes0 by exact Hes.
    destruct (lookup_spec (below_lookup exchange LookupIPAddr) c0 es req now Hes0) as (c' & -> & Hn & _ & Hc'). cbn [mbind option_bind].
    destruct (below_found (nestedResolver c) ls σ p req now Hpr Hok Hm) as (r' & p' & res & h' & σ' & Hrun & Hpr' & Hl & Hk & Hs).
    assert (below_lookup exchange LookupIPAddr (nestedResolver c0) req now = (Some (r', p', h'), res)) as Hbl.
    { cbn [c0 on_below nestedResolver below_lookup]. by rewrite Hrun. }
    assert (∃ r1 p1 h1 σ1, nestedResolver c' = Some (r1, p1, h1) ∧ pr_ok r1 ∧ listing r1 = listing (nestedResolver c) ∧ kept ls σ h1 σ1) as (r1 & p1 & h1 & σ1 & Hn1 & Hpr1 & Hl1 & Hk1).
    { rewrite Hn. unfold answer. rewrite Hbl. assert ((∃ r1 p1 h1 σ1, nestedResolver c0 = Some (r1, p1, h1) ∧ pr_ok r1 ∧ listing r1 = listing (nestedResolver c) ∧ kept ls σ h1 σ1)) as H0.
      { exists (nestedResolver c), p, ls, σ. split; [done|]. split; [done|]. split; [done|]. by apply lists_kept_refl. }
      assert ((∃ r1 p1 h1 σ1, Some (r', p', h') = Some (r1, p1, h1) ∧ pr_ok r1 ∧ listing r1 = listing (nestedResolver c) ∧ kept ls σ h1 σ1)) as H1.
      { exists r', p', h', σ'. by split_and!. }
      repeat case_match; simplify_eq/=; done. }
    rewrite Hn1. cbn [mbind option_bind]. eexists _, p1, _, σ1. split; [done|]. split.
    { split; [done|]. split; [by destruct Hk1|]. split; [|by eexists]. cbn [priorityResolver DNSBuilder.root on_below nestedResolver]. rewrite Hl1. intros prio m Hin. eapply member_ok_kept; [done|]. by eapply Hm. }
    split; [done|]. split; [done|]. split; [|by eauto]. intros v [= <-]. unfold answer. rewrite Hbl.
    destruct (aget (keyOfReq req) now es).2 as [w|] eqn:Eg; [destruct (Expired w now)|]; [destruct res as [err|u]| |destruct res as [err|u]]; cbn [snd].
    all: first [left; by apply Hs|right; exists c, es; split; [done|]; split; [done|]; rewrite ?Eg; by (left + right)].
Qed.
End stack.

(** ** Builders that were put together with the methods of the builder *)
Section built.
Context {P : Type} (grow : nat → nat → nat) (addr_string : Addr → bytes).
Implicit Types (o : options P) (b : Builder) (σ : gmap nat (list nat)).

(** Resolvers are registered in ascending order of priority (see [priority_add_broken] for
    what happens otherwise), caches have room, and there is memory for the servers. *)
Inductive built : Builder → Prop :=
  | built_new : built NewBuilder
  | built_cache o now b : built b → 1 ≤ cacheMaxSize o → built (WithCache o now b)
  | built_system prio o b : built b → (∀ x, x ∈ listing (priorityResolver b) → x.1 ≤ prio) → built (WithSystem grow prio o b)
  | built_servers prio servers o b b' : built b → (∀ x, x ∈ listing (priorityResolver b) → x.1 ≤ prio) →
      Z.of_nat (h_new (lists b) + length servers) < 2 ^ 63 - 1 → WithDNSServers grow addr_string prio servers o b = Some b' → built b'.

Lemma With_registers prio m timeout (r : PriorityResolver (R := Member)) : pr_ok r → (∀ x, x ∈ listing r → x.1 ≤ prio) →
  pr_ok (With grow prio m timeout r) ∧ ∀ x, x ∈ listing (With grow prio m timeout r) → x = (prio, m) ∨ x ∈ listing r.
Proof.
  intros Hok Hle. destruct (add_spec grow prio m timeout true r Hok Hle) as [H1 H2]. unfold With.
  destruct (list_find (λ x, x.1 = prio) (listing r)) as [[i [q old]]|] eqn:E.
  - apply list_find_Some in E as (Hi & Hq & Hno). cbn in Hq. subst q. destruct (H2 (take i (listing r)) old (skipn (S i) (listing r)) eq_refl) as [Hok' Hl].
    + by rewrite take_drop_middle.
    + intros x Hx. apply elem_of_take in Hx as (j & Hj & Hlt). by apply (Hno j x).
    + split; [done|]. intros x. rewrite Hl, elem_of_app, elem_of_cons. intros [Hx|[->|Hx]]; [|by left|].
      * right. apply elem_of_take in Hx as (j & Hj & _). by eapply list_elem_of_lookup_2.
      * right. eapply elem_of_submseteq; [exact Hx|]. apply sublist_submseteq, sublist_drop.
  - apply list_find_None in E. destruct H1 as [Hok' Hl]. { left. intros x Hx. by eapply Forall_forall in E. }
    split; [done|]. intros x. rewrite Hl, elem_of_app, list_elem_of_singleton. tauto.
Qed.
Lemma addServers_ok o l (servers : list Addr) : ∀ b σ, lists_ok (lists b) σ → is_Some (σ !! l) → Z.of_nat (h_new (lists b) + length servers) < 2 ^ 63 - 1 →
  ∃ b' xs', addServers addr_string (MLast l) o servers b = Some b' ∧ root b' = root b ∧ newList b' = newList b ∧ lists_ok (lists b') (<[l := xs']> σ).
Proof.
  induction servers as [|s servers IH]; intros b σ Hok [xs Hl] Hsm; [exists b, xs; cbn; by rewrite insert_id|]. cbn [addServers length] in *.
  destruct (la_add_spec (lists b) σ l xs (h_new (lists b)) (addr_string s) (NewDirectResolver s o) true Hok Hl ltac:(unfold small; lia) (members_bound _ _ _ _ Hok Hl)) as [H1 H2].
  assert (∃ r h ys, la_add (h_new (lists b)) l (addr_string s) (NewDirectResolver s o) true (lists b) = Some (r, h) ∧ lists_ok h (<[l := ys]> σ) ∧ (h_new h ≤ S (h_new (lists b)))%nat)
    as (r & h & ys & -> & Hok' & Hn).
  { destruct (decide (addr_string s ∈ (tag <$> order (lists b) xs))) as [Hin|Hnin].
    - destruct (H2 Hin) as (_ & _ & _ & _ & _ & _ & h & Hrun & Hok' & _ & Hn). exists None, h, xs. rewrite insert_id by done. split; [done|]. split; [done|lia].
    - destruct (H1 Hnin) as (h & Hrun & Hok' & _ & _ & Hn). exists None, h, (xs ++ [h_new (lists b)]). split; [done|]. split; [done|lia]. }
  cbn [mbind option_bind snd]. destruct (IH (mkBuilder (root b) h (newList b)) (<[l := ys]> σ) Hok') as (b' & zs & Hrun & Hr & Hnl & Hok2);
    [by rewrite lookup_insert_eq|cbn [lists]; lia|]. exists b', zs. rewrite insert_insert_eq in Hok2. done.
Qed.

Lemma get_listed prio (r : PriorityResolver (R := Member)) m : pr_ok r → Get prio r = inr m → (prio, m) ∈ listing r.
Proof.
  intros (_ & _ & H3 & _). unfold Get. destruct (list_find _ (ordered r)) as [[i [q e]]|] eqn:E; [|done]. intros [= <-].
  apply list_find_Some in E as (Hi & Hp & _). cbn in Hp. apply list_elem_of_lookup_2 in Hi. unfold ordered in Hi. apply list_elem_of_omap in Hi as (q' & Hq & Hqe).
  destruct (entities r !! q') as [e'|] eqn:E'; [|done]. injection Hqe as <- <-. unfold listing. apply list_elem_of_omap. exists q'. split; [done|]. rewrite E'. cbn. unfold pair_of. by rewrite Hp.
Qed.

Definition build_inv b σ : Prop := builder_ok b σ ∧ ∀ l, is_Some (σ !! l) → (l < newList b)%nat.
Lemma member_ok_insert σ l (xs : list nat) m : member_ok σ m → member_ok (<[l := xs]> σ) m.
Proof. destruct m as [l'|]; [|done]. intros [ys Hl]. cbn. rewrite lookup_insert. case_decide; by eexists. Qed.
Lemma set_priority_ok b σ r : builder_ok b σ → pr_ok r → (∀ prio m, (prio, m) ∈ listing r → member_ok σ m) → builder_ok (set_priority r b) σ.
Proof. intros (_ & Hok & _ & Hc) Hpr Hm. unfold builder_ok, priorityResolver, set_priority in *. destruct (root b); cbn in *; by split_and!. Qed.
Lemma priority_set r b : priorityResolver (set_priority r b) = r.
Proof. unfold priorityResolver, set_priority. by destruct (root b). Qed.

(** The servers are added to a list that is there. *)
Lemma servers_inv o l (servers : list Addr) b σ b' : build_inv b σ → is_Some (σ !! l) → Z.of_nat (h_new (lists b) + length servers) < 2 ^ 63 - 1 →
  addServers addr_string (MLast l) o servers b = Some b' → ∃ σ', build_inv b' σ'.
Proof.
  intros [(Hpr & Hok & Hm & Hc) Hl] Hs Hsm Hrun. destruct (addServers_ok o l servers b σ Hok Hs Hsm) as (b1 & xs & Hrun' & Hr & Hn & Hok').
  rewrite Hrun in Hrun'. injection Hrun' as <-. exists (<[l := xs]> σ). split.
  - unfold builder_ok, priorityResolver in *. rewrite Hr. split_and!; try done. intros prio m Hin. eapply member_ok_insert, Hm, Hin.
  - intros l'. rewrite lookup_insert, Hn. case_decide as E; [|apply Hl]. subst. intros _. by apply Hl.
Qed.

Lemma built_inv b : built b → ∃ σ, build_inv b σ.
Proof.
  induction 1 as [|o now b _ (σ & [Hb Hl]) Hmax|prio o b _ (σ & [Hb Hl]) Hle|prio servers o b b' _ (σ & [Hb Hl]) Hle Hsm Hrun].
  - exists ∅. split; [|intros l [? ?]; done]. split_and!; [|apply empty_heap_ok|by intros ? ? ?%elem_of_nil|done].
    apply new_ok.
  - exists σ. unfold WithCache. destruct (root b) as [r|c] eqn:Er; [|done]. split; [|done]. destruct Hb as (Hpr & Hok & Hm & _).
    unfold builder_ok, priorityResolver in *. rewrite Er in *. cbn. split_and!; try done. exists []. exists []. split; [by apply New_inv|done].
  - exists σ. unfold WithSystem. pose proof Hb as (Hpr & _ & Hm & _).
    destruct (With_registers prio (MSystem (systemTtl o)) (priorityFailureTimeout o) _ Hpr Hle) as [Hpr' Hin]. split; [|done].
    apply set_priority_ok; [done..|]. intros q m Hq. destruct (Hin _ Hq) as [[= -> ->]|Hq']; [done|]. by eapply Hm.
  - pose proof Hb as (Hpr & Hok & Hm & _). unfold WithDNSServers in Hrun. destruct (Get prio (priorityResolver b)) as [err|m] eqn:Eg.
    + destruct (New_spec no_entity (lists b) σ (newList b) Hok) as (h & En & Hok' & Hn & _).
      { destruct (σ !! newList b) eqn:E; [|done]. specialize (Hl (newList b) ltac:(by eexists)). lia. }
      unfold NewLastActive in Hrun. rewrite En in Hrun. cbn [mbind option_bind snd] in Hrun.
      set (b1 := mkBuilder (root b) h (S (newList b))) in *. destruct (With_registers prio (MLast (newList b)) (priorityFailureTimeout o) _ Hpr Hle) as [Hpr' Hin].
      refine (servers_inv o (newList b) servers _ (<[newList b := []]> σ) b' _ _ _ Hrun).
      * split; [|intros l; rewrite lookup_insert; unfold set_priority, b1; cbn [newList]; case_decide; [lia|intros Hs; apply Hl in Hs; lia]].
        apply (set_priority_ok _ (<[newList b := []]> σ)); [|done|].
        -- destruct Hb as (_ & _ & _ & Hc). split_and!; try done. intros q m Hq. eapply member_ok_insert, Hm, Hq.
        -- intros q m Hq. destruct (Hin _ Hq) as [[= -> ->]|Hq']; [cbn; by rewrite lookup_insert_eq|]. eapply member_ok_insert, Hm, Hq'.
      * by rewrite lookup_insert_eq.
      * cbn [lists set_priority b1]. by rewrite Hn.
    + destruct m as [l|ttl]; [|destruct servers; [injection Hrun as <-; by exists σ|done]].
      eapply servers_inv; [by split| |exact Hsm|exact Hrun]. exact (Hm prio _ (get_listed _ _ _ Hpr Eg)).
Qed.
End built.

(** ** A concrete builder: two servers, then the system, behind a cache *)
Definition no_system (_ : bytes) : sysErr + list bytes := inl (DNSError false true 0).
Definition with_servers : Builder :=
  default NewBuilder (WithDNSServers doubles (λ a, a) 10 [[1; 1; 1; 1]; [8; 8; 8; 8]] Defaults NewBuilder).
Definition whole : Builder := WithCache Defaults 0 (WithSystem doubles 20 Defaults with_servers).
Lemma whole_built : built (P := Dummy) doubles (λ a, a) whole.
Proof.
  apply built_cache; [|by vm_compute]. apply built_system.
  - apply (built_servers _ _ 10 [[1; 1; 1; 1]; [8; 8; 8; 8]] Defaults NewBuilder); [constructor|by intros x ?%elem_of_nil|by vm_compute|by vm_compute].
  - assert (listing (priorityResolver with_servers) = [(10, MLast 0)]) as -> by (by vm_compute). intros x ->%list_elem_of_singleton. done.
Qed.

Lemma lookup_from_registered_witness :
  ∃ b' p' v, Builder_Lookup (P := Dummy) replies no_system a_req 100000 whole dummy = Some (b', p', inr v).
Proof.
  destruct (built_inv _ _ _ whole_built) as (σ & Hb & _).
  destruct (lookup_from_registered (P := Dummy) replies no_system replies_ok whole σ dummy a_req 100000 Hb) as (b' & p' & res & σ' & Hr & _ & _ & _ & _ & Hv).
  destruct (Hv ltac:(by eexists)) as [v Ev]. exists b', p', v. rewrite <-Ev. exact Hr.
Defined.
Example whole_lookup :
  (λ '(b, p, res), (res, (λ '(b, p, res), res) <$> Builder_Lookup (P := Dummy) (λ _ _ _, (None, Some 1)) no_system a_req (60 * Second_) b p)) <$>
    Builder_Lookup (P := Dummy) replies no_system a_req (16 * Second_) whole dummy =
  Some (inr (mkResponse true [[10; 0; 0; 1]; [10; 0; 0; 2]] (76 * Second_) true), Some (inr (mkResponse true [[10; 0; 0; 1]; [10; 0; 0; 2]] (76 * Second_) true))).
Proof. by vm_compute. Qed.
