(* ===== verification/DomainBase.v ===== *)
(** * xdns/server/dnsbase: the tree of blocked domains

    Models [src/xdns/server/dnsbase/nextdns.go]: a table of rows (id, parent, name,
    category) holds a tree of domain parts, top-level domain first.  The four SQL
    statements of the code are functions on the table, with the constraints of
    [schemaSQL]; a new row gets the next free id, as SQLite's integer primary keys
    do.  Failures of the database itself (I/O, locks) are not modelled. *)
From S2P Require Import Prelude Text.

Local Open Scope Z_scope.

Inductive berr :=
  | ErrInvalidName | ErrNoRows | ErrNoMatches | ErrInvalidDomain | ErrEmptyCategories | ErrAlreadyExists
  | ErrUnique | ErrRowsAffected.

Definition dot : Z := 46.
Definition comma : Z := 44.
Definition star : bytes := [42].

(** ** Categories: [None] is a nil slice, or NULL in the table *)
Definition Categories := option (list bytes).

Definition Categories_Value (c : Categories) : option bytes :=
  match c with
  | None | Some [] => None
  | Some c => Some (Join comma c)
  end.

(** Scanning into a nil slice. *)
Definition Categories_Scan (v : option bytes) : Categories :=
  match v with
  | None => None
  | Some s => if 0 <? zlen s then Some (Split comma s) else None
  end.

(** [Domain]; [Parent] is a chain of records. *)
Inductive Domain := mkDomain {
  ID : Z; ParentID : Z; Name : bytes; Cats : Categories; Parent : option Domain }.

Definition set_Parent (d p : Domain) : Domain := mkDomain (ID d) (ParentID d) (Name d) (Cats d) (Some p).

Fixpoint chain (d : Domain) : list bytes :=
  Name d :: match Parent d with Some p => chain p | None => [] end.
Definition Unchain (d : Domain) : bytes := Join dot (chain d).

Definition isChild (d : Domain) : bool := bool_decide (is_Some (Cats d)).

(** ** The table *)
Record row := mkRow { r_id : Z; r_parent : Z; r_name : bytes; r_category : option bytes }.
Abbreviation table := (list row).

Definition select (t : table) (name : bytes) (parentID : Z) : option row :=
  snd <$> list_find (λ r, r_name r = name ∧ r_parent r = parentID) t.

(** The next integer primary key. *)
Definition nextRowid (t : table) : Z := foldr (λ r n, Z.max (r_id r + 1) n) 1 t.

(** "SELECT id, category ..." into a [Domain] *)
Definition lookupRecord (t : table) (name : bytes) (parentID : Z) : berr + Domain :=
  match select t name parentID with
  | Some r => inr (mkDomain (r_id r) parentID name (Categories_Scan (r_category r)) None)
  | None => inl ErrNoRows
  end.

(** "insert ...": refused by the unique index on (parent_id, name). *)
Definition insertRecord (t : table) (name : bytes) (parentID : Z) (cats : Categories) : berr + (table * Z) :=
  match select t name parentID with
  | Some _ => inl ErrUnique
  | None => let id := nextRowid t in inr (t ++ [mkRow id parentID name (Categories_Value cats)], id)
  end.

(** "update ... where id = ?"; [Panic] for the two assertions. *)
Definition updateRecordCategories (t : table) (id : Z) (newCats : list bytes) : go berr table :=
  if id =? 0 then Panic else
  if zlen newCats =? 0 then Panic else
  let t' := (λ r, if r_id r =? id then mkRow (r_id r) (r_parent r) (r_name r) (Categories_Value (Some newCats)) else r) <$> t in
  if zlen (filter (λ r, r_id r = id) t) =? 1 then Ok t' else Err ErrRowsAffected.

(** "DELETE ... where id = ?" *)
Definition Delete (t : table) (id : Z) : table := filter (λ r, r_id r ≠ id) t.

(** [s[len(s)-1]] panics on the empty string. *)
Definition normalizeDomain (s : bytes) : go berr bytes :=
  match last s with
  | None => Panic
  | Some b => Ok (if b =? dot then removelast s else s)
  end.

(** ** Reading *)

(** The loop of [Lookup] over the parts left of the top-level domain, right to left. *)
Fixpoint lookupLoop (t : table) (parts : list bytes) (parent : Domain) (wildcard : option Domain) : berr + Domain :=
  match parts with
  | [] => if negb (isChild parent) then inl ErrNoMatches else inr parent
  | part :: parts =>
      let exact := lookupRecord t part (ID parent) in
      let wildcard := match lookupRecord t star (ID parent) with inr wc => Some wc | inl _ => wildcard end in
      match exact with
      | inl e => match wildcard with Some wc => inr (set_Parent wc parent) | None => inl e end
      | inr sub => lookupLoop t parts (set_Parent sub parent) wildcard
      end
  end.

Definition Lookup (t : table) (name : bytes) : go berr Domain :=
  if zlen name <? 2 then Err ErrInvalidName else
  name ← normalizeDomain name;
  match reverse (Split dot name) with
  | parentName :: ((_ :: _) as parts) =>
      match lookupRecord t parentName 0 with
      | inl e => Err e
      | inr parent => match lookupLoop t parts parent None with inl e => Err e | inr d => Ok d end
      end
  | _ => Err ErrInvalidName
  end.

(** ** Writing *)

Definition validateDomain (parts : list bytes) : option berr :=
  if zlen parts <? 2 then Some ErrInvalidDomain
  else if bool_decide (star ∈ drop 1 parts) then Some ErrInvalidDomain else None.

(** The loop of [Write], right to left; the record of the leftmost part is the child. *)
Fixpoint writeLoop (t : table) (parts : list bytes) (parentID : Z) (cats : list bytes) : berr + (table * Z) :=
  match parts with
  | [] => inr (t, parentID)
  | part :: parts =>
      match lookupRecord t part parentID with
      | inl _ =>
          match insertRecord t part parentID (match parts with [] => Some cats | _ => None end) with
          | inl e => inl e
          | inr (t, pid) => writeLoop t parts pid cats
          end
      | inr dom =>
          if match parts with [] => isChild dom | _ => false end then inl ErrAlreadyExists
          else writeLoop t parts (ID dom) cats
      end
  end.

(** The transaction: an error rolls back, so only [Ok] changes the table. *)
Definition Write (t : table) (domain : bytes) (cats : list bytes) : go berr table :=
  domain ← normalizeDomain domain;
  let parts := Split dot domain in
  match validateDomain parts with
  | Some e => Err e
  | None =>
      if zlen cats =? 0 then Err ErrEmptyCategories else
      match writeLoop t (reverse parts) 0 cats with
      | inl e => Err e
      | inr (t, parentID) => updateRecordCategories t parentID cats
      end
  end.

(** ** Opening and closing *)
Section files.
(** The file system and the driver: [os.Stat], [sql.Open], [db.Exec] of the schema and
    [db.Close]; [Some e] is an error. *)
Context {E Handle : Type} (Stat : bytes → option E) (Open : bytes → E + Handle) (ExecSchema : Handle → option E) (CloseDB : Handle → option E).
Inductive dberr := ErrStat (path : bytes) (e : E) | ErrOpen (path : bytes) (e : E) | ErrMigrate (e : E).
Definition NewReader (path : bytes) : dberr + Handle :=
  match Stat path with
  | Some e => inl (ErrStat path e)
  | None =>
      match Open (txt "file:" ++ path ++ txt "?cache=shared&mode=ro&_cache_size=1000000&immutable=true&_journal_mode=OFF") with
      | inl e => inl (ErrOpen path e)
      | inr db => inr db
      end
  end.
Definition reader_Close (r : Handle) : unit := let _ := CloseDB r in tt.
Definition NewWriter (path : bytes) : dberr + Handle :=
  match Open (txt "file:" ++ path ++ txt "?_journal=MEMORY&mode=rwc") with
  | inl e => inl (ErrOpen path e)
  | inr db => match ExecSchema db with Some e => inl (ErrMigrate e) | None => inr db end
  end.
Definition writer_Close (w : Handle) : option E := CloseDB w.
End files.

(** [strings.Contains] *)
Fixpoint contains (s sub : bytes) : bool :=
  hasPrefix sub s || match s with [] => false | _ :: s => contains s sub end.
(** On the text of the driver's error. *)
Definition isUniqueConstraintError (s : bytes) : bool := contains s (txt "UNIQUE constraint failed").

(** [fmt]'s text of a slice of strings is its elements between brackets. *)
Definition Domain_String (d : Domain) : bytes :=
  txt "id=" ++ itoa (ID d) ++ txt ": " ++ Unchain d ++ txt " (p=" ++ itoa (ParentID d) ++ txt ", cat=[" ++ Join 32 (default [] (Cats d)) ++ txt "])".
