(* ===== verification/DomainBaseProps.v ===== *)
(** * xdns/server/dnsbase: what is written is found *)
From S2P Require Import Prelude Text DomainBase.

Local Open Scope Z_scope.

(** The constraints of the schema: ids are positive and unique, and so are the
    pairs of parent and name. *)
Definition key (r : row) : bytes * Z := (r_name r, r_parent r).
Definition table_ok (t : table) : Prop :=
  NoDup (r_id <$> t) ∧ NoDup (key <$> t) ∧ Forall (λ r, 1 ≤ r_id r) t.

(** Following exact names from a parent: the row at the end. *)
Fixpoint walk (t : table) (parent : Z) (parts : list bytes) : option row :=
  match parts with
  | [] => None
  | [p] => select t p parent
  | p :: parts => r ← select t p parent; walk t (r_id r) parts
  end.

(** ** The statements *)
Lemma select_in t name parent r : select t name parent = Some r → r ∈ t ∧ r_name r = name ∧ r_parent r = parent.
Proof.
  unfold select. destruct (list_find _ t) as [[i r']|] eqn:E; [|done]. cbn. intros [= ->].
  apply list_find_Some in E as (Hi & [? ?] & _). split; [by eapply list_elem_of_lookup_2|done].
Qed.

Lemma select_unique t r : table_ok t → r ∈ t → select t (r_name r) (r_parent r) = Some r.
Proof.
  intros (_ & Hk & _) Hr. destruct (select t (r_name r) (r_parent r)) as [r'|] eqn:E.
  - destruct (select_in _ _ _ _ E) as (Hr' & En & Ep). f_equal.
    apply list_elem_of_lookup in Hr as [i Hi]. apply list_elem_of_lookup in Hr' as [j Hj].
    assert (i = j) as ->; [|congruence]. eapply (NoDup_lookup (key <$> t)); [done|by rewrite list_lookup_fmap, Hi|].
    rewrite list_lookup_fmap, Hj. cbn. unfold key. congruence.
  - unfold select in E. destruct (list_find _ t) as [[]|] eqn:E'; [done|]. apply list_find_None in E'.
    rewrite Forall_forall in E'. by destruct (E' r Hr).
Qed.

Lemma select_none t name parent : select t name parent = None → (name, parent) ∉ (key <$> t).
Proof.
  intros E (r & Ek & Hr)%list_elem_of_fmap. unfold key in Ek. injection Ek as -> ->.
  unfold select in E. destruct (list_find _ t) as [[]|] eqn:E'; [done|]. apply list_find_None in E'.
  rewrite Forall_forall in E'. by destruct (E' r Hr).
Qed.

Lemma nextRowid_fresh t : 1 ≤ nextRowid t ∧ ∀ r, r ∈ t → r_id r < nextRowid t.
Proof.
  unfold nextRowid. induction t as [|r t [IH1 IH2]]; cbn [foldr]; [split; [lia|]; intros r Hr; by apply not_elem_of_nil in Hr|].
  split; [lia|]. intros r' [->|Hr']%elem_of_cons; [lia|]. specialize (IH2 _ Hr'). lia.
Qed.

(** A new row at the end. *)
Lemma insert_ok t name parent cat :
  table_ok t → select t name parent = None →
  let r := mkRow (nextRowid t) parent name cat in
  table_ok (t ++ [r]) ∧ select (t ++ [r]) name parent = Some r.
Proof.
  intros (Hi & Hk & Hp) Hs r. destruct (nextRowid_fresh t) as [H1 H2].
  assert (table_ok (t ++ [r])) as Hok.
  { split_and!.
    - rewrite fmap_app. apply NoDup_app. split_and!; [done| |apply NoDup_singleton].
      intros i (r' & -> & Hr')%list_elem_of_fmap E%list_elem_of_singleton. specialize (H2 _ Hr'). cbn in E. lia.
    - rewrite fmap_app. apply NoDup_app. split_and!; [done| |apply NoDup_singleton].
      intros k Hkt ->%list_elem_of_singleton. by apply (select_none _ _ _ Hs).
    - apply Forall_app. split; [done|]. by constructor. }
  split; [done|]. apply (select_unique (t ++ [r]) r Hok). apply elem_of_app. right. by left.
Qed.

(** [t'] extends [t]: the rows of [t] are still selected as they were. *)
Definition extends (t t' : table) : Prop := ∀ name parent r, select t name parent = Some r → select t' name parent = Some r.

Lemma insert_extends t r : extends t (t ++ [r]).
Proof.
  intros name parent r' H. unfold select in *. destruct (list_find _ t) as [[i x]|] eqn:E; [|done].
  by rewrite (list_find_app_l _ _ _ _ _ E).
Qed.

Lemma walk_extends t t' parts : extends t t' → ∀ parent r, walk t parent parts = Some r → walk t' parent parts = Some r.
Proof.
  intros Hx. induction parts as [|p [|q parts] IH]; intros parent r H; [done|by apply Hx|].
  cbn [walk] in *. destruct (select t p parent) as [x|] eqn:E; [|done]. rewrite (Hx _ _ _ E). by apply IH.
Qed.

(** The update of one row's category. *)
Definition recat (id : Z) (cat : option bytes) (r : row) : row :=
  if r_id r =? id then mkRow (r_id r) (r_parent r) (r_name r) cat else r.

Lemma recat_same id cat r : r_id (recat id cat r) = r_id r ∧ key (recat id cat r) = key r.
Proof. unfold recat. by destruct (r_id r =? id). Qed.

Lemma recat_ok id cat t : table_ok t → table_ok (recat id cat <$> t).
Proof.
  intros (Hi & Hk & Hp). split_and!.
  - rewrite <-list_fmap_compose. erewrite list_fmap_ext; [exact Hi|]. intros i r _. apply recat_same.
  - rewrite <-list_fmap_compose. erewrite list_fmap_ext; [exact Hk|]. intros i r _. apply recat_same.
  - apply Forall_fmap. eapply Forall_impl; [exact Hp|]. intros r. cbn. by rewrite (proj1 (recat_same id cat r)).
Qed.

Lemma recat_select id cat t name parent : table_ok t →
  select (recat id cat <$> t) name parent = recat id cat <$> select t name parent.
Proof.
  intros Hok. destruct (select t name parent) as [r|] eqn:E; cbn.
  - destruct (select_in _ _ _ _ E) as (Hr & <- & <-). destruct (recat_same id cat r) as [_ Ek]. unfold key in Ek.
    injection Ek as <- <-. apply select_unique; [by apply recat_ok|by apply list_elem_of_fmap_2].
  - destruct (select (recat id cat <$> t) name parent) as [r|] eqn:E'; [|done].
    destruct (select_in _ _ _ _ E') as ((x & -> & Hx)%list_elem_of_fmap & Hn & Hp).
    destruct (select_none _ _ _ E). apply list_elem_of_fmap. exists x. split; [|done].
    rewrite <-(proj2 (recat_same id cat x)). unfold key. by rewrite Hn, Hp.
Qed.

Lemma recat_walk id cat t parts : table_ok t → ∀ parent,
  walk (recat id cat <$> t) parent parts = recat id cat <$> walk t parent parts.
Proof.
  intros Hok. induction parts as [|p [|q parts] IH]; intros parent; [done|by apply recat_select|].
  cbn [walk] in *. rewrite recat_select by done. destruct (select t p parent) as [r|]; [|done]. cbn.
  rewrite (proj1 (recat_same id cat r)). apply IH.
Qed.

(** ** Writing *)
Lemma writeLoop_spec cats parts : ∀ t parent t' id,
  table_ok t → parts ≠ [] → writeLoop t parts parent cats = inr (t', id) →
  table_ok t' ∧ extends t t' ∧ ∃ r, walk t' parent parts = Some r ∧ r_id r = id.
Proof.
  induction parts as [|p parts IH]; intros t parent t' id Hok Hne Hw; [done|]. cbn [writeLoop] in Hw.
  assert (∀ t1 r, table_ok t1 → extends t t1 → select t1 p parent = Some r → writeLoop t1 parts (r_id r) cats = inr (t', id) →
    table_ok t' ∧ extends t t' ∧ ∃ r, walk t' parent (p :: parts) = Some r ∧ r_id r = id) as Hgo.
  { intros t1 r Hok1 Hx1 Hs1 Hrun. destruct parts as [|q parts].
    - cbn in Hrun. injection Hrun as <- <-. split_and!; try done. by exists r.
    - destruct (IH t1 (r_id r) t' id Hok1) as (Hok' & Hx' & x & Hwalk & Hid); [done..|].
      split_and!; [done|intros n k y Hy; by apply Hx', Hx1|]. exists x. split; [|done].
      cbn [walk] in *. by rewrite (Hx' _ _ _ Hs1). }
  unfold lookupRecord in Hw. destruct (select t p parent) as [r|] eqn:E.
  - cbn [ID] in Hw. destruct (match parts with [] => _ | _ => false end); [done|].
    apply (Hgo t r); [done|by intros ? ? ?|done|exact Hw].
  - unfold insertRecord in Hw. rewrite E in Hw. cbn [ID] in Hw.
    destruct (insert_ok t p parent (Categories_Value (match parts with [] => Some cats | _ => None end)) Hok E) as [Hok1 Hs1].
    eapply Hgo; [exact Hok1|apply insert_extends|exact Hs1|]. exact Hw.
Qed.

(** A row that was there before and gets the categories had none. *)
Lemma writeLoop_target cats parts : ∀ t parent t' id r,
  table_ok t → parts ≠ [] → writeLoop t parts parent cats = inr (t', id) →
  r ∈ t → r_id r = id → Categories_Scan (r_category r) = None.
Proof.
  assert (∀ t r r', table_ok t → r ∈ t → r' ∈ t → r_id r = r_id r' → r = r') as Huniq.
  { intros t r r' (Hi & _) [i Hr]%list_elem_of_lookup [j Hr']%list_elem_of_lookup E.
    assert (i = j) as ->; [|congruence]. eapply (NoDup_lookup (r_id <$> t)); [done|by rewrite list_lookup_fmap, Hr|].
    rewrite list_lookup_fmap, Hr'. cbn. congruence. }
  induction parts as [|p parts IH]; intros t parent t' id r Hok Hne Hw Hr Hid; [done|]. cbn [writeLoop] in Hw.
  unfold lookupRecord in Hw. destruct (select t p parent) as [x|] eqn:E.
  - cbn [ID] in Hw. destruct parts as [|q parts].
    + unfold isChild in Hw. cbn [Cats] in Hw. case_bool_decide as Hc; [done|]. cbn in Hw. injection Hw as <- <-.
      destruct (select_in _ _ _ _ E) as (Hx & _). rewrite (Huniq t r x Hok Hr Hx Hid). by apply eq_None_not_Some.
    + by apply (IH t (r_id x) t' id r).
  - unfold insertRecord in Hw. rewrite E in Hw. cbn [ID] in Hw.
    set (new := mkRow (nextRowid t) parent p (Categories_Value (match parts with [] => Some cats | _ => None end))) in *.
    destruct parts as [|q parts].
    + cbn in Hw. injection Hw as <- <-. pose proof (proj2 (nextRowid_fresh t) r Hr). lia.
    + apply (IH (t ++ [new]) (nextRowid t) t' id r); [|done|exact Hw|apply elem_of_app; by left|done].
      by apply insert_ok.
Qed.

Lemma update_spec t r cats : table_ok t → r ∈ t → cats ≠ [] →
  updateRecordCategories t (r_id r) cats = Ok (recat (r_id r) (Categories_Value (Some cats)) <$> t).
Proof.
  intros (Hi & _ & Hp) Hr Hc. unfold updateRecordCategories. rewrite Forall_forall in Hp. specialize (Hp r Hr).
  rewrite (proj2 (Z.eqb_neq _ _)) by lia. rewrite (proj2 (Z.eqb_neq (zlen cats) 0)) by (by destruct cats).
  assert (filter (λ x, r_id x = r_id r) t = [r]) as ->; [|done].
  clear Hp. induction t as [|x t IH]; [by apply not_elem_of_nil in Hr|]. cbn in Hi. apply NoDup_cons in Hi as [Hx Hi].
  apply elem_of_cons in Hr as [->|Hr].
  - rewrite filter_cons_True by done. f_equal. apply filter_none. apply Forall_forall. intros y Hy E. apply Hx.
    rewrite <-E. by apply list_elem_of_fmap_2.
  - rewrite filter_cons_False; [by apply IH|]. intros E. apply Hx. rewrite E. by apply list_elem_of_fmap_2.
Qed.

(** ** Reading *)
Lemma lookupLoop_spec t parts : ∀ parent wc r c,
  walk t (ID parent) parts = Some r → Categories_Scan (r_category r) = Some c →
  ∃ d, lookupLoop t parts parent wc = inr d ∧ Cats d = Some c ∧ chain d = reverse parts ++ chain parent.
Proof.
  induction parts as [|p parts IH]; intros parent wc r c Hw Hc; [done|]. cbn [lookupLoop].
  destruct parts as [|q parts].
  - cbn [walk] in Hw. unfold lookupRecord at 1. rewrite Hw. cbn [lookupLoop isChild set_Parent Cats]. rewrite Hc. cbn.
    eexists. split; [done|]. split; [done|]. by destruct parent.
  - change (walk t (ID parent) (p :: q :: parts)) with (r ← select t p (ID parent); walk t (r_id r) (q :: parts)) in Hw.
    destruct (select t p (ID parent)) as [x|] eqn:E; [|done]. cbn in Hw.
    unfold lookupRecord at 1. rewrite E.
    set (d := set_Parent (mkDomain (r_id x) (ID parent) p (Categories_Scan (r_category x)) None) parent).
    destruct (IH d (match lookupRecord t star (ID parent) with inr wc => Some wc | inl _ => wc end) r c Hw Hc) as (d' & -> & Hd & Hch).
    exists d'. split_and!; [done..|]. rewrite Hch, (reverse_cons (q :: parts) p), <-app_assoc. by destruct parent.
Qed.

(** The domain is in the table with its own categories. *)
Definition listed (t : table) (name : bytes) (c : list bytes) : Prop :=
  ∃ r, walk t 0 (reverse (Split dot name)) = Some r ∧ Categories_Scan (r_category r) = Some c.

(** Categories that survive being stored as text. *)
Definition storable (cats : list bytes) : Prop := cats ≠ [] ∧ cats ≠ [[]] ∧ Forall (λ s, comma ∉ s) cats.

Lemma categories_roundtrip cats : storable cats → Categories_Scan (Categories_Value (Some cats)) = Some cats.
Proof.
  intros (Hne & Hne2 & Hc). destruct cats as [|c cats]; [done|]. unfold Categories_Value, Categories_Scan.
  rewrite (proj2 (Z.ltb_lt 0 _)); [by rewrite Split_Join|].
  assert (Join comma (c :: cats) ≠ []) as Hj; [|by destruct (Join comma (c :: cats)); [done|rewrite zlen_cons; pose proof (zlen_nonneg l); lia]].
  destruct cats; [cbn; congruence|]. cbn. by destruct c.
Qed.

Lemma parts_nonempty name : reverse (Split dot name) ≠ [].
Proof. intros E. apply (Split_nonempty dot name). by rewrite <-(reverse_involutive (Split dot name)), E. Qed.

Lemma walk_in t ps : ∀ parent r, walk t parent ps = Some r → r ∈ t.
Proof.
  induction ps as [|p [|q ps] IH]; intros parent r H; [done|by eapply select_in|].
  cbn [walk] in H. destruct (select t p parent) as [x|]; [|done]. by eapply IH.
Qed.

(** What a successful [Write] did. *)
Lemma Write_inv t domain cats t' :
  table_ok t → Write t domain cats = Ok t' →
  ∃ name t1 r, normalizeDomain domain = Ok name ∧ (2 ≤ zlen (Split dot name)) ∧ cats ≠ [] ∧
    writeLoop t (reverse (Split dot name)) 0 cats = inr (t1, r_id r) ∧ r ∈ t1 ∧
    table_ok t1 ∧ extends t t1 ∧ walk t1 0 (reverse (Split dot name)) = Some r ∧
    t' = recat (r_id r) (Categories_Value (Some cats)) <$> t1.
Proof.
  intros Hok. unfold Write. destruct (normalizeDomain domain) as [name| |]; gosimp; [|done..].
  unfold validateDomain. destruct (Z.ltb_spec (zlen (Split dot name)) 2) as [|Hlen]; [done|]. case_bool_decide; [done|].
  destruct (Z.eqb_spec (zlen cats) 0) as [|Hc]; [done|].
  destruct (writeLoop t (reverse (Split dot name)) 0 cats) as [e|[t1 id]] eqn:Hw; [done|].
  pose proof (parts_nonempty name) as Hne.
  destruct (writeLoop_spec _ _ _ _ _ _ Hok Hne Hw) as (Hok1 & Hx & r & Hwalk & <-).
  pose proof (walk_in _ _ _ _ Hwalk) as Hr.
  assert (cats ≠ []) as Hcne by (intros ->; done).
  rewrite (update_spec t1 r cats Hok1 Hr Hcne). intros [= <-]. by exists name, t1, r.
Qed.

Lemma Lookup_listed t domain name c :
  normalizeDomain domain = Ok name → 2 ≤ zlen (Split dot name) → listed t name c →
  ∃ d, Lookup t domain = Ok d ∧ Cats d = Some c ∧ Unchain d = name.
Proof.
  intros Hn Hlen (r & Hw & Hc). unfold Lookup.
  assert ((zlen domain <? 2) = false) as ->.
  { destruct domain as [|b [|b2 s]]; [done| |].
    - unfold normalizeDomain in Hn. cbn in Hn. injection Hn as <-. cbn in Hlen. destruct (b =? dot) eqn:E; cbn in Hlen; [done|].
      rewrite E in Hlen. done.
    - rewrite Z.ltb_ge, !zlen_cons. pose proof (zlen_nonneg s). lia. }
  rewrite Hn. gosimp. destruct (reverse (Split dot name)) as [|tld [|p parts]] eqn:E.
  { by destruct (parts_nonempty name). }
  { assert (zlen (Split dot name) = 1) as H1 by (rewrite <-(reverse_involutive (Split dot name)), E; done). lia. }
  cbn [walk] in Hw. unfold lookupRecord at 1. destruct (select t tld 0) as [x|] eqn:Es; [|done].
  destruct (lookupLoop_spec t (p :: parts) (mkDomain (r_id x) 0 tld (Categories_Scan (r_category x)) None) None r c Hw Hc)
    as (d & -> & Hd & Hch).
  exists d. split_and!; [done..|]. unfold Unchain. rewrite Hch. cbn [chain Name Parent].
  rewrite <-reverse_cons, <-E, reverse_involutive. apply Join_Split.
Qed.

(** C35: a domain that was written is found with its categories, under its own name,
    for any storable categories and any well-formed table. *)
Theorem domain_roundtrip t domain cats t' :
  table_ok t → storable cats → Write t domain cats = Ok t' →
  table_ok t' ∧ ∃ d name, Lookup t' domain = Ok d ∧ Cats d = Some cats ∧
    normalizeDomain domain = Ok name ∧ Unchain d = name.
Proof.
  intros Hok Hst Hw. destruct (Write_inv _ _ _ _ Hok Hw) as (name & t1 & r & Hn & Hlen & Hne & _ & Hr & Hok1 & _ & Hwalk & ->).
  split; [by apply recat_ok|].
  destruct (Lookup_listed (recat (r_id r) (Categories_Value (Some cats)) <$> t1) domain name cats Hn Hlen) as (d & ? & ? & ?);
    [|by exists d, name].
  exists (recat (r_id r) (Categories_Value (Some cats)) r). rewrite recat_walk, Hwalk by done. split; [done|].
  unfold recat. rewrite Z.eqb_refl. by apply categories_roundtrip.
Qed.

(** Writing a domain does not disturb the others: every domain that was listed
    with its own categories is found with the same categories afterwards, and a
    domain that is already listed is not written again. *)
Theorem domain_write_keeps t domain cats t' other oname c :
  table_ok t → Write t domain cats = Ok t' →
  normalizeDomain other = Ok oname → 2 ≤ zlen (Split dot oname) → listed t oname c →
  ∃ d, Lookup t' other = Ok d ∧ Cats d = Some c ∧ Unchain d = oname ∧ normalizeDomain domain ≠ Ok oname.
Proof.
  intros Hok Hw Hon Holen (x & Hx & Hc).
  destruct (Write_inv _ _ _ _ Hok Hw) as (name & t1 & r & Hn & Hlen & Hne & Hloop & Hr & Hok1 & Hext & Hwalk & ->).
  pose proof (walk_in _ _ _ _ Hx) as Hin.
  assert (r_id x ≠ r_id r) as Hid.
  { intros E. pose proof (writeLoop_target _ _ _ _ _ _ x Hok (parts_nonempty name) Hloop Hin E). congruence. }
  pose proof (walk_extends _ _ _ Hext _ _ Hx) as Hx1.
  destruct (Lookup_listed (recat (r_id r) (Categories_Value (Some cats)) <$> t1) other oname c Hon Holen) as (d & ? & ? & ?).
  { exists x. rewrite recat_walk, Hx1 by done. cbn. unfold recat. by rewrite (proj2 (Z.eqb_neq _ _) Hid). }
  exists d. split_and!; try done. rewrite Hn. intros [= ->]. rewrite Hwalk in Hx1. congruence.
Qed.

(** ** Concrete runs *)
Definition blocked : table := default [] (match Write [] (txt "*.com") [txt "ads"] with Ok t => Some t | _ => None end).

Lemma blocked_ok : table_ok blocked.
Proof. split_and!; [apply (bool_decide_eq_true_1 _); vm_compute; reflexivity..|]. repeat constructor; vm_compute; discriminate. Qed.

Definition blocked2 : table := default [] (match Write blocked (txt "mail.google.com") [txt "x"; txt "y"] with Ok t => Some t | _ => None end).

Lemma domain_roundtrip_witness :
  ∃ d, Lookup blocked2 (txt "mail.google.com") = Ok d ∧ Cats d = Some [txt "x"; txt "y"].
Proof.
  destruct (domain_roundtrip blocked (txt "mail.google.com") [txt "x"; txt "y"] blocked2 blocked_ok) as (_ & d & name & Hl & Hc & _).
  - split; [discriminate|]. split; [discriminate|]. apply (bool_decide_eq_true_1 _). vm_compute. reflexivity.
  - vm_compute. reflexivity.
  - exists d. split; [exact Hl|exact Hc].
Defined.

Lemma domain_write_keeps_witness :
  ∃ d, Lookup blocked2 (txt "*.com.") = Ok d ∧ Cats d = Some [txt "ads"].
Proof.
  destruct (domain_write_keeps blocked (txt "mail.google.com") [txt "x"; txt "y"] blocked2 (txt "*.com.") (txt "*.com") [txt "ads"] blocked_ok)
    as (d & Hl & Hc & _).
  - vm_compute. reflexivity.
  - vm_compute. reflexivity.
  - vm_compute. discriminate.
  - eexists. split; vm_compute; reflexivity.
  - exists d. split; [exact Hl|exact Hc].
Defined.

(** Listing [mail.google.com] takes [google.com] out of the reach of a wildcard: before,
    it matched [*.com]; afterwards the lookup ends at the inner node and finds nothing.
    A deeper name still falls back to the wildcard, with the wrong parent.  And an
    empty name panics in [Write]. *)
Example wildcard_shadowed :
  (Unchain <$> match Lookup blocked (txt "google.com") with Ok d => Some d | _ => None end) = Some (txt "*.com") ∧
  Lookup blocked2 (txt "google.com") = Err ErrNoMatches ∧
  (Unchain <$> match Lookup blocked2 (txt "www.google.com") with Ok d => Some d | _ => None end) = Some (txt "*.google.com") ∧
  Write blocked [] [txt "x"] = Panic.
Proof. vm_compute. done. Qed.
