(* ===== verification/Counters.v ===== *)
(** * connmgr, keycounter, statutils: identifiers, counts and averages

    Models [src/connmgr] ([connmgr.go], [id.go]), [src/keycounter/keycounter.go] and
    [src/statutils/avg.go].  The [sync.Map] of the connection manager is behind an atomic
    pointer that [CloseAll] swaps, so the maps live in a store and [Register] has two
    steps: loading the pointer, and storing into the map it found. *)
From S2P Require Import Prelude.

Local Open Scope Z_scope.

Module ConnMgr.
Definition connMinimalID : Z := 1024.
Definition connMaximalID : Z := 2147483647.
Definition maxConns : Z := connMaximalID - connMinimalID + 1.

(** id.go *)
Record idType := mkId { current : Z; min : Z; max : Z }.
Definition newId (min max : Z) : idType := mkId min min max.
Definition shift (i : idType) : idType * Z :=
  let c := i64 (current i + 1) in
  (mkId (if max i <? c then min i else c) (min i) (max i), current i).

Section conns.
Context {C : Type}.

(** [pmap] points to one of the maps made so far. *)
Record Instance_ := mkInstance { maps : gmap nat (gmap Z C); newMap : nat; pmap : nat; id : idType }.

Definition NewConnMgr : Instance_ := mkInstance {[ 0%nat := ∅ ]} 1 0 (newId connMinimalID connMaximalID).

Definition map_at (m : Instance_) (p : nat) : gmap Z C := default ∅ (maps m !! p).
Definition connById (m : Instance_) : gmap Z C := map_at m (pmap m).
Definition set_map (p : nat) (c : gmap Z C) (m : Instance_) : Instance_ :=
  mkInstance (<[p := c]> (maps m)) (newMap m) (pmap m) (id m).
Definition set_id (i : idType) (m : Instance_) : Instance_ := mkInstance (maps m) (newMap m) (pmap m) i.

(** [None] is [ErrNotExist]. *)
Definition Lookup (k : Z) (m : Instance_) : option C := connById m !! k.

(** The loop of [Register] on the map at [p]; [None]: still looking for a free id. *)
Fixpoint registerIn (fuel : nat) (p : nat) (c : C) (m : Instance_) : option (Instance_ * Z) :=
  match fuel with
  | O => None
  | S fuel =>
      let '(i, k) := shift (id m) in
      let m := set_id i m in
      match map_at m p !! k with
      | Some _ => registerIn fuel p c m
      | None => Some (set_map p (<[k := c]> (map_at m p)) m, k)
      end
  end.

(** Without another goroutine in between; one round per stored id, and one more. *)
Definition Register (c : C) (m : Instance_) : option (Instance_ * Z) :=
  registerIn (S (size (connById m))) (pmap m) c m.

Definition Unregister (k : Z) (m : Instance_) : Instance_ * bool :=
  match connById m !! k with
  | Some _ => (set_map (pmap m) (delete k (connById m)) m, true)
  | None => (m, false)
  end.

(** The connections that are closed, in the order of the range. *)
Definition CloseAll (m : Instance_) : Instance_ * list C :=
  (mkInstance (<[newMap m := ∅]> (maps m)) (S (newMap m)) (newMap m) (id m), (map_to_list (connById m)).*2).
End conns.
End ConnMgr.

Module KeyCounter.
Section keys.
Context {K : Type} `{Countable K}.

(** The [keys] field; the lock makes every method atomic. *)
Local Abbreviation KeyCounter := (gmap K Z).
Definition New : KeyCounter := ∅.
Definition at_ (s : KeyCounter) (k : K) : Z := default 0 (s !! k).
Definition Inc (k : K) (s : KeyCounter) : KeyCounter := <[k := i64 (at_ s k + 1)]> s.
Definition Dec (k : K) (s : KeyCounter) : KeyCounter :=
  let s := <[k := i64 (at_ s k - 1)]> s in
  if at_ s k =? 0 then delete k s else s.
Definition Count (s : KeyCounter) : Z := Z.of_nat (size s).
End keys.
End KeyCounter.

Module AvgValue.
(** The slice with its capacity, and the index of the last value. *)
Record AvgValue := mkAvg { values : list Z; cap : Z; i : Z }.

Definition NewAvgValue (size : Z) : AvgValue := mkAvg [] (if size <=? 0 then 10 else size) (-1).

Definition Avg (s : AvgValue) : Z :=
  if zlen (values s) =? 0 then 0 else Z.quot (foldl (λ sum v, i64 (sum + v)) 0 (values s)) (zlen (values s)).

(** [None]: the index is out of range. *)
Definition Push (val : Z) (s : AvgValue) : option (AvgValue * Z) :=
  let j := (if i s + 1 =? cap s then -1 else i s) + 1 in
  if j =? zlen (values s) then
    let s := mkAvg (values s ++ [val]) (cap s) j in Some (s, Avg s)
  else if (0 <=? j) && (j <? zlen (values s)) then
    let s := mkAvg (<[Z.to_nat j := val]> (values s)) (cap s) j in Some (s, Avg s)
  else None.
End AvgValue.

(** * connmgr, keycounter, statutils: what they guarantee *)
From S2P Require Import Prelude.

Local Open Scope Z_scope.

(** ** AvgValue: the ring is the window of the last values *)
Module AvgProps.
Import AvgValue.

(** The stored values, oldest first. *)
Definition window (s : AvgValue) : list Z := drop (Z.to_nat (i s + 1)) (values s) ++ take (Z.to_nat (i s + 1)) (values s).

Definition avg_ok (s : AvgValue) : Prop :=
  1 ≤ cap s ∧ 0 ≤ i s + 1 ≤ zlen (values s) ∧ zlen (values s) ≤ cap s ∧ (zlen (values s) < cap s → i s + 1 = zlen (values s)).

(** The last [n] elements. *)
Definition lastn (n : nat) (l : list Z) : list Z := drop (length l - n) l.

Lemma sum_wraps (l : list Z) : ∀ a, foldl (λ sum v, i64 (sum + v)) (i64 a) l = i64 (a + foldr Z.add 0 l).
Proof.
  induction l as [|v l IH]; intros a; cbn [foldl foldr]; [by rewrite Z.add_0_r|].
  rewrite i64_add_l, IH. f_equal. lia.
Qed.

Lemma sum_app (l1 l2 : list Z) : foldr Z.add 0 (l1 ++ l2) = foldr Z.add 0 l1 + foldr Z.add 0 l2.
Proof. induction l1 as [|v l1 IH]; cbn; [lia|]. rewrite IH. lia. Qed.

Lemma window_sum s : foldr Z.add 0 (window s) = foldr Z.add 0 (values s) ∧ length (window s) = length (values s).
Proof.
  unfold window. rewrite sum_app, length_app. split.
  - rewrite <-(take_drop (Z.to_nat (i s + 1)) (values s)) at 3. rewrite sum_app. lia.
  - rewrite <-(take_drop (Z.to_nat (i s + 1)) (values s)) at 3. rewrite length_app. lia.
Qed.

Lemma Avg_window s : Avg s = if zlen (window s) =? 0 then 0 else Z.quot (i64 (foldr Z.add 0 (window s))) (zlen (window s)).
Proof.
  destruct (window_sum s) as [H1 H2]. unfold Avg, zlen. rewrite H1, H2.
  change 0 with (i64 0) at 3. rewrite sum_wraps. done.
Qed.

Lemma lastn_snoc (n : nat) (l w : list Z) v : (1 ≤ n)%nat → w = lastn n l →
  lastn n (l ++ [v]) = (if bool_decide (length w = n) then drop 1 w else w) ++ [v].
Proof.
  intros Hn ->. unfold lastn. rewrite length_app, length_drop. cbn [length].
  case_bool_decide as E.
  - rewrite drop_drop. replace (length l - n + 1)%nat with (length l + 1 - n)%nat by lia. by rewrite drop_app_le by lia.
  - rewrite drop_app_le by lia. do 2 f_equal. lia.
Qed.

Lemma Push_spec v s : avg_ok s →
  ∃ s', Push v s = Some (s', Avg s') ∧ avg_ok s' ∧ cap s' = cap s ∧
    window s' = (if bool_decide (zlen (window s) = cap s) then drop 1 (window s) else window s) ++ [v].
Proof.
  intros (Hc & Hi & Hl & Hf). destruct (window_sum s) as [_ Hwl]. unfold Push.
  set (j := (if i s + 1 =? cap s then -1 else i s) + 1).
  destruct (Z.eqb_spec (zlen (values s)) (cap s)) as [Hfull|Hnf].
  - (* full: the oldest value is replaced *)
    assert (0 ≤ j < zlen (values s)) as Hj by (unfold j; destruct (Z.eqb_spec (i s + 1) (cap s)); lia).
    rewrite (proj2 (Z.eqb_neq j _)) by lia. rewrite (proj2 (Z.leb_le 0 j)), (proj2 (Z.ltb_lt j _)) by lia. cbn [andb].
    eexists. split; [done|]. assert (window s = drop (Z.to_nat j) (values s) ++ take (Z.to_nat j) (values s)) as Hw.
    { unfold window, j. destruct (Z.eqb_spec (i s + 1) (cap s)) as [E|E]; [|done].
      rewrite E, <-Hfull. unfold zlen. rewrite Nat2Z.id, firstn_all, drop_all. cbn. by rewrite app_nil_r. }
    rewrite bool_decide_eq_true_2 by (unfold zlen in *; lia). split; [|split; [done|]].
    + unfold avg_ok. cbn [values cap i]. unfold zlen in *. rewrite length_insert. lia.
    + rewrite Hw. unfold window. cbn [values i].
      destruct (lookup_lt_is_Some_2 (values s) (Z.to_nat j)) as [x Hx]; [unfold zlen in Hj; lia|].
      rewrite (drop_S _ _ _ Hx). replace (Z.to_nat (j + 1)) with (S (Z.to_nat j)) by lia.
      rewrite drop_insert_lt by lia. rewrite (take_S_r _ _ v) by (apply list_lookup_insert_eq; unfold zlen in Hj; lia).
      rewrite take_insert_ge by lia. cbn [drop app]. by rewrite app_assoc.
  - assert (i s + 1 = zlen (values s)) as Hi' by lia.
    assert (j = zlen (values s)) as Hj by (unfold j; rewrite (proj2 (Z.eqb_neq _ _)); lia).
    rewrite (proj2 (Z.eqb_eq j _)) by done. eexists. split; [done|].
    rewrite bool_decide_eq_false_2 by (unfold zlen in *; lia). split; [|split; [done|]].
    + unfold avg_ok. cbn [values cap i]. unfold zlen in *. rewrite length_app. cbn [length]. lia.
    + unfold window. cbn [values i]. rewrite Hj, Hi'. unfold zlen. replace (Z.to_nat (Z.of_nat (length (values s)) + 1)) with (length (values s ++ [v])) by (rewrite length_app; cbn; lia).
      rewrite Nat2Z.id, !firstn_all, !drop_all. done.
Qed.

(** Pushing a list of values. *)
Fixpoint pushes (vs : list Z) (s : AvgValue) : option AvgValue :=
  match vs with [] => Some s | v :: vs => p ← Push v s; pushes vs p.1 end.

(** After any sequence of pushes the average is that of the last [size] values:
    their sum, modulo 2^64, divided by their number and rounded towards zero.  No
    push is out of range. *)
Theorem avg_window size (vs : list Z) :
  let n := if size <=? 0 then 10 else size in
  let w := lastn (Z.to_nat n) vs in
  ∃ s, pushes vs (NewAvgValue size) = Some s ∧
    Avg s = if zlen w =? 0 then 0 else Z.quot (i64 (foldr Z.add 0 w)) (zlen w).
Proof.
  intros n w. assert (1 ≤ n) as Hn by (unfold n; destruct (Z.leb_spec size 0); lia).
  assert (∀ vs l s, avg_ok s → cap s = n → window s = lastn (Z.to_nat n) l →
    ∃ s', pushes vs s = Some s' ∧ window s' = lastn (Z.to_nat n) (l ++ vs)) as Hgen.
  { clear vs w. induction vs as [|v vs IH]; intros l s Hok Hc Hw; cbn [pushes].
    { exists s. by rewrite app_nil_r. }
    destruct (Push_spec v s Hok) as (s1 & -> & Hok1 & Hc1 & Hw1). cbn [mbind option_bind fst].
    destruct (IH (l ++ [v]) s1 Hok1) as (s' & ? & ?); [congruence| |exists s'; by rewrite <-app_assoc in *].
    rewrite Hw1, (lastn_snoc _ _ (window s)) by (done || lia). f_equal.
    rewrite (bool_decide_ext (zlen (window s) = cap s) (length (window s) = Z.to_nat n)); [done|]. unfold zlen. rewrite Hc. lia. }
  destruct (Hgen vs [] (NewAvgValue size)) as (s & Hs & Hw); [|done|done|].
  - split; [exact Hn|]. cbn. unfold zlen. cbn. lia.
  - exists s. split; [done|]. by rewrite Avg_window, Hw.
Qed.
End AvgProps.

(** ** ConnMgr: identifiers are unique *)
Module ConnProps.
Import ConnMgr.
Section props.
Context {C : Type}.
Implicit Types (m : Instance_ (C := C)).

Definition id_ok (i : idType) : Prop := min i = connMinimalID ∧ max i = connMaximalID ∧ connMinimalID ≤ current i ≤ connMaximalID.

(** Every stored id is in range, and so is the next one. *)
Definition conns_ok m : Prop :=
  id_ok (id m) ∧ is_Some (maps m !! pmap m) ∧ (∀ p, is_Some (maps m !! p) → (p < newMap m)%nat) ∧
  ∀ k, is_Some (connById m !! k) → connMinimalID ≤ k ≤ connMaximalID.

Lemma shift_ok i : id_ok i → id_ok (shift i).1 ∧ (shift i).2 = current i ∧
  current (shift i).1 = connMinimalID + (current i - connMinimalID + 1) mod maxConns.
Proof.
  intros (H1 & H2 & H3). unfold shift, id_ok, maxConns in *. cbn [fst snd current min max]. rewrite H1, H2.
  unfold connMinimalID, connMaximalID in *. rewrite i64_small by (unfold in_i64; lia).
  destruct (Z.ltb_spec 2147483647 (current i + 1)).
  - replace (current i) with 2147483647 by lia. split_and!; lia || done.
  - split_and!; try lia. rewrite Z.mod_small; lia.
Qed.

(** The [n]-th id from the current one. *)
Definition nth_id (i : idType) (n : nat) : Z := connMinimalID + (current i - connMinimalID + Z.of_nat n) mod maxConns.

Lemma nth_id_shift i n : id_ok i → nth_id (shift i).1 n = nth_id i (S n).
Proof.
  intros Hi. unfold nth_id. rewrite (proj2 (proj2 (shift_ok i Hi))). f_equal.
  replace (connMinimalID + (current i - connMinimalID + 1) mod maxConns - connMinimalID + Z.of_nat n)
    with ((current i - connMinimalID + 1) mod maxConns + Z.of_nat n) by lia.
  rewrite Zplus_mod_idemp_l. f_equal. lia.
Qed.

Lemma nth_id_0 i : id_ok i → nth_id i 0 = current i.
Proof.
  intros (_ & _ & H). unfold nth_id, maxConns in *. unfold connMinimalID, connMaximalID in *. rewrite Z.mod_small; lia.
Qed.

Lemma map_at_set_id m i p : map_at (set_id i m) p = map_at m p.
Proof. done. Qed.

(** The loop finds the first free id. *)
Lemma registerIn_spec c : ∀ fuel m,
  conns_ok m →
  match registerIn fuel (pmap m) c m with
  | Some (m', k) => conns_ok m' ∧ connById m !! k = None ∧ connById m' = <[k := c]> (connById m) ∧
      connMinimalID ≤ k ≤ connMaximalID ∧ pmap m' = pmap m
  | None => ∀ n, (n < fuel)%nat → is_Some (connById m !! nth_id (id m) n)
  end.
Proof.
  induction fuel as [|fuel IH]; intros m Hok; cbn [registerIn]; [intros n Hn; lia|].
  pose proof Hok as (Hid & Hp & Hnew & Hrange). destruct (shift_ok (id m) Hid) as (Hid' & Hk & _).
  pose proof (nth_id_shift (id m)) as Hsh. destruct (shift (id m)) as [i' k]. cbn [fst snd] in *. subst k.
  rewrite map_at_set_id. fold (connById m). destruct (connById m !! current (id m)) as [x|] eqn:E.
  - specialize (IH (set_id i' m)). change (pmap (set_id i' m)) with (pmap m) in IH.
    destruct (registerIn fuel (pmap m) c (set_id i' m)) as [[m' k]|]; [by apply IH|].
    intros [|n] Hn; [by rewrite nth_id_0, E by done|]. rewrite <-Hsh by done. apply IH; [done|lia].
  - set (k := current (id m)) in *. assert (connMinimalID ≤ k ≤ connMaximalID) as Hk by (by destruct Hid as (_ & _ & ?)).
    assert (connById (set_map (pmap m) (<[k := c]> (connById m)) (set_id i' m)) = <[k := c]> (connById m)) as Hc.
    { unfold connById at 1, map_at. cbn. by rewrite lookup_insert_eq. }
    split; [|split; [exact E|split; [exact Hc|split; [exact Hk|done]]]]. split; [done|]. split; [|split].
    + cbn [maps pmap set_map set_id]. rewrite lookup_insert_eq. by eexists.
    + intros p. cbn [maps newMap set_map set_id]. rewrite lookup_insert. case_decide; [subst; intros _; by apply Hnew|apply Hnew].
    + intros k'. rewrite Hc, lookup_insert. case_decide; [by subst|apply Hrange].
Qed.

(** Registering a connection always ends and returns an id in the allowed range that
    was not in use; every other connection keeps its id, and the new one is found
    under its own until it is unregistered. *)
Theorem conn_register c m :
  conns_ok m → Z.of_nat (size (connById m)) < maxConns →
  ∃ m' k, Register c m = Some (m', k) ∧ conns_ok m' ∧ connMinimalID ≤ k ≤ connMaximalID ∧ Lookup k m = None ∧
    Lookup k m' = Some c ∧ (∀ k', k' ≠ k → Lookup k' m' = Lookup k' m) ∧
    connById (Unregister k m').1 = connById m ∧ (Unregister k m').2 = true.
Proof.
  intros Hok Hsize. unfold Register. pose proof (registerIn_spec c (S (size (connById m))) m Hok) as H.
  destruct (registerIn (S (size (connById m))) (pmap m) c m) as [[m' k]|].
  - destruct H as (Hok' & Hfree & Hc & Hk & Hp). exists m', k. unfold Lookup, Unregister. rewrite Hc, lookup_insert_eq.
    split; [done|]. split; [done|]. split; [done|]. split; [done|]. split; [done|]. split; [|split; [|done]].
    + intros k' Hne. by rewrite lookup_insert_ne.
    + cbn [fst]. unfold connById at 1, map_at. cbn [maps pmap set_map]. rewrite lookup_insert_eq. cbn [default from_option].
      unfold id. by rewrite delete_insert_id.
  - exfalso. set (ids := (λ n, nth_id (id m) n) <$> seq 0 (S (size (connById m)))).
    assert (NoDup ids) as Hnd.
    { apply NoDup_fmap_2_strong; [|apply NoDup_seq]. intros a b Ha%elem_of_seq Hb%elem_of_seq E. unfold nth_id in E.
      apply Z.add_reg_l in E. revert E Hsize. generalize (current (id m) - connMinimalID) as x. intros x E Hsize.
      assert (maxConns ≠ 0) as Hm by (vm_compute; discriminate).
      pose proof (Z.div_mod (x + Z.of_nat a) maxConns Hm) as Da. pose proof (Z.div_mod (x + Z.of_nat b) maxConns Hm) as Db.
      rewrite E in Da. clear E. assert (0 < maxConns) by lia.
      assert ((x + Z.of_nat a) / maxConns = (x + Z.of_nat b) / maxConns) by nia. nia. }
    assert (list_to_set (C := gset Z) ids ⊆ dom (connById m)) as Hsub.
    { intros k. rewrite elem_of_list_to_set, elem_of_dom. intros (n & -> & Hn%elem_of_seq)%list_elem_of_fmap. apply H. lia. }
    apply subseteq_size in Hsub. rewrite size_list_to_set, size_dom in Hsub by done. unfold ids in Hsub.
    rewrite length_fmap, length_seq in Hsub. lia.
Qed.
End props.
End ConnProps.

(** ** KeyCounter: a key is present while its count is not zero *)
Module KeyProps.
Import KeyCounter.
Section props.
Context {K : Type} `{Countable K}.
Local Abbreviation counter := (gmap K Z).

(** [true] is [Inc], [false] is [Dec]. *)
Definition run1 (s : counter) (o : bool * K) : counter := if o.1 then Inc o.2 s else Dec o.2 s.
Definition delta (k : K) (o : bool * K) : Z := if decide (o.2 = k) then (if o.1 then 1 else -1) else 0.
Definition balance (ops : list (bool * K)) (k : K) : Z := foldr (λ o n, delta k o + n) 0 ops.
(** No key is released more often than it was taken. *)
Definition balanced (ops : list (bool * K)) : Prop := ∀ n k, 0 ≤ balance (take n ops) k.

Lemma balance_snoc ops o k : balance (ops ++ [o]) k = balance ops k + delta k o.
Proof. induction ops as [|x ops IH]; cbn [app balance foldr]; [lia|]. unfold balance in IH. rewrite IH. lia. Qed.

Lemma balance_bound ops k : balance ops k ≤ zlen ops.
Proof.
  induction ops as [|x ops IH]; [done|]. rewrite zlen_cons. cbn [balance foldr]. unfold balance in IH.
  unfold delta at 1. case_decide; [destruct x.1|]; lia.
Qed.

(** While no key is released more often than it was taken, a key is in the map
    exactly when it is in use, with the number of its users. *)
Theorem key_counter_balance (ops : list (bool * K)) (k : K) :
  balanced ops → zlen ops < 2 ^ 63 →
  foldl run1 New ops !! k = if balance ops k =? 0 then None else Some (balance ops k).
Proof.
  revert k. induction ops as [|[b k'] ops IH] using rev_ind; intros k Hbal Hlen; [apply lookup_empty|].
  unfold zlen in Hlen. rewrite length_app in Hlen. cbn [length] in Hlen.
  assert (balanced ops) as Hbal'.
  { intros n j. destruct (decide (n ≤ length ops)%nat) as [Hn|Hn]; [specialize (Hbal n j); by rewrite take_app_le in Hbal|].
    specialize (Hbal (length ops) j). rewrite take_app_length in Hbal. rewrite take_ge by lia. done. }
  assert (∀ j, at_ (foldl run1 New ops) j = balance ops j) as Hat.
  { intros j. unfold at_. rewrite IH by (done || (unfold zlen; lia)). by destruct (Z.eqb_spec (balance ops j) 0). }
  assert (0 ≤ balance ops k' ≤ Z.of_nat (length ops)) as Hb.
  { split; [|apply balance_bound]. specialize (Hbal' (length ops) k'). by rewrite firstn_all in Hbal'. }
  pose proof (Hbal (S (length ops)) k') as Hnn. rewrite take_ge, balance_snoc in Hnn by (rewrite length_app; cbn; lia).
  unfold delta in Hnn. cbn [fst snd] in Hnn. rewrite decide_True in Hnn by done.
  rewrite foldl_app, balance_snoc. cbn [foldl]. unfold run1 at 1, delta. cbn [fst snd].
  specialize (IH k Hbal' ltac:(unfold zlen; lia)). destruct b.
  - unfold Inc. rewrite Hat, i64_small, lookup_insert by (unfold in_i64; lia).
    destruct (decide (k' = k)) as [->|Hne]; [rewrite (proj2 (Z.eqb_neq _ _)) by lia; done|by rewrite Z.add_0_r].
  - unfold Dec. rewrite Hat, i64_small by (unfold in_i64; lia). unfold at_. rewrite lookup_insert_eq. cbn [default from_option id].
    destruct (decide (k' = k)) as [->|Hne].
    + unfold id. replace (balance ops k + -1) with (balance ops k - 1) by lia. destruct (Z.eqb_spec (balance ops k - 1) 0).
      * by rewrite lookup_delete_eq.
      * by rewrite lookup_insert_eq.
    + rewrite Z.add_0_r, <-IH. unfold id. destruct (balance ops k' - 1 =? 0); rewrite ?lookup_delete_ne, ?lookup_insert_ne by done; done.
Qed.
End props.

Lemma key_counter_balance_witness : foldl run1 New [(true, 5); (true, 5); (false, 5)] !! 5 = Some 1.
Proof.
  rewrite (key_counter_balance [(true, 5); (true, 5); (false, 5)] 5).
  - reflexivity.
  - intros n k. destruct n as [|[|[|n]]]; cbn; unfold delta; cbn [fst snd]; try destruct n; repeat case_decide; cbn; lia.
  - vm_compute. reflexivity.
Defined.

(** A key that is released first stays in the map with the count zero. *)
Example released_first : Count (foldl run1 New [(false, 5); (true, 5)]) = 1.
Proof. vm_compute. done. Qed.
End KeyProps.

(** ** Concrete runs of the connection manager *)
Module ConnRuns.
Import ConnMgr ConnProps.

Lemma new_conns_ok : conns_ok (NewConnMgr (C := Z)).
Proof.
  split; [split; [done|split; [done|]]; cbn [current id NewConnMgr newId]; unfold connMinimalID, connMaximalID; lia|].
  split; [by eexists|]. split.
  - intros p. cbn [maps newMap NewConnMgr]. destruct (decide (p = 0%nat)) as [->|Hne]; [lia|].
    rewrite lookup_singleton_ne by done. by intros [].
  - intros k. change (connById (NewConnMgr (C := Z))) with (∅ : gmap Z Z). rewrite lookup_empty. by intros [].
Qed.

Lemma conn_register_witness :
  ∃ m' k, Register 7 NewConnMgr = Some (m', k) ∧ 1024 ≤ k ∧ Lookup k m' = Some 7.
Proof.
  destruct (conn_register 7 NewConnMgr new_conns_ok) as (m' & k & Hr & _ & [Hk _] & _ & Hl & _).
  - vm_compute. reflexivity.
  - exists m', k. split; [exact Hr|]. split; [exact Hk|exact Hl].
Defined.

(** [Register] loads the map before it stores: when [CloseAll] swaps the map in between,
    the connection is neither closed nor found afterwards. *)
Example close_all_race :
  let p := pmap (NewConnMgr (C := Z)) in
  let '(m, closed) := CloseAll NewConnMgr in
  match registerIn 1 p 7 m with
  | Some (m', k) => closed = [] ∧ Lookup k m' = None
  | None => False
  end.
Proof. vm_compute. done. Qed.
End ConnRuns.
