(* ===== verification/Effects.v ===== *)
(** * Programs with a state and Go outcomes

    [prog S E A] is a computation on a state [S] that returns a value, an error or does
    not return; the state is kept in each case, as in Go, where an error does not undo
    what was done before it.  [keeps] is the invariant reasoning the components share. *)
From S2P Require Import Prelude.

Definition prog (S E A : Type) : Type := S → go E A * S.

#[global] Instance prog_ret S E : MRet (prog S E) := λ A a s, (Ok a, s).
#[global] Instance prog_bind S E : MBind (prog S E) := λ A B f m s,
  match m s with
  | (Ok a, s) => f a s
  | (Err e, s) => (Err e, s)
  | (Panic, s) => (Panic, s)
  end.

Section prog.
Context {S E A : Type}.
Definition gets (f : S → A) : prog S E A := λ s, (Ok (f s), s).
Definition modify (f : S → S) : prog S E unit := λ s, (Ok tt, f s).
Definition lift (r : go E A) : prog S E A := λ s, (r, s).
Definition fail (e : E) : prog S E A := λ s, (Err e, s).
(** [x, err := m] where the error is looked at and the program goes on. *)
Definition attempt (m : prog S E A) : prog S E (A + E) := λ s,
  match m s with
  | (Ok a, s) => (Ok (inl a), s)
  | (Err e, s) => (Ok (inr e), s)
  | (Panic, s) => (Panic, s)
  end.
End prog.

(** Reduction of the plumbing only. *)
Ltac progsimp := cbv beta iota delta [mbind prog_bind mret prog_ret gets modify lift fail attempt]; cbn [fst snd].

Lemma bind_ok {S E A B} (m : prog S E A) (f : A → prog S E B) s b s' :
  (m ≫= f) s = (Ok b, s') ↔ ∃ a s1, m s = (Ok a, s1) ∧ f a s1 = (Ok b, s').
Proof.
  unfold mbind, prog_bind. destruct (m s) as [[a|e|] s1].
  - split; [by exists a, s1|]. by intros (? & ? & [= <- <-] & ?).
  - split; [done|]. by intros (? & ? & [=] & _).
  - split; [done|]. by intros (? & ? & [=] & _).
Qed.

(** Whatever the outcome, the invariant is kept. *)
Definition keeps {S E A} (I : S → Prop) (m : prog S E A) : Prop := ∀ s, I s → I (m s).2.

Section keeps.
Context {S E : Type} (I : S → Prop).
Lemma keeps_ret {A} (a : A) : keeps I (mret a : prog S E A).
Proof. by intros s. Qed.
Lemma keeps_bind {A B} (m : prog S E A) (f : A → prog S E B) : keeps I m → (∀ a, keeps I (f a)) → keeps I (m ≫= f).
Proof.
  intros Hm Hf s Hs. specialize (Hm s Hs). unfold mbind, prog_bind. destruct (m s) as [[a|e|] s1]; cbn [snd] in *; [by apply Hf|done..].
Qed.
Lemma keeps_gets {A} (f : S → A) : keeps I (gets f : prog S E A).
Proof. by intros s. Qed.
Lemma keeps_lift {A} (r : go E A) : keeps I (lift r).
Proof. by intros s. Qed.
Lemma keeps_fail {A} (e : E) : keeps I (fail e : prog S E A).
Proof. by intros s. Qed.
Lemma keeps_modify (f : S → S) : (∀ s, I s → I (f s)) → keeps I (modify f : prog S E unit).
Proof. intros H s. apply H. Qed.
Lemma keeps_attempt {A} (m : prog S E A) : keeps I m → keeps I (attempt m).
Proof. intros Hm s Hs. specialize (Hm s Hs). unfold attempt. by destruct (m s) as [[a|e|] s1]. Qed.
Lemma keeps_if {A} (b : bool) (m1 m2 : prog S E A) : keeps I m1 → keeps I m2 → keeps I (if b then m1 else m2).
Proof. by destruct b. Qed.
End keeps.

#[export] Hint Resolve keeps_ret keeps_gets keeps_lift keeps_fail keeps_attempt keeps_if keeps_bind : golib.
Ltac keeps_auto := repeat first [apply keeps_ret | apply keeps_gets | apply keeps_lift | apply keeps_fail
  | apply keeps_attempt | apply keeps_if | apply keeps_bind; [|intros ?] | case_match].
