(* ===== verification/Base64.v ===== *)
(** * Standard base64, as encoding/base64.StdEncoding encodes and decodes it

    Three bytes become four letters of the alphabet; the last group is padded.  Decoding
    skips line ends and does not look at the unused bits of the last letter. *)
From S2P Require Import Prelude Text.

Local Open Scope Z_scope.

Definition alphabet : bytes := txt "ABCDEFGHIJKLMNOPQRSTUVWXYZabcdefghijklmnopqrstuvwxyz0123456789+/".
Definition pad : Z := 61.

Definition letter (d : Z) : Z := default 0 (alphabet !! Z.to_nat d).
(** The value of a letter. *)
Definition value (c : Z) : option Z :=
  if (65 <=? c) && (c <=? 90) then Some (c - 65)
  else if (97 <=? c) && (c <=? 122) then Some (c - 71)
  else if (48 <=? c) && (c <=? 57) then Some (c + 4)
  else if c =? 43 then Some 62
  else if c =? 47 then Some 63
  else None.

(** Four letters for 24 bits. *)
Definition letters4 (v : Z) : bytes :=
  [letter (v / 2 ^ 18 mod 64); letter (v / 2 ^ 12 mod 64); letter (v / 2 ^ 6 mod 64); letter (v mod 64)].

Fixpoint EncodeToString (b : bytes) : bytes :=
  match b with
  | [] => []
  | [b0] => take 2 (letters4 (b0 * 2 ^ 16)) ++ [pad; pad]
  | [b0; b1] => take 3 (letters4 (b0 * 2 ^ 16 + b1 * 2 ^ 8)) ++ [pad]
  | b0 :: b1 :: b2 :: b => letters4 (b0 * 2 ^ 16 + b1 * 2 ^ 8 + b2) ++ EncodeToString b
  end.

Fixpoint decodeGroups (s : bytes) : option bytes :=
  match s with
  | [] => Some []
  | [c0; c1; c2; c3] =>
      v0 ← value c0; v1 ← value c1;
      if (c2 =? pad) && (c3 =? pad) then Some [v0 * 4 + v1 / 16]
      else
        v2 ← value c2;
        if c3 =? pad then Some [v0 * 4 + v1 / 16; v1 mod 16 * 16 + v2 / 4]
        else v3 ← value c3; Some [v0 * 4 + v1 / 16; v1 mod 16 * 16 + v2 / 4; v2 mod 4 * 64 + v3]
  | c0 :: c1 :: c2 :: c3 :: s =>
      v0 ← value c0; v1 ← value c1; v2 ← value c2; v3 ← value c3;
      rest ← decodeGroups s;
      Some (v0 * 4 + v1 / 16 :: v1 mod 16 * 16 + v2 / 4 :: v2 mod 4 * 64 + v3 :: rest)
  | _ => None
  end.
Definition DecodeString (s : bytes) : option bytes := decodeGroups (filter (λ c, c ≠ 10 ∧ c ≠ 13) s).

(** ** Decoding undoes encoding *)
Lemma value_letter d : 0 ≤ d < 64 → value (letter d) = Some d ∧ letter d ≠ 10 ∧ letter d ≠ 13 ∧ letter d ≠ pad.
Proof.
  intros Hd. assert (Forall (λ n, value (letter (Z.of_nat n)) = Some (Z.of_nat n) ∧ letter (Z.of_nat n) ≠ 10 ∧ letter (Z.of_nat n) ≠ 13 ∧ letter (Z.of_nat n) ≠ pad) (seq 0 64)) as H
    by (refine (bool_decide_eq_true_1 _ _); vm_compute; reflexivity).
  rewrite Forall_forall in H. specialize (H (Z.to_nat d)). cbn beta in H. rewrite Z2Nat.id in H by lia. apply H, elem_of_seq. lia.
Qed.

Section groups.
Context (b0 b1 b2 : Z) (H0 : in_u8 b0) (H1 : in_u8 b1) (H2 : in_u8 b2).
Abbreviation v := (b0 * 2 ^ 16 + b1 * 2 ^ 8 + b2).
Lemma sextets :
  v / 2 ^ 18 mod 64 = b0 / 4 ∧ v / 2 ^ 12 mod 64 = b0 mod 4 * 16 + b1 / 16 ∧
  v / 2 ^ 6 mod 64 = b1 mod 16 * 4 + b2 / 64 ∧ v mod 64 = b2 mod 64.
Proof. unfold in_u8 in *. change (2 ^ 18) with 262144. change (2 ^ 16) with 65536. change (2 ^ 12) with 4096. change (2 ^ 8) with 256 in *. change (2 ^ 6) with 64. split_and!; Z.to_euclidean_division_equations; lia. Qed.

Lemma regroup :
  b0 / 4 * 4 + (b0 mod 4 * 16 + b1 / 16) / 16 = b0 ∧
  (b0 mod 4 * 16 + b1 / 16) mod 16 * 16 + (b1 mod 16 * 4 + b2 / 64) / 4 = b1 ∧
  (b1 mod 16 * 4 + b2 / 64) mod 4 * 64 + b2 mod 64 = b2.
Proof. unfold in_u8 in *. change (2 ^ 8) with 256 in *. split_and!; Z.to_euclidean_division_equations; lia. Qed.

Lemma sextet_range :
  0 ≤ b0 / 4 < 64 ∧ 0 ≤ b0 mod 4 * 16 + b1 / 16 < 64 ∧ 0 ≤ b1 mod 16 * 4 + b2 / 64 < 64 ∧ 0 ≤ b2 mod 64 < 64.
Proof. unfold in_u8 in *. change (2 ^ 8) with 256 in *. split_and!; Z.to_euclidean_division_equations; lia. Qed.
End groups.

Lemma letters4_group b0 b1 b2 s : in_u8 b0 → in_u8 b1 → in_u8 b2 →
  decodeGroups (letters4 (b0 * 2 ^ 16 + b1 * 2 ^ 8 + b2) ++ s) = rest ← decodeGroups s; Some (b0 :: b1 :: b2 :: rest).
Proof.
  intros H0 H1 H2. unfold letters4. destruct (sextets b0 b1 b2 H0 H1 H2) as (-> & -> & -> & ->).
  destruct (regroup b0 b1 b2 H0 H1 H2) as (R0 & R1 & R2). destruct (sextet_range b0 b1 b2 H0 H1 H2) as (L0 & L1 & L2 & L3).
  apply value_letter in L0 as (E0 & _), L1 as (E1 & _), L2 as (E2 & _ & _ & N2), L3 as (E3 & _ & _ & N3).
  cbn [app]. destruct s as [|c s]; cbn [decodeGroups]; rewrite E0, E1; cbn [mbind option_bind].
  - rewrite (proj2 (Z.eqb_neq _ _) N2), (proj2 (Z.eqb_neq _ _) N3), E2. cbn [andb mbind option_bind]. rewrite E3. cbn [mbind option_bind].
    by rewrite R0, R1, R2.
  - rewrite E2. cbn [mbind option_bind]. rewrite E3. cbn [mbind option_bind]. by rewrite R0, R1, R2.
Qed.

Lemma letters4_plain v : Forall (λ c, c ≠ 10 ∧ c ≠ 13) (letters4 v).
Proof.
  unfold letters4. assert (∀ x, letter (x mod 64) ≠ 10 ∧ letter (x mod 64) ≠ 13) as H.
  { intros x. destruct (value_letter (x mod 64)) as (_ & ? & ? & _); [apply Z.mod_pos_bound; lia|done]. }
  by repeat (constructor; [apply H|]).
Qed.

Lemma encode_ind (P : bytes → Prop) :
  P [] → (∀ b0, P [b0]) → (∀ b0 b1, P [b0; b1]) → (∀ b0 b1 b2 b, P b → P (b0 :: b1 :: b2 :: b)) → ∀ b, P b.
Proof.
  intros P0 P1 P2 P3. fix IH 1. intros [|b0 [|b1 [|b2 b]]]; [done..|]. apply P3, IH.
Qed.

Lemma encode_plain b : Forall (λ c, c ≠ 10 ∧ c ≠ 13) (EncodeToString b).
Proof.
  induction b as [|b0|b0 b1|b0 b1 b2 b IH] using encode_ind; cbn [EncodeToString]; [constructor|..]; apply Forall_app;
    (split; [first [apply Forall_take, letters4_plain|apply letters4_plain]|]); [by repeat constructor|by repeat constructor|done].
Qed.

Lemma in_u8_0 : in_u8 0.
Proof. unfold in_u8. lia. Qed.

(** The last, incomplete group. *)
Lemma encode_last1 b0 : in_u8 b0 → decodeGroups (EncodeToString [b0]) = Some [b0].
Proof.
  intros H0. cbn [EncodeToString]. unfold letters4. replace (b0 * 2 ^ 16) with (b0 * 2 ^ 16 + 0 * 2 ^ 8 + 0) by lia.
  destruct (sextets b0 0 0 H0 in_u8_0 in_u8_0) as (-> & -> & _ & _). destruct (regroup b0 0 0 H0 in_u8_0 in_u8_0) as (R0 & _).
  destruct (sextet_range b0 0 0 H0 in_u8_0 in_u8_0) as (L0 & L1 & _). apply value_letter in L0 as (E0 & _), L1 as (E1 & _).
  cbn [take app decodeGroups]. rewrite E0, E1. cbn [mbind option_bind]. by rewrite R0.
Qed.
Lemma encode_last2 b0 b1 : in_u8 b0 → in_u8 b1 → decodeGroups (EncodeToString [b0; b1]) = Some [b0; b1].
Proof.
  intros H0 H1. cbn [EncodeToString]. unfold letters4. replace (b0 * 2 ^ 16 + b1 * 2 ^ 8) with (b0 * 2 ^ 16 + b1 * 2 ^ 8 + 0) by lia.
  destruct (sextets b0 b1 0 H0 H1 in_u8_0) as (-> & -> & -> & _). destruct (regroup b0 b1 0 H0 H1 in_u8_0) as (R0 & R1 & _).
  destruct (sextet_range b0 b1 0 H0 H1 in_u8_0) as (L0 & L1 & L2 & _).
  apply value_letter in L0 as (E0 & _), L1 as (E1 & _), L2 as (E2 & _ & _ & N2).
  cbn [take app decodeGroups]. rewrite E0, E1. cbn [mbind option_bind]. rewrite (proj2 (Z.eqb_neq _ _) N2), E2. cbn [andb mbind option_bind].
  by rewrite R0, R1.
Qed.

Lemma base64_roundtrip b : is_bytes b → DecodeString (EncodeToString b) = Some b.
Proof.
  intros Hb. unfold DecodeString. rewrite (filter_all _ _ (encode_plain b)).
  induction b as [|b0|b0 b1|b0 b1 b2 b IH] using encode_ind; [done|..].
  - apply Forall_cons in Hb as [H0 _]. by apply encode_last1.
  - apply Forall_cons in Hb as [H0 [H1 _]%Forall_cons]. by apply encode_last2.
  - apply Forall_cons in Hb as [H0 [H1 [H2 Hb]%Forall_cons]%Forall_cons]. cbn [EncodeToString].
    rewrite letters4_group by done. by rewrite IH.
Qed.

Example base64_test : EncodeToString (txt "Hello!!") = txt "SGVsbG8hIQ==" ∧ DecodeString (txt "SGVsbG8hIQ==") = Some (txt "Hello!!").
Proof. by vm_compute. Qed.

(** ** The URL alphabet without padding ([base64.RawURLEncoding]) *)
Definition urlLetter (d : Z) : Z := if d =? 62 then 45 else if d =? 63 then 95 else letter d.
Definition urlValue (c : Z) : option Z :=
  if c =? 45 then Some 62 else if c =? 95 then Some 63
  else if (c =? 43) || (c =? 47) then None else value c.
Definition urlLetters4 (v : Z) : bytes :=
  [urlLetter (v / 2 ^ 18 mod 64); urlLetter (v / 2 ^ 12 mod 64); urlLetter (v / 2 ^ 6 mod 64); urlLetter (v mod 64)].

Fixpoint RawURLEncode (b : bytes) : bytes :=
  match b with
  | [] => []
  | [b0] => take 2 (urlLetters4 (b0 * 2 ^ 16))
  | [b0; b1] => take 3 (urlLetters4 (b0 * 2 ^ 16 + b1 * 2 ^ 8))
  | b0 :: b1 :: b2 :: b => urlLetters4 (b0 * 2 ^ 16 + b1 * 2 ^ 8 + b2) ++ RawURLEncode b
  end.
Fixpoint rawGroups (s : bytes) : option bytes :=
  match s with
  | [] => Some []
  | [_] => None
  | [c0; c1] => v0 ← urlValue c0; v1 ← urlValue c1; Some [v0 * 4 + v1 / 16]
  | [c0; c1; c2] => v0 ← urlValue c0; v1 ← urlValue c1; v2 ← urlValue c2; Some [v0 * 4 + v1 / 16; v1 mod 16 * 16 + v2 / 4]
  | c0 :: c1 :: c2 :: c3 :: s =>
      v0 ← urlValue c0; v1 ← urlValue c1; v2 ← urlValue c2; v3 ← urlValue c3;
      rest ← rawGroups s;
      Some (v0 * 4 + v1 / 16 :: v1 mod 16 * 16 + v2 / 4 :: v2 mod 4 * 64 + v3 :: rest)
  end.
Definition RawURLDecode (s : bytes) : option bytes := rawGroups (filter (λ c, c ≠ 10 ∧ c ≠ 13) s).

Lemma urlValue_letter d : 0 ≤ d < 64 → urlValue (urlLetter d) = Some d ∧ urlLetter d ≠ 10 ∧ urlLetter d ≠ 13.
Proof.
  intros Hd. assert (Forall (λ n, urlValue (urlLetter (Z.of_nat n)) = Some (Z.of_nat n) ∧ urlLetter (Z.of_nat n) ≠ 10 ∧ urlLetter (Z.of_nat n) ≠ 13) (seq 0 64)) as H
    by (refine (bool_decide_eq_true_1 _ _); vm_compute; reflexivity).
  rewrite Forall_forall in H. specialize (H (Z.to_nat d)). cbn beta in H. rewrite Z2Nat.id in H by lia. apply H, elem_of_seq. lia.
Qed.

Lemma urlLetters4_plain v : Forall (λ c, c ≠ 10 ∧ c ≠ 13) (urlLetters4 v).
Proof.
  unfold urlLetters4. assert (∀ x, urlLetter (x mod 64) ≠ 10 ∧ urlLetter (x mod 64) ≠ 13) as H
    by (intros x; apply urlValue_letter, Z.mod_pos_bound; lia).
  by repeat (constructor; [apply H|]).
Qed.

Lemma rawurl_plain b : Forall (λ c, c ≠ 10 ∧ c ≠ 13) (RawURLEncode b).
Proof.
  induction b as [|b0|b0 b1|b0 b1 b2 b IH] using encode_ind; cbn [RawURLEncode];
    [constructor|apply Forall_take, urlLetters4_plain..|apply Forall_app; split; [apply urlLetters4_plain|done]].
Qed.

Lemma rawurl_roundtrip b : is_bytes b → RawURLDecode (RawURLEncode b) = Some b.
Proof.
  intros Hb. unfold RawURLDecode. rewrite (filter_all _ _ (rawurl_plain b)).
  induction b as [|b0|b0 b1|b0 b1 b2 b IH] using encode_ind; [done|..]; cbn [RawURLEncode]; unfold urlLetters4.
  - apply Forall_cons in Hb as [H0 _]. replace (b0 * 2 ^ 16) with (b0 * 2 ^ 16 + 0 * 2 ^ 8 + 0) by lia.
    destruct (sextets b0 0 0 H0 in_u8_0 in_u8_0) as (-> & -> & _ & _). destruct (regroup b0 0 0 H0 in_u8_0 in_u8_0) as (R0 & _).
    destruct (sextet_range b0 0 0 H0 in_u8_0 in_u8_0) as (L0 & L1 & _). apply urlValue_letter in L0 as (E0 & _), L1 as (E1 & _).
    cbn [take rawGroups]. rewrite E0, E1. cbn [mbind option_bind]. by rewrite R0.
  - apply Forall_cons in Hb as [H0 [H1 _]%Forall_cons]. replace (b0 * 2 ^ 16 + b1 * 2 ^ 8) with (b0 * 2 ^ 16 + b1 * 2 ^ 8 + 0) by lia.
    destruct (sextets b0 b1 0 H0 H1 in_u8_0) as (-> & -> & -> & _). destruct (regroup b0 b1 0 H0 H1 in_u8_0) as (R0 & R1 & _).
    destruct (sextet_range b0 b1 0 H0 H1 in_u8_0) as (L0 & L1 & L2 & _).
    apply urlValue_letter in L0 as (E0 & _), L1 as (E1 & _), L2 as (E2 & _).
    cbn [take rawGroups]. rewrite E0, E1, E2. cbn [mbind option_bind]. by rewrite R0, R1.
  - apply Forall_cons in Hb as [H0 [H1 [H2 Hb]%Forall_cons]%Forall_cons]. destruct (sextets b0 b1 b2 H0 H1 H2) as (-> & -> & -> & ->).
    destruct (regroup b0 b1 b2 H0 H1 H2) as (R0 & R1 & R2). destruct (sextet_range b0 b1 b2 H0 H1 H2) as (L0 & L1 & L2 & L3).
    apply urlValue_letter in L0 as (E0 & _), L1 as (E1 & _), L2 as (E2 & _), L3 as (E3 & _).
    cbn [app rawGroups]. rewrite E0, E1, E2. cbn [mbind option_bind]. rewrite E3. cbn [mbind option_bind]. rewrite IH by done. cbn [mbind option_bind].
    by rewrite R0, R1, R2.
Qed.
