(* ===== verification/XError.v ===== *)
(** * xerror: the errors of the services and what clients see of them

    Models [src/xerror/errors.go] and the build information of [src/version/version.go].
    An [Error] carries a type (a pointer to one of the package's [ErrorType] variables),
    a description, the error it wraps and the serializer that turns it into an HTTP
    response.  Creating one counts it, reports it to sentry and logs it; these
    effects are the events of a trace.  The JSON encoder, the encoding of log fields
    and the caller's position are members of the class [Env]. *)
From S2P Require Import Prelude Text.

Local Open Scope Z_scope.

(** ** version.go *)
Module Version.
Definition Dev : bytes := txt "dev".
Definition Personal : bytes := txt "personal".
Definition Enterprise : bytes := txt "enterprise".

(** The variables the linker sets; [mkBuild [] [] Personal] without flags. *)
Record build := mkBuild { tag : bytes; commit : bytes; feature : bytes }.
Definition GetTag (b : build) : bytes := tag b.
Definition GetCommit (b : build) : bytes := commit b.
Definition GetFeature (b : build) : bytes := feature b.
Definition IsPersonal (b : build) : bool := bool_decide (feature b = Personal).
Definition IsDevelop (b : build) : bool := bool_decide (feature b = Dev).
Definition IsEnterprise (b : build) : bool := bool_decide (feature b = Enterprise).
Definition GetVersion (b : build) : bytes :=
  let version := tag b in
  let version := if 0 <? zlen (commit b) then version ++ txt "-" ++ commit b else version in
  if 0 <? zlen (feature b) then version ++ txt " (" ++ feature b ++ txt ")" else version.
End Version.

(** ** Types of errors *)

(** The constants of [openapi.ErrorResult] that are used, and any other text. *)
Inductive ErrorResult :=
  | INTERNALERROR | INVALIDARGUMENT | NOTFOUND | ENTRYEXISTS | STORAGEERROR | TUNNELERROR
  | UNAUTHORIZED | AUTHFAILED | INSUFFICIENTSTORAGE | SERVICEUNAVAILABLE | CONFIGURATIONREQUIRED
  | FORBIDDEN | INVALIDCONFIGURATION | TOOLONG | TOOEARLY | NOLICENSE | LIMITEXCEEDED
  | ResultText (s : bytes).

Record ErrorType := mkErrorType { httpCode : Z; codeName : ErrorResult }.

(** The package's variables: pointers to distinct [ErrorType] values. *)
Inductive ErrorTypePtr :=
  | EInternalErrorType | EInvalidArgumentType | EEntryNotFoundType | EExistsType | EStorageErrorType
  | ETunnelErrorType | EUnauthorizedType | EAuthenticationFailedType | ENotEnoughSpaceType
  | EUnavailableType | EConfigurationRequiredType | EForbiddenType | EInvalidConfigurationType
  | EEntityTooLargeType | ETooEarlyType | ENoLicenseType | ELimitExceededType.
#[global] Instance ErrorTypePtr_eq_dec : EqDecision ErrorTypePtr.
Proof. solve_decision. Defined.

Definition deref (p : ErrorTypePtr) : ErrorType :=
  match p with
  | EInternalErrorType => mkErrorType 500 INTERNALERROR
  | EInvalidArgumentType => mkErrorType 400 INVALIDARGUMENT
  | EEntryNotFoundType => mkErrorType 404 NOTFOUND
  | EExistsType => mkErrorType 409 ENTRYEXISTS
  | EStorageErrorType => mkErrorType 500 STORAGEERROR
  | ETunnelErrorType => mkErrorType 500 TUNNELERROR
  | EUnauthorizedType => mkErrorType 401 UNAUTHORIZED
  | EAuthenticationFailedType => mkErrorType 401 AUTHFAILED
  | ENotEnoughSpaceType => mkErrorType 507 INSUFFICIENTSTORAGE
  | EUnavailableType => mkErrorType 503 SERVICEUNAVAILABLE
  | EConfigurationRequiredType => mkErrorType 409 CONFIGURATIONREQUIRED
  | EForbiddenType => mkErrorType 403 FORBIDDEN
  | EInvalidConfigurationType => mkErrorType 500 INVALIDCONFIGURATION
  | EEntityTooLargeType => mkErrorType 413 TOOLONG
  | ETooEarlyType => mkErrorType 425 TOOEARLY
  | ENoLicenseType => mkErrorType 403 NOLICENSE
  | ELimitExceededType => mkErrorType 403 LIMITEXCEEDED
  end.

(** The two functions of type [errorSerializerFunc] (defined below). *)
Inductive errorSerializerFunc := useDefault | useSecretive.
Inductive sentryLevel := LevelError | LevelWarning.

(** A value of Go's interface [error]: nil, a nil [*Error] in the interface, an [*Error],
    or an error of another type with its text and what it unwraps to. *)
Inductive goerror :=
  | NilError
  | NilXErr
  | XErr (e : Error)
  | OtherErr (text : bytes) (wrapped : goerror)
with Error :=
  mkError (errorType : ErrorTypePtr) (description : bytes) (nestedError : goerror)
    (failedField : option bytes) (warningLabel : bytes)
    (serializer : errorSerializerFunc) (externalLoggerLevel : sentryLevel).

Definition errorType (e : Error) := let '(mkError t _ _ _ _ _ _) := e in t.
Definition description (e : Error) := let '(mkError _ d _ _ _ _ _) := e in d.
Definition nestedError (e : Error) := let '(mkError _ _ n _ _ _ _) := e in n.
Definition failedField (e : Error) := let '(mkError _ _ _ f _ _ _) := e in f.
Definition warningLabel (e : Error) := let '(mkError _ _ _ _ w _ _) := e in w.
Definition serializer (e : Error) := let '(mkError _ _ _ _ _ s _) := e in s.
Definition externalLoggerLevel (e : Error) := let '(mkError _ _ _ _ _ _ l) := e in l.

(** [err == nil] *)
Definition isNil (err : goerror) : bool := match err with NilError => true | _ => false end.

Definition Is (e : Error) (target : goerror) : bool :=
  match target with
  | XErr err2 => bool_decide (errorType e = errorType err2)
  | _ => false
  end.
Definition Unwrap (e : Error) : goerror := nestedError e.

(** [err.Error()] for any error: calling it on nil, or on a nil [*Error], panics. *)
Fixpoint errText (err : goerror) : go unit bytes :=
  match err with
  | NilError | NilXErr => Panic
  | XErr e => Error_Error e
  | OtherErr text _ => Ok text
  end
with Error_Error (e : Error) : go unit bytes :=
  match e with
  | mkError _ text nested _ _ _ _ =>
      match nested with
      | NilError => Ok text
      | _ => t ← errText nested; mret (text ++ txt ": " ++ t)
      end
  end.

(** [errors.Is(err, target)] of the standard library for a target that is an [*Error]:
    along the chain of [Unwrap], some error's [Is] accepts the target. *)
Fixpoint errors_Is (err : goerror) (target : Error) : bool :=
  match err with
  | NilError | NilXErr => false
  | XErr e => errors_Is_x e target
  | OtherErr _ w => errors_Is w target
  end
with errors_Is_x (e : Error) (target : Error) : bool :=
  match e with
  | mkError t _ nested _ _ _ _ => bool_decide (t = errorType target) || errors_Is nested target
  end.

(** [openapi.Error] *)
Record OError := mkOError {
  Result : ErrorResult; oe_Error : option bytes; oe_Field : option bytes; oe_Details : option bytes }.

Class Env := {
  (** [json.MarshalIndent] of the response body; [None] when it fails *)
  MarshalIndent : OError → option bytes;
  (** [zap.Field] values and their JSON encoding, if it succeeds *)
  Field : Type;
  EncodeEntry : list Field → option bytes;
  (** [runtime.Caller(4)] *)
  Caller4 : option (bytes * Z);
  theBuild : Version.build }.

(** What a call does besides returning. *)
Inductive capture := CaptureMessage (msg : bytes) | CaptureException (err : goerror).
Record sentryEvent := mkSentry {
  s_tags : list (bytes * ErrorResult); s_extras : list (bytes * bytes);
  s_level : option sentryLevel; s_capture : capture }.
Inductive event :=
  | CounterInc (code_name : ErrorResult) (label tag commit feature caller : bytes)
  | Sentry (ev : sentryEvent)
  | LogError (msg : bytes)
  | LogWarn (msg : bytes).

Section xerror.
Context {env : Env}.

(** ** Serializers *)
Definition marshalError (oError : OError) : go unit bytes :=
  match MarshalIndent oError with
  | Some j => Ok j
  | None => Panic                                   (* zap.L().Fatal *)
  end.

Definition defaultSerializer (err : Error) : go unit (Z * bytes) :=
  details ← match nestedError err with
            | NilError => Ok None
            | _ => t ← errText (nestedError err); mret (Some t)
            end;
  let oError := mkOError (codeName (deref (errorType err))) (Some (description err)) (failedField err) details in
  j ← marshalError oError;
  mret (httpCode (deref (errorType err)), j).

Definition secretiveSerializer (err : Error) : go unit (Z * bytes) :=
  let oError := mkOError (codeName (deref (errorType err))) (Some (description err)) None None in
  j ← marshalError oError;
  mret (httpCode (deref (errorType err)), j).

Definition callSerializer (f : errorSerializerFunc) : Error → go unit (Z * bytes) :=
  match f with useDefault => defaultSerializer | useSecretive => secretiveSerializer end.

Definition ErrorToHttpResponse (err : goerror) : go unit (Z * bytes) :=
  match err with
  | XErr t => callSerializer (serializer t) t
  | NilXErr => Panic                                (* t.serializer *)
  | _ =>
      msg ← errText err;
      j ← marshalError (mkOError (ResultText (txt "UNKNOWN_ERROR")) (Some msg) None None);
      mret (500, j)
  end.

(** ** Reporting *)

(** The loop of [cutCallerFilePath] at index [i]; [os.PathSeparator] is a slash. *)
Fixpoint cutLoop (file : bytes) (i : nat) (oneSlash : bool) : bytes :=
  match i with
  | O => file
  | S i' =>
      if bool_decide (file !! i = Some 47) then
        if oneSlash then drop (i + 1) file
        else cutLoop file i' true
      else cutLoop file i' oneSlash
  end.
Definition cutCallerFilePath (file : bytes) : bytes := cutLoop file (length file - 1) false.

Definition getCaller : bytes :=
  match Caller4 with
  | None => txt "unknown"
  | Some (srcFile, line) => cutCallerFilePath srcFile ++ txt ":" ++ itoa line
  end.

Definition sendToExternalServices (e : Error) (fields : list Field) : list event :=
  let code := codeName (deref (errorType e)) in
  let extras :=
    match failedField e with Some f => [(txt "failed_field", f)] | None => [] end ++
    (if zlen (warningLabel e) =? 0 then [(txt "warn_label", warningLabel e)] else []) ++
    (if 0 <? zlen fields then
       match EncodeEntry fields with Some buf => [(txt "zap_fields", buf)] | None => [] end
     else []) in
  [CounterInc code (warningLabel e) (Version.GetTag theBuild) (Version.GetCommit theBuild)
     (Version.GetFeature theBuild) getCaller;
   Sentry
     (if isNil (nestedError e) then
        mkSentry [(txt "err_type", code)] extras (Some (externalLoggerLevel e)) (CaptureMessage (description e))
      else
        mkSentry [(txt "err_type", code)] (extras ++ [(txt "message", description e)]) None
          (CaptureException (nestedError e)))].

(** ** Constructors: the events and the error; logging the text can panic. *)
Definition newError (t : ErrorTypePtr) (description : bytes) (ser : errorSerializerFunc) (err : goerror)
    (failedField : option bytes) (fields : list Field) : list event * go unit Error :=
  let e := mkError t description err failedField [] ser LevelError in
  let sent := sendToExternalServices e fields in
  match Error_Error e with
  | Ok text => (sent ++ [LogError text], Ok e)
  | _ => (sent, Panic)
  end.

Definition newWarning (t : ErrorTypePtr) (msg : bytes) (ser : errorSerializerFunc) (err : goerror)
    (failedField : option bytes) (label : bytes) (fields : list Field) : list event * go unit Error :=
  let label := if zlen label =? 0 then txt "unset" else label in
  let w := mkError t msg err failedField label ser LevelWarning in
  let sent := sendToExternalServices w fields in
  match Error_Error w with
  | Ok text => (sent ++ [LogWarn text], Ok w)
  | _ => (sent, Panic)
  end.

Implicit Types (description label msg : bytes) (err : goerror) (fields : list Field).
Definition EInternalError description err fields :=
  newError EInternalErrorType description useSecretive err None fields.
Definition WInternalError label description err fields :=
  newWarning EInternalErrorType description useSecretive err None label fields.
Definition EInvalidArgument description err fields :=
  newError EInvalidArgumentType description useDefault err None fields.
Definition WInvalidArgument label description err fields :=
  newWarning EInvalidArgumentType description useDefault err None label fields.
Definition EInvalidField description (failedField : bytes) err fields :=
  newError EInvalidArgumentType description useDefault err (Some failedField) fields.
Definition WInvalidField label description (failedField : bytes) err fields :=
  newWarning EInvalidArgumentType description useDefault err (Some failedField) label fields.
Definition EEntryNotFound description err fields :=
  newError EEntryNotFoundType description useDefault err None fields.
Definition WEntryNotFound label description err fields :=
  newWarning EEntryNotFoundType description useDefault err None label fields.
Definition EExists description err fields :=
  newError EExistsType description useDefault err None fields.
Definition WExists label description err fields :=
  newWarning EExistsType description useDefault err None label fields.
Definition EStorageError description err fields :=
  newError EStorageErrorType description useDefault err None fields.
Definition WStorageError label description err fields :=
  newWarning EStorageErrorType description useDefault err None label fields.
Definition ETunnelError description err fields :=
  newError ETunnelErrorType description useDefault err None fields.
Definition WTunnelError label description err fields :=
  newWarning ETunnelErrorType description useDefault err None label fields.
Definition EUnauthorized description err fields :=
  newError EUnauthorizedType description useSecretive err None fields.
Definition WUnauthorized label description err fields :=
  newWarning EUnauthorizedType description useSecretive err None label fields.
Definition EAuthenticationFailed description err fields :=
  newError EAuthenticationFailedType description useSecretive err None fields.
Definition WAuthenticationFailed label description err fields :=
  newWarning EAuthenticationFailedType description useSecretive err None label fields.
Definition ENotEnoughSpace description err fields :=
  newError ENotEnoughSpaceType description useDefault err None fields.
Definition WNotEnoughSpace label description err fields :=
  newWarning ENotEnoughSpaceType description useDefault err None label fields.
Definition EUnavailable description err fields :=
  newError EUnavailableType description useDefault err None fields.
Definition WUnavailable label description err fields :=
  newWarning EUnavailableType description useDefault err None label fields.
Definition EConfigurationRequired msg :=
  newError EConfigurationRequiredType msg useDefault NilError None [].
Definition EForbidden msg :=
  newError EForbiddenType msg useDefault NilError None [].
Definition EInvalidConfiguration msg (field : bytes) :=
  newError EInvalidConfigurationType msg useDefault NilError (Some field) [].
Definition EEntityTooLarge description err fields :=
  newError EEntityTooLargeType description useDefault err None fields.
Definition ETooEarly description err fields :=
  newError ETooEarlyType description useDefault err None fields.
Definition ENoLicense msg :=
  newError ENoLicenseType msg useDefault NilError None [].
Definition ENLimitExceeded msg :=
  newError ELimitExceededType msg useDefault NilError None [].
End xerror.

(** Returning a freshly made error from a function whose errors are of type [error]. *)
Definition throw {A} (r : list event * go unit Error) : go goerror A :=
  match r.2 with Ok e => Err (XErr e) | _ => Panic end.
