(* ===== verification/XErrorProps.v ===== *)
(** * xerror: what errors reveal, to whom, and how they are found again *)
From S2P Require Import Prelude Text XError.

Local Open Scope Z_scope.

Scheme goerror_ind2 := Induction for goerror Sort Prop
  with Error_ind2 := Induction for Error Sort Prop.
Combined Scheme goerror_Error_ind from goerror_ind2, Error_ind2.

(** No nil [*Error] where the text of the error is looked for. *)
Fixpoint proper (err : goerror) : Prop :=
  match err with
  | NilError | NilXErr => False
  | XErr e => proper_x e
  | OtherErr _ _ => True
  end
with proper_x (e : Error) : Prop :=
  match e with
  | mkError _ _ NilError _ _ _ _ => True
  | mkError _ _ nested _ _ _ _ => proper nested
  end.

Lemma text_proper : (∀ err, proper err ↔ ∃ t, errText err = Ok t) ∧ (∀ e, proper_x e ↔ ∃ t, Error_Error e = Ok t).
Proof.
  apply goerror_Error_ind; cbn [proper proper_x errText Error_Error]; try done.
  - by split; [|intros [t ?]].
  - by split; [|intros [t ?]].
  - split; eauto.
  - intros t d n IH f w s l. destruct n; [split; eauto|..]; rewrite IH; split; intros [x Hx];
      try (exists (d ++ txt ": " ++ x); by rewrite Hx); destruct (errText _); gosimp; eauto; done.
Qed.

Lemma errText_ok err : proper err → ∃ t, errText err = Ok t.
Proof. apply (proj1 text_proper). Qed.

(** The descriptions along a chain of errors, and a text that joins them. *)
Fixpoint descriptions (err : goerror) : list bytes :=
  match err with
  | NilError | NilXErr => []
  | XErr e => descriptions_x e
  | OtherErr text _ => [text]
  end
with descriptions_x (e : Error) : list bytes :=
  match e with mkError _ d n _ _ _ _ => d :: descriptions n end.
Fixpoint joinColon (ds : list bytes) : bytes :=
  match ds with [] => [] | [d] => d | d :: ds => d ++ txt ": " ++ joinColon ds end.

Lemma joinColon_cons d ds : ds ≠ [] → joinColon (d :: ds) = d ++ txt ": " ++ joinColon ds.
Proof. by destruct ds. Qed.
Lemma descriptions_proper err : proper err → descriptions err ≠ [].
Proof. destruct err as [| |[]|]; cbn; done. Qed.

(** The text of an error is its descriptions, joined. *)
Lemma text_joined : (∀ err, proper err → errText err = Ok (joinColon (descriptions err))) ∧
  (∀ e, proper_x e → Error_Error e = Ok (joinColon (descriptions_x e))).
Proof.
  apply goerror_Error_ind; cbn [proper proper_x errText Error_Error descriptions descriptions_x]; try done.
  intros t d n IH f w s l Hp. pose proof (descriptions_proper n) as Hd.
  destruct n; [done|..]; rewrite IH by done; by rewrite joinColon_cons by (by apply Hd).
Qed.

(** The errors of a chain of [Unwrap]. *)
Inductive in_chain (e : Error) : goerror → Prop :=
  | chain_here : in_chain e (XErr e)
  | chain_x e' : in_chain e (Unwrap e') → in_chain e (XErr e')
  | chain_other t w : in_chain e w → in_chain e (OtherErr t w).

Lemma errors_Is_chain target :
  (∀ err, errors_Is err target = true ↔ ∃ e, in_chain e err ∧ errorType e = errorType target) ∧
  (∀ e', errors_Is_x e' target = true ↔ ∃ e, in_chain e (XErr e') ∧ errorType e = errorType target).
Proof.
  apply goerror_Error_ind; cbn [errors_Is errors_Is_x].
  - split; [done|]. intros (e & H & _). inversion H.
  - split; [done|]. intros (e & H & _). inversion H.
  - done.
  - intros t w IH. rewrite IH. split; intros (e & H & He); exists e; split; try done; [by constructor|by inversion H].
  - intros t d n IH f w s l. rewrite orb_true_iff, bool_decide_eq_true, IH. split.
    + intros [->|(e & H & He)]; [by exists (mkError (errorType target) d n f w s l); split; [apply chain_here|]|].
      exists e. split; [by apply chain_x|done].
    + intros (e & H & He). inversion H; subst; [by left|]. right. by exists e.
Qed.

(** The constructors whose errors must not tell the client what went wrong inside. *)
Inductive secret_constructor `{Env} : (bytes → goerror → list Field → list event * go unit Error) → ErrorTypePtr → Prop :=
  | secret_internal : secret_constructor EInternalError EInternalErrorType
  | secret_internal_w label : secret_constructor (WInternalError label) EInternalErrorType
  | secret_unauthorized : secret_constructor EUnauthorized EUnauthorizedType
  | secret_unauthorized_w label : secret_constructor (WUnauthorized label) EUnauthorizedType
  | secret_auth : secret_constructor EAuthenticationFailed EAuthenticationFailedType
  | secret_auth_w label : secret_constructor (WAuthenticationFailed label) EAuthenticationFailedType.

Section props.
Context {env : Env}.

Lemma newError_inv t d s err f fields evs e :
  newError t d s err f fields = (evs, Ok e) →
  e = mkError t d err f [] s LevelError ∧
  ∃ text, Error_Error e = Ok text ∧ evs = sendToExternalServices e fields ++ [LogError text].
Proof. unfold newError. destruct (Error_Error _) as [text|[]|] eqn:E; intros [= <- <-]. split; [done|]. by exists text. Qed.

Lemma newWarning_inv t d s err f label fields evs e :
  newWarning t d s err f label fields = (evs, Ok e) →
  e = mkError t d err f (if zlen label =? 0 then txt "unset" else label) s LevelWarning ∧
  ∃ text, Error_Error e = Ok text ∧ evs = sendToExternalServices e fields ++ [LogWarn text].
Proof. unfold newWarning. destruct (Error_Error _) as [text|[]|] eqn:E; intros [= <- <-]. split; [done|]. by exists text. Qed.

(** C20: what a client is told about an internal error, a missing authorization or a
    failed authentication is determined by its type and its description alone: two
    such errors that wrap different errors, or carry different log fields, have
    the same status code and the same body, byte by byte. *)
Theorem secretive_responses c t d err1 err2 fields1 fields2 e1 e2 :
  secret_constructor c t → (c d err1 fields1).2 = Ok e1 → (c d err2 fields2).2 = Ok e2 →
  ErrorToHttpResponse (XErr e1) = ErrorToHttpResponse (XErr e2) ∧
  ErrorToHttpResponse (XErr e1) =
    j ← marshalError (mkOError (codeName (deref t)) (Some d) None None); mret (httpCode (deref t), j).
Proof.
  intros Hc H1 H2.
  assert (∀ err fields e, (c d err fields).2 = Ok e → serializer e = useSecretive ∧ errorType e = t ∧ description e = d) as Hs.
  { intros err fields e He. destruct (c d err fields) as [evs r] eqn:E. cbn [snd] in He. subst r.
    destruct Hc; (apply newError_inv in E || apply newWarning_inv in E); by destruct E as [-> _]. }
  destruct (Hs _ _ _ H1) as (S1 & T1 & D1), (Hs _ _ _ H2) as (S2 & T2 & D2).
  unfold ErrorToHttpResponse. rewrite S1, S2. unfold callSerializer, secretiveSerializer. by rewrite T1, T2, D1, D2.
Qed.

(** The status and the record a client gets for an error: those of its type with its
    description; with the field and the text of the wrapped error only from the default
    serializer; for an error of another package its text. *)
Definition response_right (err : goerror) (status : Z) (o : OError) : Prop :=
  match err with
  | XErr e =>
      status = httpCode (deref (errorType e)) ∧
      o = mkOError (codeName (deref (errorType e))) (Some (description e))
            (match serializer e with useDefault => failedField e | useSecretive => None end)
            (match serializer e with
             | useDefault => if isNil (nestedError e) then None else Some (joinColon (descriptions (nestedError e)))
             | useSecretive => None
             end)
  | _ => status = 500 ∧ o = mkOError (ResultText (txt "UNKNOWN_ERROR")) (Some (joinColon (descriptions err))) None None
  end.

Lemma deref_status t : 400 ≤ httpCode (deref t) ≤ 599.
Proof. destruct t; cbn; lia. Qed.

Lemma response_of err :
  (∀ o, is_Some (MarshalIndent o)) → proper err →
  ∃ status o body, ErrorToHttpResponse err = Ok (status, body) ∧ MarshalIndent o = Some body ∧
    400 ≤ status ≤ 599 ∧ response_right err status o.
Proof.
  intros Hm Hp. assert (∀ o, ∃ b, marshalError o = Ok b ∧ MarshalIndent o = Some b) as Hj
    by (intros o; destruct (Hm o) as [b Hb]; exists b; unfold marshalError; by rewrite Hb).
  destruct err as [| |[t d n f w s l]|text wr]; try done.
  - pose proof (deref_status t) as Ht. unfold ErrorToHttpResponse. cbn [serializer callSerializer]. destruct s.
    + assert (isNil n = false → proper n) as Hn by (destruct n; [done|intros _; exact Hp..]).
      assert (match n with NilError => Ok None | _ => t ← errText n; mret (Some t) end =
        @Ok unit _ (if isNil n then None else Some (joinColon (descriptions n)))) as Hd.
      { destruct n; [done|..]; rewrite (proj1 text_joined _ (Hn eq_refl)); done. }
      cbn [callSerializer]. unfold defaultSerializer. cbn [nestedError errorType description failedField]. rewrite Hd. gosimp.
      destruct (Hj (mkOError (codeName (deref t)) (Some d) f (if isNil n then None else Some (joinColon (descriptions n))))) as (b & E1 & E2).
      rewrite E1. by eexists _, _, b.
    + cbn [callSerializer]. unfold secretiveSerializer. cbn [errorType description].
      destruct (Hj (mkOError (codeName (deref t)) (Some d) None None)) as (b & E1 & E2). rewrite E1. by eexists _, _, b.
  - unfold ErrorToHttpResponse. rewrite (proj1 text_joined _ Hp). gosimp.
    destruct (Hj (mkOError (ResultText (txt "UNKNOWN_ERROR")) (Some text) None None)) as (b & E1 & E2). cbn [descriptions joinColon]. rewrite E1.
    eexists _, _, b. split; [done|]. split; [exact E2|]. split; [lia|done].
Qed.

Lemma response_status err code body : ErrorToHttpResponse err = Ok (code, body) → 400 ≤ code ≤ 599.
Proof.
  unfold ErrorToHttpResponse. destruct err as [| |[t d n f w s l]|text wr]; try done; cbn [serializer callSerializer errText].
  - pose proof (deref_status t). destruct s; cbn [callSerializer]; unfold defaultSerializer, secretiveSerializer; cbn [nestedError errorType description failedField].
    + destruct (match n with NilError => _ | _ => _ end) as [dt|[]|]; gosimp; try done. destruct (marshalError _); gosimp; try done. intros [= <- <-]. done.
    + destruct (marshalError _); gosimp; try done. intros [= <- <-]. done.
  - gosimp. destruct (marshalError _); gosimp; try done. intros [= <- <-]. lia.
Qed.

(** C30: every error that has a text becomes an HTTP response with a status of a client
    or server error (4xx or 5xx), whose body encodes exactly this record: for an error of
    this package the code of its type and its description, and, for the default
    serializer, the failed field and the text of the error it wraps, which is the descriptions
    of the whole chain joined with colons; for any other error the code UNKNOWN_ERROR and its text. *)
Theorem error_response err :
  (∀ o, is_Some (MarshalIndent o)) → proper err →
  ∃ status o body, ErrorToHttpResponse err = Ok (status, body) ∧ MarshalIndent o = Some body ∧
    400 ≤ status ≤ 599 ∧ response_right err status o.
Proof. apply response_of. Qed.

(** An error made by wrapping another is recognised by its own type and by every
    type that was recognised in what it wraps. *)
Theorem wrapping_keeps_types t d s err f fields evs e target :
  newError t d s err f fields = (evs, Ok e) →
  (errors_Is (XErr e) target = true ↔ t = errorType target ∨ errors_Is err target = true) ∧
  (errors_Is (XErr e) target = true ↔ ∃ e', in_chain e' (XErr e) ∧ errorType e' = errorType target).
Proof.
  intros [-> _]%newError_inv. split; [|apply (proj1 (errors_Is_chain target))].
  cbn [errors_Is errors_Is_x]. by rewrite orb_true_iff, bool_decide_eq_true.
Qed.

(** The name of the extra is among the event's extras. *)
Definition has_extra (k : bytes) (ev : event) : Prop :=
  match ev with Sentry s => k ∈ (s_extras s).*1 | _ => False end.

Lemma extras_warn e fields :
  Exists (has_extra (txt "warn_label")) (sendToExternalServices e fields) ↔ warningLabel e = [].
Proof.
  unfold sendToExternalServices. rewrite !Exists_cons, Exists_nil. cbn [has_extra].
  rewrite <-(zlen_0_nil (warningLabel e)), <-Z.eqb_eq.
  set (x := match failedField e with Some _ => _ | None => _ end).
  set (z := if 0 <? zlen fields then _ else _).
  assert (txt "warn_label" ∉ x.*1) as Hx by (subst x; destruct (failedField e); set_solver by discriminate).
  assert (txt "warn_label" ∉ z.*1) as Hz by (subst z; destruct (0 <? zlen fields); [destruct (EncodeEntry fields)|]; set_solver by discriminate).
  assert (∀ m, txt "warn_label" ∈ ((x ++ (if zlen (warningLabel e) =? 0 then [(txt "warn_label", warningLabel e)] else []) ++ z) ++ [(txt "message", m)]).*1
    ↔ (zlen (warningLabel e) =? 0) = true) as Hk.
  { intros m. rewrite !fmap_app, !elem_of_app. destruct (zlen (warningLabel e) =? 0); [split; [done|set_solver]|].
    split; [|done]. intros [[?|[H|?]]|H]; try done; [by apply not_elem_of_nil in H|]. cbn in H. by apply list_elem_of_singleton in H. }
  destruct (isNil (nestedError e)); cbn [s_extras].
  - rewrite <-(Hk []). rewrite (fmap_app _ (_ ++ _ ++ _)), elem_of_app. split; [intros [[]|[H|[]]]; by left|].
    intros [H|H]; [by right; left|]. cbn in H. by apply list_elem_of_singleton in H.
  - rewrite Hk. tauto.
Qed.

(** Creating an error counts it once under its code and logs its text once, in this
    order with one report to sentry in between; warnings never have an empty label.
    But the label reaches sentry exactly when it is empty, so for no warning. *)
Theorem creation_reports t d s err f label fields evs e :
  newError t d s err f fields = (evs, Ok e) ∨ newWarning t d s err f label fields = (evs, Ok e) →
  (∃ ev text log, Error_Error e = Ok text ∧ (log = LogError text ∨ log = LogWarn text) ∧
     evs = [CounterInc (codeName (deref t)) (warningLabel e) (Version.GetTag theBuild) (Version.GetCommit theBuild)
              (Version.GetFeature theBuild) getCaller; Sentry ev; log]) ∧
  (externalLoggerLevel e = LevelWarning ↔ warningLabel e ≠ []) ∧
  (Exists (has_extra (txt "warn_label")) evs ↔ externalLoggerLevel e = LevelError).
Proof.
  assert (∀ log, (∀ ev, log ≠ Sentry ev) → Exists (has_extra (txt "warn_label")) (sendToExternalServices e fields ++ [log]) ↔ warningLabel e = []) as Hex.
  { intros log Hl. rewrite Exists_app, extras_warn, Exists_cons, Exists_nil. split; [|tauto].
    intros [|[H|[]]]; [done|]. destruct log; try done. by destruct (Hl ev). }
  intros [(He & text & Ht & Hev)%newError_inv|(He & text & Ht & Hev)%newWarning_inv]; rewrite Hev, Hex by done; subst e.
  - split; [eexists _, text, _; split; [done|]; split; [by left|done]|]. cbn. by split.
  - split; [eexists _, text, _; split; [done|]; split; [by right|done]|]. cbn [warningLabel externalLoggerLevel].
    destruct (zlen label =? 0) eqn:E; [done|]. apply Z.eqb_neq in E. rewrite zlen_0_nil in E. by split.
Qed.

(** Both slashes that matter are found from the end. *)
Lemma cutLoop_skip file b (n i : nat) :
  (n ≤ i)%nat → (∀ j, (n < j ≤ i)%nat → file !! j ≠ Some 47) → cutLoop file i b = cutLoop file n b.
Proof.
  intros Hn. induction i as [|i IH]; intros H; [by replace n with 0%nat by lia|].
  destruct (decide (n = S i)) as [->|]; [done|]. cbn [cutLoop].
  rewrite bool_decide_eq_false_2 by (apply H; lia). apply IH; [lia|]. intros j Hj. apply H. lia.
Qed.

Lemma no_slash_app dir w rest j :
  47 ∉ w → (length dir ≤ j < length dir + length w)%nat → (dir ++ w ++ rest) !! j ≠ Some 47.
Proof.
  intros Hw Hj. rewrite lookup_app_r, lookup_app_l by lia. intros E. by apply list_elem_of_lookup_2 in E.
Qed.

(** The name of the caller's file is cut down to its package and file: everything
    up to the last but one slash is removed, unless that slash is the first byte. *)
Theorem cut_path dir pkg name :
  dir ≠ [] → 47 ∉ pkg → 47 ∉ name → name ≠ [] →
  cutCallerFilePath (dir ++ [47] ++ pkg ++ [47] ++ name) = pkg ++ [47] ++ name.
Proof.
  intros Hd Hp Hn Hn0. unfold cutCallerFilePath.
  set (file := dir ++ [47] ++ pkg ++ [47] ++ name).
  assert (0 < length dir)%nat by (destruct dir; [done|cbn; lia]).
  assert (file = (dir ++ [47] ++ pkg) ++ [47] ++ name) as Ef by (unfold file; by rewrite <-!app_assoc).
  set (i2 := (length dir + 1 + length pkg)%nat). set (i1 := length dir).
  assert (length file = i2 + 1 + length name)%nat as Hlen by (unfold file, i2; rewrite !length_app; cbn; lia).
  assert (file !! i2 = Some 47) as L2.
  { rewrite Ef, lookup_app_r by (rewrite !length_app; cbn; lia). unfold i2. rewrite !length_app. cbn [length].
    by replace (length dir + 1 + length pkg - (length dir + (1 + length pkg)))%nat with 0%nat by lia. }
  assert (file !! i1 = Some 47) as L1 by (unfold file, i1; by rewrite lookup_app_r, Nat.sub_diag by lia).
  rewrite (cutLoop_skip file false i2) by (first [lia | intros j Hj; rewrite Ef, app_assoc; rewrite <-(app_nil_r name);
    apply no_slash_app; [done|rewrite !length_app; cbn [length]; lia]]).
  destruct i2 as [|k] eqn:Ei2; [lia|]. cbn [cutLoop]. rewrite bool_decide_eq_true_2 by done.
  rewrite (cutLoop_skip file true i1).
  - destruct i1 as [|k'] eqn:Ei1; [lia|]. cbn [cutLoop]. rewrite bool_decide_eq_true_2 by done.
    rewrite <-Ei1. unfold i1. unfold file. rewrite app_assoc. rewrite drop_app_length'; [done|rewrite length_app; cbn; lia].
  - lia.
  - intros j Hj. unfold file. rewrite app_assoc. apply no_slash_app; [done|]. rewrite length_app. cbn. lia.
Qed.
End props.

(** ** Concrete runs *)
#[local] Instance test_env : Env := {|
  MarshalIndent o := Some (default [] (oe_Error o) ++ default [] (oe_Details o));
  Field := unit;
  EncodeEntry _ := Some (txt "{}");
  Caller4 := Some (txt "/home/u/src/proj/pkg/foo.go", 12);
  theBuild := Version.mkBuild (txt "v1") (txt "abc") Version.Personal |}.

Definition no_field : list (@Field test_env) := [].
Definition one_field : list (@Field test_env) := [tt : @Field test_env].
Definition db_error : goerror := OtherErr (txt "password=1") NilError.

Lemma secretive_responses_witness :
  ∃ e1 e2, (EInternalError (txt "oops") db_error no_field).2 = Ok e1 ∧ (EInternalError (txt "oops") NilError one_field).2 = Ok e2 ∧
    ErrorToHttpResponse (XErr e1) = ErrorToHttpResponse (XErr e2) ∧ ErrorToHttpResponse (XErr e1) = Ok (500, txt "oops").
Proof.
  eexists _, _. split; [reflexivity|]. split; [reflexivity|].
  destruct (secretive_responses EInternalError EInternalErrorType (txt "oops") db_error NilError no_field one_field _ _ secret_internal eq_refl eq_refl) as [H1 H2].
  split; [exact H1|]. rewrite H2. reflexivity.
Defined.

Definition dup_error : goerror :=
  XErr (mkError EExistsType (txt "dup") (XErr (mkError EExistsType (txt "row") db_error None [] useSecretive LevelError)) (Some (txt "id")) [] useDefault LevelError).
Lemma error_response_witness :
  ∃ status o body, ErrorToHttpResponse dup_error = Ok (status, body) ∧ MarshalIndent o = Some body ∧ 400 ≤ status ≤ 599 ∧
    oe_Field o = Some (txt "id") ∧ oe_Details o = Some (txt "row: password=1").
Proof.
  destruct (error_response dup_error) as (st & o & b & H1 & H2 & H3 & H4 & H5); [intros o; eexists; reflexivity|exact I|].
  exists st, o, b. split; [exact H1|]. split; [exact H2|]. split; [exact H3|]. rewrite H5. split; reflexivity.
Defined.

Lemma creation_reports_witness :
  ∃ evs e, newWarning EExistsType (txt "dup") useDefault db_error None [] one_field = (evs, Ok e) ∧
    ¬ Exists (has_extra (txt "warn_label")) evs ∧ warningLabel e = txt "unset".
Proof.
  eexists _, _. split; [reflexivity|].
  destruct (creation_reports EExistsType (txt "dup") useDefault db_error None [] one_field _ _ (or_intror eq_refl)) as (_ & _ & H).
  split; [|reflexivity]. rewrite H. discriminate.
Defined.

(** An error of the default kind that wraps a secretive one shows the client what the
    latter withholds: the text of the wrapped error includes its own nested text. *)
Example wrapped_secret_shown :
  match (EInternalError (txt "query") db_error no_field).2 with
  | Ok e => match (EInvalidArgument (txt "bad") (XErr e) no_field).2 with
            | Ok e' => ErrorToHttpResponse (XErr e')
            | _ => Panic
            end
  | _ => Panic
  end = Ok (400, txt "badquery: password=1").
Proof. reflexivity. Qed.

Example caller_test : getCaller = txt "pkg/foo.go:12".
Proof. reflexivity. Qed.
Example version_test : Version.GetVersion theBuild = txt "v1-abc (personal)".
Proof. reflexivity. Qed.
