(* ===== verification/Control.v ===== *)
(** * control: the services of a process and its main loop

    Models [src/control]: [service.go] (an ordered registry of services), [runtime.go] (the
    main loop) and [events.go] (the event channel).  Services and the runtime are
    interfaces of other packages: classes whose operations act on the state [W] of
    the world. *)
From S2P Require Import Prelude Text XError.

Local Open Scope Z_scope.

(** ** service.go *)

(** The services behind the interface values; an [id] is the pointer. *)
Class ServiceController (W : Type) := {
  svc_Shutdown : nat → W → goerror * W;
  svc_Running : nat → W → bool }.

(** A registered name can be mapped to nil. *)
Record ServiceMap := mkServiceMap { services : gmap bytes (option nat); order : list bytes }.

Definition NewServiceMap : ServiceMap := mkServiceMap ∅ [].

Section service.
Context {env : Env} {W : Type} `{!ServiceController W}.
Implicit Types (m : ServiceMap) (name : bytes) (w : W).

(** The outcome is a panic where the source calls [Fatal]. *)
Definition RegisterService name (service : option nat) m : go goerror ServiceMap :=
  if bool_decide (is_Some (services m !! name)) then Panic
  else match service with
  | None => Panic
  | Some _ => Ok (mkServiceMap (<[name := service]> (services m)) (order m ++ [name]))
  end.

Definition Replace name (s : option nat) m w : go goerror unit * ServiceMap * W :=
  match services m !! name with
  | None => (throw (WInternalError (txt "services") (txt "replace: service is not registered") NilError []), m, w)
  | Some None => (Panic, m, w)                      (* old.Shutdown() on nil *)
  | Some (Some old) =>
      let '(err, w) := svc_Shutdown old w in
      if isNil err then (Ok tt, mkServiceMap (<[name := s]> (services m)) (order m), w)
      else (throw (WInternalError (txt "services") (txt "replace: failed to shutdown") err []), m, w)
  end.

(** The loop of [Shutdown] over the names that are left, last registered first. *)
Fixpoint shutdownLoop (names : list bytes) (svcs : gmap bytes (option nat)) w : go goerror unit * gmap bytes (option nat) * W :=
  match names with
  | [] => (Ok tt, svcs, w)
  | name :: names =>
      match default None (svcs !! name) with
      | None => (throw (EInternalError (txt "service is nil") NilError []), svcs, w)
      | Some service =>
          let '(err, w) := svc_Shutdown service w in
          if negb (isNil err) then (throw (EInternalError (txt "service is failed to shutdown") err []), svcs, w)
          else if svc_Running service w then (throw (EInternalError (txt "service is still running") NilError []), svcs, w)
          else shutdownLoop names (<[name := None]> svcs) w
      end
  end.

Definition ServiceMap_Shutdown m w : go goerror unit * ServiceMap * W :=
  let '(r, svcs, w) := shutdownLoop (reverse (order m)) (services m) w in
  match r with
  | Ok _ =>
      let order := [] in
      let svcs := foldr (λ kv, delete kv.1) svcs (map_to_list svcs) in
      if (negb (zlen order =? 0)) || negb (bool_decide (size svcs = 0%nat)) then
        (throw (EInvalidArgument (txt "services data is not empty after shutdown") NilError []), mkServiceMap svcs order, w)
      else (Ok tt, mkServiceMap svcs order, w)
  | _ => (r, mkServiceMap svcs (order m), w)
  end.
End service.

(** ** events.go *)
Definition EventRestart : Z := 1.
Definition EventSetLogLevel : Z := 2.
Definition EventCriticalError : Z := 3.

(** The [Info] of an event is any value. *)
Record Event {I : Type} := mkEvent { EventType : Z; Info : option I }.
Arguments Event : clear implicits.
Arguments mkEvent {I}.

Section events.
Context {I : Type}.
(** The unbuffered channel: the goroutines blocked in a send, with their events. *)
Record EventManager := mkEventManager { blocked : list (nat * Event I) }.
Definition NewEventManager : EventManager := mkEventManager [].
(** The event that [EmitEvent] and [EmitEventWithInfo] send. *)
Definition EmitEvent (event : Z) : Event I := mkEvent event None.
Definition EmitEventWithInfo (event : Z) (info : I) : Event I := mkEvent event (Some info).

(** Goroutine [g] starts a send; [NextEvent] takes the event of one of the senders,
    which returns from its send.  The manager never closes the channel. *)
Inductive ev_label := Send (g : nat) (e : Event I) | NextEvent (g : nat) (e : Event I).
Inductive ev_step : EventManager → ev_label → EventManager → Prop :=
  | ev_send m g e : g ∉ (blocked m).*1 → ev_step m (Send g e) (mkEventManager (blocked m ++ [(g, e)]))
  | ev_next l1 g e l2 : ev_step (mkEventManager (l1 ++ (g, e) :: l2)) (NextEvent g e) (mkEventManager (l1 ++ l2)).
End events.

(** ** runtime.go *)
Inductive signal := SIGINT | SIGTERM | SIGHUP.

Class Runtime (W I : Type) := {
  rt_Start : W → goerror * W;
  rt_Stop : W → goerror * W;
  rt_Restart : W → goerror * W;
  rt_ProcessEvents : Event I → W → W }.

Section runtime.
Context {W I : Type} `{!Runtime W I}.

(** What the [select] of the main loop receives. *)
Inductive input := Sig (s : signal) | Ev (e : Event I).

(** [Exec] returned, exited the process ([Fatal] runs no deferred function), or waits
    for more input. *)
Inductive exec_state := Returned (w : W) | Exited (w : W) | Waiting (w : W).

(** The deferred function. *)
Definition deferredStop (w : W) : exec_state :=
  let '(err, w) := rt_Stop w in
  if isNil err then Returned w else Exited w.

(** One round of the loop. *)
Definition loopStep (i : input) (w : W) : exec_state :=
  match i with
  | Sig SIGHUP => let '(err, w) := rt_Restart w in if isNil err then Waiting w else Exited w
  | Sig _ => deferredStop w
  | Ev e => Waiting (rt_ProcessEvents e w)
  end.

Fixpoint loop (inputs : list input) (w : W) : exec_state :=
  match inputs with
  | [] => Waiting w
  | i :: inputs => match loopStep i w with Waiting w => loop inputs w | r => r end
  end.

Definition Exec (inputs : list input) (w : W) : exec_state :=
  let '(err, w) := rt_Start w in
  if isNil err then loop inputs w else Exited w.
End runtime.
Arguments input : clear implicits.
Arguments exec_state : clear implicits.
