(* ===== verification/ControlProps.v ===== *)
(** * control: shutdown order, failed shutdowns, the main loop *)
From S2P Require Import Prelude Text XError XErrorProps Control.

Local Open Scope Z_scope.

Section service.
Context {env : Env} {W : Type} `{!ServiceController W}.
Implicit Types (m : ServiceMap) (name : bytes) (w : W).

(** Every registered name once, each with a service. *)
Definition registered m : Prop :=
  NoDup (order m) ∧ dom (services m) = list_to_set (order m) ∧ (∀ name, services m !! name ≠ Some None).

Lemma registered_new : registered NewServiceMap.
Proof. split; [constructor|]. split; [apply dom_empty_L|]. intros name. cbn. by rewrite lookup_empty. Qed.

Lemma registered_register name s m m' :
  registered m → RegisterService name s m = Ok m' → registered m' ∧ order m' = order m ++ [name] ∧ services m' = <[name := s]> (services m).
Proof.
  intros (Hn & Hd & Hs). unfold RegisterService. case_bool_decide as Hin; [done|]. destruct s as [id|]; [|done].
  intros [= <-]. cbn. split; [|done]. split; [|split]; cbn.
  - apply NoDup_app. split; [done|]. split; [|apply NoDup_singleton]. intros x Hx ->%list_elem_of_singleton.
    apply Hin, elem_of_dom. rewrite Hd. by apply elem_of_list_to_set.
  - rewrite dom_insert_L, Hd, list_to_set_app_L. set_solver.
  - intros x. destruct (decide (x = name)) as [->|]; [by rewrite lookup_insert_eq|]. rewrite lookup_insert_ne by done. apply Hs.
Qed.

(** One service: its call, and whether it is down afterwards. *)
Definition stop1 (w : W) (id : nat) : W := (svc_Shutdown id w).2.
Definition stops (id : nat) w : bool := isNil (svc_Shutdown id w).1 && negb (svc_Running id (stop1 w id)).
(** All of them stop when they are asked in this order. *)
Fixpoint all_stop (ids : list nat) w : Prop :=
  match ids with [] => True | id :: ids => stops id w = true ∧ all_stop ids (stop1 w id) end.

Lemma all_stop_app ids1 ids2 w : all_stop (ids1 ++ ids2) w ↔ all_stop ids1 w ∧ all_stop ids2 (foldl stop1 w ids1).
Proof. revert w. induction ids1 as [|id ids1 IH]; intros w; cbn; [tauto|]. rewrite IH. tauto. Qed.

Definition clear (names : list bytes) (svcs : gmap bytes (option nat)) : gmap bytes (option nat) :=
  foldl (λ s name, <[name := None]> s) svcs names.

Lemma clear_lookup names : ∀ svcs name, clear names svcs !! name = if decide (name ∈ names) then Some None else svcs !! name.
Proof.
  induction names as [|n names IH]; intros svcs name; cbn [clear foldl]; [done|].
  change (clear names (<[n := None]> svcs) !! name = if decide (name ∈ n :: names) then Some None else svcs !! name).
  rewrite IH. repeat case_decide; try set_solver.
  - assert (name = n) as -> by set_solver. by rewrite lookup_insert_eq.
  - by rewrite lookup_insert_ne by set_solver.
Qed.

Definition nilService : list event * go unit Error := EInternalError (txt "service is nil") NilError [].
(** An outcome that is not a success. *)
Definition failed (r : go goerror unit) : Prop := r = Panic ∨ ∃ e, r = Err (XErr e).

Lemma throw_failed r : failed (throw r).
Proof. unfold throw, failed. destruct r as [evs [e|[]|]]; eauto. Qed.

(** One round of the loop at a name that has a service. *)
Lemma shutdownLoop_cons name names svcs w id :
  svcs !! name = Some (Some id) →
  if stops id w then shutdownLoop (name :: names) svcs w = shutdownLoop names (<[name := None]> svcs) (stop1 w id)
  else ∃ r, failed r ∧ shutdownLoop (name :: names) svcs w = (r, svcs, stop1 w id).
Proof.
  intros Hid. cbn [shutdownLoop]. rewrite Hid. cbn [default from_option Datatypes.id]. unfold stops, stop1.
  destruct (svc_Shutdown id w) as [e w1]. cbn [fst snd Datatypes.id].
  destruct (isNil e); cbn [negb andb]; [destruct (svc_Running id w1)|]; cbn [negb]; [..|done|];
    (eexists; split; [apply throw_failed|done]).
Qed.

Lemma throw_not_ok r : throw r ≠ Ok tt.
Proof. by destruct (throw_failed r) as [->|[x ->]]. Qed.

Lemma loop_spec names ids : ∀ svcs w,
  NoDup names → Forall2 (λ name id, svcs !! name = Some (Some id)) names ids →
  (all_stop ids w ∧ shutdownLoop names svcs w = (Ok tt, clear names svcs, foldl stop1 w ids)) ∨
  (∃ n1 name n2 i1 id i2 r, names = n1 ++ name :: n2 ∧ ids = i1 ++ id :: i2 ∧ length n1 = length i1 ∧
     all_stop i1 w ∧ stops id (foldl stop1 w i1) = false ∧ failed r ∧
     shutdownLoop names svcs w = (r, clear n1 svcs, foldl stop1 w (i1 ++ [id]))).
Proof.
  revert ids. induction names as [|name names IH]; intros ids svcs w Hnd Hf.
  { apply Forall2_nil_inv_l in Hf as ->. by left. }
  apply NoDup_cons in Hnd as [Hn Hnd]. apply Forall2_cons_inv_l in Hf as (id & ids' & Hid & Hf & ->).
  pose proof (shutdownLoop_cons name names svcs w id Hid) as Hstep. destruct (stops id w) eqn:Es.
  - rewrite Hstep.
    destruct (IH ids' (<[name := None]> svcs) (stop1 w id) Hnd) as [[Ha ->]|(n1 & nm & n2 & i1 & i & i2 & r & -> & -> & Hlen & Ha & Hi & Hr & ->)].
    + rewrite Forall2_same_length_lookup in Hf |- *. destruct Hf as [Hlen Hf]. split; [done|]. intros k x y Hx Hy.
      rewrite lookup_insert_ne; [by eapply Hf|]. intros ->. by apply list_elem_of_lookup_2 in Hx.
    + left. by split.
    + right. exists (name :: n1), nm, n2, (id :: i1), i, i2, r. cbn. split_and!; try done. by f_equal.
  - right. destruct Hstep as (r & Hr & ->). by exists [], name, names, [], id, ids', r.
Qed.

Lemma delete_all (s : gmap bytes (option nat)) : foldr (λ kv, delete kv.1) s (map_to_list s) = ∅.
Proof.
  apply map_eq. intros k. rewrite lookup_empty.
  assert (∀ l (s' : gmap bytes (option nat)), foldr (λ kv : bytes * option nat, delete kv.1) s' l !! k = if decide (k ∈ l.*1) then None else s' !! k) as H.
  { induction l as [|[k' v] l IH]; intros s'; cbn [foldr fst]; [done|].
    destruct (decide (k = k')) as [->|]; [rewrite lookup_delete_eq, decide_True; [done|by left]|].
    rewrite lookup_delete_ne by done. rewrite IH. apply decide_ext. cbn. rewrite elem_of_cons. tauto. }
  rewrite H. case_decide as Hk; [done|]. destruct (s !! k) as [v|] eqn:E; [|done].
  destruct Hk. apply list_elem_of_fmap. exists (k, v). split; [done|]. by apply elem_of_map_to_list.
Qed.

Lemma order_ids m : registered m →
  ∃ ids, Forall2 (λ name id, services m !! name = Some (Some id)) (reverse (order m)) ids.
Proof.
  intros (_ & Hd & Hs). assert (∀ name, name ∈ reverse (order m) → ∃ id, services m !! name = Some (Some id)) as H.
  { intros name Hn. rewrite elem_of_reverse in Hn. assert (name ∈ dom (services m)) as Hin by (rewrite Hd; by apply elem_of_list_to_set).
    apply elem_of_dom in Hin as [[id|] Hid]; [by exists id|]. by destruct (Hs name). }
  clear Hd Hs. revert H. generalize (reverse (order m)) as l. induction l as [|n l IH]; intros H; [by exists []|].
  destruct (H n ltac:(by left)) as [id Hid]. destruct IH as [ids Hids]; [intros; apply H; by right|].
  exists (id :: ids). by constructor.
Qed.

Lemma shutdown_cases m w : registered m →
  ∃ ids, Forall2 (λ name id, services m !! name = Some (Some id)) (reverse (order m)) ids ∧
  ((all_stop ids w ∧ ServiceMap_Shutdown m w = (Ok tt, NewServiceMap, foldl stop1 w ids)) ∨
   (∃ n1 name n2 i1 id i2 r, reverse (order m) = n1 ++ name :: n2 ∧ ids = i1 ++ id :: i2 ∧ length n1 = length i1 ∧ all_stop i1 w ∧
      stops id (foldl stop1 w i1) = false ∧ failed r ∧
      ServiceMap_Shutdown m w = (r, mkServiceMap (clear n1 (services m)) (order m), foldl stop1 w (i1 ++ [id])))).
Proof.
  intros Hr. destruct (order_ids m Hr) as [ids Hids]. exists ids. split; [done|]. unfold ServiceMap_Shutdown.
  destruct (loop_spec (reverse (order m)) ids (services m) w) as [[Ha E]|(n1 & nm & n2 & i1 & i & i2 & r & E0 & E1 & Hl & Ha & Hi & Hfail & E)];
    [rewrite reverse_Permutation; apply Hr|done|left|right]; rewrite E; [split; [done|]|].
  - rewrite delete_all. by rewrite map_size_empty.
  - exists n1, nm, n2, i1, i, i2, r. split_and!; try done. by destruct Hfail as [->|[e ->]].
Qed.

(** Shutting down stops the services one by one, the last registered first.  It
    reports success exactly when each of them stopped at its turn, and then the
    registry is empty.  Otherwise it ends at the first that does not stop: no
    service registered before it was asked. *)
Theorem shutdown_order m w r m' w' :
  registered m → ServiceMap_Shutdown m w = (r, m', w') →
  ∃ ids, Forall2 (λ name id, services m !! name = Some (Some id)) (reverse (order m)) ids ∧
    (r = Ok tt ↔ all_stop ids w) ∧
    (r = Ok tt → m' = NewServiceMap ∧ w' = foldl stop1 w ids) ∧
    (r ≠ Ok tt → failed r ∧ order m' = order m ∧ ∃ i1 id i2, ids = i1 ++ id :: i2 ∧ all_stop i1 w ∧
       stops id (foldl stop1 w i1) = false ∧ w' = foldl stop1 w (i1 ++ [id])).
Proof.
  intros Hreg HS. destruct (shutdown_cases m w Hreg) as (ids & Hids & [[Ha E]|(n1 & nm & n2 & i1 & i & i2 & r0 & E0 & E1 & Hl & Ha & Hi & Hfail & E)]);
    rewrite E in HS; injection HS as <- <- <-; exists ids; (split; [done|]).
  - split; [done|]. split; [done|]. by intros [].
  - assert (r0 ≠ Ok tt) as Hne by (by destruct Hfail as [->|[e ->]]). split; [|split; [done|]].
    + split; [done|]. subst ids. intros Hall. apply all_stop_app in Hall as [_ [Hs _]]. congruence.
    + intros _. split; [done|]. split; [done|]. by exists i1, i, i2.
Qed.

(** After a shutdown that failed behind the first service, the registry is stuck:
    every later shutdown fails at once with "service is nil" and stops nothing,
    whatever the state of the services is by then. *)
Theorem shutdown_retry_stuck m w r m' w' w2 last :
  registered m → ServiceMap_Shutdown m w = (r, m', w') → r ≠ Ok tt →
  (reverse (order m)) !! 0%nat = Some last → services m' !! last = Some None →
  ServiceMap_Shutdown m' w2 = (throw nilService, m', w2).
Proof.
  intros Hreg HS Hr Hlast Hnil.
  assert (order m' = order m) as Ho.
  { destruct (shutdown_cases m w Hreg) as (ids & _ & [[_ E]|(n1 & nm & n2 & i1 & i & i2 & r0 & _ & _ & _ & _ & _ & _ & E)]);
      rewrite E in HS; by injection HS as <- <- <-. }
  unfold ServiceMap_Shutdown. rewrite Ho. destruct (reverse (order m)) as [|n rest]; [done|].
  cbn in Hlast. injection Hlast as ->. cbn [shutdownLoop]. rewrite Hnil. cbn. destruct m' as [s o]. cbn in *. subst o. done.
Qed.

(** Replacing a service asks the old one to stop, and only then installs the new one;
    the order of the shutdown stays. *)
Theorem replace_spec name s m w r m' w' :
  Replace name s m w = (r, m', w') →
  order m' = order m ∧
  (r = Ok tt → ∃ old, services m !! name = Some (Some old) ∧ isNil (svc_Shutdown old w).1 = true ∧ w' = stop1 w old ∧
     services m' = <[name := s]> (services m)) ∧
  (r ≠ Ok tt → m' = m).
Proof.
  unfold Replace, stop1. destruct (services m !! name) as [[old|]|]; [|by intros [= <- <- <-]|].
  - destruct (svc_Shutdown old w) as [e w1] eqn:E1. destruct (isNil e) eqn:En; intros [= <- <- <-].
    + split; [done|]. split; [|done]. intros _. exists old. by rewrite E1.
    + split; [done|]. split; [|done]. intros Hr. exfalso. by eapply throw_not_ok.
  - intros [= <- <- <-]. split; [done|]. split; [|done]. intros Hr. exfalso. by eapply throw_not_ok.
Qed.
End service.

(** ** The event channel *)
Section events.
Context {I : Type}.
Implicit Types (m : @EventManager I) (tr : list (@ev_label I)).

Inductive ev_steps : @EventManager I → list (@ev_label I) → @EventManager I → Prop :=
  | ev_refl m : ev_steps m [] m
  | ev_trans m1 l m2 tr m3 : ev_step m1 l m2 → ev_steps m2 tr m3 → ev_steps m1 (l :: tr) m3.

Definition sends (l : @ev_label I) : option (nat * Event I) := match l with Send g e => Some (g, e) | _ => None end.
Definition receives (l : @ev_label I) : option (nat * Event I) := match l with NextEvent g e => Some (g, e) | _ => None end.

(** Every event that was emitted was received exactly once, or its emitter still waits. *)
Theorem events_once m1 tr m2 :
  ev_steps m1 tr m2 → omap receives tr ++ blocked m2 ≡ₚ blocked m1 ++ omap sends tr.
Proof.
  induction 1 as [m|m1 l m2 tr m3 Hs _ IH]; [cbn; by rewrite app_nil_r|].
  destruct Hs as [m g e Hg|l1 g e l2]; cbn [omap list_omap receives sends blocked] in *; rewrite ?IH.
  - by rewrite <-app_assoc.
  - cbn [app]. rewrite <-(Permutation_middle l1 l2 (g, e)). rewrite IH. done.
Qed.
End events.

(** ** The main loop *)
Section runtime.
Context {W I : Type} `{!Runtime W I}.
Implicit Types (inputs : list (input I)) (w : W).

(** The world after the rounds of the loop before the last. *)
Definition round (i : input I) w : option W := match loopStep i w with Waiting w => Some w | _ => None end.
Fixpoint rounds inputs w : option W :=
  match inputs with [] => Some w | i :: inputs => w ← round i w; rounds inputs w end.

Definition terminates (i : input I) : bool := match i with Sig SIGINT | Sig SIGTERM => true | _ => false end.

Lemma rounds_cons i inputs w : rounds (i :: inputs) w = round i w ≫= rounds inputs.
Proof. done. Qed.

Lemma loop_cases inputs w :
  match loop inputs w with
  | Waiting w' => rounds inputs w = Some w'
  | r => ∃ pre i post w0, inputs = pre ++ i :: post ∧ rounds pre w = Some w0 ∧ loopStep i w0 = r
  end.
Proof.
  revert w. induction inputs as [|i inputs IH]; intros w; cbn [loop]; [done|].
  destruct (loopStep i w) as [w1|w1|w1] eqn:E; [by exists [], i, inputs, w..|].
  specialize (IH w1). assert (round i w = Some w1) as Hrd by (unfold round; by rewrite E).
  destruct (loop inputs w1) as [wr|wr|wr]; [..|by rewrite rounds_cons, Hrd];
    destruct IH as (pre & i' & post & w0 & -> & Hr & Hst); exists (i :: pre), i', post, w0;
    (split; [done|]); (split; [|done]); by rewrite rounds_cons, Hrd.
Qed.

(** The main loop returns only when a terminating signal arrived after a successful
    start, with every reload before it successful, and the services were then
    stopped successfully; an input that is neither never ends it unless a reload
    fails, and then the process exits without stopping the services, as it does
    when the start fails. *)
Theorem exec_outcome inputs w :
  let w1 := (rt_Start w).2 in
  match Exec inputs w with
  | Returned w' => isNil (rt_Start w).1 = true ∧ ∃ pre i post w0, inputs = pre ++ i :: post ∧ rounds pre w1 = Some w0 ∧
      terminates i = true ∧ rt_Stop w0 = (NilError, w')
  | Exited w' => (isNil (rt_Start w).1 = false ∧ w' = w1) ∨
      ∃ pre i post w0 err, inputs = pre ++ i :: post ∧ rounds pre w1 = Some w0 ∧ isNil err = false ∧
        ((terminates i = true ∧ rt_Stop w0 = (err, w')) ∨ (i = Sig SIGHUP ∧ rt_Restart w0 = (err, w')))
  | Waiting w' => isNil (rt_Start w).1 = true ∧ rounds inputs w1 = Some w' ∧ Forall (λ i, terminates i = false) inputs
  end.
Proof.
  assert (∀ i w0 w', loopStep i w0 = Returned w' → terminates i = true ∧ rt_Stop w0 = (NilError, w')) as Hret.
  { intros [[]|e] w0 w'; cbn; unfold deferredStop; try done;
      [destruct (rt_Stop w0) as [[] ?]|destruct (rt_Stop w0) as [[] ?]|destruct (rt_Restart w0) as [[] ?]]; cbn; try done; by intros [= ->]. }
  assert (∀ i w0 w', loopStep i w0 = Exited w' → ∃ err, isNil err = false ∧
    ((terminates i = true ∧ rt_Stop w0 = (err, w')) ∨ (i = Sig SIGHUP ∧ rt_Restart w0 = (err, w')))) as Hex.
  { intros [[]|e] w0 w'; cbn; unfold deferredStop; try done;
      [destruct (rt_Stop w0) as [err ?]|destruct (rt_Stop w0) as [err ?]|destruct (rt_Restart w0) as [err ?]];
      destruct (isNil err) eqn:En; try done; intros [= ->]; eauto. }
  assert (∀ l w0 w', rounds l w0 = Some w' → Forall (λ i, terminates i = false) l) as Hfa.
  { induction l as [|i l IH]; intros w0 w' Hr; [constructor|]. rewrite rounds_cons in Hr.
    destruct (round i w0) as [w2|] eqn:Ei; [|done]. constructor; [|by eapply IH].
    unfold round in Ei. destruct i as [[]|e]; cbn in *; unfold deferredStop in Ei; try done; destruct (rt_Stop w0) as [[] ?]; done. }
  cbn zeta. unfold Exec. destruct (rt_Start w) as [err w1]. cbn [fst snd]. destruct (isNil err) eqn:En; [|by left].
  pose proof (loop_cases inputs w1) as Hl. destruct (loop inputs w1) as [w'|w'|w'].
  - destruct Hl as (pre & i & post & w0 & -> & Hr & Hs). destruct (Hret _ _ _ Hs). split; [done|]. by exists pre, i, post, w0.
  - right. destruct Hl as (pre & i & post & w0 & -> & Hr & Hs). destruct (Hex _ _ _ Hs) as (e & He & Hc). by exists pre, i, post, w0, e.
  - split; [done|]. split; [done|]. by eapply Hfa.
Qed.
End runtime.

(** ** Concrete runs *)

(** Services numbered by ids; the world is the list of calls, and service 1 fails. *)
#[local] Instance test_services : ServiceController (list nat) := {|
  svc_Shutdown id w := (if decide (id = 1%nat) then OtherErr (txt "busy") NilError else NilError, w ++ [id]);
  svc_Running _ _ := false |}.
#[local] Existing Instance XErrorProps.test_env.

Definition m3 : ServiceMap := mkServiceMap
  (<[txt "a" := Some 0%nat]> (<[txt "b" := Some 1%nat]> (<[txt "c" := Some 2%nat]> ∅))) [txt "a"; txt "b"; txt "c"].

Lemma m3_registered : registered m3.
Proof.
  split; [by apply (bool_decide_unpack _); vm_compute|]. split; [by apply (bool_decide_unpack _); vm_compute|].
  intros name. unfold m3. cbn [services]. rewrite !lookup_insert. repeat case_decide; try done.
Qed.

Lemma shutdown_order_witness :
  ∃ r m' w', ServiceMap_Shutdown m3 [] = (r, m', w') ∧ failed r ∧ w' = [2; 1]%nat.
Proof.
  destruct (ServiceMap_Shutdown m3 []) as [[r m'] w'] eqn:E. exists r, m', w'. split; [done|].
  destruct (shutdown_order m3 [] r m' w' m3_registered E) as (ids & _ & _ & _ & H).
  assert (r ≠ Ok tt) as Hr by (intros ->; vm_compute in E; discriminate).
  destruct (H Hr) as (Hf & _). split; [exact Hf|]. vm_compute in E. by injection E as _ _ <-.
Defined.

Lemma shutdown_retry_stuck_witness :
  ∃ r m' w', ServiceMap_Shutdown m3 [] = (r, m', w') ∧ ServiceMap_Shutdown m' [] = (throw nilService, m', []).
Proof.
  destruct (ServiceMap_Shutdown m3 []) as [[r m'] w'] eqn:E. exists r, m', w'. split; [done|].
  apply (shutdown_retry_stuck m3 [] r m' w' [] (txt "c") m3_registered E).
  - intros ->. vm_compute in E. discriminate.
  - reflexivity.
  - vm_compute in E. injection E as _ <- _. reflexivity.
Defined.
