(* ===== verification/HTTP.v ===== *)
(** * xhttp: requests, responses and the helpers around them

    Models [src/xhttp]: [auth.go], [ua.go], [domain_config.go], [response.go], [request.go] and
    [log_mw.go].  Of net/http it defines what these files rely on: a request with
    canonical header names, and the rules by which the calls of a handler on its
    [ResponseWriter] determine the response. *)
From S2P Require Import Prelude Text XError.

Local Open Scope Z_scope.

(** ** net/http *)
Record URL := mkURL { Scheme : bytes; URLHost : bytes; Path : bytes; RawQuery : bytes }.

Record Request := mkRequest {
  RemoteAddr : bytes; Host : bytes; Method : bytes; ReqURL : option URL; RequestURI : bytes;
  ReqHeader : list (bytes * list bytes) }.

(** [Header.Get]: the first value of the name, or nothing. *)
Fixpoint headerGet (h : list (bytes * list bytes)) (name : bytes) : bytes :=
  match h with
  | [] => []
  | (k, vs) :: h => if bool_decide (k = name) then default [] (head vs) else headerGet h name
  end.

(** The calls of a handler on its [ResponseWriter]. *)
Inductive action := SetHeader (k v : bytes) | WriteHeader (code : Z) | Write (data : bytes).

(** The headers collected so far, what was sent (the final status with the headers at
    that moment), and the body. *)
Record rw := mkRW { rw_header : gmap bytes bytes; rw_sent : option (Z * gmap bytes bytes); rw_body : bytes }.
Definition rw0 : rw := mkRW ∅ None [].

Definition informational (code : Z) : bool := (100 <=? code) && (code <=? 199) && negb (code =? 101).
Definition bodyAllowedForStatus (code : Z) : bool :=
  negb ((100 <=? code) && (code <=? 199)) && negb (code =? 204) && negb (code =? 304).

(** [None] is a panic (an invalid status code).  Only the first final status counts. *)
Definition writeHeader (code : Z) (w : rw) : option rw :=
  if (code <? 100) || (999 <? code) then None
  else match rw_sent w with
  | Some _ => Some w
  | None => if informational code then Some w else Some (mkRW (rw_header w) (Some (code, rw_header w)) (rw_body w))
  end.
Definition write (data : bytes) (w : rw) : option rw :=
  w ← match rw_sent w with None => writeHeader 200 w | Some _ => Some w end;
  match rw_sent w with
  | Some (code, _) => Some (if bodyAllowedForStatus code then mkRW (rw_header w) (rw_sent w) (rw_body w ++ data) else w)
  | None => Some w
  end.
Definition perform (a : action) (w : rw) : option rw :=
  match a with
  | SetHeader k v => Some (mkRW (<[k := v]> (rw_header w)) (rw_sent w) (rw_body w))
  | WriteHeader code => writeHeader code w
  | Write data => write data w
  end.
Fixpoint performAll (l : list action) (w : rw) : option rw :=
  match l with [] => Some w | a :: l => w ← perform a w; performAll l w end.

(** What the client gets when the handler has returned. *)
Definition finish (w : rw) : Z * gmap bytes bytes * bytes :=
  match rw_sent w with
  | Some (code, h) => (code, h, rw_body w)
  | None => (200, rw_header w, rw_body w)
  end.
Definition respond (l : list action) : option (Z * gmap bytes bytes * bytes) := finish <$> performAll l rw0.

(** ** auth.go *)
Definition HeaderAuthorization : bytes := txt "Authorization".
Definition HeaderProxyAuthorization : bytes := txt "Proxy-Authorization".
Definition AuthTypeBearer : bytes := txt "bearer".
Definition AuthTypeBasic : bytes := txt "basic".

Definition AuthIsBearer (authType : bytes) : bool := bool_decide (ToLower authType = AuthTypeBearer).

Definition ExtractAuthorizationInfo (r : Request) (header : bytes) : bytes * bytes :=
  let authHeader := headerGet (ReqHeader r) header in
  if bool_decide (authHeader = []) then ([], [])
  else match Fields authHeader with
  | [p0; p1] => (p0, p1)
  | _ => ([], [])
  end.

Definition ExtractTokenFromRequest (r : Request) : bytes * bool :=
  let '(authType, authToken) := ExtractAuthorizationInfo r HeaderAuthorization in
  if bool_decide (authToken = []) then ([], false)
  else if negb (AuthIsBearer authType) then ([], false)
  else (authToken, true).

(** ** ua.go *)
Section ua.
(** The [OS] field of [useragent.Parse]. *)
Context (parseOS : bytes → bytes).

Definition GetByUserAgent (r : Request) : bytes :=
  let ua := headerGet (ReqHeader r) (txt "User-Agent") in
  if bool_decide (ua = []) then [] else ToLower (parseOS ua).
Definition GetByXClientTypeHeader (r : Request) : bytes := ToLower (headerGet (ReqHeader r) (txt "X-Client-Type")).
Definition DefaultPlatformParsers : list (Request → bytes) := [GetByUserAgent; GetByXClientTypeHeader].

Fixpoint firstPlatform (parsers : list (Request → bytes)) (r : Request) : bytes :=
  match parsers with
  | [] => []
  | p :: parsers => let platform := p r in if bool_decide (platform ≠ []) then platform else firstPlatform parsers r
  end.
Definition TryParsePlatform (r : option Request) (parsers : list (Request → bytes)) : bytes :=
  match r with
  | None => []
  | Some r => firstPlatform (if zlen parsers =? 0 then DefaultPlatformParsers else parsers) r
  end.
End ua.

(** ** domain_config.go *)
Record DomainConfig := mkDomainConfig {
  Mode : bytes; PrimaryName : bytes; ExtraNames : list bytes; ForeignNames : list bytes;
  IssueSSL : bool; Schema : bytes; Email : bytes; Dir : bytes }.

Section domain_config.
(** The two modes of the administration API. *)
Context {env : Env} (DomainConfigModeReverseProxy DomainConfigModeDirect : bytes).
Definition DomainConfig_Validate (c : DomainConfig) : go goerror unit :=
  let modes := [DomainConfigModeReverseProxy; DomainConfigModeDirect] in
  let schemas := [txt "http"; txt "https"] in
  if zlen (PrimaryName c) =? 0 then throw (EInternalError (txt "domain.name is required") NilError [])
  else if zlen (Mode c) =? 0 then throw (EInternalError (txt "domain.mode is required") NilError [])
  else if negb (bool_decide (Mode c ∈ modes)) then
    throw (EInternalError (txt "domain.mode got unknown value, expecting `direct` or `reverse-proxy`") NilError [])
  else if bool_decide (Mode c = DomainConfigModeReverseProxy) then
    if zlen (Schema c) =? 0 then throw (EInternalError (txt "domain.schema is required for the reverse-proxy mode") NilError [])
    else if negb (bool_decide (Schema c ∈ schemas)) then
      throw (EInternalError (txt "domain.schema got unknown value, expecting `http` or `https`") NilError [])
    else Ok tt
  else Ok tt.
End domain_config.

(** ** response.go *)
Definition jsonOkString : bytes := 34 :: txt "OK" ++ [34].

Section response.
Context {env : Env} {D : Type}.
(** [json.MarshalIndent] of the data, or its error. *)
Context (marshalData : D → bytes + goerror).

Definition WriteData (data : bytes) : list action := [SetHeader (txt "Content-Type") (txt "application/json"); Write data].

(** [None]: the conversion of the error panicked. *)
Definition WriteJsonError (err : goerror) : option (list action) :=
  if isNil err then Some []
  else match ErrorToHttpResponse err with
  | Ok (code, message) => Some [SetHeader (txt "Content-Type") (txt "application/json"); WriteHeader code; Write message]
  | _ => None
  end.

(** [closure] is what the closure returned: its data, if not nil, and its error. *)
Definition JSONResponse (closure : option D * goerror) : option (list action) :=
  let '(data, err) := closure in
  if negb (isNil err) then WriteJsonError err
  else match data with
  | Some d =>
      match marshalData d with
      | inr err => WriteJsonError err
      | inl bs => Some (WriteData bs)
      end
  | None => Some (WriteData jsonOkString)
  end.
End response.

(** ** request.go *)
Section request.
Context (urlString : URL → bytes).
Fixpoint joinComma (vs : list bytes) : bytes :=
  match vs with [] => [] | [v] => v | v :: vs => v ++ txt "," ++ joinComma vs end.
(** The headers are printed in the order in which the map is iterated. *)
Definition requestStringer_String (r : option Request) : bytes :=
  match r with
  | None => []
  | Some r =>
      txt "RemoteAddress=" ++ RemoteAddr r ++ txt " " ++ txt "Host=" ++ Host r ++ txt " " ++
      txt "Method=" ++ Method r ++ txt " " ++
      match ReqURL r with Some u => txt "URL=" ++ urlString u ++ txt " " | None => [] end ++
      mjoin ((λ '(name, val), name ++ txt "=[" ++ joinComma val ++ txt "] ") <$> ReqHeader r)
  end.
End request.

(** ** log_mw.go *)

(** The wrapped writer of the request log and the status it remembers. *)
Record recorder := mkRecorder { ResponseWriter : rw; status : Z }.

Definition recorder_WriteHeader (s : Z) (r : recorder) : option recorder :=
  w ← writeHeader s (ResponseWriter r); Some (mkRecorder w s).
(** Other methods are those of the wrapped writer. *)
Definition recorder_perform (a : action) (r : recorder) : option recorder :=
  match a with
  | WriteHeader s => recorder_WriteHeader s r
  | _ => w ← perform a (ResponseWriter r); Some (mkRecorder w (status r))
  end.
Fixpoint recorder_performAll (l : list action) (r : recorder) : option recorder :=
  match l with [] => Some r | a :: l => r ← recorder_perform a r; recorder_performAll l r end.

(** The log line of a request. *)
Record logline := mkLog { l_host : bytes; l_method : bytes; l_path : bytes; l_status : Z }.

(** The middleware around a handler, for a writer in state [w]: the writer afterwards
    and the line that is logged. *)
Definition requestLogger (next : Request → list action) (r : Request) (w : rw) : option (rw * logline) :=
  let wr := mkRecorder w 200 in
  wr ← recorder_performAll (next r) wr;
  Some (ResponseWriter wr, mkLog (Host r) (Method r) (RequestURI r) (status wr)).

(** [Hijack] of a writer that can or cannot be hijacked. *)
Definition recorder_Hijack {C} (hijacker : option (C + goerror)) : C + goerror :=
  match hijacker with
  | None => inr (OtherErr (txt "hijack not supported") NilError)
  | Some h => h
  end.
