(* ===== verification/HTTPProps.v ===== *)
(** * xhttp: responses, tokens, the request log *)
From S2P Require Import Prelude Text XError XErrorProps HTTP.

Local Open Scope Z_scope.

Lemma performAll_app l1 l2 w : performAll (l1 ++ l2) w = performAll l1 w ≫= performAll l2.
Proof. revert w. induction l1 as [|a l1 IH]; intros w; [done|]. cbn. destruct (perform a w); [apply IH|done]. Qed.

(** ** JSON responses *)
Definition json : gmap bytes bytes := {[ txt "Content-Type" := txt "application/json" ]}.

Lemma respond_data data : respond (WriteData data) = Some (200, json, data).
Proof. done. Qed.

Lemma respond_error code body : 400 ≤ code ≤ 599 →
  respond [SetHeader (txt "Content-Type") (txt "application/json"); WriteHeader code; Write body] = Some (code, json, body).
Proof.
  intros Hc. unfold respond. cbn [performAll perform mbind option_bind rw0 rw_header rw_sent rw_body].
  unfold writeHeader. rewrite (proj2 (orb_false_iff _ _)) by (rewrite !Z.ltb_ge; lia). cbn [rw_sent rw_header rw_body].
  unfold informational. rewrite (proj2 (Z.leb_gt code 199)) by lia. rewrite andb_false_r, andb_false_l.
  cbn [mbind option_bind perform]. unfold write. cbn [rw_sent rw_header rw_body mbind option_bind].
  unfold bodyAllowedForStatus. rewrite (proj2 (Z.leb_gt code 199)) by lia.
  rewrite andb_false_r, (proj2 (Z.eqb_neq code 204)), (proj2 (Z.eqb_neq code 304)) by lia. done.
Qed.

Section json.
Context {env : Env} {D : Type} (marshalData : D → bytes + goerror).

Lemma json_error err : (∀ o, is_Some (MarshalIndent o)) → proper err →
  ∃ l code body, WriteJsonError err = Some l ∧ respond l = Some (code, json, body) ∧
    ErrorToHttpResponse err = Ok (code, body) ∧ 400 ≤ code ≤ 599.
Proof.
  intros Hm Hp. destruct (response_of err Hm Hp) as (code & o & body & He & _ & Hc & _). unfold WriteJsonError.
  destruct (isNil err) eqn:En; [by destruct err|]. rewrite He. eexists _, code, body.
  split; [done|]. split; [by apply respond_error|]. done.
Qed.

(** A closure's result becomes exactly one JSON response.  Without an error it is
    status 200 with the encoded data, or the text OK when there is no data; an
    error, also one of the encoder, becomes its status (4xx or 5xx) with its body. *)
Theorem json_response data err :
  (∀ o, is_Some (MarshalIndent o)) → (err = NilError ∨ proper err) →
  (∀ d e, marshalData d = inr e → proper e) →
  ∃ l code body, JSONResponse marshalData (data, err) = Some l ∧ respond l = Some (code, json, body) ∧
    match err, data ≫= λ d, Some (marshalData d) with
    | NilError, None => code = 200 ∧ body = jsonOkString
    | NilError, Some (inl bs) => code = 200 ∧ body = bs
    | NilError, Some (inr e) => ErrorToHttpResponse e = Ok (code, body) ∧ 400 ≤ code ≤ 599
    | _, _ => ErrorToHttpResponse err = Ok (code, body) ∧ 400 ≤ code ≤ 599
    end.
Proof.
  intros Hm He Hd. unfold JSONResponse. destruct (isNil err) eqn:En; cbn [negb].
  - destruct err; try done. destruct data as [d|]; cbn [mbind option_bind].
    + destruct (marshalData d) as [bs|e] eqn:E; [by eexists _, 200, bs|].
      destruct (json_error e Hm (Hd _ _ E)) as (l & code & body & ? & ? & ? & ?). by exists l, code, body.
    + by eexists _, 200, jsonOkString.
  - destruct He as [->|Hp]; [done|]. destruct (json_error err Hm Hp) as (l & code & body & ? & ? & ? & ?).
    exists l, code, body. split; [done|]. split; [done|]. by destruct err.
Qed.
End json.

(** ** Tokens *)
Lemma extract_token r tok :
  ExtractTokenFromRequest r = (tok, true) ↔
  ∃ t, Fields (headerGet (ReqHeader r) HeaderAuthorization) = [t; tok] ∧ ToLower t = AuthTypeBearer.
Proof.
  unfold ExtractTokenFromRequest, ExtractAuthorizationInfo, AuthIsBearer.
  set (h := headerGet (ReqHeader r) HeaderAuthorization).
  pose proof (fieldsFrom_nonempty h []) as Hne. fold (Fields h) in Hne.
  case_bool_decide as Hh; [rewrite Hh; split; [done|by intros (t & Ht & _)]|].
  destruct (Fields h) as [|p0 [|p1 [|p2 ps]]]; try (split; [done|by intros (t & [=] & _)]).
  apply Forall_cons in Hne as [_ [Hp1 _]%Forall_cons]. rewrite bool_decide_eq_false_2 by done.
  case_bool_decide as Hb; cbn [negb].
  - split; [intros [= <-]; by exists p0|by intros (t & [= <- <-] & _)].
  - split; [done|]. intros (t & [= <- <-] & ?). done.
Qed.

(** A token is taken from a request exactly when its Authorization header consists of
    two fields of which the first is the word bearer in any case; the token is then
    the second.  So whatever client sends a token without white space that way has
    exactly that token recognised. *)
Theorem bearer_token r :
  (∀ tok, ExtractTokenFromRequest r = (tok, true) ↔
     ∃ t, Fields (headerGet (ReqHeader r) HeaderAuthorization) = [t; tok] ∧ ToLower t = AuthTypeBearer) ∧
  (∀ t tok, headerGet (ReqHeader r) HeaderAuthorization = t ++ 32 :: tok → ToLower t = AuthTypeBearer →
     Forall (λ b, isSpace b = false) tok → tok ≠ [] → ExtractTokenFromRequest r = (tok, true)).
Proof.
  split; [apply extract_token|]. intros t tok Hh Ht Htok Hne. apply extract_token. exists t. split; [|done].
  rewrite Hh. apply Fields_two; try done; [by intros ->|].
  apply Forall_forall. intros b Hb. assert (toLowerByte b ∈ AuthTypeBearer) as Hin by (rewrite <-Ht; by apply list_elem_of_fmap_2).
  destruct (isSpace b) eqn:E; [|done]. unfold isSpace in E.
  assert (toLowerByte b = b) as Eb by (unfold toLowerByte; bsplit; bcase; lia).
  rewrite Eb in Hin. clear Eb. apply orb_true_iff in E. rewrite andb_true_iff, Z.eqb_eq, !Z.leb_le in E.
  unfold AuthTypeBearer in Hin. cbn in Hin. rewrite !elem_of_cons in Hin.
  assert (b < 97) by lia. repeat destruct Hin as [->|Hin]; try lia. by apply not_elem_of_nil in Hin.
Qed.

(** ** The request log *)
Lemma recorder_transparent l : ∀ r, ResponseWriter <$> recorder_performAll l r = performAll l (ResponseWriter r).
Proof.
  induction l as [|a l IH]; intros r; [done|]. cbn [recorder_performAll performAll].
  destruct a as [k v|code|data]; cbn [recorder_perform perform].
  - cbn [mbind option_bind]. apply IH.
  - unfold recorder_WriteHeader. destruct (writeHeader code (ResponseWriter r)) as [w|]; cbn [mbind option_bind]; [apply IH|done].
  - destruct (write data (ResponseWriter r)) as [w|]; cbn [mbind option_bind]; [apply IH|done].
Qed.

(** No status is set twice, or after the body was begun; no informational status. *)
Fixpoint sets_once (sent : bool) (l : list action) : bool :=
  match l with
  | [] => true
  | SetHeader _ _ :: l => sets_once sent l
  | Write _ :: l => sets_once true l
  | WriteHeader c :: l => negb sent && negb (informational c) && sets_once true l
  end.

Definition status_agrees (r : recorder) : Prop := (finish (ResponseWriter r)).1.1 = status r.
Definition is_sent (r : recorder) : bool := bool_decide (is_Some (rw_sent (ResponseWriter r))).

Lemma writeHeader_sent c w w' : writeHeader c w = Some w' → rw_sent w = None → informational c = false →
  rw_sent w' = Some (c, rw_header w).
Proof.
  unfold writeHeader. intros Hw Hs Hi. rewrite Hs, Hi in Hw. destruct (_ || _); [done|]. by injection Hw as <-.
Qed.

Lemma write_sent d w w' : write d w = Some w' →
  is_Some (rw_sent w') ∧ (finish w').1.1 = (finish w).1.1.
Proof.
  unfold write, finish. destruct (rw_sent w) as [[c h]|] eqn:Es.
  - cbn [mbind option_bind]. rewrite Es. intros [= <-]. destruct (bodyAllowedForStatus c); cbn [rw_sent]; rewrite ?Es; eauto.
  - unfold writeHeader. rewrite Es. cbn. intros [= <-]. eauto.
Qed.

Lemma is_sent_false r : is_sent r = false → rw_sent (ResponseWriter r) = None.
Proof. unfold is_sent. intros H%bool_decide_eq_false. by apply eq_None_not_Some. Qed.

(** The recorder agrees with the writer, and remembers 200 until something is sent. *)
Definition recorder_ok (l : list action) (r : recorder) : Prop :=
  sets_once (is_sent r) l = true ∧ status_agrees r ∧ (is_sent r = false → status r = 200).

Lemma recorder_step a l r r1 : recorder_perform a r = Some r1 → recorder_ok (a :: l) r → recorder_ok l r1.
Proof.
  intros E1 (Hs & Ha & H0). destruct a as [k v|c|d]; cbn [recorder_perform sets_once] in *.
  - cbn in E1. injection E1 as <-. unfold recorder_ok, status_agrees, is_sent, finish in *. cbn [ResponseWriter status rw_sent] in *.
    split; [exact Hs|]. split; [|exact H0]. by destruct (rw_sent (ResponseWriter r)) as [[c h]|].
  - unfold recorder_WriteHeader in E1. destruct (writeHeader c (ResponseWriter r)) as [w|] eqn:Ew; cbn in E1; [|done].
    injection E1 as <-. apply andb_true_iff in Hs as [[Hs%negb_true_iff Hi%negb_true_iff]%andb_true_iff Hl].
    apply (writeHeader_sent c) in Ew; [|by apply is_sent_false|done].
    unfold recorder_ok, status_agrees, is_sent, finish. cbn [ResponseWriter status]. rewrite Ew, bool_decide_eq_true_2 by eauto. done.
  - destruct (perform (Write d) (ResponseWriter r)) as [w|] eqn:Ew; cbn in E1; [|done]. injection E1 as <-.
    apply write_sent in Ew as [Hi Hf]. unfold recorder_ok, status_agrees, is_sent. cbn [ResponseWriter status].
    rewrite bool_decide_eq_true_2 by done. rewrite Hf. done.
Qed.

Lemma recorder_status l : ∀ r r', recorder_performAll l r = Some r' → recorder_ok l r → status_agrees r'.
Proof.
  induction l as [|a l IH]; intros r r'; cbn [recorder_performAll]; [by intros [= <-] (_ & H & _)|].
  destruct (recorder_perform a r) as [r1|] eqn:E1; cbn [mbind option_bind]; [|done]. intros Hr Hok.
  apply (IH r1 r' Hr). by eapply recorder_step.
Qed.

(** The request log does not change what the client gets: with the logging
    middleware a handler leads to the same response as without it, and the line
    names the request.  The status it logs is the one the client got whenever the
    handler sets the status at most once, before the body. *)
Theorem logger_transparent (next : Request → list action) r w' line :
  requestLogger next r rw0 = Some (w', line) →
  performAll (next r) rw0 = Some w' ∧ l_host line = Host r ∧ l_method line = Method r ∧
  (sets_once false (next r) = true → l_status line = (finish w').1.1).
Proof.
  unfold requestLogger. pose proof (recorder_transparent (next r) (mkRecorder rw0 200)) as Ht.
  destruct (recorder_performAll (next r) (mkRecorder rw0 200)) as [r'|] eqn:E; cbn [mbind option_bind fmap option_fmap option_map ResponseWriter] in *; [|done].
  intros [= <- <-]. cbn [l_host l_method l_status]. split; [by rewrite <-Ht|]. do 2 (split; [done|]).
  intros Hs. symmetry. eapply recorder_status; [exact E|]. by split.
Qed.

(** A second status is ignored by the writer but logged. *)
Example superfluous_status_logged (r : Request) :
  (λ x, ((finish x.1).1.1, l_status x.2)) <$> requestLogger (λ _, [WriteHeader 404; WriteHeader 200]) r rw0 = Some (404, 200).
Proof. reflexivity. Qed.

(** ** Configurations and platforms *)
Section domain.
Context {env : Env} (rp dm : bytes).
(** A configuration is accepted exactly when it has a name, a known mode and, behind a
    proxy, a known schema; otherwise the result is an error. *)
Theorem domain_validate c :
  rp ≠ [] → dm ≠ [] → rp ≠ dm →
  (DomainConfig_Validate rp dm c = Ok tt ↔
   PrimaryName c ≠ [] ∧ (Mode c = dm ∨ (Mode c = rp ∧ (Schema c = txt "http" ∨ Schema c = txt "https")))).
Proof.
  intros Hrp Hdm Hne. unfold DomainConfig_Validate.
  assert (∀ r, throw r = Ok tt ↔ False) as Ht by (intros [evs [e|[]|]]; done).
  destruct (zlen (PrimaryName c) =? 0) eqn:E1.
  { apply Z.eqb_eq, zlen_0_nil in E1. rewrite Ht. split; [done|]. by intros [? _]. }
  apply Z.eqb_neq in E1. rewrite zlen_0_nil in E1.
  destruct (zlen (Mode c) =? 0) eqn:E2.
  { apply Z.eqb_eq, zlen_0_nil in E2. rewrite Ht, E2. split; [done|]. intros [_ [<-|[<- _]]]; done. }
  case_bool_decide as Hm; cbn [negb]; [|rewrite Ht; split; [done|]; set_solver].
  case_bool_decide as Hr.
  - rewrite Hr. destruct (zlen (Schema c) =? 0) eqn:E3.
    { apply Z.eqb_eq, zlen_0_nil in E3. rewrite Ht, E3. split; [done|]. by intros [_ [?|[_ [?|?]]]]. }
    case_bool_decide as Hs; cbn [negb]; [|rewrite Ht]; (split; [|try done]); set_solver.
  - split; [|done]. intros _. split; [done|]. set_solver.
Qed.
End domain.

(** The platform is the first non-empty answer of the parsers. *)
Theorem platform_first parseOS r parsers p :
  parsers ≠ [] → TryParsePlatform parseOS (Some r) parsers = p →
  (p = [] ∧ Forall (λ f, f r = []) parsers) ∨
  (p ≠ [] ∧ ∃ pre f post, parsers = pre ++ f :: post ∧ f r = p ∧ Forall (λ f, f r = []) pre).
Proof.
  intros Hne <-. unfold TryParsePlatform. rewrite <-zlen_0_nil, <-Z.eqb_neq in Hne. rewrite Hne. clear Hne.
  induction parsers as [|f parsers IH]; cbn [firstPlatform]; [left; by constructor|].
  case_bool_decide as Hf; [right; split; [done|]; by exists [], f, parsers|].
  destruct IH as [[Hp Hall]|(Hp & pre & g & post & -> & Hg & Hall)].
  - left. split; [done|by constructor].
  - right. split; [done|]. exists (f :: pre), g, post. split; [done|]. split; [done|by constructor].
Qed.

(** ** Concrete runs *)
#[local] Existing Instance XErrorProps.test_env.
Definition login : Request := mkRequest [] [] (txt "GET") None (txt "/x") [(HeaderAuthorization, [txt "BeArEr abc.def"])].

Lemma json_response_witness :
  ∃ l code body, JSONResponse (D := unit) (λ _, inl (txt "{}")) (None, db_error) = Some l ∧ respond l = Some (code, json, body) ∧ 400 ≤ code ≤ 599.
Proof.
  destruct (json_response (D := unit) (λ _, inl (txt "{}")) None db_error) as (l & code & body & H1 & H2 & H3);
    [intros o; eexists; reflexivity|right; exact I|discriminate|]. exists l, code, body. split; [exact H1|]. split; [exact H2|]. apply H3.
Defined.

Lemma bearer_token_witness : ExtractTokenFromRequest login = (txt "abc.def", true).
Proof. apply (proj2 (bearer_token login) (txt "BeArEr") (txt "abc.def")); [reflexivity|reflexivity|by repeat constructor|discriminate]. Defined.

Lemma logger_transparent_witness :
  ∃ w' line, requestLogger (λ _, [WriteHeader 404; Write (txt "no")]) login rw0 = Some (w', line) ∧ l_status line = 404.
Proof.
  eexists _, _. split; [reflexivity|].
  refine (proj2 (proj2 (proj2 (logger_transparent (λ _, [WriteHeader 404; Write (txt "no")]) login _ _ eq_refl))) eq_refl).
Defined.
