(* ===== verification/HTTPMeasure.v ===== *)
(** * xhttp: request metrics

    Models [src/xhttp/measure.go]: the middleware that counts requests by method, path
    and result.  The metrics are maps from label values to counts (the histogram is
    kept as the observed durations); creating and serving them is prometheus's. *)
From S2P Require Import Prelude Text HTTP.

Local Open Scope Z_scope.

Definition allowedMethods : list bytes :=
  [txt "GET"; txt "HEAD"; txt "OPTIONS"; txt "TRACE"; txt "PUT"; txt "DELETE"; txt "POST"; txt "PATCH"; txt "CONNECT"].

Record compiledPattern := mkPattern { original : bytes; parts : list bytes; isParam : list bool; partsCount : Z }.

Abbreviation labels := (bytes * bytes * bytes)%type.

(** A metric partitioned by labels: its identity and the values so far. *)
Record vec (A : Type) := mkVec {
  v_namespace : bytes; v_subsystem : bytes; v_name : bytes; v_service : bytes; v_labels : list bytes;
  v_data : gmap labels A }.
Arguments mkVec {A}.
Arguments v_namespace {A}.
Arguments v_subsystem {A}.
Arguments v_name {A}.
Arguments v_service {A}.
Arguments v_labels {A}.
Arguments v_data {A}.
(** [vec.WithLabelValues(l)] changed by [f]; [d] is the initial value. *)
Definition update {A} (d : A) (l : labels) (f : A → A) (v : vec A) : vec A :=
  mkVec (v_namespace v) (v_subsystem v) (v_name v) (v_service v) (v_labels v)
    (<[l := f (default d (v_data v !! l))]> (v_data v)).

(** Bucket bounds are kept as they are given. *)
Record Measure := mkMeasure {
  requestDuration : vec (list Z); durationBuckets : list Z; requestCount : vec Z; requestResult : vec Z;
  allowedPaths : gset bytes; allowedPatterns : list compiledPattern }.

Record MeasureOptions := mkMeasureOptions {
  Namespace : bytes; Subsystem : bytes; ServiceName : bytes; Buckets : option (list Z); AllowedPaths : list bytes }.

Definition compilePattern (pattern : bytes) : compiledPattern :=
  let parts := Split 47 pattern in
  mkPattern pattern parts ((λ part, hasPrefix (txt "{") part && hasSuffix (txt "}") part) <$> parts) (zlen parts).

(** The loop of [NewMeasure] over the configured paths. *)
Definition addPath (acc : gset bytes * list compiledPattern) (path : bytes) : gset bytes * list compiledPattern :=
  let '(paths, patterns) := acc in
  if containsByte 123 path then (paths, patterns ++ [compilePattern path]) else (paths ∪ {[ path ]}, patterns).

Section new.
(** [prometheus.DefBuckets] *)
Context (DefBuckets : list Z).
Definition NewMeasure (config : MeasureOptions) : Measure :=
  let buckets := default DefBuckets (Buckets config) in
  let '(paths, patterns) := foldl addPath (∅, []) (AllowedPaths config) in
  let labelNames := [txt "method"; txt "path"; txt "result"] in
  let requestDuration :=
    mkVec (Namespace config) (Subsystem config) (txt "request_duration_seconds") (ServiceName config) labelNames ∅ in
  let requestCount :=
    mkVec (Namespace config) (Subsystem config) (txt "requests_total") (ServiceName config) labelNames ∅ in
  let requestResult :=
    mkVec (Namespace config) (Subsystem config) (txt "request_results_total") (ServiceName config) labelNames ∅ in
  mkMeasure requestDuration buckets requestCount requestResult paths patterns.
End new.

Definition normalizeMethod (method : bytes) : bytes :=
  let upper := ToUpper method in
  if bool_decide (upper ∈ allowedMethods) then upper else txt "unknown".

(** The loop of [matchCompiledPattern]; the three slices have the same length. *)
Fixpoint partsMatch (isParam : list bool) (parts requestParts : list bytes) : bool :=
  match isParam, parts, requestParts with
  | p :: isParam, x :: parts, y :: requestParts =>
      if negb p && negb (bool_decide (x = y)) then false else partsMatch isParam parts requestParts
  | _, _, _ => true
  end.

Definition matchCompiledPattern (compiled : compiledPattern) (requestPath : bytes) : bytes :=
  let requestParts := Split 47 requestPath in
  if negb (zlen requestParts =? partsCount compiled) then []
  else if partsMatch (isParam compiled) (parts compiled) requestParts then original compiled else [].

Fixpoint firstMatch (patterns : list compiledPattern) (requestPath : bytes) : bytes :=
  match patterns with
  | [] => txt "other"
  | compiled :: patterns =>
      let m := matchCompiledPattern compiled requestPath in
      if bool_decide (m ≠ []) then m else firstMatch patterns requestPath
  end.

Definition normalizePath (m : Measure) (requestPath : bytes) : bytes :=
  if bool_decide (requestPath ∈ allowedPaths m) then requestPath else firstMatch (allowedPatterns m) requestPath.

Definition normalizeResult (status : Z) : bytes :=
  if (200 <=? status) && (status <? 300) then txt "success"
  else if (300 <=? status) && (status <? 400) then txt "redirect"
  else if (400 <=? status) && (status <? 500) then txt "client_error"
  else if 500 <=? status then txt "server_error"
  else txt "unknown".

(** [ww.Status()] of the wrapped writer: 0 when nothing was sent. *)
Definition wrapStatus (w : rw) : Z := match rw_sent w with Some (code, _) => code | None => 0 end.

(** The middleware around a handler, for a request that took [duration]. *)
Definition Middleware (next : Request → list action) (r : Request) (duration : Z) (w : rw) (m : Measure) : option (rw * Measure) :=
  w ← performAll (next r) w;
  u ← ReqURL r;
  let path := normalizePath m (Path u) in
  let method := normalizeMethod (Method r) in
  let result := normalizeResult (wrapStatus w) in
  let l := (method, path, result) in
  Some (w, mkMeasure (update [] l (λ ds, ds ++ [duration]) (requestDuration m)) (durationBuckets m)
             (update 0 l (λ n, n + 1) (requestCount m))
             (update 0 l (λ n, n + 1) (requestResult m))
             (allowedPaths m) (allowedPatterns m)).

(** * xhttp: what the request metrics count, and how many series there can be *)
From S2P Require Import Prelude Text HTTP.

Local Open Scope Z_scope.

(** ** The path label, as a specification *)
Definition is_param (part : bytes) : bool := hasPrefix (txt "{") part && hasSuffix (txt "}") part.
(** Segment by segment: a parameter, or the same text. *)
Definition pattern_matches (pattern path : bytes) : Prop :=
  Forall2 (λ p s, is_param p = true ∨ p = s) (Split 47 pattern) (Split 47 path).
#[global] Instance pattern_matches_dec pattern path : Decision (pattern_matches pattern path).
Proof. apply Forall2_dec. intros p s. apply _. Defined.

Definition path_label (paths : list bytes) (path : bytes) : bytes :=
  if bool_decide (path ∈ paths ∧ 123 ∉ path) then path
  else default (txt "other") (head (filter (λ p, 123 ∈ p ∧ pattern_matches p path) paths)).

Lemma addPath_spec paths : ∀ s l,
  foldl addPath (s, l) paths =
  (s ∪ list_to_set (filter (λ p, 123 ∉ p) paths), l ++ (compilePattern <$> filter (λ p, 123 ∈ p) paths)).
Proof.
  induction paths as [|p paths IH]; intros s l; cbn [foldl]; [cbn; f_equal; [set_solver|by rewrite app_nil_r]|].
  unfold addPath at 2. destruct (containsByte 123 p) eqn:E.
  - apply containsByte_spec in E. rewrite IH, !filter_cons, (decide_True (P := 123 ∈ p)), (decide_False (P := 123 ∉ p)) by tauto.
    cbn. by rewrite <-app_assoc.
  - assert (123 ∉ p) as Hp by (rewrite <-containsByte_spec; by rewrite E).
    rewrite IH, !filter_cons, (decide_False (P := 123 ∈ p)), (decide_True (P := 123 ∉ p)) by tauto.
    cbn. f_equal. set_solver.
Qed.

Lemma partsMatch_spec ps : ∀ qs, length ps = length qs →
  partsMatch (is_param <$> ps) ps qs = true ↔ Forall2 (λ p s, is_param p = true ∨ p = s) ps qs.
Proof.
  induction ps as [|p ps IH]; intros [|q qs] Hl; cbn in Hl; try done; cbn [partsMatch fmap list_fmap].
  injection Hl as Hl. rewrite Forall2_cons, <-(IH qs Hl). change (list_fmap _ _ is_param ps) with (is_param <$> ps).
  destruct (is_param p); cbn [negb andb]; [tauto|]. case_bool_decide; cbn [negb]; intuition congruence.
Qed.

Lemma match_compiled p path : p ≠ [] →
  matchCompiledPattern (compilePattern p) path = if bool_decide (pattern_matches p path) then p else [].
Proof.
  intros Hp. unfold matchCompiledPattern, compilePattern. cbn [partsCount isParam parts original].
  change (λ part : bytes, hasPrefix (txt "{") part && hasSuffix (txt "}") part) with is_param.
  destruct (zlen (Split 47 path) =? zlen (Split 47 p)) eqn:E; cbn [negb].
  - apply Z.eqb_eq in E. unfold zlen in E. assert (length (Split 47 p) = length (Split 47 path)) as Hl by lia.
    pose proof (partsMatch_spec (Split 47 p) (Split 47 path) Hl) as H. unfold pattern_matches.
    destruct (partsMatch _ _ _); [rewrite bool_decide_eq_true_2 by (by apply H)|rewrite bool_decide_eq_false_2 by (rewrite <-H; done)]; done.
  - rewrite bool_decide_eq_false_2; [done|]. intros H%Forall2_length. unfold zlen in E. apply Z.eqb_neq in E. lia.
Qed.

Lemma firstMatch_spec path ps : Forall (λ p, 123 ∈ p) ps →
  firstMatch (compilePattern <$> ps) path = default (txt "other") (head (filter (λ p, 123 ∈ p ∧ pattern_matches p path) ps)).
Proof.
  induction 1 as [|p ps Hp _ IH]; [done|]. cbn [fmap list_fmap firstMatch].
  rewrite match_compiled by (intros ->; by apply not_elem_of_nil in Hp). rewrite filter_cons.
  destruct (decide (pattern_matches p path)) as [Hm|Hm].
  - rewrite (bool_decide_eq_true_2 _ Hm), bool_decide_eq_true_2 by (intros ->; by apply not_elem_of_nil in Hp).
    by rewrite decide_True.
  - rewrite (bool_decide_eq_false_2 _ Hm), bool_decide_eq_false_2 by naive_solver. rewrite decide_False by tauto. apply IH.
Qed.

Lemma filter_filter_and (P Q : bytes → Prop) `{!∀ x, Decision (P x), !∀ x, Decision (Q x)} (l : list bytes) :
  filter (λ x, P x ∧ Q x) (filter P l) = filter (λ x, P x ∧ Q x) l.
Proof.
  induction l as [|x l IH]; [done|]. rewrite !filter_cons. destruct (decide (P x)).
  - rewrite filter_cons. by rewrite IH.
  - rewrite IH. by rewrite decide_False by tauto.
Qed.

Section props.
Context (DefBuckets : list Z) (config : MeasureOptions).
Abbreviation paths := (AllowedPaths config).
Abbreviation new := (NewMeasure DefBuckets config).

Lemma normalizePath_label m path :
  allowedPaths m = allowedPaths new → allowedPatterns m = allowedPatterns new →
  normalizePath m path = path_label paths path.
Proof.
  intros H1 H2. unfold normalizePath. rewrite H1, H2. unfold NewMeasure, path_label. rewrite addPath_spec. cbn [allowedPaths allowedPatterns].
  rewrite (app_nil_l (compilePattern <$> _)). rewrite firstMatch_spec by (apply Forall_forall; intros x [? _]%list_elem_of_filter; done).
  rewrite filter_filter_and.
  destruct (decide (path ∈ paths ∧ 123 ∉ path)) as [Hin|Hin].
  - rewrite bool_decide_eq_true_2, (bool_decide_eq_true_2 _ Hin); [done|]. rewrite elem_of_union, elem_of_list_to_set, list_elem_of_filter. tauto.
  - rewrite bool_decide_eq_false_2, (bool_decide_eq_false_2 _ Hin); [done|]. rewrite elem_of_union, elem_of_list_to_set, list_elem_of_filter. set_solver.
Qed.

(** C40: the path label of a request is the path itself when it is configured as it is;
    otherwise the first configured pattern that matches it segment by segment, a
    segment in braces matching anything; otherwise the word other. *)
Theorem normalize_path path : normalizePath new path = path_label paths path.
Proof. by apply normalizePath_label. Qed.

(** ** Series *)
Definition result_labels : list bytes :=
  [txt "success"; txt "redirect"; txt "client_error"; txt "server_error"; txt "unknown"].

Lemma path_label_in path : path_label paths path ∈ txt "other" :: paths.
Proof.
  unfold path_label. case_bool_decide as H; [right; apply H|].
  destruct (filter _ paths) as [|p l] eqn:E; [by left|]. right. cbn.
  assert (p ∈ filter (λ p, 123 ∈ p ∧ pattern_matches p path) paths) as Hp by (rewrite E; by left).
  by apply list_elem_of_filter in Hp as [_ Hp].
Qed.

Lemma normalizeMethod_in method : normalizeMethod method ∈ txt "unknown" :: allowedMethods.
Proof. unfold normalizeMethod. case_bool_decide as H; [right|left]; done. Qed.

Lemma normalizeResult_in status : normalizeResult status ∈ result_labels.
Proof. unfold normalizeResult, result_labels. repeat case_match; set_solver. Qed.

(** All the label values there can be. *)
Definition series : list labels :=
  list_prod (list_prod (txt "unknown" :: allowedMethods) (txt "other" :: paths)) result_labels.

(** Requests in some order, each with its handler; the measure after them and the
    labels they were counted under. *)
Inductive served : list labels → Measure → Prop :=
  | served_new : served [] new
  | served_req tr m next r d w w' m' u :
      served tr m → Middleware next r d w m = Some (w', m') → ReqURL r = Some u →
      served (tr ++ [(normalizeMethod (Method r), path_label paths (Path u), normalizeResult (wrapStatus w'))]) m'.

Definition occ (l : labels) (tr : list labels) : Z := zlen (filter (λ x, x = l) tr).

Lemma occ_app l tr x : occ l (tr ++ [x]) = occ l tr + (if decide (x = l) then 1 else 0).
Proof.
  unfold occ. rewrite filter_app, zlen_app, filter_cons. by case_decide.
Qed.

Lemma served_inv tr m : served tr m →
  allowedPaths m = allowedPaths new ∧ allowedPatterns m = allowedPatterns new ∧
  (∀ l, default 0 (v_data (requestCount m) !! l) = occ l tr) ∧ (∀ l, is_Some (v_data (requestCount m) !! l) → l ∈ series) ∧
  v_data (requestResult m) = v_data (requestCount m).
Proof.
  induction 1 as [|tr m next r d w w' m' u _ (H1 & H2 & H3 & H4 & H5) Hm Hu].
  - unfold NewMeasure. rewrite addPath_spec. cbn. split_and!; try done. intros l. by rewrite lookup_empty; intros [].
  - unfold Middleware in Hm. destruct (performAll (next r) w) as [w1|]; cbn [mbind option_bind] in Hm; [|done].
    rewrite Hu in Hm. cbn [mbind option_bind] in Hm. injection Hm as <- <-. cbn [allowedPaths allowedPatterns requestCount requestResult update v_data].
    rewrite (normalizePath_label m (Path u) H1 H2).
    set (x := (normalizeMethod (Method r), path_label paths (Path u), normalizeResult (wrapStatus w1))).
    split; [done|]. split; [done|]. split; [|split].
    + intros l. rewrite occ_app. destruct (decide (x = l)) as [<-|Hne]; [rewrite lookup_insert_eq; cbn; by rewrite H3|].
      rewrite lookup_insert_ne by done. rewrite H3. lia.
    + intros l. destruct (decide (x = l)) as [<-|Hne]; [intros _|rewrite lookup_insert_ne by done; apply H4].
      unfold series, x. apply list_elem_of_In, in_prod; [apply in_prod|]; apply list_elem_of_In;
        [apply normalizeMethod_in|apply path_label_in|apply normalizeResult_in].
    + by rewrite H5.
Qed.

Lemma series_length : length (series) = (50 * (1 + length paths))%nat.
Proof. unfold series. rewrite !length_prod. cbn [length allowedMethods result_labels]. lia. Qed.

(** The counters count: after any sequence of requests, whatever their methods, paths
    and handlers, the counter of a combination of labels is the number of requests
    with these labels, and the number of combinations is bounded by the
    configuration alone, fifty for each configured path and one more. *)
Theorem measure_counts tr m :
  served tr m →
  (∀ l, default 0 (v_data (requestCount m) !! l) = occ l tr) ∧ v_data (requestResult m) = v_data (requestCount m) ∧
  (size (v_data (requestCount m)) ≤ 50 * (1 + length paths))%nat.
Proof.
  intros (_ & _ & H3 & H4 & H5)%served_inv. split; [done|]. split; [done|].
  rewrite <-series_length, <-length_map_to_list, <-(length_fmap fst).
  apply submseteq_length, NoDup_submseteq; [apply NoDup_fst_map_to_list|].
  intros l ([l' k] & -> & Hl%elem_of_map_to_list)%list_elem_of_fmap. apply H4. by exists k.
Qed.

End props.

(** ** Concrete runs *)
Definition conf : MeasureOptions :=
  mkMeasureOptions [] [] (txt "svc") None [txt "/a"; txt "/u/{id}/x"; txt "/u/{id}/{y}"].
Abbreviation new3 := (NewMeasure [5; 10] conf).
Definition get (path : string) : Request := mkRequest [] [] (txt "get") (Some (mkURL [] [] (txt path) [])) [] [].

Example path_labels :
  (λ p, normalizePath new3 (txt p)) <$> ["/a"; "/u/7/x"; "/u/7/z"; "/u/7"; "/a/"]%string =
  [txt "/a"; txt "/u/{id}/x"; txt "/u/{id}/{y}"; txt "other"; txt "other"].
Proof. vm_compute. reflexivity. Qed.

Definition m1 : Measure :=
  default new3 (snd <$> Middleware (λ _, [WriteHeader 204]) (get "/a") 5 rw0 new3).

Lemma measure_counts_witness :
  served [5; 10] conf [(txt "GET", txt "/a", txt "success")] m1 ∧ (size (v_data (requestCount m1)) ≤ 200)%nat.
Proof.
  assert (served [5; 10] conf [(txt "GET", txt "/a", txt "success")] m1) as H.
  { refine (served_req [5; 10] conf [] _ (λ _, [WriteHeader 204]) (get "/a") 5 rw0 (mkRW ∅ (Some (204, ∅)) []) m1 _
      (served_new [5; 10] conf) _ eq_refl). reflexivity. }
  split; [exact H|]. apply (measure_counts [5; 10] conf _ _ H).
Defined.

(** A handler that sends nothing is answered with status 200, but counted as unknown. *)
Example empty_success_unknown :
  (λ x, ((finish x.1).1.1, map_to_list (v_data (requestCount x.2)))) <$> Middleware (λ _, []) (get "/a") 5 rw0 new3 =
  Some (200, [((txt "GET", txt "/a", txt "unknown"), 1)]).
Proof. vm_compute. reflexivity. Qed.
