(* ===== verification/HTTPServer.v ===== *)
(** * xhttp: the HTTP server

    Models [src/xhttp/server.go]: the construction of servers from options, the redirect to
    https, the error handlers, and the goroutines of [Run] and [Shutdown].  The router
    (chi) is a class; listening, internationalised names and the text of a URL are
    parameters. *)
From S2P Require Import Prelude Text XError HTTP HTTPMeasure.

Local Open Scope Z_scope.

(** ** Options and construction *)

Record corsOptions := mkCors {
  AllowedOrigins : list bytes; AllowedMethods : list bytes; AllowedHeaders : list bytes; AllowCredentials : bool }.

(** The middlewares a router can be given, and the handlers it can call. *)
Inductive mw := MwCustom (id : nat) | MwCors (cfg : corsOptions) | MwRequestLogger | MwMeasure (m : Measure).
Inductive handler := HNotFound | HNotAllowed | HProfiler | HMetrics | HRedirect (primaryHost : bytes).

(** [chi.Router]; adding a middleware can panic. *)
Class Router (R : Type) := {
  NewRouter : R;
  Use : mw → R → option R;
  Mount : bytes → handler → R → R;
  Handle : bytes → handler → R → R;
  NotFound : handler → R → R;
  MethodNotAllowed : handler → R → R }.

(** The two goroutines of a [Run]: one waits for the context and shuts the server down,
    the other serves.  Of the [http.Server] they share: its connections that are not idle,
    and whether its [Shutdown] was called, which closes the listener. *)
Inductive watcher := WWaiting | WShutting | WDone.
#[global] Instance watcher_eq_dec : EqDecision watcher.
Proof. solve_decision. Defined.
Record running := mkRunning {
  r_addr : bytes; r_readTimeout : Z; r_tls : bool; r_noHTTP2 : bool;
  r_watch : watcher; r_serving : bool; r_conns : nat; r_inShutdown : bool }.

(** [ctx] is cancelled or not; [running] stands for the goroutines the wait group counts. *)
Record Server {R T : Type} := mkServer {
  cancelled : bool; runs : list running; tlsConfig : option T; router : R; disablev2 : bool }.
Arguments Server : clear implicits.
Arguments mkServer {R T}.

Section server.
Context {env : Env} {R T : Type} `{!Router R}.
Implicit Types (w : Server R T).

Definition setRouter w (r : R) : Server R T := mkServer (cancelled w) (runs w) (tlsConfig w) r (disablev2 w).
Definition use (m : mw) w : option (Server R T) := r ← Use m (router w); Some (setRouter w r).

Definition WithMiddleware (m : nat) w : option (Server R T) := use (MwCustom m) w.
Definition WithCORS w : option (Server R T) :=
  let cfg := mkCors [txt "*"] [txt "HEAD"; txt "GET"; txt "POST"; txt "PUT"; txt "PATCH"; txt "DELETE"] [txt "*"] true in
  use (MwCors cfg) w.
Definition WithDisableHTTPv2 w : option (Server R T) :=
  Some (mkServer (cancelled w) (runs w) (tlsConfig w) (router w) true).
Definition WithLogger w : option (Server R T) := use MwRequestLogger w.
Definition WithSSL (cfg : option T) w : option (Server R T) :=
  Some (mkServer (cancelled w) (runs w) cfg (router w) (disablev2 w)).
Definition WithPprof w : option (Server R T) := Some (setRouter w (Mount (txt "/debug") HProfiler (router w))).
Definition WithHTTPMeasure (DefBuckets : list Z) (namespace subsystem serviceName : bytes) (buckets : option (list Z))
    (allowedPaths : list bytes) w : option (Server R T) :=
  let measure := NewMeasure DefBuckets (mkMeasureOptions namespace subsystem serviceName buckets allowedPaths) in
  use (MwMeasure measure) w.

Fixpoint applyOptions (opts : list (Server R T → option (Server R T))) w : option (Server R T) :=
  match opts with [] => Some w | o :: opts => w ← o w; applyOptions opts w end.

Definition New (opts : list (Server R T → option (Server R T))) : option (Server R T) :=
  let r := NewRouter in
  let r := NotFound HNotFound r in
  let r := MethodNotAllowed HNotAllowed r in
  let h := mkServer false [] None r false in
  applyOptions opts h.
Definition NewDefault : option (Server R T) := New [WithLogger].
Definition NewDefaultSSL (cfg : option T) : option (Server R T) := New [WithLogger; WithSSL cfg].
Definition NewRedirectToSSL (primaryHost : bytes) : Server R T :=
  let r := Handle (txt "/*") (HRedirect primaryHost) NewRouter in
  mkServer false [] None r false.

(** The default registry of prometheus: set once per process. *)
Definition NewMetrics (labels : gmap bytes bytes) (registry : option (gmap bytes bytes)) : Server R T * option (gmap bytes bytes) :=
  let registry := match registry with Some l => Some l | None => Some labels end in
  let r := Handle (txt "/metrics") HMetrics NewRouter in
  (mkServer false [] None r false, registry).

(** ** Running *)

(** [net.Listen] succeeded or returned an error. *)
Definition Run (listen : bytes → goerror) (addr : bytes) w : go goerror unit * Server R T :=
  let err := listen addr in
  if negb (isNil err) then (throw (EInternalError (txt "failed to start http listener") err []), w)
  else
    let withTLS := bool_decide (is_Some (tlsConfig w)) in
    (Ok tt, mkServer (cancelled w)
              (runs w ++ [mkRunning addr (10 * Second) withTLS (disablev2 w) WWaiting true 0 false])
              (tlsConfig w) (router w) (disablev2 w)).

(** What happens in a [Run], as net/http documents it: the context is done and the watcher
    calls [srv.Shutdown]; this returns, when no connection is active; [Serve] returns because
    the server was shut down, or because accepting failed; it accepts a connection, until
    the server is shut down; a connection becomes idle. *)
Inductive run_event := ContextDone | ShutdownReturned | ServeClosed | ServeFailed | Accepted | Idle.

Definition on_watch (wt : watcher) (sh : bool) (x : running) : running :=
  mkRunning (r_addr x) (r_readTimeout x) (r_tls x) (r_noHTTP2 x) wt (r_serving x) (r_conns x) sh.
Definition on_serving (b : bool) (x : running) : running :=
  mkRunning (r_addr x) (r_readTimeout x) (r_tls x) (r_noHTTP2 x) (r_watch x) b (r_conns x) (r_inShutdown x).
Definition on_conns (n : nat) (x : running) : running :=
  mkRunning (r_addr x) (r_readTimeout x) (r_tls x) (r_noHTTP2 x) (r_watch x) (r_serving x) n (r_inShutdown x).

Definition run_step (cancelled : bool) (ev : run_event) (x : running) : option running :=
  match ev with
  | ContextDone => if cancelled && bool_decide (r_watch x = WWaiting) then Some (on_watch WShutting true x) else None
  | ShutdownReturned =>
      if bool_decide (r_watch x = WShutting) && (r_conns x =? 0)%nat then Some (on_watch WDone (r_inShutdown x) x) else None
  | ServeClosed => if r_serving x && r_inShutdown x then Some (on_serving false x) else None
  | ServeFailed => if r_serving x then Some (on_serving false x) else None
  | Accepted => if r_serving x && negb (r_inShutdown x) then Some (on_conns (S (r_conns x)) x) else None
  | Idle => match r_conns x with O => None | S n => Some (on_conns n x) end
  end.

(** An event of the [i]-th run, and a sequence of them. *)
Definition server_step (e : nat * run_event) w : option (Server R T) :=
  x ← runs w !! e.1; y ← run_step (cancelled w) e.2 x;
  Some (mkServer (cancelled w) (<[e.1 := y]> (runs w)) (tlsConfig w) (router w) (disablev2 w)).
Fixpoint server_steps (tr : list (nat * run_event)) w : option (Server R T) :=
  match tr with [] => Some w | e :: tr => w ← server_step e w; server_steps tr w end.

(** The counter of the wait group: two for each [Run], less the goroutines that ended. *)
Definition wg1 (x : running) : nat :=
  match r_watch x with WDone => 0%nat | _ => 1%nat end + (if r_serving x then 1 else 0)%nat.
Definition wg w : nat := sum_list_with wg1 (runs w).

(** [Shutdown] cancels the context and returns when the wait group is at zero. *)
Definition cancel w : Server R T := mkServer true (runs w) (tlsConfig w) (router w) (disablev2 w).
Definition Shutdown_returns w : Prop := wg w = 0%nat.
Definition Server_Running w : bool := negb (cancelled w).

(** ** Handlers *)
Section handlers.
(** [json.Encoder.Encode] of an error body; [idna.ToASCII]; [URL.String]. *)
Context (encode : bytes → bytes → bytes) (ToASCII : bytes → bytes + goerror) (urlString : URL → bytes).

Definition notFoundHandler : list action :=
  [WriteHeader 404; Write (encode (txt "404") (txt "Not found"))].
Definition notAllowedHandler : list action :=
  [WriteHeader 405; Write (encode (txt "405") (txt "Method not allowed"))].

Definition discoverRequestHost (r : Request) : bytes + goerror :=
  if bool_decide (Host r = []) then inr (OtherErr (txt "host header is not set") NilError)
  else
    let segments := Split 58 (Host r) in
    if 2 <? zlen segments then inr (OtherErr (txt "too many colon-separated segments") NilError)
    else
      match segments with
      | [s0; s1] =>
          match Atoi s1 with
          | None => inr (OtherErr (txt "last segment is not integer") NilError)
          | Some _ => ToASCII s0
          end
      | s0 :: _ => ToASCII s0
      | [] => ToASCII []
      end.

(** [None]: a request without URL panics. *)
Definition redirectHandler (primaryHost : bytes) (r : Request) : option (list action) :=
  let redirect (host : bytes) : option (list action) :=
    u ← ReqURL r;
    let url2 := mkURL (txt "https") host (Path u) (RawQuery u) in
    Some [SetHeader (txt "Location") (urlString url2); WriteHeader 307] in
  match discoverRequestHost r with
  | inl host => redirect host
  | inr _ =>
      if bool_decide (primaryHost ≠ []) then redirect primaryHost
      else Some [SetHeader (txt "Upgrade") (txt "TLS/1.2, HTTP/1.1"); WriteHeader 426]
  end.
End handlers.
End server.
