(* ===== verification/HTTPServerProps.v ===== *)
(** * xhttp: shutting servers down, redirects *)
From S2P Require Import Prelude Text XError XErrorProps HTTP HTTPProps HTTPMeasure HTTPServer.

Local Open Scope Z_scope.

Section props.
Context {env : Env} {R T : Type} `{!Router R}.
Implicit Types (w : Server R T).

(** The servers a program can have: without runs, run, cancelled, and after any events. *)
Inductive server_reach : Server R T → Prop :=
  | reach_new w : runs w = [] → server_reach w
  | reach_run listen addr w w' : server_reach w → Run listen addr w = (Ok tt, w') → server_reach w'
  | reach_cancel w : server_reach w → server_reach (cancel w)
  | reach_step e w w' : server_reach w → server_step e w = Some w' → server_reach w'.

(** What the goroutines of the library do, as opposed to listeners and clients. *)
Definition own (ev : run_event) : bool :=
  match ev with ContextDone | ShutdownReturned | ServeClosed => true | _ => false end.

Record run_ok (x : running) : Prop := mkRunOk {
  ro_shut : r_inShutdown x = negb (bool_decide (r_watch x = WWaiting));
  ro_idle : r_watch x = WDone → r_conns x = 0%nat }.

Ltac run_cases H :=
  revert H; unfold run_step, on_watch, on_serving, on_conns; cbn [r_watch r_serving r_conns r_inShutdown];
  repeat match goal with |- context [match ?b with _ => _ end] => destruct b eqn:? end; intros H; simplify_eq.

Lemma run_step_ok c ev x y : run_ok x → run_step c ev x = Some y → run_ok y.
Proof.
  destruct x as [a t s n wt sv cn sh]. intros [H1 H2] Hs. cbn in H1, H2. subst sh. destruct ev; run_cases Hs; split; cbn; bsplit; subst; try done.
  all: destruct wt; try done. all: intros _; first [by apply Nat.eqb_eq|by specialize (H2 eq_refl)].
Qed.

(** What they still have to do: an event of theirs is one less, no other adds to it. *)
Definition work1 (x : running) : nat :=
  match r_watch x with WWaiting => 2%nat | WShutting => 1%nat | WDone => 0%nat end + (if r_serving x then 1 else 0)%nat.
Definition work w : nat := sum_list_with work1 (runs w).

Lemma run_step_work c ev x y : run_step c ev x = Some y → ((if own ev then 1 else 0) + work1 y ≤ work1 x)%nat.
Proof.
  destruct x as [a t s n wt sv cn sh]. intros Hs. destruct ev; run_cases Hs; unfold work1; cbn; bsplit; subst; try lia.
  all: destruct wt; try done; lia.
Qed.

Lemma sum_insert {A} (f : A → nat) (l : list A) i x y : l !! i = Some x →
  (sum_list_with f (<[i := y]> l) + f x = sum_list_with f l + f y)%nat.
Proof.
  revert i. induction l as [|z l IH]; intros [|i] Hi; cbn in *; [done|done| |].
  - injection Hi as ->. lia.
  - rewrite <-!Nat.add_assoc. f_equal. by apply IH.
Qed.

Lemma server_step_inv e w w' : server_step e w = Some w' →
  ∃ x y, runs w !! e.1 = Some x ∧ run_step (cancelled w) e.2 x = Some y ∧
    runs w' = <[e.1 := y]> (runs w) ∧ cancelled w' = cancelled w.
Proof.
  unfold server_step. destruct (runs w !! e.1) as [x|]; cbn; [|done]. destruct (run_step _ _ x) as [y|] eqn:E; cbn; [|done].
  intros [= <-]. by exists x, y.
Qed.

Lemma server_step_work e w w' : server_step e w = Some w' → ((if own e.2 then 1 else 0) + work w' ≤ work w)%nat.
Proof.
  intros (x & y & Hx & Hy & Hr & _)%server_step_inv. unfold work. rewrite Hr.
  pose proof (sum_insert work1 _ _ _ y Hx). apply run_step_work in Hy. lia.
Qed.

Lemma server_steps_work tr : ∀ w w', server_steps tr w = Some w' →
  (length (filter (λ e, own e.2 = true) tr) + work w' ≤ work w)%nat ∧ cancelled w' = cancelled w ∧ length (runs w') = length (runs w).
Proof.
  induction tr as [|e tr IH]; intros w w'; cbn [server_steps]; [intros [= ->]; cbn; auto|].
  destruct (server_step e w) as [w1|] eqn:E; cbn [mbind option_bind]; [|done]. intros (H1 & H2 & H3)%IH.
  pose proof (server_step_work _ _ _ E) as Hw. apply server_step_inv in E as (x & y & _ & _ & Hr & Hc).
  rewrite H3, Hr, length_insert, H2. split_and!; try done.
  rewrite filter_cons. destruct (own e.2); case_decide; cbn [length]; lia || done.
Qed.

Lemma work_bound w : (work w ≤ 3 * length (runs w))%nat.
Proof.
  unfold work. induction (runs w) as [|x l IH]; [done|]. cbn [sum_list_with length].
  assert (work1 x ≤ 3)%nat by (unfold work1; destruct (r_watch x), (r_serving x); lia). lia.
Qed.

Lemma reach_ok w : server_reach w → Forall run_ok (runs w).
Proof.
  induction 1 as [w ->|listen addr w w' _ IH Hr|w _ IH|e w w' _ IH Hs]; [constructor| |done|].
  - unfold Run in Hr. destruct (isNil (listen addr)); cbn [negb] in Hr; [|revert Hr; unfold throw; by destruct (EInternalError _ _ _).2].
    injection Hr as <-. apply Forall_app. split; [done|]. by repeat constructor.
  - apply server_step_inv in Hs as (x & y & Hx & Hy & -> & _). apply Forall_insert; [done|].
    eapply run_step_ok; [|exact Hy]. exact (Forall_lookup_1 _ _ _ _ IH Hx).
Qed.

(** With the context cancelled, a run whose goroutines have not both ended and that has no
    active connection can go on by itself. *)
Lemma run_progress x : run_ok x → r_conns x = 0%nat → wg1 x ≠ 0%nat → ∃ ev y, own ev = true ∧ run_step true ev x = Some y.
Proof.
  destruct x as [a t s n wt sv cn sh]. intros [H1 _] H2 H3. cbn in *. subst sh cn. unfold wg1 in H3. cbn in H3. destruct wt.
  - exists ContextDone. eexists. split; [done|]. reflexivity.
  - exists ShutdownReturned. eexists. split; [done|]. reflexivity.
  - destruct sv; [|done]. exists ServeClosed. eexists. split; [done|]. reflexivity.
Qed.

Lemma wg_left w : wg w ≠ 0%nat → ∃ i x, runs w !! i = Some x ∧ wg1 x ≠ 0%nat.
Proof.
  unfold wg. induction (runs w) as [|x l IH]; cbn [sum_list_with]; [done|]. intros Hw.
  destruct (decide (wg1 x = 0%nat)) as [E|E]; [|by exists 0%nat, x]. destruct IH as (i & y & Hi & Hy); [lia|]. by exists (S i), y.
Qed.
Lemma wg_none w : wg w = 0%nat → Forall (λ x, wg1 x = 0%nat) (runs w).
Proof. unfold wg. induction (runs w) as [|x l IH]; cbn [sum_list_with]; constructor; [lia|]. apply IH. lia. Qed.

Lemma server_progress w : server_reach w → cancelled w = true → Forall (λ x, r_conns x = 0%nat) (runs w) →
  Shutdown_returns w ∨ ∃ e w', own e.2 = true ∧ server_step e w = Some w'.
Proof.
  intros Hr Hc Hidle. unfold Shutdown_returns. destruct (decide (wg w = 0%nat)) as [|Hne]; [by left|]. right.
  apply wg_left in Hne as (i & x & Hi & Hx).
  destruct (run_progress x) as (ev & y & Ho & Hy); [exact (Forall_lookup_1 _ _ _ _ (reach_ok w Hr) Hi)|exact (Forall_lookup_1 _ _ _ _ Hidle Hi)|done|].
  exists (i, ev). eexists. split; [done|]. unfold server_step. cbn [fst snd]. rewrite Hi, Hc. cbn. by rewrite Hy.
Qed.

(** Connections becoming idle and the goroutines' own events, until none is left. *)
Definition open_conns w : nat := sum_list_with r_conns (runs w).
Lemma conns_left w : open_conns w ≠ 0%nat → ∃ i w', server_step (i, Idle) w = Some w' ∧ open_conns w = S (open_conns w').
Proof.
  intros Hne. assert (∃ i x, runs w !! i = Some x ∧ r_conns x ≠ 0%nat) as (i & x & Hi & Hx).
  { unfold open_conns in Hne. induction (runs w) as [|x l IH]; cbn [sum_list_with] in Hne; [done|].
    destruct (decide (r_conns x = 0%nat)) as [E|E]; [|by exists 0%nat, x]. destruct IH as (i & y & Hi & Hy); [lia|]. by exists (S i), y. }
  destruct (r_conns x) as [|m] eqn:Em; [done|]. exists i. eexists. split.
  - unfold server_step. cbn [fst snd]. rewrite Hi. cbn. by rewrite Em.
  - unfold open_conns. cbn [runs]. pose proof (sum_insert r_conns _ _ _ (on_conns m x) Hi) as E. cbn [on_conns r_conns] in E. lia.
Qed.
Lemma conns_none w : open_conns w = 0%nat → Forall (λ x, r_conns x = 0%nat) (runs w).
Proof. unfold open_conns. induction (runs w) as [|x l IH]; cbn [sum_list_with]; constructor; [lia|]. apply IH. lia. Qed.

Lemma own_conns e w w' : own e.2 = true → server_step e w = Some w' → open_conns w' = open_conns w.
Proof.
  intros Ho (x & y & Hx & Hy & Hr & _)%server_step_inv. unfold open_conns. rewrite Hr.
  pose proof (sum_insert r_conns _ _ _ y Hx). enough (r_conns y = r_conns x) by lia.
  destruct e as [i ev]. cbn in *. destruct x as [a t s n wt sv cn sh]. by destruct ev; run_cases Hy.
Qed.

Lemma can_return n w : (open_conns w + work w ≤ n)%nat → server_reach w → cancelled w = true →
  ∃ tr w', server_steps tr w = Some w' ∧ Shutdown_returns w' ∧ Forall (λ e, own e.2 = true ∨ e.2 = Idle) tr.
Proof.
  revert w. induction n as [|n IH]; intros w Hn Hr Hc.
  all: destruct (decide (open_conns w = 0%nat)) as [E|E];
    [destruct (server_progress w Hr Hc (conns_none w E)) as [Hd|([i ev] & w1 & Ho & Hs)]; [by exists [], w|]
    |destruct (conns_left w E) as (i & w1 & Hs & Ho)].
  - pose proof (server_step_work _ _ _ Hs). cbn [snd] in *. rewrite Ho in *. lia.
  - lia.
  - pose proof (server_step_work _ _ _ Hs) as Hw. pose proof (own_conns _ _ _ Ho Hs). cbn [snd] in *. rewrite Ho in Hw.
    destruct (IH w1) as (tr & w' & H1 & H2 & H3); [lia|by eapply reach_step|by apply server_step_inv in Hs as (?&?&?&?&?&->)|].
    exists ((i, ev) :: tr), w'. cbn [server_steps]. rewrite Hs. split_and!; try done. constructor; [by left|done].
  - pose proof (server_step_work _ _ _ Hs) as Hw. cbn [snd own] in *.
    destruct (IH w1) as (tr & w' & H1 & H2 & H3); [lia|by eapply reach_step|by apply server_step_inv in Hs as (?&?&?&?&?&->)|].
    exists ((i, Idle) :: tr), w'. cbn [server_steps]. rewrite Hs. split_and!; try done. constructor; [by right|done].
Qed.

(** C37: a server that was cancelled is not running any more and shuts down.  In any
    execution, whatever its listeners and clients do, the goroutines of its runs take at most three
    steps each before they end; while no connection is active and [Shutdown] cannot return
    yet, one of them can go on by itself, without a listener failing; so when the connections
    that are left become idle, [Shutdown] can return; and when it does nothing is served any
    more: no connection is active, none is accepted and nothing else happens. *)
Theorem shutdown_terminates w :
  server_reach w → cancelled w = true →
  Server_Running w = false ∧
  (∀ tr w', server_steps tr w = Some w' → (length (filter (λ e, own e.2 = true) tr) ≤ 3 * length (runs w))%nat) ∧
  (Forall (λ x, r_conns x = 0%nat) (runs w) → Shutdown_returns w ∨ ∃ e w', own e.2 = true ∧ server_step e w = Some w') ∧
  (∃ tr w', server_steps tr w = Some w' ∧ Shutdown_returns w' ∧ Forall (λ e, own e.2 = true ∨ e.2 = Idle) tr) ∧
  (Shutdown_returns w → Forall (λ x, r_conns x = 0%nat ∧ r_serving x = false) (runs w) ∧ ∀ e, server_step e w = None).
Proof.
  intros Hr Hc. split_and!.
  - unfold Server_Running. by rewrite Hc.
  - intros tr w' (H & _)%server_steps_work. pose proof (work_bound w). lia.
  - by apply server_progress.
  - by apply (can_return (open_conns w + work w)).
  - intros Hd. apply wg_none in Hd. pose proof (reach_ok w Hr) as Hok.
    assert (Forall (λ x, r_conns x = 0%nat ∧ r_serving x = false ∧ r_watch x = WDone) (runs w)) as Hall.
    { apply Forall_forall. intros x Hx. rewrite Forall_forall in Hd, Hok. specialize (Hd x Hx). destruct (Hok x Hx) as [_ H2].
      unfold wg1 in Hd. destruct (r_watch x), (r_serving x); cbn in Hd; try done. auto. }
    split; [eapply Forall_impl; [exact Hall|naive_solver]|]. intros [i ev]. unfold server_step. cbn [fst snd].
    destruct (runs w !! i) as [x|] eqn:Hi; cbn; [|done]. eapply Forall_lookup_1 in Hi; [|exact Hall]. cbn in Hi.
    destruct Hi as (H1 & H2 & H3). destruct x as [a t s n wt sv cn sh]. cbn in *. subst. by destruct ev, (cancelled w).
Qed.

(** A run that is not cancelled keeps its watcher, and with it the wait group, whatever
    happens to the listener. *)
Lemma watcher_stays tr : ∀ w w', cancelled w = false → Forall (λ x, r_watch x = WWaiting) (runs w) →
  server_steps tr w = Some w' → Forall (λ x, r_watch x = WWaiting) (runs w').
Proof.
  induction tr as [|e tr IH]; intros w w' Hc Hw; cbn [server_steps]; [by intros [= <-]|].
  destruct (server_step e w) as [w1|] eqn:E; cbn [mbind option_bind]; [|done].
  apply server_step_inv in E as (x & y & Hx & Hy & Hr & Hc1). apply IH; [congruence|]. rewrite Hr. apply Forall_insert; [done|].
  eapply Forall_lookup_1 in Hx; [|exact Hw]. cbn in Hx. rewrite Hc in Hy. destruct x as [a t s n wt sv cn sh]. cbn in Hx. subst wt.
  by destruct e as [i ev], ev; run_cases Hy.
Qed.

Theorem not_cancelled_waits tr w w' :
  cancelled w = false → runs w ≠ [] → Forall (λ x, r_watch x = WWaiting) (runs w) →
  server_steps tr w = Some w' → ¬ Shutdown_returns w'.
Proof.
  intros Hc Hr Hw Hn. pose proof (watcher_stays tr w w' Hc Hw Hn) as Hw'. apply server_steps_work in Hn as (_ & _ & Hl).
  unfold Shutdown_returns, wg. destruct (runs w') as [|x l]; [destruct (runs w); done|]. apply Forall_cons in Hw' as [Hx _].
  cbn [sum_list_with]. unfold wg1 at 1. rewrite Hx. lia.
Qed.

(** A connection that stays active keeps [Shutdown] waiting: it passes a context without a
    deadline to [srv.Shutdown]. *)
Theorem active_connection_waits tr w w' i x : server_reach w → (i, Idle) ∉ tr → runs w !! i = Some x → r_conns x ≠ 0%nat →
  server_steps tr w = Some w' → ¬ Shutdown_returns w'.
Proof.
  revert w x. induction tr as [|e tr IH]; intros w x Hr Hi Hx Hn; cbn [server_steps].
  - intros [= <-] Hd. apply wg_none in Hd. eapply Forall_lookup_1 in Hd; [|exact Hx]. pose proof (reach_ok w Hr) as Hok.
    eapply Forall_lookup_1 in Hok as [_ H2]; [|exact Hx]. unfold wg1 in Hd. cbn in Hd. destruct (r_watch x); try lia. by apply Hn, H2.
  - destruct (server_step e w) as [w1|] eqn:E; cbn [mbind option_bind]; [|done]. pose proof E as (z & y & Hz & Hy & Hr1 & _)%server_step_inv.
    destruct (decide (e.1 = i)) as [<-|Hne].
    + rewrite Hx in Hz. injection Hz as <-.
      eapply (IH w1 y); [by eapply reach_step|set_solver| |].
      * rewrite Hr1. apply list_lookup_insert_eq. by eapply lookup_lt_Some.
      * destruct e as [j ev], x as [a t s n wt sv cn sh]. cbn in *. destruct ev; run_cases Hy; cbn; try done. set_solver.
    + eapply (IH w1 x); [by eapply reach_step|set_solver| |done]. by rewrite Hr1, list_lookup_insert_ne.
Qed.

(** A server whose only listener failed still reports that it is running. *)
Theorem failed_listener_running w a t s n c :
  cancelled w = false → runs w = [mkRunning a t s n WWaiting true c false] →
  ∃ w', server_step (0%nat, ServeFailed) w = Some w' ∧ Forall (λ x, r_serving x = false) (runs w') ∧ Server_Running w' = true.
Proof.
  destruct w as [ca l tls r d]. cbn. intros -> ->. eexists. split; [reflexivity|]. split; [by repeat constructor|done].
Qed.

(** Each [Run] that can listen adds its two goroutines with the server's configuration. *)
Theorem run_spec listen addr w r w' :
  Run listen addr w = (r, w') →
  (r = Ok tt ↔ isNil (listen addr) = true) ∧
  (r = Ok tt → wg w' = (wg w + 2)%nat ∧ cancelled w' = cancelled w) ∧ (r ≠ Ok tt → w' = w).
Proof.
  unfold Run. destruct (isNil (listen addr)); cbn [negb]; intros [= <- <-].
  - split; [done|]. split; [|done]. intros _. split; [|done]. unfold wg. cbn [runs]. rewrite sum_list_with_app. done.
  - split; [|split; [|done]]; [split; [|done]|]; unfold throw; by destruct (EInternalError _ _ _).2.
Qed.

(** ** Redirects *)
Context (ToASCII : bytes → bytes + goerror) (urlString : URL → bytes).
Implicit Types (r : Request).

(** A host with or without a port names the same host. *)
Theorem discover_host r host :
  (58 ∉ host) → host ≠ [] →
  (Host r = host → discoverRequestHost ToASCII r = ToASCII host) ∧
  (∀ port, 0 ≤ port < 2 ^ 63 → Host r = host ++ 58 :: utoa port → discoverRequestHost ToASCII r = ToASCII host).
Proof.
  intros Hh Hne. unfold discoverRequestHost. split.
  - intros ->. rewrite bool_decide_eq_false_2 by done. by rewrite (Split_none 58 host Hh).
  - intros port Hp ->. rewrite bool_decide_eq_false_2 by (by destruct host). rewrite (Split_cons 58 host _ Hh).
    rewrite (Split_none 58 (utoa port)).
    + cbn [zlen length]. change (2 <? zlen [host; utoa port]) with false. by rewrite Atoi_utoa.
    + intros Hin. pose proof (utoa_digits port) as Hd. rewrite Forall_forall in Hd. by apply Hd in Hin.
Qed.

(** The handler of the plain port answers every request once: with a temporary redirect
    to the https address of the same path and query, on the requested host, or on the
    primary host when the request names none that is valid; or, without a primary
    host, with status 426. *)
Theorem redirect_response primaryHost r u :
  ReqURL r = Some u →
  ∃ l h, redirectHandler ToASCII urlString primaryHost r = Some l ∧
  match discoverRequestHost ToASCII r with
  | inl host => respond l = Some (307, h, []) ∧ h !! txt "Location" = Some (urlString (mkURL (txt "https") host (Path u) (RawQuery u)))
  | inr _ => if bool_decide (primaryHost = []) then respond l = Some (426, h, []) ∧ h !! txt "Location" = None
      else respond l = Some (307, h, []) ∧ h !! txt "Location" = Some (urlString (mkURL (txt "https") primaryHost (Path u) (RawQuery u)))
  end.
Proof.
  intros Hu. unfold redirectHandler. rewrite Hu. cbn [mbind option_bind].
  destruct (discoverRequestHost ToASCII r) as [host|e].
  - eexists _, (<[txt "Location" := urlString (mkURL (txt "https") host (Path u) (RawQuery u))]> ∅).
    split; [done|]. split; [reflexivity|]. by rewrite lookup_insert_eq.
  - destruct (decide (primaryHost = [])) as [->|Hp].
    + rewrite (bool_decide_eq_false_2 ([] ≠ [])), (bool_decide_eq_true_2 ([] = [])) by naive_solver.
      eexists _, (<[txt "Upgrade" := txt "TLS/1.2, HTTP/1.1"]> ∅).
      split; [done|]. split; [reflexivity|]. by rewrite lookup_insert_ne.
    + rewrite (bool_decide_eq_true_2 _ Hp), (bool_decide_eq_false_2 _ Hp).
      eexists _, (<[txt "Location" := urlString (mkURL (txt "https") primaryHost (Path u) (RawQuery u))]> ∅).
      split; [done|]. split; [reflexivity|]. by rewrite lookup_insert_eq.
Qed.

(** The error handlers answer with their status and an encoded body, but without a
    content type of their own. *)
Theorem error_handlers encode :
  respond (notFoundHandler encode) = Some (404, ∅, encode (txt "404") (txt "Not found")) ∧
  respond (notAllowedHandler encode) = Some (405, ∅, encode (txt "405") (txt "Method not allowed")).
Proof. by split. Qed.

(** The labels of the process's metrics are those of the first metrics server. *)
Theorem metrics_once labels1 labels2 reg :
  (NewMetrics labels2 (NewMetrics labels1 reg (T := T) (R := R)).2 (T := T) (R := R)).2 = (NewMetrics labels1 reg (T := T) (R := R)).2.
Proof. by destruct reg. Qed.

(** Routers that refuse middlewares once they have routes, as chi documents: a server
    with the profiler option before any middleware option cannot be built. *)
Theorem pprof_before_middleware (H : ∀ path h m (r : R), Use m (Mount path h r) = None) opts1 opts2 m w :
  applyOptions opts1 (mkServer false [] None (MethodNotAllowed HNotAllowed (NotFound HNotFound NewRouter)) false) = Some w →
  New (opts1 ++ WithPprof :: use m :: opts2) = (None : option (Server R T)).
Proof.
  unfold New. generalize (mkServer (T := T) false [] None (MethodNotAllowed HNotAllowed (NotFound HNotFound NewRouter)) false) as w0.
  induction opts1 as [|o opts1 IH]; intros w0; cbn [app applyOptions].
  - intros [= ->]. unfold WithPprof, use. cbn [mbind option_bind setRouter router]. by rewrite H.
  - destruct (o w0) as [w1|]; [apply IH|done].
Qed.
End props.

(** ** Concrete runs *)
#[local] Instance list_router : Router (list (bytes * handler) * list mw) := {|
  NewRouter := ([], []);
  Use m r := match r.1 with [] => Some (r.1, r.2 ++ [m]) | _ => None end;
  Mount p h r := (r.1 ++ [(p, h)], r.2);
  Handle p h r := (r.1 ++ [(p, h)], r.2);
  NotFound h r := r;
  MethodNotAllowed h r := r |}.

Definition srv1 : Server (list (bytes * handler) * list mw) unit :=
  mkServer true [mkRunning (txt ":80") (10 * Second) false false WWaiting true 1 false] None ([], []) false.
Lemma srv1_reach : server_reach (env := test_env) srv1.
Proof.
  change srv1 with (cancel (mkServer (R := list (bytes * handler) * list mw) (T := unit) false (runs srv1) None ([], []) false)).
  apply reach_cancel.
  eapply (reach_step (0%nat, Accepted) (mkServer false [mkRunning (txt ":80") (10 * Second) false false WWaiting true 0 false] None ([], []) false));
    [|reflexivity].
  eapply (reach_run (λ _, NilError) (txt ":80") (mkServer false [] None ([], []) false)); [by apply reach_new|reflexivity].
Qed.

(** One connection is still active when the context is cancelled. *)
Lemma shutdown_terminates_witness : ∃ tr w', server_steps tr srv1 = Some w' ∧ Shutdown_returns w' ∧ Forall (λ e, own e.2 = true ∨ e.2 = Idle) tr.
Proof. apply (shutdown_terminates srv1 srv1_reach eq_refl). Defined.

Lemma redirect_response_witness :
  ∃ l h, redirectHandler (λ s, inl s) (λ u, URLHost u ++ Path u) [] (mkRequest [] (txt "a.b:80") [] (Some (mkURL [] [] (txt "/x") [])) [] []) = Some l ∧
    respond l = Some (307, h, []) ∧ h !! txt "Location" = Some (txt "a.b/x").
Proof.
  destruct (redirect_response (λ s, inl s) (λ u, URLHost u ++ Path u) [] (mkRequest [] (txt "a.b:80") [] (Some (mkURL [] [] (txt "/x") [])) [] []) _ eq_refl)
    as (l & h & H1 & H2). exists l, h. split; [exact H1|]. exact H2.
Defined.
