(* ===== verification/HTTPChain.v ===== *)
(** * xhttp: a server with its middlewares around a handler

    Puts [server.go], [log_mw.go] and [measure.go] of [src/xhttp] together: the options of a
    server fill the middleware stack of its router, and a request passes the request log
    and the request metrics, in any number and order, before its handler.  Each wraps the
    [ResponseWriter] it was given; what the handler calls reaches the client through all
    the wrappers. *)
From S2P Require Import Prelude Text XError HTTP HTTPProps HTTPMeasure HTTPServer.

Local Open Scope Z_scope.

(** ** chi *)

(** [middleware.NewWrapResponseWriter]: what it passes on of a call, and the status it
    reports.  It documents that it is a proxy that hooks into the response: what the
    client gets is unchanged, the status is the one that was sent, 0 before, and a handler that
    sets the status once still does so behind it. *)
Class WrapWriter (W : Type) := {
  wrapNew : W;
  wrapSend : action → W → list action * W;
  Status : W → Z }.

Section wrap.
Context {W : Type} `{!WrapWriter W}.
Fixpoint wrapSendAll (l : list action) (x : W) : list action * W :=
  match l with
  | [] => ([], x)
  | a :: l => let '(out, x) := wrapSend a x in let '(outs, x) := wrapSendAll l x in (out ++ outs, x)
  end.
End wrap.

Class WrapLaws (W : Type) `{!WrapWriter W} := {
  wrap_response l w : performAll l rw0 = Some w → performAll (wrapSendAll l wrapNew).1 rw0 = Some w;
  wrap_status l w : performAll l rw0 = Some w → Status (wrapSendAll l wrapNew).2 = wrapStatus w;
  wrap_once l : sets_once false l = true → sets_once false (wrapSendAll l wrapNew).1 = true }.

(** The stack of a router: [Use] appends to it, routes do not touch it. *)
Class RouterStack (R : Type) `{!Router R} := {
  middlewares : R → list mw;
  stack_new : middlewares NewRouter = [];
  stack_use m r r' : Use m r = Some r' → middlewares r' = middlewares r ++ [m];
  stack_notFound h r : middlewares (NotFound h r) = middlewares r;
  stack_notAllowed h r : middlewares (MethodNotAllowed h r) = middlewares r }.

(** ** A request through the stack *)
Section chain.
Context {W : Type} `{!WrapWriter W}.

(** The writer that a middleware makes: [recorder] or the wrapped writer. *)
Inductive layer := LRecorder (status : Z) | LWrapped (x : W).

(** The middlewares of this package; others are not part of it. *)
Definition newLayer (m : mw) : option layer :=
  match m with
  | MwRequestLogger => Some (LRecorder 200)
  | MwMeasure _ => Some (LWrapped wrapNew)
  | MwCustom _ | MwCors _ => None
  end.

(** The calls that a handler makes on a writer: what is passed on, and the writer after. *)
Fixpoint recordAll (l : list action) (status : Z) : Z :=
  match l with
  | [] => status
  | WriteHeader s :: l => recordAll l s
  | _ :: l => recordAll l status
  end.
Definition send (l : list action) (y : layer) : list action * layer :=
  match y with
  | LRecorder status => (l, LRecorder (recordAll l status))
  | LWrapped x => let '(out, x) := wrapSendAll l x in (out, LWrapped x)
  end.

(** What a middleware reports when the handler has returned. *)
Inductive report := Logged (line : logline) | Counted (l : labels).
Definition reportOf (r : Request) (m : mw) (y : layer) : option report :=
  match m, y with
  | MwRequestLogger, LRecorder status => Some (Logged (mkLog (Host r) (Method r) (RequestURI r) status))
  | MwMeasure me, LWrapped x =>
      u ← ReqURL r;
      Some (Counted (normalizeMethod (Method r), normalizePath me (Path u), normalizeResult (Status x)))
  | _, _ => None
  end.

(** [ServeHTTP] of a stack, the outermost middleware first: the calls that reach the
    writer it is given, and the reports, the innermost first. *)
Fixpoint chain (ms : list mw) (next : Request → list action) (r : Request) : option (list action * list report) :=
  match ms with
  | [] => Some (next r, [])
  | m :: ms =>
      y ← newLayer m;
      '(l, reports) ← chain ms next r;
      let '(out, y) := send l y in
      rep ← reportOf r m y;
      Some (out, reports ++ [rep])
  end.

Definition serve (ms : list mw) (next : Request → list action) (r : Request) : option (rw * list report) :=
  '(l, reports) ← chain ms next r;
  w ← performAll l rw0;
  Some (w, reports).

(** ** One middleware: the definitions of [HTTP] and [HTTPMeasure] *)

Lemma recordAll_run l : ∀ r r', recorder_performAll l r = Some r' → status r' = recordAll l (status r).
Proof.
  induction l as [|a l IH]; intros r r'; cbn [recorder_performAll recordAll]; [by intros [= ->]|].
  destruct (recorder_perform a r) as [r1|] eqn:E; cbn [mbind option_bind]; [|done]. intros Hr. rewrite (IH _ _ Hr).
  destruct a as [k v|c|d]; cbn [recorder_perform] in E; [|unfold recorder_WriteHeader in E|];
    destruct (_ : option rw) in E; cbn in E; try done; by injection E as <-.
Qed.

Lemma serve_logger next r :
  serve [MwRequestLogger] next r = (λ x, (x.1, [Logged x.2])) <$> requestLogger next r rw0.
Proof.
  unfold serve, requestLogger. cbn [chain newLayer send reportOf mbind option_bind].
  pose proof (recorder_transparent (next r) (mkRecorder rw0 200)) as Ht. cbn [ResponseWriter] in Ht. rewrite <-Ht.
  destruct (recorder_performAll (next r) (mkRecorder rw0 200)) as [r'|] eqn:E; [|done]. cbn.
  by rewrite (recordAll_run _ _ _ E).
Qed.

Context `{!WrapLaws W}.

Lemma serve_measure next r d me w me' u : ReqURL r = Some u → Middleware next r d rw0 me = Some (w, me') →
  ∃ l, serve [MwMeasure me] next r = Some (w, [Counted l]) ∧
    v_data (requestCount me') = <[l := default 0 (v_data (requestCount me) !! l) + 1]> (v_data (requestCount me)).
Proof.
  intros Hu. unfold Middleware, serve. cbn [chain newLayer send mbind option_bind].
  destruct (performAll (next r) rw0) as [w1|] eqn:Ew; cbn [mbind option_bind]; [|done]. rewrite Hu. cbn [mbind option_bind].
  intros [= <- <-]. pose proof (wrap_response _ _ Ew) as Hr. pose proof (wrap_status _ _ Ew) as Hs.
  destruct (wrapSendAll (next r) wrapNew) as [out x]. cbn [fst snd reportOf] in *. rewrite Hu. cbn [mbind option_bind app].
  rewrite Hr, Hs. cbn [mbind option_bind]. eexists. split; [done|]. done.
Qed.

(** ** Any stack *)

Definition own (m : mw) : Prop := is_Some (newLayer m).

(** What the report of a middleware says about the response [w] of the handler. *)
Definition report_right (next : Request → list action) (r : Request) (w : rw) (m : mw) (rep : report) : Prop :=
  match m, rep with
  | MwRequestLogger, Logged line =>
      l_host line = Host r ∧ l_method line = Method r ∧ l_path line = RequestURI r ∧
      (sets_once false (next r) = true → l_status line = (finish w).1.1)
  | MwMeasure me, Counted l => ∃ u, ReqURL r = Some u ∧
      l = (normalizeMethod (Method r), normalizePath me (Path u),
           match rw_sent w with Some _ => normalizeResult (finish w).1.1 | None => txt "unknown" end)
  | _, _ => False
  end.

Lemma recorded_status l w : performAll l rw0 = Some w → sets_once false l = true → recordAll l 200 = (finish w).1.1.
Proof.
  intros Hw Hs. pose proof (recorder_transparent l (mkRecorder rw0 200)) as Ht. cbn [ResponseWriter] in Ht. rewrite Hw in Ht.
  destruct (recorder_performAll l (mkRecorder rw0 200)) as [r'|] eqn:E; [|done]. injection Ht as Ht.
  change 200 with (status (mkRecorder rw0 200)). rewrite <-(recordAll_run _ _ _ E). symmetry. rewrite <-Ht. eapply recorder_status; [exact E|]. by split.
Qed.

Lemma chain_spec next r w u : performAll (next r) rw0 = Some w → ReqURL r = Some u → ∀ ms, Forall own ms →
  ∃ l reps, chain ms next r = Some (l, reps) ∧ performAll l rw0 = Some w ∧
    (sets_once false (next r) = true → sets_once false l = true) ∧ Forall2 (report_right next r w) ms (reverse reps).
Proof.
  intros Hw Hu. induction 1 as [|m ms Hm _ (l & reps & Hc & Hl & Ho & Hr)]; cbn [chain].
  { exists (next r), []. done. }
  rewrite Hc. destruct m as [?|?| |me]; try by destruct Hm.
  - cbn. eexists l, _. split_and!; try done. rewrite reverse_snoc. constructor; [|done]. cbn [report_right l_host l_method l_path l_status].
    split_and!; try done. intros Hs. by apply recorded_status, Ho.
  - cbn [newLayer mbind option_bind send]. pose proof (wrap_response _ _ Hl) as Hr'. pose proof (wrap_status _ _ Hl) as Hs.
    pose proof (wrap_once l) as Hon. destruct (wrapSendAll l wrapNew) as [out x]. cbn [fst snd reportOf] in *.
    rewrite Hu. cbn [mbind option_bind]. eexists out, _. split_and!; try done; [auto|].
    rewrite reverse_snoc. constructor; [|done]. exists u. split; [done|]. rewrite Hs. unfold wrapStatus, finish.
    by destruct (rw_sent w) as [[]|].
Qed.
End chain.

(** ** Servers *)
Section servers.
Context {env : Env} {R T : Type} `{!Router R} `{!RouterStack R} {W : Type} `{!WrapWriter W} `{!WrapLaws W}.

Lemma applyOptions_stack ms : ∀ (w w' : Server R T),
  applyOptions (use <$> ms) w = Some w' → middlewares (router w') = middlewares (router w) ++ ms.
Proof.
  induction ms as [|m ms IH]; intros w w'; cbn [fmap list_fmap applyOptions]; [intros [= ->]; by rewrite app_nil_r|].
  destruct (use m w) as [w1|] eqn:E; cbn [mbind option_bind]; [|done]. intros Hw. rewrite (IH _ _ Hw).
  unfold use in E. destruct (Use m (router w)) as [r'|] eqn:Er; cbn in E; [|done]. injection E as <-. cbn [setRouter router].
  by rewrite (stack_use _ _ _ Er), <-app_assoc.
Qed.

(** C21: A server made with request logs and request metrics, in any number and order, runs
    them in the order of its options, the first outermost.  Whatever they are, the client
    gets exactly what the handler alone would send; every metric counts the request once,
    under its method, its path and the result of the status that was sent, or as "unknown"
    when the handler called neither [WriteHeader] nor [Write] (and the client gets an empty 200); and
    every log names the request, with the status the client got when the handler sets it at
    most once. *)
Theorem middleware_chain (ms : list mw) (next : Request → list action) (r : Request) (u : URL) (w : rw) (h : Server R T) :
  New (use <$> ms) = Some h → Forall (own (W := W)) ms →
  performAll (next r) rw0 = Some w → ReqURL r = Some u →
  middlewares (router h) = ms ∧
  ∃ reps, serve (W := W) (middlewares (router h)) next r = Some (w, reps) ∧
    Forall2 (report_right next r w) ms (reverse reps).
Proof.
  intros Hh Hms Hw Hu. apply applyOptions_stack in Hh. cbn [router] in Hh.
  rewrite stack_notAllowed, stack_notFound, stack_new in Hh. cbn in Hh. rewrite Hh. split; [done|].
  destruct (chain_spec next r w u Hw Hu ms Hms) as (l & reps & Hc & Hl & _ & Hr).
  exists reps. split; [|done]. unfold serve. rewrite Hc. cbn. by rewrite Hl.
Qed.
End servers.

(** ** A concrete server *)

(** A router whose stack is a list, and chi's wrapper: it passes on the first final status
    only, and sends 200 before a body. *)
#[local] Instance stack_router : Router (list mw) := {|
  NewRouter := []; Use := λ m r, Some (r ++ [m]); Mount := λ _ _ r, r; Handle := λ _ _ r, r;
  NotFound := λ _ r, r; MethodNotAllowed := λ _ r, r |}.
#[local] Instance stack_router_laws : RouterStack (list mw).
Proof. refine {| middlewares := λ r, r |}; [done| |done..]. by intros m r r' [= <-]. Defined.

#[local] Instance chi_wrap : WrapWriter (option Z) := {|
  wrapNew := None;
  wrapSend a x :=
    match a, x with
    | SetHeader _ _, _ => ([a], x)
    | WriteHeader s, None => ([a], if informational s then None else Some s)
    | WriteHeader s, Some _ => (if informational s then [a] else [], x)
    | Write _, None => ([WriteHeader 200; a], Some 200)
    | Write _, Some _ => ([a], x)
    end;
  Status := default 0 |}.

Lemma chi_step a w w1 : perform a w = Some w1 →
  performAll (wrapSend a (fst <$> rw_sent w)).1 w = Some w1 ∧ (wrapSend a (fst <$> rw_sent w)).2 = fst <$> rw_sent w1.
Proof.
  destruct a as [k v|c|d]; cbn [perform]; [intros [= <-]; done| |].
  - unfold writeHeader. destruct (_ || _) eqn:E; [done|]. destruct (rw_sent w) as [[s h]|] eqn:Es; cbn.
    + intros [= <-]. rewrite Es. destruct (informational c); [|done]. cbn. unfold writeHeader. by rewrite E, Es.
    + unfold writeHeader. rewrite E, Es. destruct (informational c); intros [= <-]; by rewrite ?Es.
  - unfold write. destruct (rw_sent w) as [[s h]|] eqn:Es; cbn; rewrite ?Es.
    + intros [= <-]. unfold write. rewrite Es. cbn. rewrite Es. split; [done|]. destruct (bodyAllowedForStatus s); cbn; by rewrite ?Es.
    + cbn. intros [= <-]. done.
Qed.

Lemma chi_all l : ∀ w w', performAll l w = Some w' →
  performAll (wrapSendAll l (fst <$> rw_sent w)).1 w = Some w' ∧ (wrapSendAll l (fst <$> rw_sent w)).2 = fst <$> rw_sent w'.
Proof.
  induction l as [|a l IH]; intros w w'; cbn [performAll wrapSendAll]; [by intros [= ->]|].
  destruct (perform a w) as [w1|] eqn:E; cbn [mbind option_bind]; [|done]. intros Hw.
  destruct (chi_step _ _ _ E) as [H1 H2]. destruct (IH _ _ Hw) as [H3 H4].
  destruct (wrapSend a _) as [out x]. cbn [fst snd] in H1, H2. subst x.
  destruct (wrapSendAll l _) as [outs x]. cbn [fst snd] in *. split; [|done]. rewrite performAll_app, H1. done.
Qed.

Lemma chi_once l : ∀ x : option Z, let sent (x : option Z) := match x with Some _ => true | None => false end in
  sets_once (sent x) l = true → sets_once (sent x) (wrapSendAll l x).1 = true.
Proof.
  induction l as [|a l IH]; intros x; [done|]. cbn [wrapSendAll sets_once].
  pose proof (IH None) as IH0. pose proof (λ c, IH (Some c)) as IH1. cbn zeta beta in IH0, IH1 |- *.
  destruct a as [k v|c|d], x as [s|]; cbn [wrapSend chi_wrap]; intros Hs; try done.
  1: specialize (IH1 s Hs). 2: specialize (IH0 Hs).
  3: apply andb_true_iff in Hs as [[_ Hi%negb_true_iff]%andb_true_iff Hs]; rewrite Hi; specialize (IH1 c Hs).
  4: specialize (IH1 s Hs). 5: specialize (IH1 200 Hs).
  all: match goal with |- context [wrapSendAll ?k ?y] => destruct (wrapSendAll k y) as [outs x] end; cbn in *; rewrite ?Hi; done.
Qed.

#[local] Instance chi_wrap_laws : WrapLaws (option Z).
Proof.
  split.
  - intros l w Hw. by apply (chi_all l rw0).
  - intros l w Hw. destruct (chi_all l rw0 w Hw) as [_ H]. cbn [rw_sent rw0 fmap option_fmap option_map] in H.
    cbn [wrapNew chi_wrap Status]. rewrite H. unfold wrapStatus. by destruct (rw_sent w) as [[c h]|].
  - intros l. apply (chi_once l None).
Qed.

(** The metrics are inside the log, and the handler reports a missing entry. *)
Definition chained : list mw := [MwRequestLogger; MwMeasure new3].
Definition missing (_ : Request) : list action := [WriteHeader 404; Write [110; 111]].

Lemma middleware_chain_witness :
  ∃ reps, serve (W := option Z) chained missing (get "/u/7/x") = Some (mkRW ∅ (Some (404, ∅)) [110; 111], reps) ∧
    Forall2 (report_right missing (get "/u/7/x") (mkRW ∅ (Some (404, ∅)) [110; 111])) chained (reverse reps).
Proof.
  pose (h := (mkServer false [] None chained false : Server (list mw) unit)).
  assert (Forall (own (W := option Z)) chained) as Ho by (repeat constructor; by eexists).
  exact (proj2 (middleware_chain (W := option Z) chained missing (get "/u/7/x") _ _ h eq_refl Ho eq_refl eq_refl)).
Defined.

(** The same run, evaluated. *)
Example chained_reports :
  snd <$> serve (W := option Z) chained missing (get "/u/7/x") =
  Some [Counted (txt "GET", txt "/u/{id}/x", txt "client_error"); Logged (mkLog [] (txt "get") [] 404)].
Proof. vm_compute. reflexivity. Qed.
