(* ===== verification/Issuer.v ===== *)
(** * xhttp: certificates from Let's Encrypt

    Models [src/xhttp/ssl.go] (the issuer of one domain: cached, self-signed, issued and
    renewed certificates, and its worker) and [src/xhttp/ssl_challenge.go].  The ACME
    client (lego), the x509 and key routines, the file system and the encoding of the
    cached file are members of the class [CA]; they act on the state [W] of the world. *)
From S2P Require Import Prelude Text Effects XError HTTP.

Local Open Scope Z_scope.

Record leCertInfo := mkLeCert { Domain : bytes; Cert : bytes; Key : bytes; CertURL : bytes }.
#[global] Instance leCertInfo_eq_dec : EqDecision leCertInfo.
Proof. solve_decision. Defined.

(** [tls.Certificate]: the chain, its key, and when the parsed leaf expires. *)
Record tlsCertificate := mkTls { Certificate : list bytes; PrivateKey : bytes; LeafNotAfter : option time }.

Record SSLConfig := mkSSLConfig { ListenAddr : bytes }.
(** [NonSSLRouter] is given or nil. *)
Record IssuerOpts := mkIssuerOpts { o_Domain : bytes; o_CacheDir : bytes; o_Email : bytes; o_Router : bool }.

(** ** ssl_challenge.go: the user *)
Record user {K Reg : Type} := mkUser { email : bytes; registration : option Reg; key : option K }.
Arguments user : clear implicits.
Arguments mkUser {K Reg}.

(** The certificate of [lego]: [certificate.Resource]. *)
Record resource := mkResource { r_Domain : bytes; r_CertURL : bytes; r_PrivateKey : bytes; r_Certificate : bytes }.

(** The template of a self-signed certificate. *)
Record template := mkTemplate {
  DNSNames : list bytes; SerialNumber : Z; Organization : list bytes; NotBefore : time; NotAfter : time; IsCA : bool }.

Class CA (W : Type) := {
  client : Type; privkey : Type; registrationResource : Type;
  (** the file system *)
  ReadFile : bytes → W → bytes + goerror;
  WriteFile : bytes → bytes → W → goerror * W;
  StatIsDir : bytes → W → bool + goerror;
  PathJoin : bytes → bytes → bytes;
  (** encoding/json of the cached data *)
  MarshalCert : leCertInfo → bytes + goerror;
  UnmarshalCert : bytes → leCertInfo + goerror;
  (** lego *)
  NewClient : user privkey registrationResource → W → (client + goerror) * W;
  SetHTTP01Provider : client → W → goerror * W;
  Register : client → W → (registrationResource + goerror) * W;
  Obtain : client → list bytes → W → (resource + goerror) * W;
  Renew : client → resource → W → (resource + goerror) * W;
  (** crypto *)
  GenerateKey : W → (privkey + goerror) * W;
  RandInt : Z → W → (Z + goerror) * W;
  CreateCertificate : template → privkey → W → (bytes + goerror) * W;
  MarshalPKCS8PrivateKey : privkey → bytes + goerror;
  PemEncode : bytes → bytes → bytes + goerror;
  X509KeyPair : bytes → bytes → (list bytes * bytes) + goerror;
  ParseCertificate : bytes → time + goerror }.

Section issuer.
Context {env : Env} {W : Type} `{!CA W}.

(** [ctx] is cancelled or not; [cli], [leCert] and [tlsCert] can be nil. *)
Record Issuer := mkIssuer {
  is_cancelled : bool; opts : IssuerOpts; cli : option client;
  leCert : option leCertInfo; tlsCert : option tlsCertificate }.

(** A failed key generation leaves the key nil. *)
Definition newUser (email : bytes) (key : option privkey) : user privkey registrationResource := mkUser email None key.

(** Computations of an issuer; a nil error is a return. *)
Definition itask (A : Type) : Type := prog (Issuer * W) goerror A.

(** [return xerror.WInternalError("ssl", msg, err)] *)
Definition sslError {A} (msg : bytes) (err : goerror) : itask A := lift (throw (WInternalError (txt "ssl") msg err [])).
(** A call whose error is returned as it is, or wrapped. *)
Definition callW {A} (f : W → (A + goerror) * W) (onErr : goerror → itask A) : itask A := λ s,
  let '(r, w) := f s.2 in
  match r with inl a => (Ok a, (s.1, w)) | inr err => onErr err (s.1, w) end.
Definition callErr (f : W → goerror * W) (onErr : goerror → itask unit) : itask unit := λ s,
  let '(err, w) := f s.2 in
  if isNil err then (Ok tt, (s.1, w)) else onErr err (s.1, w).
Definition callIgnore {A} (f : W → (A + goerror) * W) : itask (option A) := λ s,
  let '(r, w) := f s.2 in
  (Ok (match r with inl a => Some a | inr _ => None end), (s.1, w)).
Definition pureCall {A} (r : A + goerror) (onErr : goerror → itask A) : itask A :=
  match r with inl a => mret a | inr err => onErr err end.
Definition setCli (c : client) : itask unit :=
  modify (λ s, (mkIssuer (is_cancelled s.1) (opts s.1) (Some c) (leCert s.1) (tlsCert s.1), s.2)).
(** [is.leCert] and then [is.tlsCert]: only the worker reads the first, and [GetCertificate] reads
    nothing but the second, so nobody can tell them from one assignment. *)
Definition setCert (le : leCertInfo) (t : tlsCertificate) : itask unit :=
  modify (λ s, (mkIssuer (is_cancelled s.1) (opts s.1) (cli s.1) (Some le) (Some t), s.2)).
Definition setTls (t : tlsCertificate) : itask unit :=
  modify (λ s, (mkIssuer (is_cancelled s.1) (opts s.1) (cli s.1) (leCert s.1) (Some t), s.2)).

Definition cachedCertPath (o : IssuerOpts) : bytes := PathJoin (o_CacheDir o) (o_Domain o ++ txt ".json").

Definition parseX509 (cert key : bytes) : itask tlsCertificate :=
  '(chain, k) ← pureCall (X509KeyPair cert key) (sslError (txt "failed to parse x509 key pair"));
  match chain with
  | [] => lift Panic                                 (* incert.Certificate[0] *)
  | leaf :: _ =>
      notAfter ← pureCall (ParseCertificate leaf) (sslError (txt "failed to parse the leaf"));
      mret (mkTls chain k (Some notAfter))
  end.

Definition loadCachedCertificate : itask unit :=
  o ← gets (λ s, opts s.1);
  r ← gets (λ s, ReadFile (cachedCertPath o) s.2);
  bs ← pureCall r fail;
  le ← pureCall (UnmarshalCert bs) fail;
  t ← parseX509 (Cert le) (Key le);
  setCert le t.

Definition writeCert : itask unit :=
  le ← gets (λ s, leCert s.1);
  match le with
  | None => lift Panic                               (* never called without a certificate *)
  | Some le =>
      bs ← pureCall (MarshalCert le) (sslError (txt "failed to marshal cert data"));
      o ← gets (λ s, opts s.1);
      callErr (WriteFile (cachedCertPath o) bs) (sslError (txt "failed to write cert data to a file"))
  end.

Definition getLEClient : itask client :=
  c ← gets (λ s, cli s.1);
  match c with
  | Some c => mret c
  | None =>
      o ← gets (λ s, opts s.1);
      k ← callIgnore GenerateKey;
      let myUser := newUser (o_Email o) k in
      c ← callW (NewClient myUser) (sslError (txt "failed to create LE client"));
      callErr (SetHTTP01Provider c) (sslError (txt "failed to set http-01 provider"));;
      callW (Register c) (λ err, sslError (txt "failed to register user") err);;
      setCli c;;
      mret c
  end.

Definition issueAndSaveCertificate : itask unit :=
  c ← getLEClient;
  o ← gets (λ s, opts s.1);
  certificates ← callW (Obtain c [o_Domain o]) (sslError (txt "failed to obtain certificate"));
  let le := mkLeCert (o_Domain o) (r_Certificate certificates) (r_PrivateKey certificates) (r_CertURL certificates) in
  t ← parseX509 (Cert le) (Key le);
  setCert le t;;
  writeCert.

Definition assignSelfSigned (now : time) : itask unit :=
  priv ← callW GenerateKey (sslError (txt "failed to generate ecdsa key"));
  let notBefore := now in
  let notAfter := Calendar.addYears (24 * 3600 * Second) 1 notBefore in      (* AddDate(1, 0, 0) *)
  serialNumber ← callW (RandInt (Z.shiftl 1 128)) (sslError (txt "failed to randomize serial number"));
  o ← gets (λ s, opts s.1);
  let template := mkTemplate [o_Domain o] serialNumber [txt "VPN House"] notBefore notAfter true in
  derBytes ← callW (CreateCertificate template priv) (sslError (txt "failed to create certificate from a template"));
  pubBuf ← pureCall (PemEncode (txt "CERTIFICATE") derBytes) (sslError (txt "failed to encode certificate into PEM"));
  privBytes ← pureCall (MarshalPKCS8PrivateKey priv) (sslError (txt "failed to marshal the private key"));
  privBuf ← pureCall (PemEncode (txt "PRIVATE KEY") privBytes) (sslError (txt "failed to encode the private key"));
  '(chain, k) ← pureCall (X509KeyPair pubBuf privBuf) (sslError (txt "failed to derive x509 certificate"));
  setTls (mkTls chain k None).

Definition t30days : Z := 30 * 24 * 3600 * Second.

Definition renewOnce (now : time) : itask unit :=
  iss ← gets fst;
  match leCert iss, tlsCert iss with
  | Some le, Some t =>
      match LeafNotAfter t with
      | None => lift Panic                           (* is.tlsCert.Leaf.NotAfter *)
      | Some notAfter =>
          let expiresIn := Sub notAfter now in
          if t30days <? expiresIn then mret tt
          else
            c ← getLEClient;
            newCert ← callW (Renew c (mkResource (Domain le) (CertURL le) (Key le) (Cert le))) (sslError (txt "Renew failed"));
            t' ← parseX509 (r_Certificate newCert) (r_PrivateKey newCert);
            setCert (mkLeCert (Domain le) (r_Certificate newCert) (r_PrivateKey newCert) (r_CertURL newCert)) t';;
            writeCert
      end
  | _, _ => sslError (txt "Can't renew, certificate is not set") NilError
  end.

Definition EqualFold (a b : bytes) : bool := bool_decide (ToLower a = ToLower b).
Definition Issuer_GetCertificate (domain : bytes) (iss : Issuer) : option tlsCertificate :=
  if EqualFold domain (o_Domain (opts iss)) then tlsCert iss else None.

(** ** The worker *)
Definition Minute : Z := 60 * Second.
Definition Hour : Z := 3600 * Second.
Definition minInterval : Z := Minute.
Definition maxInterval : Z := Hour.
(** The next delay after a failure. *)
Definition nextInterval (interval : Z) : Z :=
  let interval := i64 (interval * 4) in
  if maxInterval <? interval then maxInterval else interval.

(** Where the worker is: about to run a task with the given delay after a failure,
    waiting to retry it, sleeping until the next day, or gone. *)
Inductive wpc := Issuing (interval : Z) | IssueWaiting (interval : Z) | Renewing (interval : Z) | RenewWaiting (interval : Z) | Sleeping | Stopped.

Definition worker0 (iss : Issuer) : wpc := match leCert iss with None => Issuing minInterval | Some _ => Renewing minInterval end.

(** One step: run the task at time [now], see a timer fire, or see the context done.
    [None]: the step is not possible here, or the process panics. *)
Inductive wevent := RunTask (now : time) | Timer | CtxDone.
Definition worker_step (e : wevent) (pc : wpc) (s : Issuer * W) : option (wpc * (Issuer * W)) :=
  match e, pc with
  | RunTask now, Issuing i =>
      match issueAndSaveCertificate s with
      | (Ok _, s) => Some (Renewing minInterval, s)
      | (Err _, s) => Some (IssueWaiting i, s)
      | (Panic, _) => None
      end
  | RunTask now, Renewing i =>
      match renewOnce now s with
      | (Ok _, s) => Some (Sleeping, s)
      | (Err _, s) => Some (RenewWaiting i, s)
      | (Panic, _) => None
      end
  | Timer, IssueWaiting i => Some (Issuing (nextInterval i), s)
  | Timer, RenewWaiting i => Some (Renewing (nextInterval i), s)
  | Timer, Sleeping => Some (Renewing minInterval, s)       (* after 24 hours *)
  | CtxDone, IssueWaiting _ => if is_cancelled s.1 then Some (Renewing minInterval, s) else None
  | CtxDone, RenewWaiting _ => if is_cancelled s.1 then Some (Sleeping, s) else None
  | CtxDone, Sleeping => if is_cancelled s.1 then Some (Stopped, s) else None
  | _, _ => None
  end.

Definition Issuer_Shutdown (iss : Issuer) : Issuer := mkIssuer true (opts iss) (cli iss) (leCert iss) (tlsCert iss).

(** The issuer and where its worker starts. *)
Definition NewIssuer (o : IssuerOpts) (now : time) (w : W) : go goerror (Issuer * wpc) * W :=
  if negb (o_Router o) then (Err (OtherErr (txt "no http router is given") NilError), w)
  else match StatIsDir (o_CacheDir o) w with
  | inr err => (Err err, w)
  | inl isDir =>
      if negb isDir then (Err (OtherErr (o_CacheDir o ++ txt ": not a directory") NilError), w)
      else
        let o := if zlen (o_Email o) =? 0 then mkIssuerOpts (o_Domain o) (o_CacheDir o) (txt "noreply@dummy.org") (o_Router o) else o in
        let issuer := mkIssuer false o None None None in
        let run := r ← attempt loadCachedCertificate; match r with inl _ => mret tt | inr _ => assignSelfSigned now end in
        match run (issuer, w) with
        | (Ok _, (iss, w)) => (Ok (iss, worker0 iss), w)
        | (Err err, (_, w)) => (Err err, w)
        | (Panic, (_, w)) => (Panic, w)
        end
  end.
End issuer.

(** ** ssl_challenge.go: the http-01 challenge *)
Class ChallengeRouter (R : Type) := {
  HandleFunc : bytes → option (Request → list action) → R → R;
  route : bytes → R → option (option (Request → list action));
  route_HandleFunc p h r : route p (HandleFunc p h r) = Some h }.

Section challenge.
Context {R : Type} `{!ChallengeRouter R} (ChallengePath : bytes → bytes).

Definition challengeHandler (domain keyAuth : bytes) (r : Request) : list action :=
  if bool_decide (Method r = txt "GET") && hasPrefix domain (Host r) then
    [SetHeader (txt "Content-Type") (txt "text/plain"); Write keyAuth]
  else [Write (txt "TEST")].
Definition Present (domain token keyAuth : bytes) (r : R) : R :=
  HandleFunc (ChallengePath token) (Some (challengeHandler domain keyAuth)) r.
Definition CleanUp (domain token keyAuth : bytes) (r : R) : R := HandleFunc (ChallengePath token) None r.
End challenge.
