(* ===== verification/IssuerProps.v ===== *)
(** * xhttp: the certificate that is served, its renewal, and what survives a restart *)
From S2P Require Import Prelude Text Effects XError XErrorProps HTTP HTTPProps Issuer.

Local Open Scope Z_scope.

Section props.
Context {env : Env} {W : Type} `{!CA W}.
Implicit Types (w : W) (s : Issuer * W) (o : IssuerOpts).

(** The certificate that a certificate file and a key file stand for. *)
Definition parsed (cert key : bytes) : option tlsCertificate :=
  match X509KeyPair cert key with
  | inl ((leaf :: rest) as chain, k) => match ParseCertificate leaf with inl na => Some (mkTls chain k (Some na)) | inr _ => None end
  | _ => None
  end.

Lemma sslError_not_ok {A} msg err s a s' : sslError (A := A) msg err s ≠ (Ok a, s').
Proof. unfold sslError, lift, throw. by destruct (WInternalError _ _ _ _).2. Qed.

Lemma parseX509_ok cert key s t s' : parseX509 cert key s = (Ok t, s') ↔ s' = s ∧ parsed cert key = Some t.
Proof.
  unfold parseX509, parsed. destruct (X509KeyPair cert key) as [[[|leaf rest] k]|err]; cbn [pureCall]; progsimp.
  - split; [done|]. by intros [_ [=]].
  - destruct (ParseCertificate leaf) as [na|err]; cbn [pureCall]; progsimp.
    + split; [by intros [= <- <-]|]. by intros [-> [= <-]].
    + split; [|by intros [_ [=]]]. destruct (sslError _ err s) as [[]] eqn:E; try done. by apply sslError_not_ok in E.
  - split; [|by intros [_ [=]]]. destruct (sslError _ err s) as [[]] eqn:E; try done. by apply sslError_not_ok in E.
Qed.

(** ** Invariants of the issuer's fields *)
Lemma keeps_sslError {A} (I : Issuer * W → Prop) msg err : keeps I (sslError (A := A) msg err).
Proof. by intros s. Qed.
Lemma keeps_pureCall {A} (I : Issuer * W → Prop) (r : A + goerror) (onErr : goerror → itask A) :
  (∀ e, keeps I (onErr e)) → keeps I (pureCall r onErr).
Proof. intros He. destruct r; [apply keeps_ret|apply He]. Qed.

Lemma parse_state cert key s : (parseX509 cert key s).2 = s.
Proof.
  assert (keeps (λ s', s' = s) (parseX509 cert key)) as H; [|by apply H]. unfold parseX509.
  apply keeps_bind; [apply keeps_pureCall; intros; apply keeps_sslError|]. intros [[|leaf rest] k]; [apply keeps_lift|].
  apply keeps_bind; [apply keeps_pureCall; intros; apply keeps_sslError|]. intros na. apply keeps_ret.
Qed.

Lemma keeps_parse {B} (I : Issuer * W → Prop) cert key (f : tlsCertificate → itask B) :
  (∀ t, parsed cert key = Some t → keeps I (f t)) → keeps I (parseX509 cert key ≫= f).
Proof.
  intros Hf s Hs. unfold mbind, prog_bind. pose proof (parse_state cert key s) as Hst.
  destruct (parseX509 cert key s) as [[t|e|] s'] eqn:E; cbn [snd] in *; [|by subst..].
  apply parseX509_ok in E as [-> Ht]. by apply Hf.
Qed.

Section keeps.
Context (J : Issuer → Prop).
Abbreviation I := (λ s : Issuer * W, J s.1).
Lemma keeps_callW {A} f (onErr : goerror → itask A) : (∀ e, keeps I (onErr e)) → keeps I (callW f onErr).
Proof. intros He s Hs. unfold callW. destruct (f s.2) as [[a|e] w]; [done|]. by apply He. Qed.
Lemma keeps_callErr f (onErr : goerror → itask unit) : (∀ e, keeps I (onErr e)) → keeps I (callErr f onErr).
Proof. intros He s Hs. unfold callErr. destruct (f s.2) as [e w]. destruct (isNil e); [done|]. by apply He. Qed.
Lemma keeps_callIgnore {A} (f : W → (A + goerror) * W) : keeps I (callIgnore f).
Proof. intros s Hs. unfold callIgnore. by destruct (f s.2) as [[a|e] w]. Qed.
End keeps.

Ltac ikeeps := repeat first [apply keeps_sslError | apply keeps_callW; intros ? | apply keeps_callErr; intros ? | apply keeps_callIgnore
  | apply keeps_pureCall; intros ? | apply keeps_ret | apply keeps_gets | apply keeps_lift | apply keeps_fail | apply keeps_attempt | apply keeps_if
  | apply keeps_parse; intros ? ? | apply keeps_bind; [|intros ?] | case_match].

(** The served certificate is there, and it is the recorded one if there is one. *)
Definition issuer_ok o (iss : Issuer) : Prop :=
  opts iss = o ∧ is_Some (tlsCert iss) ∧ (∀ le, leCert iss = Some le → tlsCert iss = parsed (Cert le) (Key le)).

Lemma keeps_setCert o le t : parsed (Cert le) (Key le) = Some t → keeps (λ s, issuer_ok o s.1) (setCert le t).
Proof.
  intros Ht. apply keeps_modify. intros [iss w] (H1 & H2 & H3). split; [done|]. split; [by eexists|].
  cbn. intros le' [= <-]. done.
Qed.
Lemma keeps_setCli o c : keeps (λ s, issuer_ok o s.1) (setCli c).
Proof. by apply keeps_modify. Qed.

Lemma keeps_issue o : keeps (λ s, issuer_ok o s.1) issueAndSaveCertificate.
Proof.
  unfold issueAndSaveCertificate. ikeeps; first [by apply keeps_setCert|apply keeps_setCli].
Qed.
Lemma keeps_renew o now : keeps (λ s, issuer_ok o s.1) (renewOnce now).
Proof.
  unfold renewOnce. ikeeps; first [by apply keeps_setCert|apply keeps_setCli].
Qed.

(** ** The worker's states *)

(** Where an issuer and its worker can be: after its creation, after a step of the
    worker, after [Shutdown], after the world has changed around it. *)
Inductive reachable : IssuerOpts → wpc → Issuer → W → Prop :=
  | reach_new o now w iss pc w' : NewIssuer o now w = (Ok (iss, pc), w') → reachable (opts iss) pc iss w'
  | reach_step o pc iss w e pc' iss' w' : reachable o pc iss w → worker_step e pc (iss, w) = Some (pc', (iss', w')) → reachable o pc' iss' w'
  | reach_shutdown o pc iss w : reachable o pc iss w → reachable o pc (Issuer_Shutdown iss) w
  | reach_world o pc iss w w' : reachable o pc iss w → reachable o pc iss w'.

(** After [loadCachedCertificate] failed nothing is set; after it succeeded the certificate is. *)
Lemma load_cases (iss : Issuer) w : leCert iss = None →
  match loadCachedCertificate (iss, w) with
  | (Ok _, s') => issuer_ok (opts iss) s'.1 ∧ is_Some (leCert s'.1) ∧ s'.2 = w
  | (_, s') => s' = (iss, w)
  end.
Proof.
  intros Hle. unfold loadCachedCertificate. progsimp. unfold pureCall. progsimp.
  destruct (ReadFile _ w) as [bs|e]; [|done]. destruct (UnmarshalCert bs) as [le|e]; [|done].
  destruct (parseX509 (Cert le) (Key le) (iss, w)) as [[t|e|] s'] eqn:E;
    pose proof (parse_state (Cert le) (Key le) (iss, w)) as Hs; rewrite E in Hs; cbn [snd] in Hs; subst s'; [|done..].
  apply parseX509_ok in E as [_ Ht]. unfold setCert. progsimp. cbn. split; [|by eauto].
  split; [done|]. split; [by eexists|]. by intros le' [= <-].
Qed.

Lemma selfsigned_ok now (iss : Issuer) w r s' : leCert iss = None → assignSelfSigned now (iss, w) = (Ok r, s') → issuer_ok (opts iss) s'.1.
Proof.
  intros Hle Hr.
  pose (J := λ i : Issuer, opts i = opts iss ∧ leCert i = None).
  assert (keeps (λ s : Issuer * W, J s.1) (assignSelfSigned now)) as Hk by (unfold assignSelfSigned; ikeeps; by apply keeps_modify).
  specialize (Hk (iss, w) (conj eq_refl Hle)). rewrite Hr in Hk. destruct Hk as [Ho Hn]. cbn [snd] in *.
  split; [done|]. split; [|by rewrite Hn].
  unfold assignSelfSigned in Hr. repeat (apply bind_ok in Hr as (? & ? & _ & Hr)). destruct x13 as [chain k].
  unfold setTls, modify in Hr. injection Hr as _ <-. cbn. by eexists.
Qed.

Lemma reachable_ok o pc iss w : reachable o pc iss w → issuer_ok o iss.
Proof.
  induction 1 as [o now w iss pc w' Hn|o pc iss w e pc' iss' w' _ IH Hs|o pc iss w _ IH|]; [| |exact IH|done].
  - unfold NewIssuer in Hn. destruct (o_Router o); cbn [negb] in Hn; [|done]. destruct (StatIsDir (o_CacheDir o) w) as [[]|]; cbn [negb] in Hn; try done.
    set (o' := if zlen (o_Email o) =? 0 then _ else _) in *. revert Hn. progsimp.
    pose proof (load_cases (mkIssuer false o' None None None) w eq_refl) as Hl.
    destruct (loadCachedCertificate (mkIssuer false o' None None None, w)) as [[r|e|] s1]; [| |by destruct s1].
    + destruct s1 as [iss1 w1]. intros [= <- <- <-]. destruct Hl as (Hok & _). cbn [fst] in Hok. destruct Hok as (H1 & H2 & H3). by rewrite H1.
    + subst s1. destruct (assignSelfSigned now (mkIssuer false o' None None None, w)) as [[r|e'|] [iss1 w1]] eqn:E; try done.
      intros [= <- <- <-]. apply selfsigned_ok in E; [|done]. cbn [fst opts] in E. destruct E as (H1 & H2 & H3). by rewrite H1.
  - destruct e as [now| |]; destruct pc; cbn [worker_step] in Hs; try done; try (by injection Hs as _ <- _); try (destruct (is_cancelled _); [by injection Hs as _ <- _|done]).
    + pose proof (keeps_issue o (iss, w) IH) as Hk. destruct (issueAndSaveCertificate (iss, w)) as [[]]; try done; by injection Hs as _ ->.
    + pose proof (keeps_renew o now (iss, w) IH) as Hk. destruct (renewOnce now (iss, w)) as [[]]; try done; by injection Hs as _ ->.
Qed.

(** C18: an issuer always has a certificate for its domain, also while nothing was issued
    yet, while issuing or renewing fails, and after the shutdown; in whatever case the
    name is written.  If it has recorded an issued certificate, that one is served. *)
Theorem certificate_served o pc iss w domain :
  reachable o pc iss w → ToLower domain = ToLower (o_Domain o) →
  ∃ t, Issuer_GetCertificate domain iss = Some t ∧ ∀ le, leCert iss = Some le → parsed (Cert le) (Key le) = Some t.
Proof.
  intros (Ho & [t Ht] & Hp)%reachable_ok Hd. exists t. unfold Issuer_GetCertificate, EqualFold. rewrite Ho, Hd, bool_decide_eq_true_2 by done.
  split; [done|]. intros le Hle. rewrite <-Ht. symmetry. by apply Hp.
Qed.

(** ** Retries *)
Lemma nextInterval_values : ∀ i, i ∈ [Minute; 4 * Minute; 16 * Minute; Hour] →
  nextInterval i ∈ [Minute; 4 * Minute; 16 * Minute; Hour] ∧ i ≤ nextInterval i ∧ (16 * Minute ≤ i → nextInterval i = Hour).
Proof.
  intros i. rewrite !elem_of_cons. intros [->|[->|[->|[->|H]]]]; [..|by apply not_elem_of_nil in H];
    vm_compute; (split; [set_solver|]); (split; [discriminate|]); intros H; try done; by destruct H.
Qed.

Definition pc_interval (pc : wpc) : option Z :=
  match pc with Issuing i | IssueWaiting i | Renewing i | RenewWaiting i => Some i | _ => None end.

(** A worker that retries a failing task waits 1, 4, 16 and then always 60 minutes: no
    other delay occurs in any reachable state, and five attempts in a row are spread
    over more than an hour, below the limit of five failures per hour. *)
Theorem backoff o pc iss w i :
  reachable o pc iss w → pc_interval pc = Some i →
  i ∈ [Minute; 4 * Minute; 16 * Minute; Hour] ∧
  (let d k := Nat.iter k nextInterval i in Hour < d 0%nat + d 1%nat + d 2%nat + d 3%nat).
Proof.
  intros Hr Hi. assert (i ∈ [Minute; 4 * Minute; 16 * Minute; Hour]) as Hin.
  { revert i Hi. induction Hr as [o now w iss pc w' Hn|o pc iss w e pc' iss' w' _ IH Hs|o pc iss w _ IH|]; intros i Hi; [| |by apply IH|by eauto].
    - assert (pc = worker0 iss) as ->.
      { unfold NewIssuer in Hn. repeat (case_match; try done); by injection Hn as <- <- <-. }
      unfold worker0 in Hi. destruct (leCert iss); injection Hi as <-; by left.
    - assert (∀ i, pc_interval pc = Some i → nextInterval i ∈ [Minute; 4 * Minute; 16 * Minute; Hour]) as Hnext
        by (intros j Hj; by apply nextInterval_values, IH).
      assert (minInterval ∈ [Minute; 4 * Minute; 16 * Minute; Hour]) as Hmin by (by left).
      destruct e as [now| |]; destruct pc as [j|j|j|j| |]; cbn [worker_step] in Hs; try done.
      + destruct (issueAndSaveCertificate (iss, w)) as [[]]; try done; injection Hs as <- _; injection Hi as <-; [done|by apply IH].
      + destruct (renewOnce now (iss, w)) as [[]]; try done; injection Hs as <- _; [done|]. injection Hi as <-. by apply IH.
      + injection Hs as <- _ _. injection Hi as <-. by apply Hnext.
      + injection Hs as <- _ _. injection Hi as <-. by apply Hnext.
      + injection Hs as <- _ _. injection Hi as <-. done.
      + destruct (is_cancelled _); [|done]. injection Hs as <- _ _. injection Hi as <-. done.
      + destruct (is_cancelled _); [|done]. injection Hs as <- _ _. done.
      + destruct (is_cancelled _); [|done]. injection Hs as <- _ _. done. }
  split; [done|]. rewrite !elem_of_cons in Hin. destruct Hin as [->|[->|[->|[->|H]]]]; [vm_compute; reflexivity..|by apply not_elem_of_nil in H].
Qed.

(** ** Renewal and restart *)

(** Nothing is done while the certificate is valid for more than thirty days. *)
Theorem renew_not_due now s le t na :
  leCert s.1 = Some le → tlsCert s.1 = Some t → LeafNotAfter t = Some na → t30days < Sub na now → renewOnce now s = (Ok tt, s).
Proof.
  intros H1 H2 H3 H4. unfold renewOnce. progsimp. rewrite H1, H2, H3, (proj2 (Z.ltb_lt _ _)) by done. done.
Qed.

(** What a successful [writeCert] left on disk. *)
Lemma writeCert_ok s s' : writeCert s = (Ok tt, s') →
  ∃ le bs, leCert s.1 = Some le ∧ MarshalCert le = inl bs ∧ s'.1 = s.1 ∧
    WriteFile (cachedCertPath (opts s.1)) bs s.2 = (NilError, s'.2).
Proof.
  unfold writeCert. progsimp. destruct (leCert s.1) as [le|]; [|done]. destruct (MarshalCert le) as [bs|e] eqn:Em; cbn [pureCall].
  - progsimp. unfold callErr. destruct (WriteFile _ bs s.2) as [e w] eqn:Ew. destruct (isNil e) eqn:En.
    + intros [= <-]. exists le, bs. destruct e; done.
    + destruct (sslError _ e _) as [[]] eqn:E; try done. by apply sslError_not_ok in E.
  - progsimp. destruct (sslError _ e s) as [[]] eqn:E; try done. by apply sslError_not_ok in E.
Qed.

(** A certificate that is recorded, parsed and saved is what a new issuer starts with. *)
Section restart.
Context (fs_law : ∀ p bs w w', WriteFile p bs w = (NilError, w') → ReadFile p w' = inl bs).
Context (json_law : ∀ c bs, MarshalCert c = inl bs → UnmarshalCert bs = inl c).

Lemma reload s s' o now :
  writeCert s = (Ok tt, s') → (∀ le, leCert s.1 = Some le → tlsCert s.1 = parsed (Cert le) (Key le)) → is_Some (tlsCert s.1) →
  cachedCertPath o = cachedCertPath (opts s.1) → o_Router o = true → StatIsDir (o_CacheDir o) s'.2 = inl true →
  ∃ iss, NewIssuer o now s'.2 = (Ok (iss, Renewing minInterval), s'.2) ∧ leCert iss = leCert s.1 ∧ tlsCert iss = tlsCert s.1.
Proof.
  intros (le & bs & Hle & Hm & Hs' & Hw)%writeCert_ok Hp [t Ht] Hpath Hrt Hdir.
  specialize (Hp le Hle). rewrite Ht in Hp. symmetry in Hp. apply fs_law in Hw. apply json_law in Hm.
  unfold NewIssuer. rewrite Hrt, Hdir. cbn [negb]. set (o' := if zlen (o_Email o) =? 0 then _ else _).
  assert (cachedCertPath o' = cachedCertPath (opts s.1)) as Hpath' by (unfold o'; by destruct (zlen (o_Email o) =? 0)).
  set (iss0 := mkIssuer false o' None None None).
  assert (loadCachedCertificate (iss0, s'.2) = (Ok tt, (mkIssuer false o' None (Some le) (Some t), s'.2))) as Hl.
  { unfold loadCachedCertificate. progsimp. cbn [opts iss0]. rewrite Hpath', Hw. cbn [pureCall]. progsimp. rewrite Hm. cbn [pureCall]. progsimp.
    pose proof (proj2 (parseX509_ok (Cert le) (Key le) (iss0, s'.2) t _) (conj eq_refl Hp)) as ->. done. }
  progsimp. rewrite Hl. eexists. split; [reflexivity|]. cbn. by rewrite Hle, Ht.
Qed.

(** What was issued survives a restart: after a certificate was issued and saved, a
    new issuer of the same domain and directory starts with the same recorded and
    served certificate, and goes on with renewals instead of issuing again. *)
Theorem issued_survives_restart s s' o now :
  issueAndSaveCertificate s = (Ok tt, s') →
  cachedCertPath o = cachedCertPath (opts s'.1) → o_Router o = true → StatIsDir (o_CacheDir o) s'.2 = inl true →
  ∃ iss le, NewIssuer o now s'.2 = (Ok (iss, Renewing minInterval), s'.2) ∧ leCert iss = Some le ∧ leCert s'.1 = Some le ∧
    tlsCert iss = tlsCert s'.1 ∧ Domain le = o_Domain (opts s'.1).
Proof.
  intros Hi Hpath Hr Hd. unfold issueAndSaveCertificate in Hi.
  apply bind_ok in Hi as (c & s1 & _ & Hi). apply bind_ok in Hi as (o1 & s2 & Ho1 & Hi).
  apply bind_ok in Hi as (res & s3 & Hob & Hi). apply bind_ok in Hi as (t & s4 & Ht & Hi).
  unfold gets in Ho1. injection Ho1 as <- <-.
  apply parseX509_ok in Ht as [-> Ht]. apply bind_ok in Hi as ([] & s5 & Hset & Hw).
  unfold setCert, modify in Hset. injection Hset as <-.
  pose proof (writeCert_ok _ _ Hw) as (le & bs & Hle & _ & Hs' & _). cbn [fst leCert] in Hle. injection Hle as <-.
  assert (opts s3.1 = opts s1.1) as Hopts.
  { unfold callW in Hob. destruct (Obtain c _ s1.2) as [[a|e] w1]; [by injection Hob as _ <-|]. by apply sslError_not_ok in Hob. }
  rewrite Hs' in *. cbn [fst opts leCert tlsCert] in *.
  destruct (reload _ s' o now Hw) as (iss & H1 & H2 & H3); [by intros le [= <-]|by eexists|done|done|done|].
  cbn [fst leCert tlsCert] in *. eexists iss, _. rewrite Hopts. done.
Qed.
End restart.
End props.

(** The automation for invariants of the issuer, for other files. *)
Ltac ikeeps := repeat first [apply keeps_sslError | apply keeps_callW; intros ? | apply keeps_callErr; intros ? | apply keeps_callIgnore
  | apply keeps_pureCall; intros ? | apply keeps_ret | apply keeps_gets | apply keeps_lift | apply keeps_fail | apply keeps_attempt | apply keeps_if
  | apply keeps_parse; intros ? ? | apply keeps_bind; [|intros ?] | case_match].

(** ** The challenge *)
Section challenge.
Context {R : Type} `{!ChallengeRouter R} (ChallengePath : bytes → bytes).

(** A presented challenge is answered with the key authorization on requests for the
    domain; after the clean-up the route has a nil handler. *)
Theorem challenge_served domain token keyAuth (rt : R) r :
  Method r = txt "GET" → hasPrefix domain (Host r) = true →
  ∃ h, route (ChallengePath token) (Present ChallengePath domain token keyAuth rt) = Some (Some h) ∧
    respond (h r) = Some (200, {[ txt "Content-Type" := txt "text/plain" ]}, keyAuth) ∧
    route (ChallengePath token) (CleanUp ChallengePath domain token keyAuth (Present ChallengePath domain token keyAuth rt)) = Some None.
Proof.
  intros Hm Hh. unfold Present, CleanUp. eexists. split; [apply route_HandleFunc|]. split; [|apply route_HandleFunc].
  unfold challengeHandler. rewrite Hm, Hh, bool_decide_eq_true_2 by done. done.
Qed.
End challenge.

(** ** Concrete runs *)
#[local] Existing Instance XErrorProps.test_env.

(** Files, whether the disk takes writes, and the number of certificates issued so far;
    the n-th certificate is valid for n times ninety days. *)
Record tworld := mkW { disk : gmap bytes bytes; writable : bool; issued : Z }.
Definition day : Z := 24 * 3600 * Second.
Definition pack (c : leCertInfo) : bytes := [Z.pos (encode (Domain c, Cert c, Key c, CertURL c))].
Definition unpack (b : bytes) : leCertInfo + goerror :=
  match b with
  | [Z.pos p] => match decode p with Some (d, c, k, u) => inl (mkLeCert d c k u) | None => inr (OtherErr (txt "json") NilError) end
  | _ => inr (OtherErr (txt "json") NilError)
  end.
#[global] Instance test_ca : CA tworld := {|
  client := unit; privkey := unit; registrationResource := unit;
  ReadFile p w := match disk w !! p with Some b => inl b | None => inr (OtherErr (txt "no file") NilError) end;
  WriteFile p b w := if writable w then (NilError, mkW (<[p := b]> (disk w)) true (issued w)) else (OtherErr (txt "disk full") NilError, w);
  StatIsDir _ _ := inl true;
  PathJoin a b := a ++ txt "/" ++ b;
  MarshalCert c := inl (pack c);
  UnmarshalCert := unpack;
  NewClient _ w := (inl tt, w);
  SetHTTP01Provider _ w := (NilError, w);
  Register _ w := (inl tt, w);
  Obtain _ ds w := (inl (mkResource [] [] [] [issued w + 1]), mkW (disk w) (writable w) (issued w + 1));
  Renew _ _ w := (inl (mkResource [] [] [] [issued w + 1]), mkW (disk w) (writable w) (issued w + 1));
  GenerateKey w := (inl tt, w);
  RandInt _ w := (inl 7, w);
  CreateCertificate _ _ w := (inl [0], w);
  MarshalPKCS8PrivateKey _ := inl [];
  PemEncode _ b := inl b;
  X509KeyPair c k := inl ([c], k);
  ParseCertificate c := inl (default 0 (head c) * 90 * day) |}.

Definition opts1 : IssuerOpts := mkIssuerOpts (txt "a.org") (txt "/c") (txt "x@y") true.
Definition w0 : tworld := mkW ∅ true 0.
Definition path1 : bytes := txt "/c/a.org.json".

(** The issuer on an empty disk, and after its first two tasks. *)
Definition start : Issuer := mkIssuer false opts1 None None (Some (mkTls [[0]] [] None)).
Definition le1 : leCertInfo := mkLeCert (txt "a.org") [1] [] [].
Definition after_issue : Issuer * tworld :=
  (mkIssuer false opts1 (Some tt) (Some le1) (Some (mkTls [[1]] [] (Some (90 * day)))), mkW {[ path1 := pack le1 ]} true 1).

Lemma start_new : NewIssuer opts1 0 w0 = (Ok (start, Issuing minInterval), w0).
Proof. vm_compute. reflexivity. Qed.
Lemma start_issue : issueAndSaveCertificate (start, w0) = (Ok tt, after_issue).
Proof. vm_compute. reflexivity. Qed.
Lemma reach_start : reachable opts1 (Issuing minInterval) start w0.
Proof. exact (reach_new opts1 0 w0 start _ w0 start_new). Qed.

Lemma certificate_served_witness :
  ∃ t, Issuer_GetCertificate (txt "A.Org") start = Some t ∧ ∀ le, leCert start = Some le → parsed (Cert le) (Key le) = Some t.
Proof. apply (certificate_served opts1 (Issuing minInterval) start w0 (txt "A.Org") reach_start). reflexivity. Defined.

Lemma backoff_witness : Minute ∈ [Minute; 4 * Minute; 16 * Minute; Hour].
Proof. apply (backoff opts1 (Issuing minInterval) start w0 Minute reach_start). reflexivity. Defined.

Lemma issued_survives_restart_witness :
  ∃ iss le, NewIssuer opts1 5 after_issue.2 = (Ok (iss, Renewing minInterval), after_issue.2) ∧ leCert iss = Some le ∧ tlsCert iss = tlsCert after_issue.1.
Proof.
  destruct (issued_survives_restart (W := tworld)) with (s := (start, w0)) (s' := after_issue) (o := opts1) (now := 5) as (iss & le & H1 & H2 & _ & H3 & _).
  - intros p bs w w' H. unfold WriteFile, ReadFile, test_ca in *. destruct (writable w); [|discriminate].
    injection H as <-. cbn [disk]. by rewrite lookup_insert_eq.
  - intros [d c k u] bs H. injection H as <-. unfold UnmarshalCert, test_ca, unpack, pack. by rewrite decode_encode.
  - exact start_issue.
  - reflexivity.
  - reflexivity.
  - reflexivity.
  - exists iss, le. split; [exact H1|]. split; [exact H2|exact H3].
Defined.

(** The certificate is due, the disk is full: the renewal succeeds, saving it fails, and
    the retry finds a certificate that is not due, so the file keeps the old one. *)
Example renew_save_not_retried :
  let s := (after_issue.1, mkW (disk after_issue.2) false 1) in
  let now := 70 * day in
  match worker_step (RunTask now) (Renewing minInterval) s with
  | Some (RenewWaiting i, s1) =>
      match worker_step Timer (RenewWaiting i) (s1.1, mkW (disk s1.2) true (issued s1.2)) with
      | Some (pc2, s2) =>
          match worker_step (RunTask (now + i)) pc2 s2 with
          | Some (pc3, s3) => pc3 = Sleeping ∧ Cert <$> leCert s3.1 = Some [2] ∧ disk s3.2 = {[ path1 := pack le1 ]}
          | None => False
          end
      | None => False
      end
  | _ => False
  end.
Proof. vm_compute. split; [reflexivity|]. split; reflexivity. Qed.

(** A certificate that was issued but could not be saved is issued again. *)
Example issue_save_reissues :
  match worker_step (RunTask 0) (Issuing minInterval) (start, mkW ∅ false 0) with
  | Some (pc1, s1) =>
      match worker_step Timer pc1 s1 with
      | Some (pc2, s2) => (λ x, issued x.2.2) <$> worker_step (RunTask 60) pc2 s2 = Some 2
      | None => False
      end
  | None => False
  end.
Proof. vm_compute. reflexivity. Qed.
