(* ===== verification/CertMaster.v ===== *)
(** * xhttp: certificates of several domains

    Models [src/xhttp/ssl_foreign.go] (a directory of certificate files that is read again
    every minute) and [src/xhttp/tls_master.go] (the issuers of the configured domains and
    the watcher of the foreign ones behind one [GetCertificate]). *)
From S2P Require Import Prelude Text Effects XError HTTP Issuer.

Local Open Scope Z_scope.

(** ** ssl_foreign.go *)

(** The channel [shutdown] is never made: it stays nil. *)
Record CertWatcher := mkWatcher { cw_path : bytes; certs : gmap bytes (option tlsCertificate); shutdown_chan : option unit }.

(** An entry of a directory: its name and whether it is a regular file. *)
Record dirEntry := mkEntry { e_name : bytes; e_regular : bool }.

Section watcher.
Context {env : Env} {W : Type} `{!CA W}.
(** [os.ReadDir] in the order of the names. *)
Context (ReadDir : bytes → W → list dirEntry + goerror).

Definition cw_list (i : CertWatcher) (w : W) : list bytes + goerror :=
  match ReadDir (cw_path i) w with
  | inr err => inr err
  | inl entries =>
      inl ((λ e, PathJoin (cw_path i) (e_name e)) <$>
           filter (λ e, e_regular e && hasSuffix (txt ".json") (e_name e) = true) entries)
  end.

(** [parseX509] without the issuer it does not use. *)
Definition parseFile (cert key : bytes) : go goerror tlsCertificate :=
  match X509KeyPair cert key with
  | inr err => throw (WInternalError (txt "ssl") (txt "failed to parse x509 key pair") err [])
  | inl (chain, k) =>
      match chain with
      | [] => Panic
      | leaf :: _ =>
          match ParseCertificate leaf with
          | inr err => throw (WInternalError (txt "ssl") (txt "failed to parse the leaf") err [])
          | inl notAfter => Ok (mkTls chain k (Some notAfter))
          end
      end
  end.

(** The name and the certificate; an error comes with the empty name and nil. *)
Definition cw_read (path : bytes) (w : W) : go goerror (bytes * tlsCertificate) :=
  match ReadFile path w with
  | inr err => Err err
  | inl bs =>
      match UnmarshalCert bs with
      | inr err => Err err
      | inl le => t ← parseFile (Cert le) (Key le); mret (Domain le, t)
      end
  end.

(** The loop over the files; [None] is a panic. *)
Fixpoint syncLoop (paths : list bytes) (acc : gmap bytes (option tlsCertificate)) (w : W) : option (gmap bytes (option tlsCertificate)) :=
  match paths with
  | [] => Some acc
  | certPath :: paths =>
      match cw_read certPath w with
      | Ok (domain, cert) => syncLoop paths (<[domain := Some cert]> acc) w
      | Err _ => syncLoop paths (<[[] := None]> acc) w            (* logged, and stored *)
      | Panic => None
      end
  end.

Definition sync (i : CertWatcher) (w : W) : option CertWatcher :=
  if bool_decide (cw_path i = []) then Some i
  else match cw_list i w with
  | inr _ => Some i
  | inl paths => new ← syncLoop paths ∅ w; Some (mkWatcher (cw_path i) new (shutdown_chan i))
  end.

Definition NewCertWatcher (path : bytes) (w : W) : option CertWatcher := sync (mkWatcher path ∅ None) w.

(** The certificate can be nil also without an error. *)
Definition CertWatcher_GetCertificate (i : CertWatcher) (domain : bytes) : option tlsCertificate + goerror :=
  match certs i !! domain with
  | Some cert => inl cert
  | None =>
      if bool_decide (size (certs i) = 0%nat) then inr (OtherErr (txt "certificates is not loaded yet") NilError)
      else inr (OtherErr (txt "unknown domain name") NilError)
  end.

(** One round of [run]: read, then wait for a minute or for the channel, which is nil
    and never ready. *)
Definition run_round (i : CertWatcher) (w : W) : option CertWatcher := sync i w.
(** [close] of a nil channel panics. *)
Definition CertWatcher_Shutdown (i : CertWatcher) : go goerror CertWatcher :=
  match shutdown_chan i with None => Panic | Some _ => Ok i end.
End watcher.

(** ** tls_master.go *)
Section master.
Context {env : Env} {W : Type} `{!CA W}.
Context (ReadDir : bytes → W → list dirEntry + goerror).

Record CertMasterOpts := mkMasterOpts {
  m_Email : bytes; m_CacheDir : bytes; m_Router : bool; m_Domains : list bytes; m_ForeignPath : bytes }.
Record CertMaster := mkMaster { stopped : bool; issuers : list (Issuer (W := W)); foreign : option CertWatcher }.

Definition CertMaster_Shutdown (m : CertMaster) : CertMaster := mkMaster true (Issuer_Shutdown <$> issuers m) (foreign m).
Definition CertMaster_Running (m : CertMaster) : bool := negb (stopped m).

(** The loop over the domains.  On an error the master so far is shut down; it is the
    second component of the result, since its goroutines still exist. *)
Fixpoint addDomains (o : CertMasterOpts) (now : time) (ds : list bytes) (m : CertMaster) (w : W) : go goerror unit * CertMaster * W :=
  match ds with
  | [] => (Ok tt, m, w)
  | d :: ds =>
      let '(r, w) := NewIssuer (mkIssuerOpts d (m_CacheDir o) (m_Email o) (m_Router o)) now w in
      match r with
      | Ok (issuer, _) => addDomains o now ds (mkMaster (stopped m) (issuers m ++ [issuer]) (foreign m)) w
      | Err err => (Err err, CertMaster_Shutdown m, w)
      | Panic => (Panic, m, w)
      end
  end.

Definition NewCertMaster (o : CertMasterOpts) (now : time) (w : W) : go goerror unit * CertMaster * W :=
  let m := mkMaster false [] None in
  if bool_decide (m_ForeignPath o ≠ []) then
    match NewCertWatcher ReadDir (m_ForeignPath o) w with
    | None => (Panic, m, w)
    | Some cw => addDomains o now (m_Domains o) (mkMaster false [] (Some cw)) w
    end
  else addDomains o now (m_Domains o) m w.

Fixpoint firstCertificate (l : list Issuer) (name : bytes) : option tlsCertificate :=
  match l with
  | [] => None
  | i :: l => match Issuer_GetCertificate name i with Some cert => Some cert | None => firstCertificate l name end
  end.

Definition CertMaster_GetCertificate (m : CertMaster) (serverName : bytes) : option tlsCertificate + goerror :=
  match firstCertificate (issuers m) serverName with
  | Some cert => inl (Some cert)
  | None =>
      match foreign m with
      | Some cw => CertWatcher_GetCertificate cw serverName
      | None => inr (OtherErr (txt "unknown domain name") NilError)
      end
  end.
End master.
