(* ===== verification/CertMasterProps.v ===== *)
(** * xhttp: which certificate a connection gets *)
From S2P Require Import Prelude Text Effects XError XErrorProps HTTP Issuer IssuerProps CertMaster.

Local Open Scope Z_scope.

Section props.
Context {env : Env} {W : Type} `{!CA W}.
Context (ReadDir : bytes → W → list dirEntry + goerror).
Implicit Types (w : W).

(** ** The watcher *)

(** The certificate a file holds for a domain. *)
Definition file_cert w (domain path : bytes) : option tlsCertificate :=
  match cw_read path w with Ok (d, t) => if bool_decide (d = domain) then Some t else None | _ => None end.
Definition unreadable w (path : bytes) : Prop := ∃ e, cw_read path w = Err e.

Lemma syncLoop_spec w paths : ∀ acc m, syncLoop paths acc w = Some m →
  (∀ d, d ≠ [] → m !! d = match last (omap (file_cert w d) paths) with Some t => Some (Some t) | None => acc !! d end) ∧
  (Forall (λ p, file_cert w [] p = None) paths → Exists (unreadable w) paths ∨ acc !! [] = Some None → m !! [] = Some None).
Proof.
  induction paths as [|p paths IH]; intros acc m; cbn [syncLoop].
  { intros [= <-]. split; [done|]. intros _ [H%Exists_nil|H]; done. }
  destruct (cw_read p w) as [[d0 t]|e|] eqn:E; [..|done]; intros H; destruct (IH _ _ H) as (H1 & H2).
  - assert (∀ d, file_cert w d p = if bool_decide (d0 = d) then Some t else None) as Hf by (intros d; unfold file_cert; by rewrite E).
    split.
    + intros d Hd. rewrite H1 by done. cbn [omap list_omap]. rewrite Hf. change (list_omap _ _ (file_cert w d) paths) with (omap (file_cert w d) paths).
      case_bool_decide as Hdd; [subst d0; rewrite last_cons, lookup_insert_eq|rewrite lookup_insert_ne by done]; by destruct (last _).
    + intros [Hp Hall]%Forall_cons Hor. rewrite Hf in Hp. case_bool_decide as Hd; [done|]. apply H2; [done|].
      rewrite lookup_insert_ne by done. destruct Hor as [[[x Hx]|?]%Exists_cons|?]; [by rewrite E in Hx|by left|by right].
  - assert (∀ d, file_cert w d p = None) as Hf by (intros d; unfold file_cert; by rewrite E). split.
    + intros d Hd. rewrite H1 by done. cbn [omap list_omap]. rewrite Hf. by rewrite lookup_insert_ne.
    + intros [_ Hall]%Forall_cons _. apply H2; [done|]. right. by rewrite lookup_insert_eq.
Qed.

(** After the directory was read a domain has the certificate of the last readable
    file that names it, and a domain of which no readable file is left has none. *)
Theorem sync_spec i w i' d paths :
  cw_path i ≠ [] → cw_list ReadDir i w = inl paths → sync ReadDir i w = Some i' → d ≠ [] →
  match last (omap (file_cert w d) paths) with
  | Some t => CertWatcher_GetCertificate i' d = inl (Some t)
  | None => ∃ e, CertWatcher_GetCertificate i' d = inr e
  end.
Proof.
  intros Hp Hl. unfold sync. rewrite bool_decide_eq_false_2, Hl by done.
  destruct (syncLoop paths ∅ w) as [m|] eqn:E; cbn [mbind option_bind]; [|done]. intros [= <-] Hd.
  apply syncLoop_spec in E as [H1 _]. unfold CertWatcher_GetCertificate. cbn [certs]. rewrite (H1 d Hd), lookup_empty.
  destruct (last _); [done|]. case_bool_decide; eauto.
Qed.

(** A file that cannot be read leaves an entry for the empty name, without a certificate:
    a connection that names no server then gets neither a certificate nor an error. *)
Theorem unreadable_entry i w i' paths :
  cw_path i ≠ [] → cw_list ReadDir i w = inl paths → sync ReadDir i w = Some i' →
  Exists (unreadable w) paths → Forall (λ p, file_cert w [] p = None) paths →
  CertWatcher_GetCertificate i' [] = inl None.
Proof.
  intros Hp Hl. unfold sync. rewrite bool_decide_eq_false_2, Hl by done.
  destruct (syncLoop paths ∅ w) as [m|] eqn:E; cbn [mbind option_bind]; [|done]. intros [= <-] Hex Hall.
  apply syncLoop_spec in E as [_ H2]. unfold CertWatcher_GetCertificate. cbn [certs]. rewrite H2; [done..|by left].
Qed.

(** No watcher can be shut down: its channel is never made, and closing it panics. *)
Theorem watcher_shutdown_panics path w cw ws : NewCertWatcher ReadDir path w = Some cw →
  CertWatcher_Shutdown cw = Panic ∧
  ∀ cw', foldl (λ c w, c ≫= λ i, run_round ReadDir i w) (Some cw) ws = Some cw' → CertWatcher_Shutdown cw' = Panic.
Proof.
  assert (∀ i w i', sync ReadDir i w = Some i' → shutdown_chan i' = shutdown_chan i) as Hs.
  { intros i w' i'. unfold sync. case_bool_decide; [by intros [= <-]|]. destruct (cw_list ReadDir i w'); [|by intros [= <-]].
    destruct (syncLoop _ _ _); cbn [mbind option_bind]; [|done]. by intros [= <-]. }
  intros H. apply Hs in H. cbn in H. split; [unfold CertWatcher_Shutdown; by rewrite H|].
  assert (∀ l, foldl (λ c w, c ≫= λ i, run_round ReadDir i w) None l = None) as Hnone by (induction l; done).
  revert cw H. induction ws as [|w1 ws IH]; intros cw H cw'; cbn [foldl mbind option_bind].
  - intros [= <-]. unfold CertWatcher_Shutdown. by rewrite H.
  - destruct (run_round ReadDir cw w1) as [cw1|] eqn:E; [|by rewrite Hnone].
    apply (IH cw1). apply Hs in E. by rewrite E.
Qed.

(** ** The master *)

(** Each configured domain has an issuer that came out of [NewIssuer] and its worker. *)
Definition live_issuer (d : bytes) (i : Issuer) : Prop := ∃ o pc w, reachable o pc i w ∧ o_Domain o = d.

Lemma new_domain o now w i pc w' : NewIssuer o now w = (Ok (i, pc), w') → o_Domain (opts i) = o_Domain o.
Proof.
  unfold NewIssuer. destruct (o_Router o); cbn [negb]; [|done]. destruct (StatIsDir (o_CacheDir o) w) as [[]|]; cbn [negb]; try done.
  set (o' := if zlen (o_Email o) =? 0 then _ else _). assert (o_Domain o' = o_Domain o) as Ho by (unfold o'; by destruct (zlen (o_Email o) =? 0)).
  pose (J := λ i : Issuer, opts i = o').
  assert (keeps (λ s : Issuer * W, J s.1) (r ← attempt loadCachedCertificate; match r with inl _ => mret tt | inr _ => assignSelfSigned now end)) as Hk.
  { unfold loadCachedCertificate, assignSelfSigned. ikeeps; by apply keeps_modify. }
  specialize (Hk (mkIssuer false o' None None None, w) eq_refl). cbv beta in Hk.
  match type of Hk with J (fst (snd ?x)) => destruct x as [[[]|?|] [i1 w1]] end; try done.
  intros [= <- <- <-]. cbn [snd fst] in Hk. unfold J in Hk. by rewrite Hk.
Qed.

Lemma addDomains_live o now ds : ∀ done m w m' w',
  Forall2 live_issuer done (issuers m) → addDomains o now ds m w = (Ok tt, m', w') → Forall2 live_issuer (done ++ ds) (issuers m') ∧ stopped m' = stopped m.
Proof.
  induction ds as [|d ds IH]; intros dn m w m' w' Hl; cbn [addDomains]; [intros [= <- <-]; by rewrite app_nil_r|].
  destruct (NewIssuer _ now w) as [[[i pc]|e|] w1] eqn:E; [|done..]. intros H.
  rewrite cons_middle, app_assoc. eapply IH in H; [exact H|]. cbn [issuers]. apply Forall2_app; [done|]. constructor; [|done].
  exists (opts i), pc, w1. split; [by eapply reach_new|]. by apply new_domain in E.
Qed.

Lemma firstCertificate_live ds (l : list Issuer) name d :
  Forall2 live_issuer ds l → d ∈ ds → ToLower name = ToLower d → ∃ t, firstCertificate l name = Some t.
Proof.
  induction 1 as [|d0 i ds l (o & pc & w & Hr & Ho) _ IH]; intros Hd Hn; [by apply not_elem_of_nil in Hd|]. cbn [firstCertificate].
  destruct (Issuer_GetCertificate name i) as [t|] eqn:E; [by exists t|]. apply elem_of_cons in Hd as [->|Hd]; [|by apply IH].
  apply reachable_ok in Hr as (H1 & [t Ht] & _). unfold Issuer_GetCertificate, EqualFold in E.
  rewrite H1, Ho, Hn, bool_decide_eq_true_2, Ht in E by done. done.
Qed.

(** A master that was created answers every connection for one of its domains, in
    whatever case the name is written, with a certificate; this holds at once, and as
    long as its issuers only do what their workers do, also after a shutdown. *)
Theorem master_serves o now w m w' name d :
  NewCertMaster ReadDir o now w = (Ok tt, m, w') → d ∈ m_Domains o → ToLower name = ToLower d →
  (∃ t, CertMaster_GetCertificate m name = inl (Some t)) ∧ CertMaster_Running m = true ∧
  ∀ m2, Forall2 live_issuer (m_Domains o) (issuers m2) → ∃ t, CertMaster_GetCertificate m2 name = inl (Some t).
Proof.
  intros Hn Hd Hname.
  assert (Forall2 live_issuer (m_Domains o) (issuers m) ∧ stopped m = false) as [Hl Hst].
  { unfold NewCertMaster in Hn. case_bool_decide as Hf; [destruct (NewCertWatcher _ _ _); [|done]|];
      (apply (addDomains_live o now (m_Domains o) []) in Hn; [done|constructor]). }
  assert (∀ m2, Forall2 live_issuer (m_Domains o) (issuers m2) → ∃ t, CertMaster_GetCertificate m2 name = inl (Some t)) as Hall.
  { intros m2 H2. destruct (firstCertificate_live _ _ name d H2 Hd Hname) as [t Ht]. exists t. unfold CertMaster_GetCertificate. by rewrite Ht. }
  split; [by apply Hall|]. split; [unfold CertMaster_Running; by rewrite Hst|done].
Qed.

(** A shutdown cancels every issuer, and keeps them serving; the watcher goes on. *)
Theorem master_shutdown (m : CertMaster) ds :
  Forall2 live_issuer ds (issuers m) →
  CertMaster_Running (CertMaster_Shutdown m) = false ∧ Forall (λ i, is_cancelled i = true) (issuers (CertMaster_Shutdown m)) ∧
  Forall2 live_issuer ds (issuers (CertMaster_Shutdown m)) ∧ foreign (CertMaster_Shutdown m) = foreign m.
Proof.
  intros Hl. split; [done|]. split; [apply Forall_fmap, Forall_true; done|]. split; [|done].
  cbn [CertMaster_Shutdown issuers]. apply Forall2_fmap_r. eapply Forall2_impl; [exact Hl|].
  intros d i (o & pc & w & Hr & Ho). exists o, pc, w. split; [by apply reach_shutdown|done].
Qed.
End props.

(** ** Concrete runs *)
#[local] Existing Instance XErrorProps.test_env.
Definition mopts : CertMasterOpts := mkMasterOpts (txt "x@y") (txt "/c") true [txt "a.org"; txt "b.org"] [].
Definition noDir (_ : bytes) (_ : tworld) : list dirEntry + goerror := inl [].

Lemma master_serves_witness :
  ∃ m w', NewCertMaster noDir mopts 0 w0 = (Ok tt, m, w') ∧ ∃ t, CertMaster_GetCertificate m (txt "B.org") = inl (Some t).
Proof.
  destruct (NewCertMaster noDir mopts 0 w0) as [[r m] w'] eqn:E.
  assert ((NewCertMaster noDir mopts 0 w0).1.1 = Ok tt) as Hr by (vm_compute; reflexivity). rewrite E in Hr. cbn [fst] in Hr. subst r.
  exists m, w'. split; [reflexivity|].
  refine (proj1 (master_serves noDir mopts 0 w0 m w' (txt "B.org") (txt "b.org") E _ _)); [|reflexivity].
  right. left.
Defined.

(** A directory with the certificate of a.org and a file that is not one. *)
Definition wdir : tworld := mkW {[ txt "/f/a.json" := pack le1; txt "/f/b.json" := [0] ]} true 1.
Definition aDir (_ : bytes) (_ : tworld) : list dirEntry + goerror :=
  inl [mkEntry (txt "a.json") true; mkEntry (txt "b.json") true; mkEntry (txt "readme") true].

Lemma sync_spec_witness :
  ∃ i', sync aDir (mkWatcher (txt "/f") ∅ None) wdir = Some i' ∧
    CertWatcher_GetCertificate i' (txt "a.org") = inl (Some (mkTls [[1]] [] (Some (90 * day)))).
Proof.
  destruct (sync aDir (mkWatcher (txt "/f") ∅ None) wdir) as [i'|] eqn:E; [|vm_compute in E; discriminate].
  exists i'. split; [reflexivity|].
  pose proof (sync_spec aDir (mkWatcher (txt "/f") ∅ None) wdir i' (txt "a.org") [txt "/f/a.json"; txt "/f/b.json"]
    ltac:(discriminate) ltac:(vm_compute; reflexivity) E ltac:(discriminate)) as H.
  assert (last (omap (file_cert wdir (txt "a.org")) [txt "/f/a.json"; txt "/f/b.json"]) = Some (mkTls [[1]] [] (Some (90 * day)))) as Hc
    by (vm_compute; reflexivity).
  rewrite Hc in H. exact H.
Defined.

Example no_name_no_error :
  (λ i, CertWatcher_GetCertificate i []) <$> sync aDir (mkWatcher (txt "/f") ∅ None) wdir = Some (inl None).
Proof. vm_compute. reflexivity. Qed.
