(* ===== verification/XProxy.v ===== *)
(** * xproxy: the HTTP proxy

    Models [src/xproxy] ([query.go], [accounter.go], [utils.go]) and [src/xrand].  A
    request is handled as a trace of events: calls on the response writer, on the
    transport and on the two connections, and calls of the instance's callbacks.  What
    the transport, the hijacked or accepted connection and the callbacks answer are
    the members of the class [Net]. *)
From S2P Require Import Prelude Text XError HTTP.

Local Open Scope Z_scope.

(** ** utils.go *)

(** [:\d+$] *)
Fixpoint digitsThenColon (s : bytes) : bool :=
  match s with
  | [] => false
  | b :: s => if isDigit b then digitsThenColon s else b =? 58
  end.
Definition hasPort (host : bytes) : bool :=
  match reverse host with
  | b :: s => isDigit b && digitsThenColon s
  | [] => false
  end.
Definition remoteEndpoint (host : bytes) : bytes := if hasPort host then host else host ++ txt ":80".

(** The errors of connections: [io.EOF], an [os.SyscallError], another error, or an
    error that wraps one. *)
Inductive errno := EPIPE | ECONNRESET | EPROTOTYPE | OtherErrno.
Inductive ioerror := EOF | SyscallError (e : errno) | OtherIO | WrapIO (e : ioerror).
Fixpoint isEOF (e : ioerror) : bool := match e with EOF => true | WrapIO e => isEOF e | _ => false end.
Fixpoint asSyscall (e : ioerror) : option errno := match e with SyscallError n => Some n | WrapIO e => asSyscall e | _ => None end.
Definition isConnectionClosed (err : option ioerror) : bool :=
  match err with
  | None => false
  | Some err =>
      if isEOF err then true
      else match asSyscall err with
      | Some EPIPE | Some ECONNRESET | Some EPROTOTYPE => true
      | _ => false
      end
  end.

(** ** xrand: the letters for the numbers the generator draws, one per letter *)
Definition letterBytes : bytes := txt "abcdefghijklmnopqrstuvwxyzABCDEFGHIJKLMNOPQRSTUVWXYZ0123456789".
Definition xrand_String (draws : list Z) : bytes := (λ d, default 0 (letterBytes !! Z.to_nat d)) <$> draws.
Definition randomLetters : bytes := txt "abcdefghijklmnopqrstuvwxyzABCDEFGHIJKLMNOPQRSTUVWXYZ".
Definition RandomString (draws : list Z) : bytes := (λ d, default 0 (randomLetters !! Z.to_nat d)) <$> draws.

(** ** The instance and its surroundings *)
Record PRequest := mkPRequest { p_req : Request; p_url : URL; ProtoMajor : Z; hasBody : bool }.

Abbreviation headers := (list (bytes * list bytes)).
Record proxyRequest := mkProxyRequest { pr_method : bytes; pr_url : bytes; pr_header : headers; pr_accounted : bool }.
Record proxyResponse := mkProxyResponse { ps_status : Z; ps_header : headers; ps_body : bytes }.

Class Net (I : Type) := {
  (** [Transport.Dial] succeeds *)
  Dial : bytes → bool;
  (** the writer can be hijacked; [Hijack] succeeds; writing the status line to the client *)
  isHijacker : bool; HijackOk : bool; writeOk : option ioerror;
  (** [h2conn.Accept] *)
  Accept : bool;
  (** [http.NewRequest] accepts method and URL; [HttpClient().Do] *)
  NewRequest : bytes → bytes → bool;
  Do : proxyRequest → option proxyResponse;
  (** the authorization callback, if it is set: the custom info or an error *)
  AuthCallback : option (PRequest → I + goerror);
  MarkHeaderName : bytes;
  markDraws : list Z;
  urlString : URL → bytes }.

(** What happens, in order. *)
Inductive pevent (I : Type) :=
  | Resp (a : action)                            (** on the response writer *)
  | RespAddHeader (k v : bytes)
  | EDial (addr : bytes)
  | EDo (r : proxyRequest)
  | ClientWrite (data : bytes)
  | CloseClient | CloseRemote | CloseBody
  | Forward (info : I)                           (** both directions, until both have ended *)
  | CopyBody (info : I) (body : bytes)           (** the response body through an [accounter] *)
  | Release (info : I).
Arguments Resp {I}.
Arguments RespAddHeader {I}.
Arguments EDial {I}.
Arguments EDo {I}.
Arguments ClientWrite {I}.
Arguments CloseClient {I}.
Arguments CloseRemote {I}.
Arguments CloseBody {I}.
Arguments Forward {I}.
Arguments CopyBody {I}.
Arguments Release {I}.

(** [http.Error] *)
Definition httpError {I} (msg : bytes) (code : Z) : list (pevent I) :=
  [Resp (SetHeader (txt "Content-Type") (txt "text/plain; charset=utf-8"));
   Resp (SetHeader (txt "X-Content-Type-Options") (txt "nosniff"));
   Resp (WriteHeader code); Resp (Write (msg ++ [10]))].

(** [Header.Del] and [Header.Add] for canonical names. *)
Definition headerDel (name : bytes) (h : headers) : headers := filter (λ kv, kv.1 ≠ name) h.
Fixpoint headerAdd (name value : bytes) (h : headers) : headers :=
  match h with
  | [] => [(name, [value])]
  | (k, vs) :: h => if bool_decide (k = name) then (k, vs ++ [value]) :: h else (k, vs) :: headerAdd name value h
  end.
(** Every value of [src] added to [dst]. *)
Definition copyHeaders (src dst : headers) : headers :=
  foldl (λ dst '(name, values), foldl (λ dst value, headerAdd name value dst) dst values) dst src.

Section proxy.
Context {I : Type} `{!Net I}.
Implicit Types (r : PRequest) (info : I).

Definition handleV1Connect r info : list (pevent I) :=
  let addr := remoteEndpoint (URLHost (p_url r)) in
  EDial addr ::
  if negb (Dial addr) then httpError (txt "Not found") 404
  else if negb isHijacker then httpError (txt "Hijack not supported") 503
  else if negb HijackOk then (if hasBody r then [CloseBody] else [])
  else
    let ok := txt "HTTP/1.1 200 OK" ++ [13; 10; 13; 10] in
    ClientWrite ok ::
    match writeOk with
    | Some err => [CloseClient; CloseRemote]
    | None => [Forward info]
    end.

Definition handleV2Connect r info : list (pevent I) :=
  let addr := remoteEndpoint (URLHost (p_url r)) in
  EDial addr ::
  if negb (Dial addr) then httpError (txt "Not found") 404
  else if negb Accept then [CloseRemote]
  else [Forward info].

(** The headers of the request to the target. *)
Definition proxyHeaders (h : headers) : headers :=
  let h := headerDel (txt "Proxy-Connection") h in
  let h := headerDel (txt "Proxy-Authenticate") h in
  let h := headerDel (txt "Proxy-Authorization") h in
  let h := if bool_decide (MarkHeaderName ≠ []) then headerAdd MarkHeaderName (RandomString markDraws) h else h in
  copyHeaders h [].

(** [info] is [None] for a CORS request. *)
Definition handleProxy r (isCORS : bool) (info : option I) : list (pevent I) :=
  (if ProtoMajor r =? 2 then httpError (txt "Bad request") 505 else []) ++
  if negb isCORS && bool_decide (Scheme (p_url r) = txt "https") then
    httpError (txt "Proxying HTTPS as plain text is dumb idea") 418
  else
    let url := urlString (p_url r) in
    if negb (NewRequest (Method (p_req r)) url) then httpError (txt "Error creating proxy request") 500
    else
      let proxyReq := mkProxyRequest (Method (p_req r)) url (proxyHeaders (ReqHeader (p_req r))) (negb isCORS) in
      EDo proxyReq ::
      match Do proxyReq with
      | None => httpError (txt "Error sending proxy request") 500
      | Some resp =>
          mjoin ((λ '(name, values), (λ value, RespAddHeader name value) <$> values) <$> ps_header resp) ++
          [Resp (WriteHeader (ps_status resp))] ++
          (if isCORS then []
           else match info with Some info => [CopyBody info (ps_body resp); Resp (Write (ps_body resp))] | None => [] end) ++
          [CloseBody]
      end.

Definition ErrAuthCallbackNotSet : goerror := OtherErr (txt "auth callback is not set") NilError.
Definition ErrCantExtractAuthInfo : goerror := OtherErr (txt "can't extract authorization info") NilError.

Definition handleAuth r : I + goerror :=
  match AuthCallback with
  | None => inr ErrAuthCallbackNotSet
  | Some auth =>
      let '(_, authInfo) := ExtractAuthorizationInfo (p_req r) HeaderProxyAuthorization in
      if bool_decide (authInfo = []) then inr ErrCantExtractAuthInfo else auth r
  end.

Definition ServeHTTP r : list (pevent I) :=
  if bool_decide (Method (p_req r) = txt "OPTIONS") then handleProxy r true None
  else match handleAuth r with
  | inr err =>
      Resp (SetHeader (txt "Proxy-Authenticate") (txt "Basic realm=" ++ [34] ++ txt "proxy" ++ [34])) ::
      httpError (txt "Proxy authentication required") 407
  | inl info =>
      (if bool_decide (Method (p_req r) = txt "CONNECT") then
         if ProtoMajor r =? 1 then handleV1Connect r info
         else if ProtoMajor r =? 2 then handleV2Connect r info
         else httpError (txt "Unsupported protocol version") 505
       else handleProxy r false (Some info)) ++
      [Release info]                                            (* deferred *)
  end.
End proxy.

(** ** Forwarding between two connections *)

(** A read returns bytes and an error; both can be present. *)
Record readResult := mkRead { rd_data : bytes; rd_err : bool }.
(** A write takes a number of bytes; fewer than given only with an error. *)
Record writeResult := mkWrite { wr_n : Z; wr_err : bool }.

(** What one direction does: bytes that reach the other side, reports, and the close. *)
Inductive fevent := Delivered (data : bytes) | Reported (n : Z) | CloseDst.

(** [doPairedForward] for the results the two connections return; it ends at the first
    error, and a run that is still waiting has consumed all reads. *)
Fixpoint doPairedForward (reads : list readResult) (writes : list writeResult) : list fevent :=
  match reads with
  | [] => []
  | rd :: reads =>
      if rd_err rd then [CloseDst]
      else match writes with
      | [] => []
      | wr :: writes =>
          Delivered (take (Z.to_nat (wr_n wr)) (rd_data rd)) ::
          if wr_err wr then [CloseDst]
          else Reported (u64 (wr_n wr)) :: doPairedForward reads writes
      end
  end.

(** ** accounter.go *)

(** Reading through an accounter: the report made (with the result variable [n], which
    is zero at that point) and the result of the parent's read. *)
Definition accounter_Read (reporter : bool) (parent : readResult) : list fevent * readResult :=
  let n := 0 in
  ((if reporter then [Reported (u64 n)] else []), parent).
