(* ===== verification/XProxyProps.v ===== *)
(** * xproxy: who may use the proxy, what it passes on, what it accounts for *)
From S2P Require Import Prelude Text XError HTTP HTTPProps XProxy.

Local Open Scope Z_scope.

(** ** Addresses *)
Lemma digitsThenColon_digits ds rest : Forall (λ b, isDigit b = true) ds → digitsThenColon (ds ++ 58 :: rest) = true.
Proof. induction 1 as [|b ds Hb _ IH]; [done|]. cbn [app digitsThenColon]. by rewrite Hb. Qed.

Lemma digitsThenColon_inv s : digitsThenColon s = true → ∃ ds rest, s = ds ++ 58 :: rest ∧ Forall (λ b, isDigit b = true) ds.
Proof.
  induction s as [|b s IH]; cbn [digitsThenColon]; [done|]. destruct (isDigit b) eqn:Hb.
  - intros (ds & rest & -> & Hds)%IH. exists (b :: ds), rest. split; [done|by constructor].
  - intros ->%Z.eqb_eq. by exists [], s.
Qed.

Lemma hasPort_spec host : hasPort host = true ↔ ∃ h ds, host = h ++ 58 :: ds ∧ ds ≠ [] ∧ Forall (λ b, isDigit b = true) ds.
Proof.
  unfold hasPort. split.
  - destruct (reverse host) as [|b s] eqn:E; [done|]. intros [Hb (ds & rest & -> & Hds)%digitsThenColon_inv]%andb_true_iff.
    apply (f_equal reverse) in E. rewrite reverse_involutive in E.
    exists (reverse rest), (reverse ds ++ [b]). rewrite E. rewrite reverse_cons, reverse_app, reverse_cons, <-!app_assoc. cbn.
    split; [done|]. split; [by destruct (reverse ds)|]. apply Forall_app. split; [by apply Forall_reverse|by constructor].
  - intros (h & ds & -> & Hne & Hds). rewrite reverse_app, reverse_cons, <-app_assoc. cbn [app].
    apply Forall_reverse in Hds. assert (reverse ds ≠ []) as Hr by (intros H; apply (f_equal reverse) in H; by rewrite reverse_involutive in H).
    destruct (reverse ds) as [|b s]; [done|]. apply Forall_cons in Hds as [Hb Hs]. cbn [app]. rewrite Hb. cbn [andb].
    by apply digitsThenColon_digits.
Qed.

(** The address that is dialled always has a port; one that has a port is kept. *)
Theorem remote_endpoint host :
  (∃ h ds, remoteEndpoint host = h ++ 58 :: ds ∧ ds ≠ [] ∧ Forall (λ b, isDigit b = true) ds) ∧
  remoteEndpoint (remoteEndpoint host) = remoteEndpoint host.
Proof.
  assert (hasPort (remoteEndpoint host) = true) as Hp.
  { unfold remoteEndpoint. destruct (hasPort host) eqn:E; [done|]. apply hasPort_spec. exists host, (txt "80").
    split; [done|]. split; [done|]. by repeat constructor. }
  split; [by apply hasPort_spec|]. unfold remoteEndpoint at 1. by rewrite Hp.
Qed.

(** ** Requests *)
Section proxy.
Context {I : Type} `{!Net I}.
Implicit Types (r : PRequest) (info : I) (tr : list (pevent I)).

(** Events that reach a target, and that give a client's session back. *)
Definition outgoing (e : pevent I) : bool := match e with EDial _ | EDo _ | Forward _ => true | _ => false end.
Definition releases (e : pevent I) : option I := match e with Release i => Some i | _ => None end.
Definition responses (e : pevent I) : option action := match e with Resp a => Some a | _ => None end.

Lemma httpError_quiet msg code : Forall (λ e : pevent I, outgoing e = false ∧ releases e = None) (httpError msg code).
Proof. by repeat constructor. Qed.

Lemma quiet_releases tr : Forall (λ e, releases e = None) tr → omap releases tr = [].
Proof. induction 1 as [|e tr He _ IH]; [done|]. cbn. by rewrite He. Qed.

Lemma norel_httpError msg code : Forall (λ e : pevent I, releases e = None) (httpError msg code).
Proof. by repeat constructor. Qed.

Lemma norel_connect r info : Forall (λ e, releases e = None) (handleV1Connect r info) ∧ Forall (λ e, releases e = None) (handleV2Connect r info).
Proof.
  unfold handleV1Connect, handleV2Connect. split; constructor; try done; repeat case_match; try apply norel_httpError; by repeat constructor.
Qed.

Lemma norel_proxy r c (oinfo : option I) : Forall (λ e, releases e = None) (handleProxy r c oinfo).
Proof.
  unfold handleProxy. apply Forall_app. split; [case_match; [apply norel_httpError|constructor]|].
  case_match; [apply norel_httpError|]. case_match; [apply norel_httpError|]. constructor; [done|].
  destruct (Do _) as [resp|]; [|apply norel_httpError]. apply Forall_app. split.
  - apply Forall_forall. intros e (l & He & ([k vs] & -> & _)%list_elem_of_fmap)%list_elem_of_join.
    apply list_elem_of_fmap in He as (v & -> & _). done.
  - constructor; [done|]. apply Forall_app. split; [|by repeat constructor]. destruct c; [constructor|]. destruct oinfo; by repeat constructor.
Qed.

(** A request authenticates with [info]: a callback is set, the request has a
    Proxy-Authorization header of two words, and the callback accepts it with [info]. *)
Definition authenticates r info : Prop :=
  ∃ auth ty cred, AuthCallback = Some auth ∧
    Fields (headerGet (ReqHeader (p_req r)) HeaderProxyAuthorization) = [ty; cred] ∧ cred ≠ [] ∧ auth r = inl info.

Lemma handleAuth_spec r info : handleAuth r = inl info ↔ authenticates r info.
Proof.
  unfold handleAuth, authenticates, ExtractAuthorizationInfo. set (h := headerGet _ _).
  assert (∀ ty cred, Fields h = [ty; cred] → h ≠ []) as Hne by (intros ty cred Hf E; rewrite E in Hf; vm_compute in Hf; done).
  split.
  - destruct AuthCallback as [auth|]; [|done]. case_bool_decide as Eh; [by rewrite bool_decide_eq_true_2|].
    destruct (Fields h) as [|ty [|cred [|]]] eqn:Ef; try (by rewrite bool_decide_eq_true_2).
    case_bool_decide; [done|]. intros Ha. by exists auth, ty, cred.
  - intros (auth & ty & cred & -> & Hf & Hc & Ha). rewrite (bool_decide_eq_false_2 (h = [])) by (by eapply Hne). rewrite Hf.
    by rewrite bool_decide_eq_false_2.
Qed.

Lemma out_httpError msg code : Forall (λ e : pevent I, outgoing e = false) (httpError msg code).
Proof. by repeat constructor. Qed.

(** A request that is passed on: the only event that reaches a target is sending it. *)
Lemma out_proxy r c (oinfo : option I) e : e ∈ handleProxy r c oinfo → outgoing e = true →
  ∃ q, e = EDo q ∧ pr_method q = Method (p_req r) ∧ pr_accounted q = negb c.
Proof.
  intros He Ho. revert He. unfold handleProxy. assert (∀ msg code, e ∉ httpError (I := I) msg code) as Hq.
  { intros msg code Hin. pose proof (out_httpError msg code) as Hf. rewrite Forall_forall in Hf. apply Hf in Hin. congruence. }
  rewrite elem_of_app. intros [He|He]; [destruct (_ =? _); [by apply Hq in He|set_solver]|].
  destruct (_ && _); [by apply Hq in He|]. destruct (negb (NewRequest _ _)); [by apply Hq in He|].
  apply elem_of_cons in He as [->|He]; [by eexists|]. exfalso.
  destruct (Do _) as [resp|]; [|by apply Hq in He]. apply elem_of_app in He as [He|He].
  - apply list_elem_of_join in He as (l & He & ([k vs] & -> & _)%list_elem_of_fmap). by apply list_elem_of_fmap in He as (v & -> & _).
  - apply elem_of_app in He as [He|He]; [apply list_elem_of_singleton in He; by subst|]. apply elem_of_app in He as [He|He].
    + destruct c; [by apply elem_of_nil in He|]. destruct oinfo; [|by apply elem_of_nil in He].
      rewrite !elem_of_cons, elem_of_nil in He. by destruct He as [->|[->|[]]].
    + apply list_elem_of_singleton in He. by subst.
Qed.

(** C19: a request that does not authenticate with the callback, or has no two-word
    Proxy-Authorization header, or meets no callback, reaches no target unless its method is OPTIONS: nothing is
    dialled or sent for it, no session is released, and the client gets status 407 with
    the challenge.  A request that authenticates is served in the session the callback gave.
    A request with method OPTIONS is not authenticated: it opens no tunnel, and all that can
    reach a target is the request itself with that method, outside the accounting. *)
Theorem unauthenticated_refused r :
  (Method (p_req r) ≠ txt "OPTIONS" → (∀ info, ¬ authenticates r info) →
     Forall (λ e, outgoing e = false) (ServeHTTP r) ∧ omap releases (ServeHTTP r) = [] ∧
     ∃ h body, respond (omap responses (ServeHTTP r)) = Some (407, h, body) ∧ is_Some (h !! txt "Proxy-Authenticate")) ∧
  (Method (p_req r) ≠ txt "OPTIONS" → ∀ info, authenticates r info → omap releases (ServeHTTP r) = [info]) ∧
  (Method (p_req r) = txt "OPTIONS" →
     omap releases (ServeHTTP r) = [] ∧
     ∀ e, e ∈ ServeHTTP r → outgoing e = true → ∃ q, e = EDo q ∧ pr_method q = txt "OPTIONS" ∧ pr_accounted q = false).
Proof.
  unfold ServeHTTP. split_and!; intros Hm.
  - intros Hno. rewrite bool_decide_eq_false_2 by done. destruct (handleAuth r) as [info|err] eqn:Ha.
    { by apply handleAuth_spec, Hno in Ha. }
    split; [by repeat constructor|]. split; [done|]. eexists _, _. split; [reflexivity|]. vm_compute. eauto.
  - intros info Ha%handleAuth_spec. rewrite bool_decide_eq_false_2, Ha by done. rewrite omap_app. rewrite quiet_releases; [done|].
    repeat case_match; try apply norel_httpError; try apply norel_connect; apply norel_proxy.
  - rewrite bool_decide_eq_true_2 by done. split; [apply quiet_releases, norel_proxy|]. intros e He Ho.
    destruct (out_proxy _ _ _ _ He Ho) as (q & -> & Hq & Ha). exists q. by rewrite Hq, Hm.
Qed.

(** C39: a request that authenticates releases its session exactly once, at the end,
    whatever happens in between; CORS requests release nothing. *)
Theorem session_released_once r :
  match (if bool_decide (Method (p_req r) = txt "OPTIONS") then None else Some (handleAuth r)) with
  | Some (inl info) => omap releases (ServeHTTP r) = [info] ∧ last (ServeHTTP r) = Some (Release info)
  | _ => omap releases (ServeHTTP r) = []
  end.
Proof.
  unfold ServeHTTP. case_bool_decide as Hm; [apply quiet_releases, norel_proxy|].
  destruct (handleAuth r) as [info|err]; [|by apply quiet_releases; repeat constructor].
  rewrite omap_app, last_snoc. split; [|done]. rewrite quiet_releases; [done|].
  repeat case_match; try apply norel_httpError; try apply norel_connect; apply norel_proxy.
Qed.

(** ** Headers *)
Definition proxy_header (k : bytes) : bool :=
  bool_decide (k ∈ [txt "Proxy-Connection"; txt "Proxy-Authenticate"; txt "Proxy-Authorization"]).
(** All values of a name. *)
Definition valuesOf (k : bytes) (h : headers) : list bytes := mjoin (snd <$> filter (λ kv, kv.1 = k) h).

Lemma valuesOf_cons k k' vs h : valuesOf k ((k', vs) :: h) = (if decide (k' = k) then vs else []) ++ valuesOf k h.
Proof. unfold valuesOf. rewrite filter_cons. cbn [fst]. by case_decide. Qed.

Lemma valuesOf_add k name v h : NoDup h.*1 →
  valuesOf k (headerAdd name v h) = valuesOf k h ++ (if decide (name = k) then [v] else []) ∧
  (∀ x, x ∈ (headerAdd name v h).*1 ↔ x ∈ h.*1 ∨ x = name) ∧ NoDup (headerAdd name v h).*1.
Proof.
  induction h as [|[k' vs] h IH]; intros Hnd; cbn [headerAdd].
  - rewrite valuesOf_cons. cbn. split; [by case_decide|]. split; [set_solver|]. apply NoDup_singleton.
  - cbn [fmap list_fmap fst] in Hnd. apply NoDup_cons in Hnd as [Hk Hnd]. case_bool_decide as Hkn.
    + subst k'. rewrite !valuesOf_cons. split; [|split; [set_solver|by apply NoDup_cons]].
      case_decide; [|by rewrite app_nil_r]. subst name. rewrite <-!app_assoc. f_equal.
      assert (valuesOf k h = []) as ->; [|done]. unfold valuesOf. rewrite filter_none; [done|].
      apply Forall_forall. intros [a b] Hab E. apply Hk. cbn in E. subst a. apply list_elem_of_fmap. by exists (k, b).
    + destruct (IH Hnd) as (H1 & H2 & H3). rewrite !valuesOf_cons, H1, app_assoc. split; [done|]. cbn [fmap list_fmap fst].
      split; [intros x; rewrite !elem_of_cons, H2; tauto|]. apply NoDup_cons. split; [|done]. rewrite H2. intros [?|?]; [done|]. by subst.
Qed.

Lemma copy_values k name vs : ∀ dst, NoDup dst.*1 →
  let dst' := foldl (λ dst value, headerAdd name value dst) dst vs in
  valuesOf k dst' = valuesOf k dst ++ (if decide (name = k) then vs else []) ∧ NoDup dst'.*1.
Proof.
  induction vs as [|v vs IH]; intros dst Hnd; cbn [foldl].
  - split; [case_decide; by rewrite app_nil_r|done].
  - destruct (valuesOf_add k name v dst Hnd) as (H1 & _ & H3). destruct (IH _ H3) as [H4 H5]. split; [|done].
    rewrite H4, H1, <-app_assoc. by case_decide.
Qed.

Lemma copyHeaders_values k src : ∀ dst, NoDup dst.*1 →
  valuesOf k (copyHeaders src dst) = valuesOf k dst ++ valuesOf k src ∧ NoDup (copyHeaders src dst).*1.
Proof.
  unfold copyHeaders. induction src as [|[name vs] src IH]; intros dst Hnd; cbn [foldl]; [by rewrite app_nil_r|].
  destruct (copy_values k name vs dst Hnd) as [H1 H2]. destruct (IH _ H2) as [H3 H4]. split; [|done].
  rewrite H3, H1, valuesOf_cons, <-app_assoc. done.
Qed.

Lemma valuesOf_del k name h : valuesOf k (headerDel name h) = if decide (name = k) then [] else valuesOf k h.
Proof.
  induction h as [|[k' vs] h IH]; [by case_decide|]. unfold headerDel in *. rewrite filter_cons. cbn [fst].
  destruct (decide (k' ≠ name)) as [Hk|Hk]; rewrite !valuesOf_cons, ?IH; [repeat case_decide; subst; done|].
  apply dec_stable in Hk. subst k'. by destruct (decide (name = k)).
Qed.

(** The request passed on has, for every name, the values of the client's request,
    except that the three proxy headers are gone, and that the mark was added. *)
Theorem proxied_headers (h : headers) k :
  NoDup h.*1 →
  valuesOf k (proxyHeaders h) =
    (if proxy_header k then [] else valuesOf k h) ++
    (if decide (MarkHeaderName ≠ [] ∧ MarkHeaderName = k) then [RandomString markDraws] else []).
Proof.
  intros Hnd. unfold proxyHeaders.
  assert (∀ name h', NoDup h'.*1 → NoDup (headerDel name h').*1) as Hdel.
  { intros name h' Hh. unfold headerDel. induction h' as [|[a b] h' IH]; [done|]. cbn [fmap list_fmap fst] in Hh. apply NoDup_cons in Hh as [Ha Hh].
    rewrite filter_cons. destruct (decide _); [|by apply IH]. cbn [fmap list_fmap fst]. apply NoDup_cons. split; [|by apply IH].
    intros (x & -> & [_ Hx]%list_elem_of_filter)%list_elem_of_fmap. apply Ha. apply list_elem_of_fmap. by exists x. }
  set (h3 := headerDel _ (headerDel _ (headerDel _ h))).
  assert (NoDup h3.*1) as Hnd3 by (by repeat apply Hdel).
  assert (valuesOf k h3 = if proxy_header k then [] else valuesOf k h) as H3.
  { unfold h3, proxy_header. rewrite !valuesOf_del. case_bool_decide as Hb; rewrite !elem_of_cons in Hb.
    - repeat case_decide; try done. exfalso. destruct Hb as [?|[?|[?|Hb]]]; [congruence..|by apply not_elem_of_nil in Hb].
    - repeat case_decide; try done; exfalso; subst; tauto. }
  case_bool_decide as Hm.
  - destruct (valuesOf_add k MarkHeaderName (RandomString markDraws) h3 Hnd3) as (H1 & _ & H2).
    rewrite (proj1 (copyHeaders_values k _ [] ltac:(constructor))). change (valuesOf k []) with (@nil bytes). cbn [app]. rewrite H1, H3. f_equal.
    repeat case_decide; first [done|exfalso; tauto].
  - rewrite (proj1 (copyHeaders_values k h3 [] ltac:(constructor))). change (valuesOf k []) with (@nil bytes). cbn [app]. rewrite H3.
    rewrite decide_False by tauto. by rewrite app_nil_r.
Qed.
End proxy.

(** ** CONNECT *)
Section connect.
Context {I : Type} `{!Net I}.
Implicit Types (r : PRequest) (info : I).

Definition remote_done (e : pevent I) : bool := match e with CloseRemote | Forward _ => true | _ => false end.

(** A connection to the target that was opened for HTTP/2 is always forwarded or closed.
    For HTTP/1 it is unless the client's connection cannot be taken over: then it stays
    open. *)
Theorem connect_remote r info :
  let addr := remoteEndpoint (URLHost (p_url r)) in
  Dial addr = true →
  existsb remote_done (handleV2Connect r info) = true ∧
  existsb remote_done (handleV1Connect r info) = isHijacker && HijackOk.
Proof.
  intros addr Hd. unfold handleV1Connect, handleV2Connect. fold addr. rewrite Hd. cbn [negb]. split.
  - by destruct Accept.
  - destruct isHijacker, HijackOk; cbn [negb]; [by destruct writeOk|by destruct (hasBody r)|done..].
Qed.

(** A plain request over HTTP/2 is refused and sent nonetheless: the client gets 505 while
    the request goes out and its answer is dropped. *)
Theorem h2_refused_but_sent r info resp :
  ProtoMajor r = 2 → Scheme (p_url r) ≠ txt "https" → NewRequest (Method (p_req r)) (urlString (p_url r)) = true →
  let req := mkProxyRequest (Method (p_req r)) (urlString (p_url r)) (proxyHeaders (ReqHeader (p_req r))) true in
  Do req = Some resp → 200 ≤ ps_status resp ≤ 999 →
  EDo req ∈ handleProxy r false (Some info) ∧
  ∃ h body, respond (omap responses (handleProxy r false (Some info))) = Some (505, h, body).
Proof.
  intros Hp Hs Hn req Hdo Hst. unfold handleProxy. rewrite Hp, (bool_decide_eq_false_2 _ Hs), Hn. change (2 =? 2) with true. cbn [negb andb].
  fold req. rewrite Hdo. split; [apply elem_of_app; right; by left|].
  rewrite omap_app. cbn [omap list_omap responses]. change (list_omap _ _ responses) with (omap (M := list) (@responses I)). rewrite omap_app.
  assert (omap responses (mjoin ((λ '(name, values), (λ value, RespAddHeader name value : pevent I) <$> values) <$> ps_header resp)) = []) as ->.
  { induction (ps_header resp) as [|[k vs] h IH]; [done|]. cbn [fmap list_fmap mjoin list_join]. rewrite omap_app.
    change (omap responses ((λ value, RespAddHeader k value : pevent I) <$> vs) ++ omap responses (mjoin ((λ '(name, values), (λ value, RespAddHeader name value : pevent I) <$> values) <$> h)) = []).
    rewrite IH, app_nil_r. by induction vs. }
  unfold respond. rewrite performAll_app. cbv iota.
  assert (performAll (omap responses (httpError (I := I) (txt "Bad request") 505)) rw0 =
    Some (mkRW (<[txt "X-Content-Type-Options" := txt "nosniff"]> (<[txt "Content-Type" := txt "text/plain; charset=utf-8"]> ∅))
      (Some (505, <[txt "X-Content-Type-Options" := txt "nosniff"]> (<[txt "Content-Type" := txt "text/plain; charset=utf-8"]> ∅)))
      (txt "Bad request" ++ [10]))) as -> by reflexivity.
  cbn [app omap list_omap responses mbind option_bind performAll perform]. unfold writeHeader. cbn [rw_sent].
  rewrite (proj2 (orb_false_iff _ _)) by (rewrite !Z.ltb_ge; lia). cbn [mbind option_bind]. unfold write. cbn [rw_sent mbind option_bind].
  eexists _, _. reflexivity.
Qed.
End connect.

(** ** Forwarding *)
Lemma join_cons {A} (l : list A) (ls : list (list A)) : mjoin (l :: ls) = l ++ mjoin ls.
Proof. done. Qed.

Definition delivered (e : fevent) : bytes := match e with Delivered d => d | _ => [] end.
Definition reported (e : fevent) : Z := match e with Reported n => n | _ => 0 end.
Fixpoint sumZ (l : list Z) : Z := match l with [] => 0 | x :: l => x + sumZ l end.

(** What writers promise: as many bytes as given without an error, never more. *)
Fixpoint writes_ok (reads : list readResult) (writes : list writeResult) : Prop :=
  match reads, writes with
  | rd :: reads, wr :: writes =>
      0 ≤ wr_n wr ≤ zlen (rd_data rd) ∧ (wr_err wr = false → wr_n wr = zlen (rd_data rd)) ∧ zlen (rd_data rd) ≤ 4096 ∧ writes_ok reads writes
  | _, _ => True
  end.

(** A direction of a tunnel passes the bytes on unchanged and in order: what reaches the
    other side is a prefix of what was read, the bytes reported are those of the
    writes that succeeded, at most one write (the last, failed) is not reported, and
    the other side is closed at most once, at the end. *)
Theorem forward_conserves reads writes :
  writes_ok reads writes →
  let tr := doPairedForward reads writes in
  ∃ rest, mjoin (rd_data <$> reads) = mjoin (delivered <$> tr) ++ rest ∧
    sumZ (reported <$> tr) ≤ zlen (mjoin (delivered <$> tr)) ≤ sumZ (reported <$> tr) + 4096 ∧
    (∀ i, tr !! i = Some CloseDst → i = (length tr - 1)%nat) ∧
    (CloseDst ∉ tr → sumZ (reported <$> tr) = zlen (mjoin (delivered <$> tr))).
Proof.
  revert writes. induction reads as [|rd reads IH]; intros writes Hok; cbn [doPairedForward].
  { exists []. cbn. by split_and!. }
  destruct (rd_err rd).
  { exists (mjoin (rd_data <$> (rd :: reads))). cbn. split_and!; try done. by intros [|[|]]. }
  destruct writes as [|wr writes].
  { exists (mjoin (rd_data <$> (rd :: reads))). cbn. by split_and!. }
  cbn [writes_ok] in Hok. destruct Hok as (Hn & Hfull & Hmax & Hok).
  assert (zlen (take (Z.to_nat (wr_n wr)) (rd_data rd)) = wr_n wr) as Hlen by (unfold zlen in *; rewrite length_take; lia).
  destruct (wr_err wr) eqn:Ee.
  - exists (drop (Z.to_nat (wr_n wr)) (rd_data rd) ++ mjoin (rd_data <$> reads)). cbn. rewrite !app_nil_r, app_assoc, take_drop, Hlen.
    split_and!; try done; try lia; [by intros [|[|[|]]]|]. intros H. destruct H. right. by left.
  - rewrite (Hfull eq_refl) in *. destruct (IH writes Hok) as (rest & H1 & H2 & H3 & H4). exists rest.
    set (tr := doPairedForward reads writes) in *. rewrite !fmap_cons, !join_cons. cbn [delivered reported sumZ app].
    assert (u64 (zlen (rd_data rd)) = zlen (rd_data rd)) as Hu by (apply u64_small; unfold in_u64; lia).
    assert (take (Z.to_nat (zlen (rd_data rd))) (rd_data rd) = rd_data rd) as Ht by (unfold zlen; rewrite Nat2Z.id; by apply take_ge).
    rewrite Ht, zlen_app, Hu. split; [|split; [lia|split]].
    + by rewrite H1, app_assoc.
    + intros [|[|i]]; [done..|]. cbn. intros Hi. apply H3 in Hi as Hi'. apply lookup_lt_Some in Hi. lia.
    + intros Hc. rewrite H4; [lia|]. intros Hin. apply Hc. right. by right.
Qed.

(** Bytes that a read returns together with an error are not passed on. *)
Example last_bytes_dropped : doPairedForward [mkRead (txt "bye") true] [mkWrite 3 false] = [CloseDst].
Proof. reflexivity. Qed.

(** Whatever is read through an accounter, zero bytes are reported for it. *)
Theorem accounter_reports_nothing (reads : list readResult) :
  sumZ (reported <$> mjoin ((λ rd, (accounter_Read true rd).1) <$> reads)) = 0 ∧
  (λ rd, (accounter_Read true rd).2) <$> reads = reads.
Proof.
  induction reads as [|rd reads [IH1 IH2]]; [done|]. split; [|cbn; by f_equal].
  cbn [fmap list_fmap mjoin list_join accounter_Read fst app reported sumZ]. exact IH1.
Qed.

(** ** Concrete runs *)
#[local] Instance test_net : Net Z := {|
  Dial _ := true; isHijacker := true; HijackOk := false; writeOk := None; Accept := true;
  NewRequest _ _ := true; Do _ := Some (mkProxyResponse 200 [] (txt "hi"));
  AuthCallback := Some (λ _, inl 7); MarkHeaderName := txt "X-Mark"; markDraws := [0; 27]; urlString := Path |}.

Definition preq (m : string) (v : Z) (h : headers) : PRequest :=
  mkPRequest (mkRequest [] [] (txt m) None [] h) (mkURL (txt "http") (txt "t.org") (txt "/") []) v true.

(** One word is not enough. *)
Lemma unauthenticated_refused_witness :
  Forall (λ e, outgoing e = false) (ServeHTTP (preq "CONNECT" 1 [(HeaderProxyAuthorization, [txt "secret"])])) ∧
  omap releases (ServeHTTP (preq "CONNECT" 1 [(HeaderProxyAuthorization, [txt "Basic eA=="])])) = [7].
Proof.
  split.
  - apply (proj1 (unauthenticated_refused (preq "CONNECT" 1 [(HeaderProxyAuthorization, [txt "secret"])]))); [discriminate|].
    intros info (auth & ty & cred & _ & Hf & _). vm_compute in Hf. discriminate.
  - apply (proj1 (proj2 (unauthenticated_refused (preq "CONNECT" 1 [(HeaderProxyAuthorization, [txt "Basic eA=="])])))); [discriminate|].
    exists (λ _, inl 7), (txt "Basic"), (txt "eA=="). split_and!; [reflexivity|vm_compute; reflexivity|discriminate|reflexivity].
Defined.

Lemma forward_conserves_witness :
  let reads := [mkRead [1; 2] false; mkRead [3] false; mkRead [] true] in
  let writes := [mkWrite 2 false; mkWrite 1 false] in
  ∃ rest, [1; 2; 3] = mjoin (delivered <$> doPairedForward reads writes) ++ rest.
Proof.
  destruct (forward_conserves [mkRead [1; 2] false; mkRead [3] false; mkRead [] true] [mkWrite 2 false; mkWrite 1 false]) as (rest & H & _).
  - vm_compute. repeat split; try discriminate.
  - exists rest. exact H.
Defined.

(** The connection to the target is left open when taking over the client's fails. *)
Example hijack_failure_leaks :
  ServeHTTP (preq "CONNECT" 1 [(HeaderProxyAuthorization, [txt "Basic eA=="])]) = [EDial (txt "t.org:80"); CloseBody; Release 7].
Proof. vm_compute. reflexivity. Qed.
