(* ===== verification/Entitlements.v ===== *)
(** * entitlements: what a client may use

    Models [src/entitlements/entity.go]: a map from names to values of any type, with typed
    accessors, and its text forms.  The JSON encoder is a member of the class [JSON],
    with what its documentation says about the values that come back as its law. *)
From S2P Require Import Prelude Text Base64.

Local Open Scope Z_scope.

(** The dynamic types the code distinguishes; a [float64] is kept as the integer nearest
    to it, and any other value is opaque. *)
Inductive any :=
  | ANil | ABool (b : bool) | AString (s : bytes)
  | AInt (z : Z) | AInt64 (z : Z) | AInt32 (z : Z) | AUint (z : Z) | AUint64 (z : Z) | AUint32 (z : Z)
  | AFloat64 (z : Z) | AOther.

(** [None] is the nil map: reading it finds nothing, storing into it panics. *)
Abbreviation Entitlements := (option (gmap bytes any)).

Definition Wireguard : bytes := txt "wireguard".
Definition IPRose : bytes := txt "iprose".
Definition Proxy : bytes := txt "proxy".
Definition ShapeDownstream_ : bytes := txt "shape_downstream".
Definition ShapeUpstream_ : bytes := txt "shape_upstream".
Definition Ads : bytes := txt "ads".
Definition Restrictions_ : bytes := txt "restrictions".

(** [s[k]]: the zero value of [any] is nil. *)
Definition index (s : Entitlements) (k : bytes) : any := default ANil (s ≫= λ m, m !! k).
(** [s[k] = v] *)
Definition store (k : bytes) (v : any) (s : Entitlements) : go unit Entitlements :=
  match s with None => Panic | Some m => Ok (Some (<[k := v]> m)) end.

Definition asBool (value : any) : bool * bool :=
  match value with
  | ABool v => (v, true)
  | AString v =>
      if bool_decide (v = txt "true") then (true, true)
      else if bool_decide (v = txt "false") then (false, true)
      else (false, false)
  | _ => (false, false)
  end.

(** Conversions to [int] wrap around. *)
Definition asInt (value : any) : Z * bool :=
  match value with
  | AInt64 v => (i64 v, true)
  | AInt32 v => (i64 v, true)
  | AUint64 v => (i64 v, true)
  | AUint32 v => (i64 v, true)
  | AUint v => (i64 v, true)
  | AInt v => (v, true)
  | AString v => match Atoi v with None => (0, false) | Some i => (i, true) end
  | _ => (0, false)
  end.

Section accessors.
Implicit Types (s : Entitlements).
Definition SetWireguard (v : bool) s := store Wireguard (ABool v) s.
Definition HasWireguard s : bool := (asBool (index s Wireguard)).1.
Definition SetIPRose (v : bool) s := store IPRose (ABool v) s.
Definition HasIPRose s : bool := (asBool (index s IPRose)).1.
Definition SetProxy (v : bool) s := store Proxy (ABool v) s.
Definition HasProxy s : bool := (asBool (index s Proxy)).1.
Definition SetAds (v : bool) s := store Ads (ABool v) s.
Definition HasAds s : bool := (asBool (index s Ads)).1.
Definition IsPaid s : bool := negb (HasAds s).
Definition IsFree s : bool := HasAds s.
Definition SetShapeUpstream (v : Z) s := store ShapeUpstream_ (AInt v) s.
Definition ShapeUpstream s : Z * bool := asInt (index s ShapeUpstream_).
Definition SetShapeDownstream (v : Z) s := store ShapeDownstream_ (AInt v) s.
Definition ShapeDownstream s : Z * bool := asInt (index s ShapeDownstream_).
Definition Restrictions s : bytes * bool :=
  match s ≫= λ m, m !! Restrictions_ with
  | None => ([], false)
  | Some (AString restrictions) => (restrictions, true)
  | Some _ => ([], false)
  end.
Definition SetRestrictions (v : bytes) s := store Restrictions_ (AString v) s.
Definition AsMap s : Entitlements := s.
End accessors.

(** ** Text forms *)

(** Values whose texts are plain, so that the encoder keeps them. *)
Definition plainValue (v : any) : Prop := match v with AString s => Forall (λ b, 0 ≤ b < 128) s | AOther => False | _ => True end.

Class JSON := {
  Marshal : Entitlements → option bytes;
  (** into an empty map; the JSON text null makes the map nil *)
  Unmarshal : bytes → option Entitlements;
  Marshal_bytes s j : Marshal s = Some j → is_bytes j;
  (** texts and flags come back as they are, every number as some [float64] *)
  json_law (m : gmap bytes any) : map_Forall (λ _, plainValue) m →
    ∃ j m', Marshal (Some m) = Some j ∧ Unmarshal j = Some (Some m') ∧
      (∀ k, m' !! k = None ↔ m !! k = None) ∧
      (∀ k v, m !! k = Some v → match v with AInt _ | AInt64 _ | AInt32 _ | AUint _ | AUint64 _ | AUint32 _ | AFloat64 _ =>
         ∃ f, m' !! k = Some (AFloat64 f) | _ => m' !! k = Some v end) }.

Section json.
Context `{!JSON}.
Definition ent_JSON (s : Entitlements) : option bytes := Marshal s.
Definition ParseJSON (v : bytes) : option Entitlements := Unmarshal v.
Definition Base64String (s : Entitlements) : option bytes := j ← ent_JSON s; Some (EncodeToString j).
Definition FromBase64String (v : bytes) : option Entitlements := j ← DecodeString v; ParseJSON j.
End json.
