(* ===== verification/EntitlementsProps.v ===== *)
(** * entitlements: what is set is what is found, and what survives the text form *)
From S2P Require Import Prelude Text Base64 Entitlements.

Local Open Scope Z_scope.

Section props.
Implicit Types (s : Entitlements).

Lemma store_index k v s s' k' : store k v s = Ok s' → index s' k' = if decide (k' = k) then v else index s k'.
Proof.
  unfold store, index. destruct s as [m|]; [|done]. intros [= <-]. cbn. case_decide as E; [subst; by rewrite lookup_insert_eq|].
  by rewrite lookup_insert_ne.
Qed.

(** The result of [asInt] fits an [int], and is exact for every value that does. *)
Theorem asInt_exact v z : asInt v = (z, true) →
  match v with
  | AInt x => z = x
  | AInt64 x | AInt32 x | AUint x | AUint64 x | AUint32 x => in_i64 z ∧ (in_i64 x → z = x)
  | AString t => Atoi t = Some z ∧ in_i64 z
  | _ => False
  end.
Proof.
  destruct v as [| |t|x|x|x|x|x|x| |]; cbn [asInt]; try done; try (intros [= <-]; split; [apply i64_range|intros; by apply i64_small]).
  - unfold Atoi. destruct (match t with [] => _ | _ => _ end) as [y|]; cbn; [|done]. case_bool_decide; [|done]. by intros [= <-].
  - by intros [= <-].
Qed.

(** Each setting is read back as it was set, and no setting disturbs another: the
    flags, the two limits and the restrictions live under names of their own. *)
Theorem settings_roundtrip m (w i p a : bool) (u d : Z) (r : bytes) :
  ∃ s1 s2 s3 s4 s5 s6 s7,
    SetWireguard w (Some m) = Ok s1 ∧ SetIPRose i s1 = Ok s2 ∧ SetProxy p s2 = Ok s3 ∧ SetAds a s3 = Ok s4 ∧
    SetShapeUpstream u s4 = Ok s5 ∧ SetShapeDownstream d s5 = Ok s6 ∧ SetRestrictions r s6 = Ok s7 ∧
    HasWireguard s7 = w ∧ HasIPRose s7 = i ∧ HasProxy s7 = p ∧ HasAds s7 = a ∧ IsPaid s7 = negb a ∧
    ShapeUpstream s7 = (u, true) ∧ ShapeDownstream s7 = (d, true) ∧ Restrictions s7 = (r, true) ∧
    (∀ k, k ∉ [Wireguard; IPRose; Proxy; Ads; ShapeUpstream_; ShapeDownstream_; Restrictions_] → index s7 k = index (Some m) k).
Proof.
  eexists _, _, _, _, _, _, _. do 7 (split; [reflexivity|]).
  assert (∀ k, index (Some (<[Restrictions_ := AString r]> (<[ShapeDownstream_ := AInt d]> (<[ShapeUpstream_ := AInt u]>
    (<[Ads := ABool a]> (<[Proxy := ABool p]> (<[IPRose := ABool i]> (<[Wireguard := ABool w]> m)))))))) k =
    if decide (k = Restrictions_) then AString r else if decide (k = ShapeDownstream_) then AInt d else if decide (k = ShapeUpstream_) then AInt u
    else if decide (k = Ads) then ABool a else if decide (k = Proxy) then ABool p else if decide (k = IPRose) then ABool i
    else if decide (k = Wireguard) then ABool w else index (Some m) k) as H.
  { intros k. unfold index. cbn. rewrite !lookup_insert. repeat case_decide; subst; done. }
  unfold HasWireguard, HasIPRose, HasProxy, IsPaid, HasAds, ShapeUpstream, ShapeDownstream. rewrite !H.
  split_and!; try reflexivity; [unfold Restrictions; cbn [mbind option_bind]; by rewrite lookup_insert_eq|].
  intros k Hk. rewrite H. rewrite !not_elem_of_cons in Hk. by rewrite !decide_False by tauto.
Qed.

(** Storing into a nil map panics, and the JSON text null makes one. *)
Theorem nil_map_panics k v : store k v None = Panic.
Proof. done. Qed.

Context `{!JSON}.

(** The base64 text of a map of plain values can be read back: all flags and texts
    are as before.  But the limits that were set as numbers are not: they come back as
    floating-point numbers, which the accessors do not accept, as if no limit was set. *)
Theorem base64_settings m :
  map_Forall (λ _, plainValue) m →
  ∃ t s', Base64String (Some m) = Some t ∧ FromBase64String t = Some s' ∧
    HasWireguard s' = HasWireguard (Some m) ∧ HasIPRose s' = HasIPRose (Some m) ∧ HasProxy s' = HasProxy (Some m) ∧
    HasAds s' = HasAds (Some m) ∧ Restrictions s' = Restrictions (Some m) ∧
    (∀ u, m !! ShapeUpstream_ = Some (AInt u) → ShapeUpstream (Some m) = (u, true) ∧ ShapeUpstream s' = (0, false)) ∧
    (∀ d, m !! ShapeDownstream_ = Some (AInt d) → ShapeDownstream (Some m) = (d, true) ∧ ShapeDownstream s' = (0, false)).
Proof.
  intros Hp. destruct (json_law m Hp) as (j & m' & Hj & Hu & Hnone & Hval).
  assert (∀ k, asBool (index (Some m') k) = asBool (index (Some m) k)) as Hb.
  { intros k. unfold index. cbn. destruct (m !! k) as [v|] eqn:E; [|by rewrite (proj2 (Hnone k) E)].
    specialize (Hval k v E). destruct v; cbn in *; try (by rewrite Hval); destruct Hval as [f ->]; done. }
  eexists _, (Some m'). unfold Base64String, FromBase64String, ent_JSON, ParseJSON. rewrite Hj. cbn [mbind option_bind].
  split; [done|]. rewrite base64_roundtrip by (by eapply Marshal_bytes). cbn [mbind option_bind]. split; [done|].
  unfold HasWireguard, HasIPRose, HasProxy, HasAds. rewrite !Hb. do 4 (split; [done|]). split; [|split].
  - unfold Restrictions. cbn [mbind option_bind]. destruct (m !! Restrictions_) as [v|] eqn:E; [|by rewrite (proj2 (Hnone _) E)].
    specialize (Hval _ v E). destruct v; cbv beta iota in *; try (by rewrite Hval); destruct Hval as [f ->]; done.
  - intros u E. specialize (Hval _ _ E). cbv beta iota in Hval. destruct Hval as [f Hf]. unfold ShapeUpstream, index. cbn [mbind option_bind].
    by rewrite E, Hf.
  - intros u E. specialize (Hval _ _ E). cbv beta iota in Hval. destruct Hval as [f Hf]. unfold ShapeDownstream, index. cbn [mbind option_bind].
    by rewrite E, Hf.
Qed.
End props.

(** ** Concrete runs *)

(** A toy encoder that keeps numbers as [float64]: the map as a positive, in bits. *)
Definition any_code (v : any) : nat * bytes * Z * bool :=
  match v with
  | ANil => (0%nat, [], 0, false) | ABool b => (1%nat, [], 0, b) | AString s => (2%nat, s, 0, false)
  | AInt z | AInt64 z | AInt32 z | AUint z | AUint64 z | AUint32 z | AFloat64 z => (3%nat, [], z, false)
  | AOther => (4%nat, [], 0, false)
  end.
Definition code_any (c : nat * bytes * Z * bool) : any :=
  match c with
  | (0%nat, _, _, _) => ANil | (1%nat, _, _, b) => ABool b | (2%nat, s, _, _) => AString s | (3%nat, _, z, _) => AFloat64 z | _ => AOther
  end.
Fixpoint bits (p : positive) : bytes := match p with xH => [] | xO p => 0 :: bits p | xI p => 1 :: bits p end.
Fixpoint unbits (l : bytes) : positive := match l with [] => xH | b :: l => if b =? 0 then xO (unbits l) else xI (unbits l) end.
Lemma unbits_bits p : unbits (bits p) = p.
Proof. induction p as [p IH|p IH|]; cbn; by rewrite ?IH. Qed.
Lemma bits_bytes p : is_bytes (bits p).
Proof. induction p; repeat constructor; (done || unfold in_u8; lia). Qed.

Abbreviation codes := (gmap bytes (nat * bytes * Z * bool)).
Definition toy_Marshal (s : Entitlements) : option bytes :=
  match s with Some m => Some (bits (encode (any_code <$> m : codes))) | None => None end.
Definition toy_Unmarshal (j : bytes) : option Entitlements :=
  match decode (unbits j) : option codes with Some m => Some (Some (code_any <$> m)) | None => None end.
Lemma toy_bytes s j : toy_Marshal s = Some j → is_bytes j.
Proof. destruct s as [m|]; cbn; [|done]. intros [= <-]. apply bits_bytes. Qed.
Lemma toy_law (m : gmap bytes any) : map_Forall (λ _, plainValue) m →
  ∃ j m', toy_Marshal (Some m) = Some j ∧ toy_Unmarshal j = Some (Some m') ∧
    (∀ k, m' !! k = None ↔ m !! k = None) ∧
    (∀ k v, m !! k = Some v → match v with AInt _ | AInt64 _ | AInt32 _ | AUint _ | AUint64 _ | AUint32 _ | AFloat64 _ =>
       ∃ f, m' !! k = Some (AFloat64 f) | _ => m' !! k = Some v end).
Proof.
  intros _. exists (bits (encode (any_code <$> m : codes))), (code_any <$> (any_code <$> m : codes)). split; [done|].
  split; [unfold toy_Unmarshal; by rewrite unbits_bits, decode_encode|].
  assert (∀ k, (code_any <$> (any_code <$> m : codes)) !! k = (code_any ∘ any_code) <$> m !! k) as H
    by (intros k; rewrite !lookup_fmap; by destruct (m !! k)).
  split; [intros k; rewrite H; by destruct (m !! k)|]. intros k v E. rewrite H, E. destruct v; cbn; eauto.
Qed.
#[local] Instance toy_json : JSON := {|
  Marshal := toy_Marshal; Unmarshal := toy_Unmarshal; Marshal_bytes := toy_bytes; json_law := toy_law |}.

Definition shaped : gmap bytes any := <[ShapeUpstream_ := AInt 100]> {[ Ads := ABool true ]}.

Lemma base64_settings_witness :
  ∃ t s', Base64String (Some shaped) = Some t ∧ FromBase64String t = Some s' ∧ HasAds s' = true ∧
    ShapeUpstream (Some shaped) = (100, true) ∧ ShapeUpstream s' = (0, false).
Proof.
  destruct (base64_settings shaped) as (t & s' & H1 & H2 & _ & _ & _ & H3 & _ & H4 & _).
  - unfold shaped. apply map_Forall_insert_2; [exact I|]. apply map_Forall_singleton. exact I.
  - destruct (H4 100) as [H5 H6]; [reflexivity|]. exists t, s'. split; [exact H1|]. split; [exact H2|].
    split; [rewrite H3; reflexivity|]. split; [exact H5|exact H6].
Defined.
