(* ===== verification/Limits.v ===== *)
(** * xlimits, shaper: limits on connections, on recent events and on bandwidth

    Models [src/xlimits/blocker.go] (a semaphore per consumer, created and removed on
    demand, as a step relation over the lock sections of any number of goroutines),
    [src/xlimits/recent.go] (counters in an expiring table) and [src/shaper] (a bucket that
    is measured in time).  The semaphore and the table are libraries: classes. *)
From S2P Require Import Prelude Text XError.

Local Open Scope Z_scope.

(** ** blocker.go *)
Module Blocker.
(** golang.org/x/sync/semaphore: [TryAcquire] is the moment at which [Acquire] succeeds;
    releasing more than is held panics. *)
Class Semaphore (S : Type) := {
  NewWeighted : Z → S;
  TryAcquire : S → option S;
  Release1 : S → option S;
  held : S → Z;
  sem_new n : held (NewWeighted n) = 0;
  sem_acquire s s' : TryAcquire s = Some s' → held s' = held s + 1;
  sem_release s : 0 < held s → ∃ s', Release1 s = Some s' ∧ held s' = held s - 1;
  sem_cap : S → Z;
  sem_cap_new n : sem_cap (NewWeighted n) = n;
  sem_cap_acquire s s' : TryAcquire s = Some s' → sem_cap s' = sem_cap s;
  sem_cap_release s s' : Release1 s = Some s' → sem_cap s' = sem_cap s;
  sem_limit s s' : TryAcquire s = Some s' → held s < sem_cap s;
  sem_free s : held s < sem_cap s → is_Some (TryAcquire s) }.

Section blocker.
Context {S : Type} `{!Semaphore S}.

Record consumer := mkConsumer { limit : S; usage : Z }.
(** Consumers are shared by pointer; [fresh] is the next pointer. *)
Record Blocker := mkBlocker { maxConn : Z; consumers : gmap bytes nat; heap : gmap nat consumer; fresh : nat }.

Definition NewBlocker (maxConn : Z) : Blocker := mkBlocker maxConn ∅ ∅ 0.

Definition setConsumer (p : nat) (c : consumer) (s : Blocker) : Blocker :=
  mkBlocker (maxConn s) (consumers s) (<[p := c]> (heap s)) (fresh s).

(** Under the lock: the consumer of the name, a new one if there is none. *)
Definition take (id : bytes) (s : Blocker) : option (nat * Blocker) :=
  match consumers s !! id with
  | Some p => c ← heap s !! p; Some (p, setConsumer p (mkConsumer (limit c) (usage c + 1)) s)
  | None =>
      let p := fresh s in
      let c := mkConsumer (NewWeighted (maxConn s)) 0 in
      let s := mkBlocker (maxConn s) (<[id := p]> (consumers s)) (heap s) (p + 1)%nat in
      Some (p, setConsumer p (mkConsumer (limit c) (usage c + 1)) s)
  end.

Definition put (id : bytes) (s : Blocker) : option Blocker :=
  match consumers s !! id with
  | None => Some s
  | Some p =>
      c ← heap s !! p;
      let s := setConsumer p (mkConsumer (limit c) (usage c - 1)) s in
      Some (if usage c - 1 =? 0 then mkBlocker (maxConn s) (delete id (consumers s)) (heap s) (fresh s) else s)
  end.

(** Where a goroutine is inside [Acquire] and [Release]: waiting for the semaphore, its
    context done before it was granted, holding, or released but not yet put back. *)
Inductive phase := Waiting (id : bytes) (p : nat) | Failed (id : bytes) (p : nat) | Holding (id : bytes) (p : nat) | Released (id : bytes) (p : nat).

(** [g] is the goroutine; the semaphore's operations are steps of their own. *)
Inductive step : Blocker * gmap nat phase → Blocker * gmap nat phase → Prop :=
  | Acquire_take g id p s s' t : t !! g = None → take id s = Some (p, s') → step (s, t) (s', <[g := Waiting id p]> t)
  | Acquire_grant g id p c l s t : t !! g = Some (Waiting id p) → heap s !! p = Some c → TryAcquire (limit c) = Some l →
      step (s, t) (setConsumer p (mkConsumer l (usage c)) s, <[g := Holding id p]> t)
  | Acquire_cancel g id p s t : t !! g = Some (Waiting id p) → step (s, t) (s, <[g := Failed id p]> t)
  | Acquire_fail g id p s s' t : t !! g = Some (Failed id p) → put id s = Some s' → step (s, t) (s', delete g t)
  | Release_sem g id p c l s t : t !! g = Some (Holding id p) → heap s !! p = Some c → Release1 (limit c) = Some l →
      step (s, t) (setConsumer p (mkConsumer l (usage c)) s, <[g := Released id p]> t)
  | Release_put g id p s s' t : t !! g = Some (Released id p) → put id s = Some s' → step (s, t) (s', delete g t).
End blocker.
End Blocker.

(** ** recent.go *)
Module Recent.
(** cache2go: what the table contains at the moment; reading keeps it, and entries vanish
    when their time has passed. *)
Class CacheTable (T : Type) := {
  contents : T → gmap bytes nat;
  Value : bytes → T → option nat * T;
  Add : bytes → Z → nat → T → T;
  Delete : bytes → T → T;
  table_value k t : Value k t = (contents t !! k, (Value k t).2) ∧ contents (Value k t).2 = contents t;
  table_add k d p t : contents (Add k d p t) = <[k := p]> (contents t);
  table_delete k t : contents (Delete k t) = delete k (contents t) }.

Section recent.
Context {T : Type} `{!CacheTable T}.
(** The entries are pointers to counters. *)
Record Recent := mkRecent { recent : T; counters : gmap nat Z; nextPtr : nat; max : Z; period : Z }.

(** [cache2go.Cache] makes the table. *)
Definition NewRecent (Cache : T) (max : Z) (period : Z) : Recent := mkRecent Cache ∅ 0 max period.

(** Entries always point to a counter, so the nil pointer of the source does not occur. *)
Definition Hit (ip : bytes) (r : Recent) : bool * Recent :=
  if bool_decide (ip = []) then (false, r)
  else
    let '(cached, t) := Value ip (recent r) in
    match cached ≫= λ p, (λ n, (p, n)) <$> counters r !! p with
    | Some (p, n) =>
        let n := i64 (n + 1) in
        (max r <? n, mkRecent t (<[p := n]> (counters r)) (nextPtr r) (max r) (period r))
    | None =>
        let p := nextPtr r in
        (max r <? 1, mkRecent (Add ip (period r) p t) (<[p := 1]> (counters r)) (p + 1)%nat (max r) (period r))
    end.

Definition Undo (ip : bytes) (r : Recent) : Z * Recent :=
  if bool_decide (ip = []) then (0, r)
  else
    let '(cached, t) := Value ip (recent r) in
    match cached ≫= λ p, (λ n, (p, n)) <$> counters r !! p with
    | None => (0, mkRecent t (counters r) (nextPtr r) (max r) (period r))
    | Some (p, n) =>
        let n := i64 (n - 1) in
        let t := if n =? 0 then Delete ip t else t in
        (n, mkRecent t (<[p := n]> (counters r)) (nextPtr r) (max r) (period r))
    end.
End recent.
End Recent.

(** ** shaper *)
Module TimeBucket.
Definition Millisecond : Z := 10 ^ 6.
Definition Microsecond : Z := 10 ^ 3.

Record TimeBucket := mkBucket { depth : time; burst : Z; kiBps : Z }.

(** [None] is the panic of the constructor; division truncates. *)
Definition NewTimeBucket (speedKiBps burstKiB : Z) : option TimeBucket :=
  if (speedKiBps <=? 0) || (burstKiB <=? 0) then None
  else Some (mkBucket time_zero (i64 (Millisecond * (Z.quot (i64 (Z.shiftl burstKiB 10)) speedKiBps))) speedKiBps).

(** A call at time [now]: the bucket, and how long the caller waits if it does not return at
    once; the lock is held until it returns.  [None] for the bucket is the nil pointer. *)
Definition Shape (length : Z) (now : time) (s : option TimeBucket) : option TimeBucket * option Z :=
  match s with
  | None => (None, None)
  | Some s =>
      let depth := if burst s <? Sub now (depth s) then now - burst s else depth s in
      let need := i64 (Microsecond * (Z.quot (i64 (Z.shiftl length 10)) (kiBps s))) in
      let depth := depth + need in
      let s := mkBucket depth (burst s) (kiBps s) in
      if After now depth then (Some s, None) else (Some s, Some (Sub depth now))
  end.
(** The result: false only when the context ended before the wait did. *)
Definition Shape_result (await : option Z) (ctxDoneFirst : bool) : bool :=
  match await with None => true | Some _ => negb ctxDoneFirst end.
Definition noShape_Shape (length : Z) : bool := true.
End TimeBucket.
