(* ===== verification/LimitsProps.v ===== *)
(** * xlimits, shaper: the limits hold *)
From stdpp Require Import relations.
From S2P Require Import Prelude Text XError Limits.

Local Open Scope Z_scope.

(** ** Counting entries of a map *)
Section count.
Context {A : Type} (P : A → Prop) `{!∀ x, Decision (P x)}.
Definition count (t : gmap nat A) : Z := Z.of_nat (size (filter (λ kv : nat * A, P kv.2) t)).
Definition ind (o : option A) : Z := match o with Some x => if decide (P x) then 1 else 0 | None => 0 end.

Lemma count_fresh t g x : t !! g = None → count (<[g := x]> t) = count t + ind (Some x).
Proof.
  intros Hg. unfold count. cbn [ind]. destruct (decide (P x)).
  - rewrite map_filter_insert_True by done. rewrite map_size_insert_None; [lia|]. apply map_lookup_filter_None. by left.
  - rewrite map_filter_insert_False by done. rewrite delete_id by done. lia.
Qed.
Lemma count_delete t g : count (delete g t) = count t - ind (t !! g).
Proof.
  destruct (t !! g) as [x|] eqn:E; [|rewrite delete_id by done; cbn; lia].
  assert (count (<[g := x]> (delete g t)) = count (delete g t) + ind (Some x)) as Hc by (apply count_fresh; apply lookup_delete_eq).
  rewrite insert_delete_id in Hc by done. lia.
Qed.
Lemma count_replace t g x : count (<[g := x]> t) = count t - ind (t !! g) + ind (Some x).
Proof. rewrite <-insert_delete_eq, count_fresh by apply lookup_delete_eq. by rewrite count_delete. Qed.
Lemma ind_range o : 0 ≤ ind o ≤ 1.
Proof. destruct o as [x|]; cbn; [case_decide|]; lia. Qed.
Lemma count_nonneg t : 0 ≤ count t.
Proof. unfold count. lia. Qed.
Lemma count_empty : count ∅ = 0.
Proof. unfold count. by rewrite map_filter_empty, map_size_empty. Qed.
Lemma count_zero t : (∀ g x, t !! g = Some x → ¬ P x) → count t = 0.
Proof.
  intros Hz. unfold count. assert (filter (λ kv : nat * A, P kv.2) t = ∅) as ->; [|done].
  apply map_empty. intros g. apply map_lookup_filter_None. right. intros x Hx. by eapply Hz.
Qed.
Lemma count_pos t g x : t !! g = Some x → P x → 0 < count t.
Proof.
  intros Hg Hx. pose proof (count_delete t g) as Hc. rewrite Hg in Hc. cbn [ind] in Hc. rewrite decide_True in Hc by done.
  pose proof (count_nonneg (delete g t)). lia.
Qed.
End count.

Module BlockerProps.
Import Blocker.
Section blocker.
Context {S : Type} `{!Semaphore S}.
Implicit Types (s : @Blocker S) (t : gmap nat phase) (id : bytes).

Definition ph_id (ph : phase) : bytes := match ph with Waiting id _ | Failed id _ | Holding id _ | Released id _ => id end.
Definition ph_ptr (ph : phase) : nat := match ph with Waiting _ p | Failed _ p | Holding _ p | Released _ p => p end.
(** The goroutines that use a name, and those that hold one of its places. *)
Definition uses id (ph : phase) : Prop := ph_id ph = id.
Definition holds id (ph : phase) : Prop := match ph with Holding id' _ => id' = id | _ => False end.
#[global] Instance uses_dec id ph : Decision (uses id ph).
Proof. unfold uses. apply _. Defined.
#[global] Instance holds_dec id ph : Decision (holds id ph).
Proof. destruct ph; cbn; apply _. Defined.

(** The consumer of a name counts the goroutines that use it; its semaphore counts the
    holders. *)
Definition consumer_ok (max : Z) t id (c : @consumer S) : Prop :=
  usage c = count (uses id) t ∧ 0 < usage c ∧ held (limit c) = count (holds id) t ∧
  sem_cap (limit c) = max ∧ held (limit c) ≤ Z.max 0 max.

Record inv (max : Z) (st : @Blocker S * gmap nat phase) : Prop := mkInv {
  inv_max : maxConn st.1 = max;
  inv_ptr : ∀ g ph, st.2 !! g = Some ph → consumers st.1 !! ph_id ph = Some (ph_ptr ph);
  inv_con : ∀ id p, consumers st.1 !! id = Some p → (p < fresh st.1)%nat ∧ ∃ c, heap st.1 !! p = Some c ∧ consumer_ok max st.2 id c;
  inv_inj : ∀ id1 id2 p, consumers st.1 !! id1 = Some p → consumers st.1 !! id2 = Some p → id1 = id2 }.

Lemma inv_new max : inv max (NewBlocker max, ∅).
Proof. split; cbn; [done|..]; intros *; by rewrite lookup_empty. Qed.

(** A name without consumer has no goroutines. *)
Lemma no_consumer max s t id : inv max (s, t) → consumers s !! id = None → count (uses id) t = 0 ∧ count (holds id) t = 0.
Proof.
  intros Hi Hn. assert (∀ g x, t !! g = Some x → ¬ uses id x) as H.
  { intros g x Hg Hu. apply (inv_ptr _ _ Hi) in Hg. cbn in Hg. rewrite Hu in Hg. congruence. }
  split; apply count_zero; [done|]. intros g x Hg Hh. apply (H g x Hg). by destruct x.
Qed.

(** Other names are not affected by what happens to a goroutine of [id]. *)
Lemma count_other (P : bytes → phase → Prop) `{!∀ id ph, Decision (P id ph)} t g id id' (o : option phase) :
  (∀ i ph, P i ph → ph_id ph = i) → id' ≠ id →
  (∀ ph, t !! g = Some ph → ph_id ph = id) → (∀ ph, o = Some ph → ph_id ph = id) →
  count (P id') (match o with Some ph => <[g := ph]> t | None => delete g t end) = count (P id') t.
Proof.
  intros HP Hne Hold Hnew. assert (∀ o', (∀ ph, o' = Some ph → ph_id ph = id) → ind (P id') o' = 0) as H0.
  { intros [ph|] Ho; [|done]. cbn. rewrite decide_False; [done|]. intros Hp%HP. apply Hne. rewrite <-Hp. by apply Ho. }
  destruct o as [ph|]; rewrite ?count_replace, ?count_delete, (H0 (t !! g)) by done; [rewrite H0 by done|]; lia.
Qed.

Lemma uses_id i ph : uses i ph → ph_id ph = i.
Proof. done. Qed.
Lemma holds_id i ph : holds i ph → ph_id ph = i.
Proof. by destruct ph. Qed.

(** The invariant after a step of a goroutine of [id] that replaced the consumer at [p]. *)
Lemma inv_update max s t g id p c' (o : option phase) :
  inv max (s, t) → consumers s !! id = Some p →
  (∀ ph, t !! g = Some ph → ph_id ph = id) → (∀ ph, o = Some ph → ph_id ph = id ∧ ph_ptr ph = p) →
  let t' := match o with Some ph => <[g := ph]> t | None => delete g t end in
  consumer_ok max t' id c' → inv max (setConsumer p c' s, t').
Proof.
  intros Hi Hp Hold Hnew t' Hok. split; cbn [fst snd setConsumer maxConn consumers heap fresh].
  - apply (inv_max _ _ Hi).
  - intros g' ph Hg'. unfold t' in Hg'. destruct (decide (g' = g)) as [->|Hne].
    + destruct o as [ph'|]; [rewrite lookup_insert_eq in Hg'; injection Hg' as <-; by destruct (Hnew ph' eq_refl) as [-> ->]|].
      by rewrite lookup_delete_eq in Hg'.
    + destruct o; rewrite ?lookup_insert_ne, ?lookup_delete_ne in Hg' by done; by apply (inv_ptr _ _ Hi) in Hg'.
  - intros id' p' Hp'. destruct (inv_con _ _ Hi id' p' Hp') as (Hf & c & Hc & Hcok). cbn [fst snd] in *. split; [done|].
    destruct (decide (id' = id)) as [->|Hne].
    + assert (p' = p) as -> by congruence. exists c'. by rewrite lookup_insert_eq.
    + assert (p' ≠ p) as Hpne by (intros ->; apply Hne; by eapply (inv_inj _ _ Hi)). exists c. rewrite lookup_insert_ne by done.
      split; [done|]. unfold consumer_ok, t' in *.
      rewrite (count_other uses t g id id' o uses_id), (count_other holds t g id id' o holds_id); try done; intros ph Hph; by apply Hnew.
  - apply (inv_inj _ _ Hi).
Qed.

(** The invariant after the last goroutine of [id] has gone. *)
Lemma inv_remove max s t g id p c' :
  inv max (s, t) → consumers s !! id = Some p → (∀ ph, t !! g = Some ph → ph_id ph = id) → count (uses id) (delete g t) = 0 →
  inv max (mkBlocker (maxConn s) (delete id (consumers s)) (<[p := c']> (heap s)) (fresh s), delete g t).
Proof.
  intros Hi Hp Hold H0. split; cbn [fst snd maxConn consumers heap fresh].
  - apply (inv_max _ _ Hi).
  - intros g' ph Hph. apply lookup_delete_Some in Hph as Hph'. destruct Hph' as [_ Hc]. apply (inv_ptr _ _ Hi) in Hc. cbn in Hc.
    rewrite lookup_delete_ne; [done|]. intros Heq. pose proof (count_pos (uses id) (delete g t) g' ph Hph (eq_sym Heq)). lia.
  - intros id' p' [Hne Hp']%lookup_delete_Some. destruct (inv_con _ _ Hi id' p' Hp') as (Hf & c & Hc & Hok). split; [done|].
    cbn [fst snd] in *. exists c. rewrite lookup_insert_ne by (intros ->; apply Hne; by eapply (inv_inj _ _ Hi)). split; [done|].
    unfold consumer_ok in *.
    by rewrite (count_other uses t g id id' None uses_id), (count_other holds t g id id' None holds_id) by done.
  - intros id1 id2 p' [_ H1]%lookup_delete_Some [_ H2]%lookup_delete_Some. exact (inv_inj _ _ Hi id1 id2 p' H1 H2).
Qed.

(** The counts of a name when one of its goroutines moves from [o] to [o']. *)
Lemma counts_move t g id (o' : option phase) :
  let t' := match o' with Some ph => <[g := ph]> t | None => delete g t end in
  count (uses id) t' = count (uses id) t - ind (uses id) (t !! g) + ind (uses id) o' ∧
  count (holds id) t' = count (holds id) t - ind (holds id) (t !! g) + ind (holds id) o'.
Proof. destruct o' as [ph|]; cbn zeta; rewrite ?count_replace, ?count_delete; split; cbn; lia. Qed.

Lemma ind_uses id ph : ph_id ph = id → ind (uses id) (Some ph) = 1.
Proof. intros H. cbn. by rewrite decide_True. Qed.
Lemma ind_holds id ph : ph_id ph = id → ind (holds id) (Some ph) = match ph with Holding _ _ => 1 | _ => 0 end.
Proof. intros H. cbn. destruct ph; cbn in *; (rewrite decide_True by done; done) || (by rewrite decide_False by tauto). Qed.

Lemma put_inv max s t g id p s' ph :
  inv max (s, t) → t !! g = Some ph → ph_id ph = id → ph_ptr ph = p → ¬ holds id ph → put id s = Some s' → inv max (s', delete g t).
Proof.
  intros Hi Hg Hid Hptr Hnh. pose proof (inv_ptr _ _ Hi g ph Hg) as Hp. cbn [fst] in Hp. rewrite Hid, Hptr in Hp.
  destruct (inv_con _ _ Hi id p Hp) as (Hf & c & Hc & (Hu & Hpos & Hh & Hcap & Hlim)). cbn [fst snd] in *.
  assert (∀ ph', t !! g = Some ph' → ph_id ph' = id) as Hold by (intros ph'; rewrite Hg; intros [= <-]; done).
  destruct (counts_move t g id None) as [Mu Mh]. rewrite Hg, ind_uses in Mu by done. rewrite Hg, ind_holds in Mh by done.
  assert (match ph with Holding _ _ => 1 | _ => 0 end = 0) as Hz by (by destruct ph). rewrite Hz in Mh. cbn [ind] in Mu, Mh.
  unfold put. rewrite Hp, Hc. cbn [mbind option_bind]. intros [= <-]. destruct (usage c - 1 =? 0) eqn:E.
  - apply Z.eqb_eq in E. apply inv_remove; try done. lia.
  - apply Z.eqb_neq in E. apply (inv_update max s t g id p _ None); try done. split; cbn [usage limit]; [lia|]. split; [lia|]. split; [lia|done].
Qed.

(** A goroutine changes its phase, and the semaphore of its consumer accordingly. *)
Lemma move_inv max s t g id p c l ph ph' :
  inv max (s, t) → t !! g = Some ph → ph_id ph = id → ph_ptr ph = p → ph_id ph' = id → ph_ptr ph' = p → heap s !! p = Some c →
  held l = held (limit c) - ind (holds id) (Some ph) + ind (holds id) (Some ph') → sem_cap l = sem_cap (limit c) → held l ≤ Z.max 0 max →
  inv max (setConsumer p (mkConsumer l (usage c)) s, <[g := ph']> t).
Proof.
  intros Hi Hg Hid Hptr Hid' Hptr' Hc Hheld Hcapl Hliml. pose proof (inv_ptr _ _ Hi g ph Hg) as Hp. cbn [fst] in Hp. rewrite Hid, Hptr in Hp.
  destruct (inv_con _ _ Hi id p Hp) as (Hf & c0 & Hc0 & (Hu & Hpos & Hh & Hcap & Hlim)). cbn [fst snd] in *. assert (c0 = c) as -> by congruence.
  destruct (counts_move t g id (Some ph')) as [Mu Mh]. rewrite Hg, !ind_uses in Mu by done. rewrite Hg in Mh.
  apply (inv_update max s t g id p _ (Some ph')); try done; [rewrite Hg; by intros x [= <-]|by intros x [= <-]|].
  split; cbn [usage limit]; [lia|]. split; [lia|]. split; [lia|]. split; [congruence|lia].
Qed.

(** The holders are counted by the semaphore of the goroutine's consumer. *)
Lemma phase_consumer max s t g ph c :
  inv max (s, t) → t !! g = Some ph → heap s !! ph_ptr ph = Some c → consumer_ok max t (ph_id ph) c.
Proof.
  intros Hi Hg Hc. pose proof (inv_ptr _ _ Hi g ph Hg) as Hp. cbn [fst] in Hp.
  destruct (inv_con _ _ Hi _ _ Hp) as (_ & c0 & Hc0 & Hok). cbn [fst snd] in *. by assert (c0 = c) as -> by congruence.
Qed.

Lemma take_inv max s t g id p s' : inv max (s, t) → t !! g = None → take id s = Some (p, s') → inv max (s', <[g := Waiting id p]> t).
Proof.
  intros Hi Hg Ht. destruct (counts_move t g id (Some (Waiting id p))) as [Mu Mh]. rewrite Hg, ind_uses in Mu by done.
  rewrite Hg, ind_holds in Mh by done. cbn [ind] in Mu, Mh. unfold take in Ht. destruct (consumers s !! id) as [p0|] eqn:Ep.
  - destruct (inv_con _ _ Hi id p0 Ep) as (Hf & c & Hc & (Hu & Hpos & Hh & Hcap & Hlim)). cbn [fst snd] in *.
    rewrite Hc in Ht. cbn [mbind option_bind] in Ht. injection Ht as <- <-.
    apply (inv_update max s t g id p0 _ (Some (Waiting id p0))); try done; [by rewrite Hg|by intros ph [= <-]|].
    split; cbn [usage limit]; [lia|]. split; [lia|]. split; [lia|done].
  - injection Ht as <- <-. destruct (no_consumer max s t id Hi Ep) as [U0 H0].
    assert (∀ id' p', <[id := fresh s]> (consumers s) !! id' = Some p' → (id' = id ∧ p' = fresh s) ∨ (id' ≠ id ∧ consumers s !! id' = Some p')) as Hins.
    { intros id' p'. destruct (decide (id' = id)) as [->|]; [rewrite lookup_insert_eq; intros [= <-]; by left|rewrite lookup_insert_ne by done; by right]. }
    split; cbn [fst snd setConsumer maxConn consumers heap fresh].
    + apply (inv_max _ _ Hi).
    + intros g' ph Hg'. destruct (decide (g' = g)) as [->|]; [rewrite lookup_insert_eq in Hg'; injection Hg' as <-; cbn; by rewrite lookup_insert_eq|].
      rewrite lookup_insert_ne in Hg' by done. apply (inv_ptr _ _ Hi) in Hg'. cbn [fst] in Hg'. rewrite lookup_insert_ne; [done|]. intros Heq. rewrite <-Heq in Hg'. congruence.
    + intros id' p' [[-> ->]|[Hne Hp']]%Hins.
      * split; [lia|]. eexists. rewrite lookup_insert_eq. split; [done|]. unfold consumer_ok. cbn [usage limit].
        rewrite sem_new, sem_cap_new. pose proof (inv_max _ _ Hi). cbn in *. lia.
      * destruct (inv_con _ _ Hi id' p' Hp') as (Hf & c & Hc & Hok). cbn [fst snd] in *. split; [lia|]. exists c.
        rewrite lookup_insert_ne by lia. split; [done|]. unfold consumer_ok in *.
        pose proof (count_other uses t g id id' (Some (Waiting id (fresh s))) uses_id Hne) as C1.
        pose proof (count_other holds t g id id' (Some (Waiting id (fresh s))) holds_id Hne) as C2. cbn beta iota in C1, C2.
        rewrite C1, C2; [done|..]; (by rewrite Hg) || (by intros ph [= <-]).
    + intros id1 id2 p' [[-> ->]|[Hne1 H1]]%Hins [[-> H2']|[Hne2 H2]]%Hins; try done.
      * apply (inv_con _ _ Hi) in H2 as [? _]. cbn in *. lia.
      * subst p'. apply (inv_con _ _ Hi) in H1 as [? _]. cbn in *. lia.
      * by eapply (inv_inj _ _ Hi).
Qed.

Lemma step_inv max st st' : inv max st → step st st' → inv max st'.
Proof.
  intros Hi Hs. destruct Hs as [g id p s s' t Hg Ht|g id p c l s t Hg Hc Hl|g id p s t Hg|g id p s s' t Hg Hput|g id p c l s t Hg Hc Hl|g id p s s' t Hg Hput].
  - by eapply take_inv.
  - destruct (phase_consumer _ _ _ _ _ _ Hi Hg Hc) as (_ & _ & _ & Hcap & _).
    pose proof (sem_acquire _ _ Hl). pose proof (sem_limit _ _ Hl).
    eapply move_inv; try done; rewrite ?ind_holds by done; [lia|by apply sem_cap_acquire|lia].
  - pose proof (inv_ptr _ _ Hi g _ Hg) as Hp. cbn in Hp. destruct (inv_con _ _ Hi id p Hp) as (_ & c & Hc & (_ & _ & _ & _ & Hlim)). cbn [fst snd] in *.
    assert (s = setConsumer p (mkConsumer (limit c) (usage c)) s) as -> by (unfold setConsumer; rewrite insert_id by (by destruct c); by destruct s).
    eapply move_inv; try done; rewrite ?ind_holds by done; lia.
  - by eapply (put_inv max s t g id p s' (Failed id p)); [..|intros []|].
  - destruct (phase_consumer _ _ _ _ _ _ Hi Hg Hc) as (_ & _ & Hh & _ & Hlim).
    assert (0 < held (limit c)) as Hpos by (rewrite Hh; eapply count_pos; [exact Hg|done]).
    destruct (sem_release _ Hpos) as (l' & Hl' & Hheld). assert (l' = l) as -> by congruence.
    eapply move_inv; try done; rewrite ?ind_holds by done; [lia|by apply sem_cap_release|lia].
  - by eapply (put_inv max s t g id p s' (Released id p)); [..|intros []|].
Qed.

Lemma reachable_inv max st : rtc step (NewBlocker max, ∅) st → inv max st.
Proof.
  intros H. assert (∀ st0, inv max st0 → rtc step st0 st → inv max st) as Hind by (intros st0 H0; induction 1; [done|]; eauto using step_inv).
  eapply Hind; [apply inv_new|done].
Qed.

(** C22: in every interleaving of any number of goroutines at most [maxConn] of them hold a
    place under the same name; a name has an entry exactly while some goroutine uses it;
    a holder can always release without a panic; and as long as fewer than the limit
    hold a place, a waiting goroutine can be granted one. *)
Theorem blocker_limit max s t :
  0 ≤ max → rtc step (NewBlocker max, ∅) (s, t) →
  (∀ id, count (holds id) t ≤ max) ∧
  (∀ id, consumers s !! id = None ↔ count (uses id) t = 0) ∧
  (∀ g id p, t !! g = Some (Holding id p) → ∃ s', step (s, t) (s', <[g := Released id p]> t)) ∧
  (∀ g id p, t !! g = Some (Waiting id p) → count (holds id) t < max → ∃ s', step (s, t) (s', <[g := Holding id p]> t)).
Proof.
  intros Hm Hr. apply reachable_inv in Hr as Hi. split; [|split; [|split]].
  - intros id. destruct (consumers s !! id) as [p|] eqn:Ep; [|destruct (no_consumer max s t id Hi Ep); lia].
    destruct (inv_con _ _ Hi id p Ep) as (_ & c & _ & (_ & _ & Hh & _ & Hlim)). cbn [snd] in Hh. lia.
  - intros id. destruct (consumers s !! id) as [p|] eqn:Ep.
    + destruct (inv_con _ _ Hi id p Ep) as (_ & c & _ & (Hu & Hpos & _)). cbn [snd] in Hu. split; [done|lia].
    + by destruct (no_consumer max s t id Hi Ep).
  - intros g id p Hg. pose proof (inv_ptr _ _ Hi g _ Hg) as Hp. cbn in Hp. destruct (inv_con _ _ Hi id p Hp) as (_ & c & Hc & (_ & _ & Hh & _)). cbn [fst snd] in *.
    destruct (sem_release (limit c)) as (l & Hl & _); [rewrite Hh; eapply count_pos; [exact Hg|done]|]. eexists. by eapply Release_sem.
  - intros g id p Hg Hlt. pose proof (inv_ptr _ _ Hi g _ Hg) as Hp. cbn in Hp. destruct (inv_con _ _ Hi id p Hp) as (_ & c & Hc & (_ & _ & Hh & Hcap & _)). cbn [fst snd] in *.
    destruct (sem_free (limit c)) as [l Hl]; [lia|]. eexists. by eapply Acquire_grant.
Qed.
End blocker.
End BlockerProps.

Module RecentProps.
Import Recent.
Section recent.
Context {T : Type} `{!CacheTable T}.
Implicit Types (r : @Recent T) (ip : bytes).

(** The number an address is at. *)
Definition cnt r ip : Z := default 0 (contents (recent r) !! ip ≫= λ p, counters r !! p).

Record ok r : Prop := mkOk {
  ok_ptr : ∀ ip p, contents (recent r) !! ip = Some p → (p < nextPtr r)%nat ∧ ∃ n, counters r !! p = Some n ∧ 1 ≤ n < 2 ^ 63 - 1;
  ok_inj : ∀ ip1 ip2 p, contents (recent r) !! ip1 = Some p → contents (recent r) !! ip2 = Some p → ip1 = ip2 }.

Lemma cnt_some r ip p : contents (recent r) !! ip = Some p → cnt r ip = default 0 (counters r !! p).
Proof. unfold cnt. intros ->. done. Qed.
Lemma cnt_none r ip : contents (recent r) !! ip = None → cnt r ip = 0.
Proof. unfold cnt. intros ->. done. Qed.

(** What the table returns when it is read. *)
Lemma value_spec ip t : ∃ t', Value ip t = (contents t !! ip, t') ∧ contents t' = contents t.
Proof. destruct (table_value ip t) as [H1 H2]. by exists (Value ip t).2. Qed.

(** A new value for the counter of [ip], in a table with the same entries. *)
Lemma set_counter r ip p n t' :
  ok r → contents (recent r) !! ip = Some p → contents t' = contents (recent r) → 1 ≤ n < 2 ^ 63 - 1 →
  let r' := mkRecent t' (<[p := n]> (counters r)) (nextPtr r) (max r) (period r) in
  ok r' ∧ ∀ ip', cnt r' ip' = if decide (ip' = ip) then n else cnt r ip'.
Proof.
  intros [Hp Hinj] Hip Ht Hn r'. split; [split|]; cbn [r' recent counters nextPtr]; rewrite ?Ht.
  - intros ip' p' Hip'. destruct (Hp _ _ Hip') as (Hlt & m & Hm & Hb). split; [done|].
    destruct (decide (p' = p)) as [->|]; [rewrite lookup_insert_eq|rewrite lookup_insert_ne by done]; eauto.
  - exact Hinj.
  - intros ip'. unfold cnt. cbn [r' recent counters]. rewrite Ht. case_decide as E; [subst ip'; rewrite Hip; cbn; by rewrite lookup_insert_eq|].
    destruct (contents (recent r) !! ip') as [p'|] eqn:Ep; [|done]. cbn. rewrite lookup_insert_ne; [done|]. intros <-. apply E. by eapply Hinj.
Qed.

Lemma other_ptr r ip p ip' p' : ok r → contents (recent r) !! ip = Some p → ip' ≠ ip → contents (recent r) !! ip' = Some p' → p' ≠ p.
Proof. intros Hok Hip Hne Hip' ->. apply Hne. by eapply (ok_inj r Hok). Qed.
Lemma fresh_ptr r ip p : ok r → contents (recent r) !! ip = Some p → p ≠ nextPtr r.
Proof. intros Hok Hip ->. apply (ok_ptr r Hok) in Hip as [? _]. lia. Qed.

(** A first hit: a new entry with a new counter. *)
Lemma new_counter r ip t' :
  ok r → contents t' = <[ip := nextPtr r]> (contents (recent r)) →
  let r' := mkRecent t' (<[nextPtr r := 1]> (counters r)) (nextPtr r + 1)%nat (max r) (period r) in
  ok r' ∧ ∀ ip', cnt r' ip' = if decide (ip' = ip) then 1 else cnt r ip'.
Proof.
  intros Hok Ha r'. split; [split|]; cbn [r' recent counters nextPtr]; rewrite ?Ha.
  - intros ip' p'. rewrite lookup_insert. case_decide; [intros [= <-]; split; [lia|]; exists 1; rewrite lookup_insert_eq; split; [done|lia]|].
    intros Hx. destruct (ok_ptr r Hok _ _ Hx) as (Hl & m & Hm & Hbm). split; [lia|]. exists m.
    rewrite lookup_insert_ne by (symmetry; by eapply fresh_ptr). done.
  - intros ip1 ip2 p'. rewrite !lookup_insert. repeat case_decide; try congruence.
    + intros [= <-] H2. by apply (fresh_ptr r _ _ Hok) in H2.
    + intros H1 [= <-]. by apply (fresh_ptr r _ _ Hok) in H1.
    + apply (ok_inj r Hok).
  - intros ip'. unfold cnt. cbn [r' recent counters]. rewrite Ha. case_decide as Ei; [subst; rewrite lookup_insert_eq; cbn; by rewrite lookup_insert_eq|].
    rewrite lookup_insert_ne by done. destruct (contents (recent r) !! ip') as [p'|] eqn:Ep'; [|done]. cbn. rewrite lookup_insert_ne; [done|].
    symmetry. by eapply fresh_ptr.
Qed.

(** The last hit undone: the entry is removed. *)
Lemma drop_counter r ip p t' :
  ok r → contents (recent r) !! ip = Some p → contents t' = delete ip (contents (recent r)) →
  let r' := mkRecent t' (<[p := 0]> (counters r)) (nextPtr r) (max r) (period r) in
  ok r' ∧ ∀ ip', cnt r' ip' = if decide (ip' = ip) then 0 else cnt r ip'.
Proof.
  intros Hok Ep Hd r'. split; [split|]; cbn [r' recent counters nextPtr]; rewrite ?Hd.
  - intros ip' p' [Hx Hy]%lookup_delete_Some. destruct (ok_ptr r Hok _ _ Hy) as (Hl & m & Hm & Hbm). split; [done|].
    exists m. rewrite lookup_insert_ne by (symmetry; by eapply other_ptr). done.
  - intros ip1 ip2 p' [_ H1]%lookup_delete_Some [_ H2]%lookup_delete_Some. by eapply (ok_inj r Hok).
  - intros ip'. unfold cnt. cbn [r' recent counters]. rewrite Hd. case_decide as Ei; [subst; by rewrite lookup_delete_eq|]. rewrite lookup_delete_ne by done.
    destruct (contents (recent r) !! ip') as [p'|] eqn:Ep'; [|done]. cbn. rewrite lookup_insert_ne; [done|]. symmetry. by eapply other_ptr.
Qed.

(** The counters count: a hit counts one more for its address and none for others, and
    tells whether the limit is exceeded; undoing takes one back, never below zero. *)
Theorem recent_counts r ip :
  ok r → ip ≠ [] → cnt r ip < 2 ^ 63 - 2 →
  (let '(over, r') := Hit ip r in
   ok r' ∧ over = (max r <? cnt r ip + 1) ∧ ∀ ip', cnt r' ip' = if decide (ip' = ip) then cnt r ip + 1 else cnt r ip') ∧
  (let '(rest, r') := Undo ip r in
   ok r' ∧ rest = Z.max 0 (cnt r ip - 1) ∧ ∀ ip', cnt r' ip' = if decide (ip' = ip) then Z.max 0 (cnt r ip - 1) else cnt r ip').
Proof.
  intros Hok Hne Hlt. destruct (value_spec ip (recent r)) as (t' & Hv & Ht). unfold Hit, Undo. rewrite bool_decide_eq_false_2, Hv by done.
  destruct (contents (recent r) !! ip) as [p|] eqn:Ep; cbn [mbind option_bind].
  - destruct (ok_ptr r Hok _ _ Ep) as (Hpl & n & Hn & Hb). rewrite (cnt_some r ip p Ep), Hn in *. cbn [default fmap option_fmap option_map from_option id] in *.
    rewrite !i64_small by (unfold in_i64; lia). split.
    + by destruct (set_counter r ip p (n + 1) t' Hok Ep Ht ltac:(lia)) as [H1 H2].
    + replace (Z.max 0 (n - 1)) with (n - 1) by lia. destruct (n - 1 =? 0) eqn:E.
      * apply Z.eqb_eq in E. rewrite E. destruct (drop_counter r ip p (Delete ip t') Hok Ep) as [H1 H2]; [by rewrite table_delete, Ht|done].
      * apply Z.eqb_neq in E. by destruct (set_counter r ip p (n - 1) t' Hok Ep Ht ltac:(lia)) as [H1 H2].
  - rewrite (cnt_none r ip Ep) in *. split.
    + destruct (new_counter r ip (Add ip (period r) (nextPtr r) t') Hok) as [H1 H2]; [by rewrite table_add, Ht|done].
    + split; [|split; [done|]].
      * destruct Hok as [H1 H2]. split; cbn; by rewrite Ht.
      * intros ip'. unfold cnt. cbn. rewrite Ht. case_decide; [subst; by rewrite Ep|done].
Qed.
End recent.
End RecentProps.

Module TimeBucketProps.
Import TimeBucket.
Implicit Types (b : TimeBucket) (calls : list (Z * time)).

(** The time that a length costs. *)
Definition need (k len : Z) : Z := Microsecond * (len * 1024 / k).
Fixpoint total (k : Z) calls : Z := match calls with [] => 0 | (len, _) :: calls => need k len + total k calls end.

(** Calls one after the other, as the lock forces them to be: the bucket after the last,
    and when that one returned. *)
Inductive shaped (b : TimeBucket) : list (Z * time) → TimeBucket → time → Prop :=
  | shaped_one len now b' w : Shape len now (Some b) = (Some b', w) → depth b ≤ now → shaped b [(len, now)] b' (now + default 0 w)
  | shaped_more calls b1 fin len now b' w :
      shaped b calls b1 fin → fin ≤ now → Shape len now (Some b1) = (Some b', w) → shaped b (calls ++ [(len, now)]) b' (now + default 0 w).

Definition call_ok (k : Z) (c : Z * time) : Prop := 0 ≤ c.1 < 2 ^ 53 ∧ need k c.1 < 2 ^ 62.

Lemma need_nonneg k len : 0 < k → 0 ≤ len → 0 ≤ need k len.
Proof. intros Hk Hl. unfold need, Microsecond. pose proof (Z.div_pos (len * 1024) k). lia. Qed.

Lemma total_snoc k calls len now : total k (calls ++ [(len, now)]) = total k calls + need k len.
Proof. induction calls as [|[l n] calls IH]; cbn [app total]; lia. Qed.

(** One call of a bucket that is not ahead of the clock. *)
Lemma shape_step b len now b' w :
  0 < kiBps b → 0 ≤ burst b < 2 ^ 62 → call_ok (kiBps b) (len, now) → depth b ≤ now →
  Shape len now (Some b) = (Some b', w) →
  kiBps b' = kiBps b ∧ burst b' = burst b ∧ depth b' = Z.max (depth b) (now - burst b) + need (kiBps b) len ∧
  now + default 0 w = Z.max now (depth b') ∧ default 0 w ≤ need (kiBps b) len.
Proof.
  intros Hk Hb [[Hl1 Hl2] Hn] Hd. cbn [fst] in *. pose proof (need_nonneg (kiBps b) len Hk Hl1) as Hn0. unfold Shape.
  rewrite Z.shiftl_mul_pow2 by lia. change (2 ^ 10) with 1024. rewrite (i64_small (len * 1024)) by (unfold in_i64; lia).
  rewrite Z.quot_div_nonneg by lia. rewrite i64_small by (unfold need, in_i64 in *; lia). fold (need (kiBps b) len).
  assert ((if burst b <? Sub now (depth b) then now - burst b else depth b) = Z.max (depth b) (now - burst b)) as ->
    by (unfold Sub; bcase; lia).
  unfold After. destruct (_ <? now) eqn:E; intros [= <- <-]; cbn [depth burst kiBps default from_option id]; bsplit.
  - split; [done|]. split; [done|]. split; [done|]. lia.
  - split; [done|]. split; [done|]. split; [done|]. unfold Sub. lia.
Qed.

(** The shaper keeps to its rate: over any sequence of calls, what they cost in time is
    at most the time from the first call to the return of the last plus the burst; and
    no call waits longer than it costs. *)
Theorem shape_rate b calls b' fin len0 start :
  0 < kiBps b → 0 ≤ burst b < 2 ^ 62 → Forall (call_ok (kiBps b)) calls → shaped b calls b' fin →
  head calls = Some (len0, start) →
  total (kiBps b) calls ≤ fin - start + burst b ∧
  ∀ len now b2 w, call_ok (kiBps b) (len, now) → fin ≤ now → Shape len now (Some b') = (Some b2, w) → default 0 w ≤ need (kiBps b) len.
Proof.
  intros Hk Hb Hall Hs Hstart.
  assert (kiBps b' = kiBps b ∧ burst b' = burst b ∧ start - burst b + total (kiBps b) calls ≤ depth b' ∧ depth b' ≤ fin) as (H1 & H2 & H3 & H4).
  { revert Hall Hstart. induction Hs as [len now b' w Hsh Hd|calls b1 fin len now b' w Hs IH Hfin Hsh]; intros Hall Hstart.
    - injection Hstart as <- <-. apply Forall_cons in Hall as [Hc _].
      destruct (shape_step _ _ _ _ _ Hk Hb Hc Hd Hsh) as (-> & -> & Hdep & Hw & _). cbn [total]. split; [done|]. split; [done|]. lia.
    - apply Forall_app in Hall as [Hall [Hc _]%Forall_cons]. destruct calls as [|c0 calls]; [by inversion Hs as [| ? ? ? ? ? ? ? ? ? ? E]; destruct calls|].
      destruct (IH Hall Hstart) as (K1 & B1 & D1 & F1). rewrite <-K1 in Hc.
      destruct (shape_step b1 len now b' w ltac:(lia) ltac:(lia) Hc ltac:(lia) Hsh) as (K2 & B2 & Hdep & Hw & _).
      split; [congruence|]. split; [congruence|]. rewrite total_snoc. rewrite K1 in Hdep. lia. }
  split; [lia|]. intros len now b2 w Hc Hn Hsh. rewrite <-H1 in Hc, Hk |- *.
  by destruct (shape_step b' len now b2 w Hk ltac:(lia) Hc ltac:(lia) Hsh) as (_ & _ & _ & _ & Hw).
Qed.
End TimeBucketProps.

(** ** Concrete runs *)
#[local] Instance zsem : Blocker.Semaphore (Z * Z).
Proof.
  refine {| Blocker.NewWeighted n := (0, n); Blocker.TryAcquire s := if s.1 <? s.2 then Some (s.1 + 1, s.2) else None;
    Blocker.Release1 s := if 0 <? s.1 then Some (s.1 - 1, s.2) else None; Blocker.held := fst; Blocker.sem_cap := snd |}; cbn; try done.
  - intros [a c] s'. cbn. bcase; [by intros [= <-]|done].
  - intros [a c] H. cbn in *. rewrite (proj2 (Z.ltb_lt _ _)) by done. by eexists.
  - intros [a c] s'. cbn. bcase; [by intros [= <-]|done].
  - intros [a c] s'. cbn. bcase; [by intros [= <-]|done].
  - intros [a c] s'. cbn. bcase; [lia|done].
  - intros [a c] H. cbn in *. rewrite (proj2 (Z.ltb_lt _ _)) by done. by eexists.
Defined.

Import Blocker BlockerProps TimeBucket TimeBucketProps.

Lemma blocker_limit_witness :
  ∃ s t, rtc step (NewBlocker (S := Z * Z) 2, ∅) (s, t) ∧ t !! 7%nat = Some (Holding (txt "u") 0) ∧ count (holds (txt "u")) t ≤ 2.
Proof.
  destruct (take (txt "u") (NewBlocker (S := Z * Z) 2)) as [[p s1]|] eqn:E; [|discriminate].
  assert (p = 0%nat) as -> by (vm_compute in E; congruence).
  eexists _, _. assert (rtc step (NewBlocker (S := Z * Z) 2, ∅) (setConsumer 0 (mkConsumer (1, 2) 1) s1, <[7%nat := Holding (txt "u") 0]> (<[7%nat := Waiting (txt "u") 0]> ∅))) as H.
  { eapply rtc_l; [by apply (Acquire_take 7%nat (txt "u") 0%nat _ s1 ∅)|]. eapply rtc_l; [|apply rtc_refl].
    apply (Acquire_grant 7%nat (txt "u") 0%nat (mkConsumer (0, 2) 1) (1, 2)); [by rewrite lookup_insert_eq| |reflexivity].
    vm_compute in E. injection E as <-. reflexivity. }
  split; [exact H|]. split; [by rewrite lookup_insert_eq|]. exact (proj1 (blocker_limit 2 _ _ ltac:(lia) H) (txt "u")).
Defined.

Definition b1 : TimeBucket := mkBucket 0 (100 * Millisecond) 1024.
Definition b1' : TimeBucket := mkBucket 1000000000000000 (100 * Millisecond) 1024.
Lemma b1_call : Shape 100000 1000000000000000 (Some b1) = (Some b1', Some 0).
Proof. vm_compute. reflexivity. Qed.
Lemma shape_rate_witness :
  shaped b1 [(100000, 1000000000000000)] b1' 1000000000000000 ∧
  total 1024 [(100000, 1000000000000000)] ≤ 1000000000000000 - 1000000000000000 + 100 * Millisecond.
Proof.
  assert (shaped b1 [(100000, 1000000000000000)] b1' 1000000000000000) as H
    by (apply (shaped_one b1 100000 1000000000000000 b1' (Some 0) b1_call); vm_compute; discriminate).
  split; [exact H|].
  refine (proj1 (shape_rate b1 _ b1' _ 100000 1000000000000000 _ _ _ H eq_refl)); [reflexivity|split; [discriminate|reflexivity]|].
  constructor; [|constructor]. split; [split; [discriminate|reflexivity]|vm_compute; reflexivity].
Defined.
