(* ===== verification/Geo.v ===== *)
(** * geoip: the address of a client and its country

    Models [src/geoip]: [remoteip.go] (which header or address names the client),
    [resolver.go], [db.go] and [instance.go] (a database that is reloaded when its file
    changes, as a step relation over the reloading goroutine and [Shutdown]).  The
    MaxMind reader is a parameter. *)
From S2P Require Import Prelude Text IPText XError HTTP.

Local Open Scope Z_scope.

(** ** net/http, net *)

(** [CanonicalMIMEHeaderKey] for names of letters, digits and dashes. *)
Fixpoint canonicalFrom (upper : bool) (s : bytes) : bytes :=
  match s with
  | [] => []
  | b :: s => (if upper then toUpperByte b else toLowerByte b) :: canonicalFrom (b =? 45) s
  end.
Definition canonicalKey (s : bytes) : bytes := canonicalFrom true s.
(** [r.Header.Get(name)] for a name in any case. *)
Definition hget (r : Request) (name : bytes) : bytes := headerGet (ReqHeader r) (canonicalKey name).

(** ** remoteip.go *)
Definition GetForwardedIP (r : Request) : bytes :=
  let header := hget r (txt "X-Forwarded-For") in
  let addrs := Split 44 (filter (λ b, b ≠ 32) header) in
  default [] (last addrs).
Definition GetRealIP (r : Request) : bytes := hget r (txt "X-Real-Ip").
Definition GetRemoteAddr (r : Request) : bytes :=
  match SplitHostPort (RemoteAddr r) with None => [] | Some (addr, _) => addr end.

Definition DefaultIPAddressParsers : list (Request → bytes) := [GetForwardedIP; GetRealIP; GetRemoteAddr].

(** Secrets are a map from header names; they are tried in some order. *)
Definition hasValidCDNSecret (r : Request) (cdnSecrets : list (bytes * bytes)) : bool :=
  if zlen cdnSecrets =? 0 then true
  else existsb (λ '(header, secret), bool_decide (hget r header = secret)) cdnSecrets.
Definition GetRemoteIPFromCDN (r : Request) (secrets : list (bytes * bytes)) : bytes :=
  if negb (hasValidCDNSecret r secrets) then [] else GetForwardedIP r.
Definition CDNSecretIPParser (secrets : list (bytes * bytes)) : Request → bytes := λ r, GetRemoteIPFromCDN r secrets.

(** An option replaces the list of parsers. *)
Definition WithIPParser (ipParsers : list (Request → bytes)) : list (Request → bytes) → list (Request → bytes) := λ _, ipParsers.
Fixpoint firstIP (parsers : list (Request → bytes)) (r : Request) : bytes :=
  match parsers with
  | [] => []
  | parseIP :: parsers => let ip := parseIP r in if bool_decide (ip ≠ []) then ip else firstIP parsers r
  end.
Definition GetRemoteIP (r : Request) (opts : list (list (Request → bytes) → list (Request → bytes))) : bytes :=
  let parsers := foldl (λ p opt, opt p) [] opts in
  let parsers := if zlen parsers =? 0 then DefaultIPAddressParsers else parsers in
  firstIP parsers r.

(** ** resolver.go and the lookups of instance.go *)
Section resolver.
Context {env : Env}.
(** The lookup in the database that is installed, [None] when there is none (it was never
    started, or stopped). *)
Context (lookup : option (bytes → go goerror bytes)).

Definition GetCountry (ip : bytes) : go goerror bytes :=
  match lookup with
  | None => throw (EInternalError (txt "maxmind database instance was stopped or never started") NilError [])
  | Some db =>
      match db ip with
      | Ok code => Ok code
      | Err err => throw (EInternalError (txt "can't lookup country") err [])
      | Panic => Panic
      end
  end.

(** [started]: the pointer to the instance is not nil. *)
Definition TryGetCountryFromRequest (started : bool) (r : Request) : option bytes :=
  if negb started then Some []
  else match net_ParseIP (GetRemoteIP r []) with
  | None => Some []
  | Some ip =>
      match GetCountry ip with
      | Ok country => Some country
      | Err _ => Some []
      | Panic => None
      end
  end.

Record Info := mkInfo { Country : bytes }.
Record Resolver := mkResolver { hasGeo : bool; CDNSecrets : list (bytes * bytes) }.
Definition GetInfo (s : option Resolver) (r : Request) : option Info :=
  match s with
  | None => Some (mkInfo [])
  | Some s =>
      if negb (hasGeo s) then Some (mkInfo [])
      else
        let ip := GetRemoteIP r [WithIPParser [CDNSecretIPParser (CDNSecrets s); GetRemoteAddr]] in
        if bool_decide (ip = []) then Some (mkInfo [])
        else match net_ParseIP ip with
        | None => Some (mkInfo [])
        | Some addr =>
            match GetCountry addr with
            | Ok country => Some (mkInfo (ToLower country))
            | Err _ => Some (mkInfo (ToLower []))
            | Panic => None
            end
        end
  end.
End resolver.

(** ** db.go: a database is a reader that can be closed *)
Section db.
Context {env : Env} {Reader : Type} (reader_Lookup : Reader → bytes → go goerror bytes) (reader_Close : Reader → goerror).
(** The lock makes every method atomic; [None] is a nil reader. *)
Record db := mkDb { reader : option Reader }.
Definition newDb (r : Reader) : db := mkDb (Some r).
Definition db_Lookup (s : db) (ip : bytes) : go goerror bytes :=
  match reader s with
  | None => throw (EInternalError (txt "maxmind database instance is closed") NilError [])
  | Some r => reader_Lookup r ip
  end.
Definition db_Close (s : db) : db * goerror :=
  match reader s with
  | None => (s, NilError)
  | Some r => (mkDb None, reader_Close r)
  end.

(** Once closed, a database stays closed: its reader is not used any more. *)
Lemma db_closed s ip : db_Close (db_Close s).1 = ((db_Close s).1, NilError) ∧
  db_Lookup (db_Close s).1 ip = throw (EInternalError (txt "maxmind database instance is closed") NilError []).
Proof. unfold db_Close, db_Lookup. by destruct s as [[r|]]. Qed.
End db.

(** ** instance.go: reloading and shutting down *)

(** What [load] finds: the file's modification time, and whether it can be opened. *)
Inductive loaded := LoadError | Unchanged | NewReader.
Definition load (stat : option time) (openOk : bool) (prevModTime : time) : loaded * time :=
  match stat with
  | None => (LoadError, prevModTime)
  | Some modTime =>
      if modTime =? prevModTime then (Unchanged, prevModTime)
      else if negb openOk then (LoadError, modTime)
      else (NewReader, modTime)
  end.

(** Where the reloading goroutine is: waiting, with a reader it has loaded, with a database
    it has to close, or gone. *)
Inductive runpc := RIdle (modTime : time) | RLoaded (modTime : time) | RClosing (p : nat) (modTime : time) | RStopped.
(** Where [Shutdown] is: not called, with the database it took out, waiting for the
    goroutine, returned, or panicked (a second close of the channel). *)
Inductive sdpc := SIdle | STook (p : nat) | SWaiting (p : nat) | SReturned | SPanicked.

(** [dbs] are the databases that were made, with their reader still open or not. *)
Record Instance := mkInstance {
  dbCountry : option nat; dbs : gmap nat bool; nextDb : nat; stop : bool; done_ : bool; rpc : runpc; spc : sdpc }.

Definition NewGeoip (modTime : time) : Instance := mkInstance (Some 0%nat) {[ 0%nat := true ]} 1 false false (RIdle modTime) SIdle.
Definition Instance_Running (s : Instance) : bool := bool_decide (is_Some (dbCountry s)).

Inductive geo_step : Instance → Instance → Prop :=
  (* the ticker: load *)
  | run_tick s stat ok mt l mt' : rpc s = RIdle mt → load stat ok mt = (l, mt') →
      geo_step s (mkInstance (dbCountry s) (dbs s) (nextDb s) (stop s) (done_ s)
                    (match l with NewReader => RLoaded mt' | _ => RIdle mt' end) (spc s))
  (* s.dbCountry.Swap(newDb(reader)) *)
  | run_swap s mt : rpc s = RLoaded mt →
      geo_step s (mkInstance (Some (nextDb s)) (<[nextDb s := true]> (dbs s)) (nextDb s + 1) (stop s) (done_ s)
                    (match dbCountry s with Some q => RClosing q mt | None => RIdle mt end) (spc s))
  | run_close s q mt : rpc s = RClosing q mt →
      geo_step s (mkInstance (dbCountry s) (<[q := false]> (dbs s)) (nextDb s) (stop s) (done_ s) (RIdle mt) (spc s))
  | run_stop s mt : rpc s = RIdle mt → stop s = true →
      geo_step s (mkInstance (dbCountry s) (dbs s) (nextDb s) (stop s) true RStopped (spc s))
  (* Shutdown: Swap(nil) *)
  | sd_nil s : spc s = SIdle ∨ spc s = SReturned → dbCountry s = None →
      geo_step s (mkInstance None (dbs s) (nextDb s) (stop s) (done_ s) (rpc s) SReturned)
  | sd_take s p : spc s = SIdle ∨ spc s = SReturned → dbCountry s = Some p →
      geo_step s (mkInstance None (dbs s) (nextDb s) (stop s) (done_ s) (rpc s) (STook p))
  (* close(s.stop) *)
  | sd_signal s p : spc s = STook p →
      geo_step s (mkInstance (dbCountry s) (dbs s) (nextDb s) true (done_ s) (rpc s) (if stop s then SPanicked else SWaiting p))
  (* <-s.done, then db.Close() *)
  | sd_close s p : spc s = SWaiting p → done_ s = true →
      geo_step s (mkInstance (dbCountry s) (<[p := false]> (dbs s)) (nextDb s) (stop s) (done_ s) (rpc s) SReturned).
