(* ===== verification/GeoProps.v ===== *)
(** * geoip: which address counts, and the life of the databases *)
From stdpp Require Import relations.
From S2P Require Import Prelude Text IPText XError XErrorProps HTTP Geo.

Local Open Scope Z_scope.

(** ** Addresses *)
Lemma contains_false c s : c ∉ s → containsByte c s = false.
Proof. intros H. destruct (containsByte c s) eqn:E; [|done]. by apply containsByte_spec in E. Qed.

(** The host of an address with a port is found, with and without brackets. *)
Theorem split_host_port host port :
  (58 ∉ port) → (91 ∉ host ++ port) → (93 ∉ host ++ port) →
  (58 ∉ host → SplitHostPort (host ++ 58 :: port) = Some (host, port)) ∧
  SplitHostPort (91 :: host ++ 93 :: 58 :: port) = Some (host, port).
Proof.
  intros Hp H91 H93. rewrite elem_of_app in H91, H93. unfold SplitHostPort. split.
  - intros Hh. rewrite cutLast_app by done. cbn [mbind option_bind].
    assert (containsByte 91 (host ++ 58 :: port) = false ∧ containsByte 93 (host ++ 58 :: port) = false) as [-> ->]
      by (split; apply contains_false; rewrite elem_of_app, elem_of_cons; intros [?|[?|?]]; (done || tauto)).
    rewrite (contains_false 58 host Hh). cbn [orb]. destruct host as [|b host]; [done|]. cbn [app].
    destruct (decide (b = 91)) as [->|Hb]; [destruct H91; left; by left|]. by rewrite (proj2 (Z.eqb_neq b 91) Hb).
  - assert (cutLast 58 (91 :: host ++ 93 :: 58 :: port) = Some (91 :: host ++ [93], port)) as ->
      by (rewrite <-(cutLast_app 58 (91 :: host ++ [93]) port Hp); f_equal; cbn; by rewrite <-app_assoc).
    cbn [mbind option_bind Z.eqb]. change (91 =? 91) with true. cbv iota. rewrite cutAt_app by tauto. cbn [mbind option_bind].
    rewrite bool_decide_eq_true_2, !contains_false by tauto. done.
Qed.

Lemma Split_snoc c l r : c ∉ r → Split c (l ++ c :: r) = Split c l ++ [r].
Proof.
  intros Hr. induction l as [|b l IH]; cbn [app Split]; [by rewrite Z.eqb_refl, Split_none|].
  rewrite IH. destruct (b =? c); [done|]. destruct (Split c l) as [|w ws] eqn:E; [|done].
  destruct l; cbn in E; [done|]. repeat case_match; done.
Qed.

(** The address taken from a forwarding header is its last entry. *)
Theorem forwarded_last r l ip :
  hget r (txt "X-Forwarded-For") = l ++ 44 :: 32 :: ip → 44 ∉ ip → 32 ∉ ip → GetForwardedIP r = ip.
Proof.
  intros H Hc Hs. unfold GetForwardedIP. rewrite H, filter_app, !filter_cons, decide_True, decide_False by naive_solver.
  rewrite (filter_all _ ip) by (apply Forall_forall; intros b Hb ->; done). by rewrite Split_snoc, last_snoc.
Qed.

(** A request carries one of the secrets: the header of that name has exactly its value. *)
Definition carries_secret (r : Request) (secrets : list (bytes * bytes)) : Prop :=
  ∃ header secret, (header, secret) ∈ secrets ∧ hget r header = secret.

Lemma secret_checked r secrets : secrets ≠ [] → hasValidCDNSecret r secrets = true ↔ carries_secret r secrets.
Proof.
  intros Hne. unfold hasValidCDNSecret, carries_secret. destruct (zlen secrets =? 0) eqn:E; [destruct secrets; done|].
  rewrite existsb_exists. split.
  - intros ([k v] & Hin%list_elem_of_In & Hv%bool_decide_eq_true). eauto.
  - intros (k & v & Hin%list_elem_of_In & Hv). exists (k, v). split; [done|]. by apply bool_decide_eq_true.
Qed.

Section resolver.
Context {env : Env} (lookup : option (bytes → go goerror bytes)).

(** C23: with secrets configured, a client that carries none of them cannot choose its
    country: requests from one address get the same answer whatever their headers say, wrong
    values of the secret headers included, and it is that of the address of the connection.
    A request that carries a secret is believed: the last address of its X-Forwarded-For
    header counts.  (A secret that is configured as the empty text is carried by every
    request without that header.) *)
Theorem country_not_forgeable s :
  CDNSecrets s ≠ [] →
  (∀ r1 r2, RemoteAddr r1 = RemoteAddr r2 → ¬ carries_secret r1 (CDNSecrets s) → ¬ carries_secret r2 (CDNSecrets s) →
     GetInfo lookup (Some s) r1 = GetInfo lookup (Some s) r2) ∧
  (∀ r, ¬ carries_secret r (CDNSecrets s) →
     GetRemoteIP r [WithIPParser [CDNSecretIPParser (CDNSecrets s); GetRemoteAddr]] = GetRemoteAddr r) ∧
  (∀ r, carries_secret r (CDNSecrets s) → GetForwardedIP r ≠ [] →
     GetRemoteIP r [WithIPParser [CDNSecretIPParser (CDNSecrets s); GetRemoteAddr]] = GetForwardedIP r).
Proof.
  intros Hne.
  assert (∀ r, GetRemoteIP r [WithIPParser [CDNSecretIPParser (CDNSecrets s); GetRemoteAddr]] =
    let ip := GetRemoteIPFromCDN r (CDNSecrets s) in if bool_decide (ip ≠ []) then ip else GetRemoteAddr r) as Hip.
  { intros r. unfold GetRemoteIP, WithIPParser. cbn [foldl]. change (zlen [CDNSecretIPParser (CDNSecrets s); GetRemoteAddr] =? 0) with false.
    cbn [firstIP]. unfold CDNSecretIPParser. cbv zeta. case_bool_decide; [done|]. case_bool_decide as E; [done|]. by destruct (GetRemoteAddr r); [|destruct E]. }
  assert (∀ r, ¬ carries_secret r (CDNSecrets s) →
    GetRemoteIP r [WithIPParser [CDNSecretIPParser (CDNSecrets s); GetRemoteAddr]] = GetRemoteAddr r) as Hno.
  { intros r Hr. rewrite Hip. unfold GetRemoteIPFromCDN. rewrite <-secret_checked in Hr by done. apply not_true_is_false in Hr. rewrite Hr.
    cbn [negb]. cbv zeta. by rewrite bool_decide_eq_false_2 by naive_solver. }
  split_and!; [|exact Hno|].
  - intros r1 r2 Ha H1 H2. unfold GetInfo. rewrite (Hno r1 H1), (Hno r2 H2). unfold GetRemoteAddr. by rewrite Ha.
  - intros r Hr Hf. rewrite Hip. unfold GetRemoteIPFromCDN. rewrite (proj2 (secret_checked r _ Hne) Hr). cbn [negb]. cbv zeta. by rewrite bool_decide_eq_true_2.
Qed.
End resolver.

(** A configured secret that is empty is matched by every request without that header. *)
Example empty_secret_matches : hasValidCDNSecret (mkRequest [] [] [] None [] []) [(txt "X-Secret", [])] = true.
Proof. reflexivity. Qed.

(** ** The databases *)
Definition run_db (pc : runpc) : option nat := match pc with RClosing p _ => Some p | _ => None end.
Definition sd_db (pc : sdpc) : option nat := match pc with STook p | SWaiting p => Some p | _ => None end.

(** The open readers are the installed one and those that are about to be closed. *)
Record geo_inv (s : Instance) : Prop := mkGeoInv {
  gi_bound : ∀ p b, dbs s !! p = Some b → (p < nextDb s)%nat;
  gi_inst : ∀ p, dbCountry s = Some p → dbs s !! p = Some true;
  gi_run : ∀ p, run_db (rpc s) = Some p → dbs s !! p = Some true ∧ dbCountry s ≠ Some p ∧ sd_db (spc s) ≠ Some p;
  gi_sd : ∀ p, sd_db (spc s) = Some p → dbs s !! p = Some true ∧ dbCountry s ≠ Some p;
  gi_open : spc s ≠ SPanicked → ∀ p, dbs s !! p = Some true → dbCountry s = Some p ∨ run_db (rpc s) = Some p ∨ sd_db (spc s) = Some p }.

Lemma geo_new mt : geo_inv (NewGeoip mt).
Proof.
  split; cbn; try done.
  - intros p b [<- _]%lookup_singleton_Some. lia.
  - intros p [= <-]. by rewrite lookup_singleton_eq.
  - intros _ p [<- _]%lookup_singleton_Some. by left.
Qed.

Lemma geo_step_inv s s' : geo_inv s → geo_step s s' → geo_inv s'.
Proof.
  intros [Hb Hin Hr Hs Ho] Hstep.
  destruct Hstep as [s stat ok mt l mt' Hpc Hl|s mt Hpc|s q mt Hpc|s mt Hpc Hst|s Hsp Hdb|s p Hsp Hdb|s p Hsp|s p Hsp Hd].
  - split; cbn [dbCountry dbs nextDb rpc spc]; try done; rewrite Hpc in *; by destruct l.
  - assert (dbs s !! nextDb s = None) as Hfr by (destruct (dbs s !! nextDb s) eqn:E; [apply Hb in E; lia|done]).
    assert (∀ p b, dbs s !! p = Some b → p ≠ nextDb s) as Hne by (intros p b E ->; congruence).
    split; cbn [dbCountry dbs nextDb rpc spc].
    + intros p b. rewrite lookup_insert. case_decide; [lia|]. intros E. apply Hb in E. lia.
    + intros p [= <-]. by rewrite lookup_insert_eq.
    + intros p Hp. destruct (dbCountry s) as [q|] eqn:Eq; [|done]. injection Hp as <-. pose proof (Hin q eq_refl) as Hq.
      rewrite lookup_insert_ne by (symmetry; by eapply Hne). split; [done|]. split; [intros [= E]; by apply (Hne q true)|].
      intros E. apply Hs in E as [_ E]. done.
    + intros p Hp. destruct (Hs p Hp) as [Hpt _]. rewrite lookup_insert_ne by (symmetry; by eapply Hne). split; [done|].
      intros [= E]. by apply (Hne p true).
    + intros Hnp p. rewrite lookup_insert. case_decide; [subst; by left|]. intros E. apply Ho in E as [E|[E|E]]; [| |by right; right|done].
      * rewrite E. by right; left.
      * by rewrite Hpc in E.
  - destruct (Hr q) as (Hq & Hqi & Hqs); [by rewrite Hpc|]. split; cbn [dbCountry dbs nextDb rpc spc].
    + intros p b. rewrite lookup_insert. case_decide; [subst; intros _; by eapply Hb|apply Hb].
    + intros p Hp. rewrite lookup_insert_ne by congruence. by apply Hin.
    + done.
    + intros p Hp. rewrite lookup_insert_ne by congruence. by apply Hs.
    + intros Hnp p. rewrite lookup_insert. case_decide; [done|]. intros E. apply Ho in E as [E|[E|E]]; [by left| |by right; right|done].
      rewrite Hpc in E. cbn in E. congruence.
  - split; cbn [dbCountry dbs nextDb rpc spc]; try done. rewrite Hpc in *. done.
  - split; cbn [dbCountry dbs nextDb rpc spc]; try done.
    + intros p Hp. destruct (Hr p Hp) as (H1 & H2 & H3). by split.
    + intros _ p E. rewrite <-Hdb. assert (spc s ≠ SPanicked) as Hnp by (destruct Hsp as [-> | ->]; done).
      destruct (Ho Hnp p E) as [E'|[E'|E']]; [by left|by right; left|]. by destruct Hsp as [Hsp|Hsp]; rewrite Hsp in E'.
  - pose proof (Hin p Hdb) as Hpt. split; cbn [dbCountry dbs nextDb rpc spc]; try done.
    + intros q Hq. destruct (Hr q Hq) as (H1 & H2 & H3). split; [done|]. split; [done|]. cbn. intros [= ->]. by apply H2.
    + cbn. intros q [= <-]. done.
    + intros _ q E. assert (spc s ≠ SPanicked) as Hnp by (destruct Hsp as [-> | ->]; done).
      destruct (Ho Hnp q E) as [E'|[E'|E']]; [right; right; cbn; congruence|by right; left|]. by destruct Hsp as [Hsp|Hsp]; rewrite Hsp in E'.
  - split; cbn [dbCountry dbs nextDb rpc spc]; try done; rewrite Hsp in *; destruct (stop s); cbn [sd_db] in *; try done.
    + intros q Hq. destruct (Hr q Hq) as (H1 & H2 & H3). by split.
    + intros _. apply Ho. done.
  - destruct (Hs p) as [Hpt Hpi]; [by rewrite Hsp|]. split; cbn [dbCountry dbs nextDb rpc spc]; try done.
    + intros q b. rewrite lookup_insert. case_decide; [subst; intros _; by eapply Hb|apply Hb].
    + intros q Hq. rewrite lookup_insert_ne by congruence. by apply Hin.
    + intros q Hq. destruct (Hr q Hq) as (H1 & H2 & H3). rewrite Hsp in H3. cbn in H3. rewrite lookup_insert_ne by congruence. done.
    + intros _ q. rewrite lookup_insert. case_decide; [done|]. intros E. apply Ho in E as [E|[E|E]]; [by left|by right; left| |by rewrite Hsp].
      rewrite Hsp in E. cbn in E. congruence.
Qed.

(** C38: in every interleaving of reloads and shutdowns the database that lookups find
    installed has an open reader, and no reader is forgotten: each one that is open is
    the installed one or is about to be closed. *)
Theorem geo_readers mt s :
  rtc geo_step (NewGeoip mt) s →
  (∀ p, dbCountry s = Some p → dbs s !! p = Some true) ∧
  (spc s ≠ SPanicked → ∀ p, dbs s !! p = Some true → dbCountry s = Some p ∨ run_db (rpc s) = Some p ∨ sd_db (spc s) = Some p).
Proof.
  intros H. assert (geo_inv s) as Hi.
  { assert (∀ s0, geo_inv s0 → rtc geo_step s0 s → geo_inv s) as Hind by (intros s0 H0; induction 1; [done|]; eauto using geo_step_inv).
    eapply Hind; [apply geo_new|done]. }
  split; [apply (gi_inst s Hi)|apply (gi_open s Hi)].
Qed.

(** A file that could not be opened once is not tried again until it changes. *)
Theorem load_not_retried prev mt ok :
  mt ≠ prev → load (Some mt) false prev = (LoadError, mt) ∧ load (Some mt) ok mt = (Unchanged, mt).
Proof. intros H. unfold load. rewrite (proj2 (Z.eqb_neq mt prev)) by done. by rewrite Z.eqb_refl. Qed.

(** A reload in progress during a shutdown installs its database afterwards: [Shutdown]
    has returned, the goroutine is gone, but the instance is running, with a reader
    that nothing closes; and shutting down again panics. *)
Example shutdown_race :
  ∃ s s', rtc geo_step (NewGeoip 1) s ∧ spc s = SReturned ∧ rpc s = RStopped ∧ Instance_Running s = true ∧ dbs s !! 1%nat = Some true ∧
    rtc geo_step s s' ∧ spc s' = SPanicked.
Proof.
  eexists (mkInstance (Some 1%nat) _ 2 true true RStopped SReturned), (mkInstance None _ 2 true true RStopped SPanicked). split.
  { eapply rtc_l; [by apply (run_tick _ (Some 2) true 1 NewReader 2)|].
    eapply rtc_l; [by apply (sd_take _ 0%nat); [left|]|].
    eapply rtc_l; [by apply (run_swap _ 2)|].
    eapply rtc_l; [by apply (sd_signal _ 0%nat)|].
    eapply rtc_l; [by apply (run_stop _ 2)|].
    eapply rtc_l; [by apply (sd_close _ 0%nat)|]. apply rtc_refl. }
  split; [done|]. split; [done|]. split; [done|]. split; [done|]. split.
  { eapply rtc_l; [by apply (sd_take _ 1%nat); [right|]|]. eapply rtc_l; [by apply (sd_signal _ 1%nat)|]. apply rtc_refl. }
  done.
Qed.

(** A wrong value of the secret header. *)
Definition geo_r1 : Request := mkRequest (txt "1.2.3.4:99") [] [] None [] [(txt "X-Forwarded-For", [txt "8.8.8.8"]); (txt "X-Cdn", [txt "s4"])].
Definition geo_r2 : Request := mkRequest (txt "1.2.3.4:99") [] [] None [] [].
#[local] Existing Instance XErrorProps.test_env.

Lemma country_not_forgeable_witness :
  GetInfo (Some (λ _, Ok (txt "DE"))) (Some (mkResolver true [(txt "x-cdn", txt "s3")])) geo_r1 =
  GetInfo (Some (λ _, Ok (txt "DE"))) (Some (mkResolver true [(txt "x-cdn", txt "s3")])) geo_r2.
Proof.
  refine (proj1 (country_not_forgeable (Some (λ _, Ok (txt "DE"))) (mkResolver true [(txt "x-cdn", txt "s3")]) _) geo_r1 geo_r2 _ _ _).
  - discriminate.
  - reflexivity.
  - intros (k & v & Hin & Hv). apply list_elem_of_singleton in Hin. injection Hin as -> ->. vm_compute in Hv. discriminate.
  - intros (k & v & Hin & Hv). apply list_elem_of_singleton in Hin. injection Hin as -> ->. vm_compute in Hv. discriminate.
Defined.

(** After a reload, before the old reader is closed. *)
Definition geo_reloaded : Instance :=
  mkInstance (Some 1%nat) (<[1%nat := true]> {[ 0%nat := true ]}) 2 false false (RClosing 0%nat 2) SIdle.
Lemma geo_readers_witness : dbCountry geo_reloaded = Some 1%nat ∧ dbs geo_reloaded !! 1%nat = Some true.
Proof.
  split; [reflexivity|]. refine (proj1 (geo_readers 1 geo_reloaded _) 1%nat eq_refl).
  eapply rtc_l; [by apply (run_tick _ (Some 2) true 1 NewReader 2)|].
  eapply rtc_l; [by apply (run_swap _ 2)|]. apply rtc_refl.
Defined.
