(* ===== verification/Keys.v ===== *)
(** * secret, keystore, xcrypto: sealed texts and stored keys

    Models [src/secret/secret.go], [src/keystore] and [src/xcrypto].  The ciphers and the
    encodings of keys are classes with the laws the packages document; the directories
    of the stores are maps from names to contents.  The log fields of the errors are left
    out: they only reach the log, which [throw] drops. *)
From S2P Require Import Prelude Text Base64 XError.

Local Open Scope Z_scope.

(** ** secret.go *)
Module Secret.
(** AES-GCM under the key that the hash of a secret is; [NonceSize] is 12. *)
Class AEAD := {
  sha256 : bytes → bytes;
  gcmSeal (key nonce plain : bytes) : bytes;
  gcmOpen (key nonce cipher : bytes) : option bytes;
  gcm_bytes key nonce plain : is_bytes (gcmSeal key nonce plain);
  gcm_law key nonce plain : gcmOpen key nonce (gcmSeal key nonce plain) = Some plain }.

Section secret.
Context `{!AEAD}.
Definition NonceSize : Z := 12.

Record Sealer := mkSealer { block : bytes }.
Definition New (secret : bytes) : Sealer := mkSealer (sha256 secret).

(** [nonce] is what the random source returned, of the nonce's size. *)
Definition Seal (s : Sealer) (nonce plainText : bytes) : bytes :=
  let ciphertext := nonce ++ gcmSeal (block s) nonce plainText in
  RawURLEncode ciphertext.
Definition Sealer_SealString (s : Sealer) (nonce plainText : bytes) : bytes := Seal s nonce plainText.

(** Taking the nonce off a text that is too short is a panic. *)
Definition Unseal (s : Sealer) (cipherText : bytes) : go unit bytes :=
  match RawURLDecode cipherText with
  | None => Err tt
  | Some b =>
      if zlen b <? NonceSize then Panic
      else match gcmOpen (block s) (take (Z.to_nat NonceSize) b) (drop (Z.to_nat NonceSize) b) with
      | Some plainText => Ok plainText
      | None => Err tt
      end
  end.
Definition Sealer_UnsealToString (s : Sealer) (cipherText : bytes) : go unit bytes := v ← Unseal s cipherText; mret v.
Definition SealString (secret nonce plainText : bytes) : bytes := Sealer_SealString (New secret) nonce plainText.
Definition UnsealToString (secret cipherText : bytes) : go unit bytes := Sealer_UnsealToString (New secret) cipherText.
End secret.
End Secret.

(** ** keystore *)
Module Keystore.
Section keystore.
Context {env : Env}.

(** What the walk over a directory finds, in order: paths, and whether they are
    directories; or the error it ended with.  A file has its content or an error. *)
Record tree := mkTree { walked : list (bytes * bool) + goerror; content : bytes → bytes + goerror }.

(** [path.Split]: the part after the last slash. *)
Definition baseName (p : bytes) : bytes := default [] (last (Split 47 p)).

Fixpoint readKeys (paths : list bytes) (t : tree) (keys : gmap bytes bytes) : go goerror (gmap bytes bytes) :=
  match paths with
  | [] => Ok keys
  | keyPath :: paths =>
      match content t keyPath with
      | inr err => throw (EInternalError (txt "failed to read the key file") err [])
      | inl bs => if zlen bs =? 0 then readKeys paths t keys else readKeys paths t (<[bs := baseName keyPath]> keys)
      end
  end.
Definition loadKeys (t : tree) : go goerror (gmap bytes bytes) :=
  match walked t with
  | inr err => throw (EInternalError (txt "failed to walk keystore root") err [])
  | inl entries => readKeys (fst <$> filter (λ e, e.2 = false) entries) t ∅
  end.

(** [keys] from key to owner. *)
Record fsStore := mkStore { keys : gmap bytes bytes; root : bytes }.

(** Setting the watcher up, with the errors of its two calls, nil if none; its events are
    [onEvent] below. *)
Definition watchDir (newWatcher addWatch : goerror) : go goerror unit :=
  if negb (isNil newWatcher) then throw (EInternalError (txt "failed to allocate fs watcher") newWatcher [])
  else if negb (isNil addWatch) then throw (EInternalError (txt "failed to watch the root dir") addWatch [])
  else Ok tt.

Definition NewFsKeystore (root : bytes) (t : tree) (newWatcher addWatch : goerror) : go goerror fsStore :=
  if zlen root =? 0 then throw (EInternalError (txt "config: no path to the management keystore is given") NilError [])
  else
    k ← loadKeys t;
    _ ← watchDir newWatcher addWatch;
    Ok (mkStore k root).

Definition Authorize (s : fsStore) (key : bytes) : bytes * bool :=
  match keys s !! key with Some v => (v, true) | None => ([], false) end.
(** [None] is a panic. *)
Definition updateFromFS (t : tree) (s : fsStore) : option fsStore :=
  match loadKeys t with
  | Ok k => Some (mkStore k (root s))
  | Err _ => Some s
  | Panic => None
  end.
(** An event of the watcher, with the directory as it is then; events that include
    a change of the mode ([Chmod]) are skipped. *)
Definition onEvent (chmod : bool) (t : tree) (s : fsStore) : option fsStore := if chmod then Some s else updateFromFS t s.

Definition DenyAll_Authorize (key : bytes) : bytes * bool := ([], false).
End keystore.
End Keystore.

(** ** xcrypto *)
Module RSA.
(** Public and private keys with their encodings; decoding PEM looks at the first block
    and ignores what follows it. *)
Class KeyFormat := {
  PublicKey : Type; RSAPrivateKey : Type;
  MarshalPKCS1PublicKey : PublicKey → bytes;
  ParsePKCS1PublicKey : bytes → PublicKey + goerror;
  MarshalPKCS1PrivateKey : RSAPrivateKey → bytes;
  ParsePKCS1PrivateKey : bytes → RSAPrivateKey + goerror;
  pemEncode (type body : bytes) : bytes;
  pemDecode (text : bytes) : option (bytes * bytes);        (** type and body of the first block *)
  pkcs1_law k : ParsePKCS1PublicKey (MarshalPKCS1PublicKey k) = inl k;
  pkcs1_private_law k : ParsePKCS1PrivateKey (MarshalPKCS1PrivateKey k) = inl k;
  pem_law type body rest : pemDecode (pemEncode type body ++ rest) = Some (type, body);
  pem_bytes type body : is_bytes (pemEncode type body) }.

Section keys.
Context {env : Env} `{!KeyFormat}.
Definition KeySize : Z := 2048.
Definition MarshalPublicKey (key : PublicKey) : bytes := pemEncode (txt "RSA PUBLIC KEY") (MarshalPKCS1PublicKey key).
Definition UnmarshalPublicKey (bs : bytes) : go goerror PublicKey :=
  match pemDecode bs with
  | None => throw (EInternalError (txt "can't parse PEM file") NilError [])
  | Some (_, body) =>
      match ParsePKCS1PublicKey body with
      | inr err => throw (EInternalError (txt "can't parse PEM file") err [])
      | inl k => Ok k
      end
  end.
Definition MarshalPrivateKey (key : RSAPrivateKey) : bytes := pemEncode (txt "RSA PRIVATE KEY") (MarshalPKCS1PrivateKey key).
Definition UnmarshalPrivateKey (bs : bytes) : go goerror RSAPrivateKey :=
  match pemDecode bs with
  | None => throw (EInternalError (txt "failed to decode PEM block") NilError [])
  | Some (_, body) =>
      match ParsePKCS1PrivateKey body with
      | inr err => throw (EInternalError (txt "failed to parse private key from a PEM block") err [])
      | inl k => Ok k
      end
  end.
Definition KeyToBase64 (key : PublicKey) : bytes := EncodeToString (MarshalPublicKey key).
Definition Base64toKey (s : bytes) : go goerror PublicKey :=
  match DecodeString s with
  | None => throw (EInternalError (txt "failed to decode public key from base64") (OtherErr (txt "illegal base64 data") NilError) [])
  | Some keyBytes => UnmarshalPublicKey keyBytes
  end.
End keys.

(** ** rsakeeper.go *)

(** google/uuid *)
Class UUID := {
  uuid : Type; uuid_dec :: EqDecision uuid; Nil : uuid;
  UString : uuid → bytes; UParse : bytes → option uuid;
  uuid_law u : UParse (UString u) = Some u }.

Section keeper.
Context {env : Env} `{!KeyFormat, !UUID}.

(** The directory of the keeper: the files by name, the names that cannot be opened or
    removed for some other reason, and the ones where writing stops with an error after
    so many bytes. *)
Record dir := mkDir { files : gmap bytes bytes; broken : bytes → option goerror; cut : bytes → option (nat * goerror) }.
Record RSAKeeper := mkKeeper { running : bool }.
Definition NewRSAKeeper : RSAKeeper := mkKeeper false.
Definition Shutdown (k : RSAKeeper) : RSAKeeper := mkKeeper false.
Definition Running (k : RSAKeeper) : bool := running k.

Definition errNotExist : goerror := OtherErr (txt "file does not exist") NilError.
Definition errExist : goerror := OtherErr (txt "file exists") NilError.
(** [notExist] is what [os.IsNotExist] says of the error. *)
Definition makeError (err : goerror) (notExist : bool) (opMessage : bytes) : list event * go unit Error :=
  if notExist then EEntryNotFound (txt "key not found") err [] else EInternalError opMessage err [].

Definition readKey (id : uuid) (d : dir) : go goerror PublicKey :=
  if bool_decide (id = Nil) then throw (EInvalidArgument (txt "nil uuid is not allowed") NilError [])
  else match broken d (UString id) with
  | Some err => throw (makeError err false (txt "can't read key"))
  | None =>
      match files d !! UString id with
      | None => throw (makeError errNotExist true (txt "can't read key"))
      | Some pemBytes => UnmarshalPublicKey pemBytes
      end
  end.

(** The flags with which a file is opened: create and exclusive, or only for writing. *)
Inductive osFlags := O_CREATE_EXCL | O_WRONLY.

(** Writing at the start of a file: without [O_TRUNC] what was longer than the written
    bytes stays behind them. *)
Definition overwrite (old new : bytes) : bytes := new ++ drop (length new) old.
Definition setFile (name content : bytes) (d : dir) : dir := mkDir (<[name := content]> (files d)) (broken d) (cut d).

Definition writeKey (id : uuid) (key : PublicKey) (flags : osFlags) (d : dir) : go goerror unit * dir :=
  if bool_decide (id = Nil) then (throw (EInvalidArgument (txt "nil uuid is not allowed") NilError []), d)
  else
    let keyBytes := MarshalPublicKey key in
    match broken d (UString id) with
    | Some err => (throw (EInternalError (txt "can't store key") err []), d)
    | None =>
        match flags, files d !! UString id with
        | O_CREATE_EXCL, Some _ => (throw (EExists (txt "key with same ID already exists") errExist []), d)
        | O_WRONLY, None => (throw (EExists (txt "key does not exists") errNotExist []), d)
        | _, old =>
            match cut d (UString id) with
            | Some (n, err) =>
                (throw (EInternalError (txt "can't store key") err []), setFile (UString id) (overwrite (default [] old) (take n keyBytes)) d)
            | None => (Ok tt, setFile (UString id) (overwrite (default [] old) keyBytes) d)
            end
        end
    end.

Definition GetKey (id : uuid) (d : dir) : go goerror PublicKey := readKey id d.
Definition AddKey (id : uuid) (key : PublicKey) (d : dir) := writeKey id key O_CREATE_EXCL d.
Definition ChangeKey (id : uuid) (key : PublicKey) (d : dir) := writeKey id key O_WRONLY d.
Definition DeleteKey (id : uuid) (d : dir) : go goerror unit * dir :=
  if bool_decide (id = Nil) then (throw (EInvalidArgument (txt "nil uuid is not allowed") NilError []), d)
  else match broken d (UString id) with
  | Some err => (throw (makeError err false (txt "can't delete key")), d)
  | None =>
      match files d !! UString id with
      | None => (throw (makeError errNotExist true (txt "can't delete key")), d)
      | Some _ => (Ok tt, mkDir (delete (UString id) (files d)) (broken d) (cut d))
      end
  end.

(** The loop of [ListKeys] over the names of the directory. *)
Definition listEntry (d : dir) (name : bytes) : list (uuid * PublicKey) :=
  match UParse name with
  | None => []
  | Some id => match readKey id d with Ok key => [(id, key)] | _ => [] end
  end.
Definition ListKeys (readDir : list bytes + goerror) (d : dir) : go goerror (list (uuid * PublicKey)) :=
  match readDir with
  | inr err => throw (EInternalError (txt "can't list keys") err [])
  | inl names => Ok (mjoin (listEntry d <$> names))
  end.
End keeper.
End RSA.
