(* ===== verification/KeysProps.v ===== *)
(** * secret, keystore, xcrypto: what comes back, who is let in *)
From S2P Require Import Prelude Text Base64 XError XErrorProps Keys.

Local Open Scope Z_scope.

Module SecretProps.
Import Secret.
Section secret.
Context `{!AEAD}.
(** A text sealed under a secret with any nonce is unsealed to itself under the same
    secret.  A text that is valid but shorter than a nonce is not refused with an
    error: taking the nonce off it panics. *)
Theorem seal_roundtrip secret nonce plain :
  is_bytes nonce → zlen nonce = NonceSize →
  UnsealToString secret (SealString secret nonce plain) = Ok plain ∧
  ∀ short, is_bytes short → zlen short < NonceSize → UnsealToString secret (RawURLEncode short) = Panic.
Proof.
  intros Hb Hn. unfold UnsealToString, SealString, Sealer_UnsealToString, Sealer_SealString, Unseal, Seal. split.
  - rewrite rawurl_roundtrip by (apply Forall_app; split; [done|apply gcm_bytes]).
    destruct (zlen (nonce ++ gcmSeal (block (New secret)) nonce plain) <? NonceSize) eqn:E.
    { apply Z.ltb_lt in E. rewrite zlen_app in E. pose proof (zlen_nonneg (gcmSeal (block (New secret)) nonce plain)). lia. }
    assert (length nonce = Z.to_nat NonceSize) as Hl by (unfold zlen in Hn; lia).
    rewrite <-Hl, take_app_length, drop_app_length, gcm_law. done.
  - intros short Hs Hl. rewrite rawurl_roundtrip by done. by rewrite (proj2 (Z.ltb_lt _ _)).
Qed.
End secret.
End SecretProps.

Module KeystoreProps.
Import Keystore.
Section keystore.
Context {env : Env}.

(** The file holds the key, which is not empty. *)
Definition file_holds (t : tree) (key p : bytes) : bool :=
  match content t p with inl bs => bool_decide (bs = key ∧ key ≠ []) | inr _ => false end.

Lemma readKeys_spec (t : tree) paths : ∀ acc k, readKeys paths t acc = Ok k →
  Forall (λ p, ∃ bs, content t p = inl bs) paths ∧
  (∀ key, k !! key = match last (filter (λ p, file_holds t key p = true) paths) with Some p => Some (baseName p) | None => acc !! key end).
Proof.
  induction paths as [|p paths IH]; intros acc k; cbn [readKeys]; [by intros [= <-]|].
  destruct (content t p) as [bs|e] eqn:E; [|by unfold throw; destruct (EInternalError _ _ _).2].
  assert (∀ key, filter (λ p, file_holds t key p = true) (p :: paths) =
    if decide (bs = key ∧ key ≠ []) then p :: filter (λ p, file_holds t key p = true) paths
    else filter (λ p, file_holds t key p = true) paths) as Hf.
  { intros key. rewrite filter_cons.
    assert (file_holds t key p = bool_decide (bs = key ∧ key ≠ [])) as Hh by (unfold file_holds; by rewrite E).
    destruct (decide (file_holds t key p = true)) as [Hd|Hd], (decide (bs = key ∧ key ≠ [])) as [Hk|Hk]; rewrite Hh, bool_decide_eq_true in Hd; naive_solver. }
  destruct (zlen bs =? 0) eqn:Ez; intros H; destruct (IH _ _ H) as [H1 H2]; (split; [constructor; eauto|]); intros key; rewrite H2, Hf.
  - apply Z.eqb_eq, zlen_0_nil in Ez. by rewrite decide_False by naive_solver.
  - apply Z.eqb_neq in Ez. rewrite zlen_0_nil in Ez. rewrite lookup_insert. destruct (decide (bs = key)) as [->|Hne].
    + rewrite (decide_True (P := key = key ∧ key ≠ [])) by done. rewrite last_cons. by destruct (last _).
    + by rewrite (decide_False (P := bs = key ∧ key ≠ [])) by tauto.
Qed.

(** A key is accepted exactly when it is the whole content of a file that was there at
    the last successful load, and not empty; the owner is the name of the last such
    file.  A load that fails anywhere changes nothing. *)
Theorem keystore_authorize (t : tree) s s' entries :
  walked t = inl entries → updateFromFS t s = Some s' →
  let paths := (filter (λ e, e.2 = false) entries).*1 in
  (Exists (λ p, ∃ e, content t p = inr e) paths → s' = s) ∧
  (Forall (λ p, ∃ bs, content t p = inl bs) paths → ∀ key,
     Authorize s' key = match last (filter (λ p, file_holds t key p = true) paths) with
                        | Some p => (baseName p, true) | None => ([], false) end).
Proof.
  intros Hw Hu paths. unfold updateFromFS, loadKeys in Hu. rewrite Hw in Hu. fold paths in Hu.
  destruct (readKeys paths t ∅) as [k|e|] eqn:E; [| |done]; injection Hu as <-.
  - apply readKeys_spec in E as [Hall Hk]. split.
    + intros Hex. exfalso. apply Exists_exists in Hex as (p & Hp & e & He). rewrite Forall_forall in Hall. destruct (Hall p Hp). congruence.
    + intros _ key. unfold Authorize. cbn [keys]. rewrite Hk, lookup_empty. by destruct (last _).
  - split; [done|]. intros Hall. exfalso. revert E. generalize (∅ : gmap bytes bytes). induction Hall as [|p l [bs Hbs] _ IH]; intros acc; cbn [readKeys]; [done|].
    rewrite Hbs. destruct (zlen bs =? 0); apply IH.
Qed.
End keystore.
End KeystoreProps.

Module RSAProps.
Import RSA.
Section keeper.
Context {env : Env} `{!KeyFormat, !UUID}.
Implicit Types (d : dir) (id : uuid) (key : PublicKey).

Lemma throw_err_not_ok {A} r (a : A) : throw r ≠ Ok a.
Proof. unfold throw. by destruct r.2. Qed.

Lemma unmarshal_marshal key rest : UnmarshalPublicKey (MarshalPublicKey key ++ rest) = Ok key.
Proof. unfold UnmarshalPublicKey, MarshalPublicKey. rewrite pem_law, pkcs1_law. done. Qed.

(** Keys come back from their text forms. *)
Theorem key_roundtrips key (priv : RSAPrivateKey) :
  UnmarshalPublicKey (MarshalPublicKey key) = Ok key ∧ UnmarshalPrivateKey (MarshalPrivateKey priv) = Ok priv ∧
  Base64toKey (KeyToBase64 key) = Ok key.
Proof.
  split; [rewrite <-(app_nil_r (MarshalPublicKey key)); apply unmarshal_marshal|]. split.
  - unfold UnmarshalPrivateKey, MarshalPrivateKey. rewrite <-(app_nil_r (pemEncode _ _)), pem_law, pkcs1_private_law. done.
  - unfold Base64toKey, KeyToBase64. rewrite base64_roundtrip by apply pem_bytes.
    rewrite <-(app_nil_r (MarshalPublicKey key)). apply unmarshal_marshal.
Qed.

Lemma string_inj id1 id2 : UString id1 = UString id2 → id1 = id2.
Proof. intros E. pose proof (uuid_law id1) as H1. rewrite E, uuid_law in H1. congruence. Qed.

(** What a write does: nothing, or it puts some bytes at the start of the key's file. *)
Lemma write_inv id key fl d r d' : writeKey id key fl d = (r, d') →
  (r = Ok tt → id ≠ Nil ∧ broken d (UString id) = None ∧
     ∃ rest, d' = setFile (UString id) (MarshalPublicKey key ++ rest) d) ∧
  (d' = d ∨ ∃ bs, d' = setFile (UString id) bs d) ∧
  (cut d (UString id) = None → r ≠ Ok tt → d' = d).
Proof.
  unfold writeKey. assert (∀ (r0 : list event * go unit Error), throw (A := unit) r0 ≠ Ok tt) as Ht by (intros; apply throw_err_not_ok).
  case_bool_decide as Hn; [intros [= <- <-]; split_and!; [by intros ?%Ht|by left|done]|].
  destruct (broken d (UString id)) as [e|] eqn:Eb; [intros [= <- <-]; split_and!; [by intros ?%Ht|by left|done]|].
  destruct fl, (files d !! UString id) as [old|] eqn:Ef; try (intros [= <- <-]; split_and!; [by intros ?%Ht|by left|done]);
    (destruct (cut d (UString id)) as [[n err]|] eqn:Ec; intros [= <- <-];
       (split_and!; [intros Hr; try (by apply Ht in Hr)|right; by eexists|done])); split_and!; try done; by eexists.
Qed.

(** A key that was added or changed is what is read back under its id, whatever the
    file held before (a longer old text stays behind the new one and is ignored);
    keys of other ids are untouched, also by a write that was cut short; other errors
    change nothing, adding never overwrites and changing never creates. *)
Theorem keeper_write_read id key fl d r d' :
  writeKey id key fl d = (r, d') →
  (r = Ok tt → GetKey id d' = Ok key) ∧ (cut d (UString id) = None → r ≠ Ok tt → d' = d) ∧
  (∀ id2, id2 ≠ id → GetKey id2 d' = GetKey id2 d) ∧
  (fl = O_CREATE_EXCL → is_Some (files d !! UString id) → r ≠ Ok tt ∧ d' = d) ∧
  (fl = O_WRONLY → files d !! UString id = None → r ≠ Ok tt ∧ d' = d).
Proof.
  intros Hw. destruct (write_inv _ _ _ _ _ _ Hw) as (H1 & H2 & H3). split; [|split; [done|split; [|split]]].
  - intros Hr. destruct (H1 Hr) as (Hn & Hb & rest & ->). unfold GetKey, readKey. cbn [files broken setFile].
    rewrite bool_decide_eq_false_2, Hb, lookup_insert_eq by done. apply unmarshal_marshal.
  - intros id2 Hne. destruct H2 as [->|[bs ->]]; [done|].
    unfold GetKey, readKey. cbn [files broken setFile]. rewrite lookup_insert_ne; [done|]. intros E. apply Hne. symmetry. by apply string_inj.
  - intros -> [old Ho]. unfold writeKey in Hw. rewrite Ho in Hw. repeat case_match; try done; injection Hw as <- <-; (split; [apply throw_err_not_ok|done]).
  - intros -> Ho. unfold writeKey in Hw. rewrite Ho in Hw. repeat case_match; try done; injection Hw as <- <-; (split; [apply throw_err_not_ok|done]).
Qed.

(** A deleted key is gone, and only that one. *)
Theorem keeper_delete id d r d' :
  DeleteKey id d = (r, d') →
  (r = Ok tt → GetKey id d' = throw (makeError errNotExist true [])) ∧ (∀ id2, id2 ≠ id → GetKey id2 d' = GetKey id2 d) ∧ (r ≠ Ok tt → d' = d).
Proof.
  unfold DeleteKey. case_bool_decide as Hn; [intros [= <- <-]; split; [by intros ?%throw_err_not_ok|done]|].
  destruct (broken d (UString id)) as [e|] eqn:Eb; [intros [= <- <-]; split; [by intros ?%throw_err_not_ok|done]|].
  destruct (files d !! UString id) as [old|] eqn:Ef; intros [= <- <-]; [|split; [by intros ?%throw_err_not_ok|done]].
  split; [|split; [|done]].
  - intros _. unfold GetKey, readKey. cbn [files broken]. rewrite bool_decide_eq_false_2, Eb, lookup_delete_eq by done. done.
  - intros id2 Hne. unfold GetKey, readKey. cbn [files broken]. rewrite lookup_delete_ne; [done|]. intros E. apply Hne. symmetry. by apply string_inj.
Qed.

(** Changing a key that does not exist is reported as a conflict, with the code of an
    entry that exists. *)
Theorem change_missing id key d r d' :
  id ≠ Nil → broken d (UString id) = None → files d !! UString id = None → ChangeKey id key d = (r, d') →
  ∃ e, r = Err (XErr e) ∧ errorType e = EExistsType ∧ errorType e ≠ EEntryNotFoundType.
Proof.
  intros Hn Hb Hf. unfold ChangeKey, writeKey. rewrite bool_decide_eq_false_2, Hb, Hf by done. intros [= <- <-]. by eexists.
Qed.

(** The keeper never says that it is running. *)
Theorem keeper_never_running k : k = NewRSAKeeper ∨ (∃ k', k = Shutdown k') → Running k = false.
Proof. by intros [->|[k' ->]]. Qed.
End keeper.
End RSAProps.

(** ** Concrete ciphers and encodings

    Numbers written bit by bit and ended by a 2: enough for the laws that the classes ask
    for. *)
Fixpoint bitsEncode (p : positive) : bytes :=
  match p with xH => [2] | xO p => 0 :: bitsEncode p | xI p => 1 :: bitsEncode p end.
Fixpoint bitsDecode (l : bytes) : option positive :=
  match l with
  | 2 :: _ => Some xH
  | 0 :: l => xO <$> bitsDecode l
  | 1 :: l => xI <$> bitsDecode l
  | _ => None
  end.
Lemma bitsEncode_roundtrip p rest : bitsDecode (bitsEncode p ++ rest) = Some p.
Proof. induction p as [p IH|p IH|]; cbn [bitsEncode app bitsDecode]; [by rewrite IH..|done]. Qed.
Lemma bitsEncode_bytes p : is_bytes (bitsEncode p).
Proof. induction p; cbn [bitsEncode]; repeat constructor; try done; lia. Qed.

#[local] Instance toy_aead : Secret.AEAD.
Proof.
  refine {| Secret.sha256 := λ s, s; Secret.gcmSeal := λ k n p, bitsEncode (encode (k, n, p));
            Secret.gcmOpen := λ k n c, q ← bitsDecode c; t ← (decode q : option (bytes * bytes * bytes));
                                        if bool_decide (t.1 = (k, n)) then Some t.2 else None |}.
  - intros. apply bitsEncode_bytes.
  - intros k n p. rewrite <-(app_nil_r (bitsEncode _)), bitsEncode_roundtrip. cbn -[encode decode]. rewrite decode_encode. cbn.
    by rewrite bool_decide_eq_true_2.
Defined.

#[local] Instance toy_keys : RSA.KeyFormat.
Proof.
  refine {| RSA.PublicKey := bytes; RSA.RSAPrivateKey := bytes;
            RSA.MarshalPKCS1PublicKey := λ k, k; RSA.ParsePKCS1PublicKey := inl;
            RSA.MarshalPKCS1PrivateKey := λ k, k; RSA.ParsePKCS1PrivateKey := inl;
            RSA.pemEncode := λ t b, bitsEncode (encode (t, b));
            RSA.pemDecode := λ l, q ← bitsDecode l; (decode q : option (bytes * bytes)) |}.
  - done.
  - done.
  - intros t b rest. rewrite bitsEncode_roundtrip. cbn -[encode decode]. apply decode_encode.
  - intros. apply bitsEncode_bytes.
Defined.

#[local] Instance toy_uuid : RSA.UUID.
Proof. refine {| RSA.uuid := bytes; RSA.Nil := []; RSA.UString := λ u, u; RSA.UParse := Some |}. done. Defined.
#[local] Existing Instance XErrorProps.test_env.

Lemma seal_roundtrip_witness :
  Secret.UnsealToString (txt "k") (Secret.SealString (txt "k") (repeat 7 12) (txt "hello")) = Ok (txt "hello").
Proof. refine (proj1 (SecretProps.seal_roundtrip (txt "k") (repeat 7 12) (txt "hello") _ _)); [repeat constructor; lia|reflexivity]. Defined.

Definition toy_tree : Keystore.tree :=
  Keystore.mkTree (inl [(txt "/k", true); (txt "/k/alice", false); (txt "/k/bob", false)])
    (λ p, if bool_decide (p = txt "/k/alice") then inl (txt "secret-a") else inl (txt "secret-b")).
Lemma keystore_authorize_witness :
  ∃ s', Keystore.updateFromFS toy_tree (Keystore.mkStore ∅ (txt "/k")) = Some s' ∧
        Keystore.Authorize s' (txt "secret-a") = (txt "alice", true).
Proof.
  eexists. split; [reflexivity|].
  refine (eq_trans (proj2 (KeystoreProps.keystore_authorize toy_tree (Keystore.mkStore ∅ (txt "/k")) _ _ eq_refl eq_refl) _ (txt "secret-a")) _).
  - repeat constructor; eexists; reflexivity.
  - vm_compute. reflexivity.
Defined.

Lemma keeper_write_read_witness :
  RSA.GetKey (txt "u1") (RSA.ChangeKey (txt "u1") (txt "new")
    (RSA.mkDir {[ txt "u1" := txt "a longer text that was there before" ]} (λ _, None) (λ _, None))).2 = Ok (txt "new").
Proof.
  refine (proj1 (RSAProps.keeper_write_read (txt "u1") (txt "new") RSA.O_WRONLY _ _ _ (surjective_pairing _)) _).
  vm_compute. reflexivity.
Defined.
