(* ===== verification/Auth.v ===== *)
(** * auth: issuing and checking tokens

    Models [src/auth]: [jwt.go] (the checker that takes the key from a store), [master.go]
    (the issuer) and [userid.go].  The token library is a class: signing, and
    parsing with a callback that chooses the key, with the two things its
    documentation promises.  The key store of a checker is any function from key ids to
    keys; the properties use the one of [rsakeeper.go]. *)
From S2P Require Import Prelude Text XError Entitlements Keys.
Import RSA.

Local Open Scope Z_scope.

Definition jwtSigningMethod : bytes := txt "RS256".
Definition jwtKeyID : bytes := txt "kid".

(** [StringList.Has] *)
Fixpoint Has (l : list bytes) (entry : bytes) : bool :=
  match l with
  | [] => false
  | e :: l => if bool_decide (e = entry) then true else Has l entry
  end.

(** Errors of the package: its own, one with a text and the errors it wraps, one of
    another package. *)
Inductive autherror := ErrInvalidToken | Errorf (text : bytes) (wrapped : list autherror) | Foreign (err : goerror).
(** [errors.Is(err, ErrInvalidToken)] *)
Fixpoint isInvalidToken (err : autherror) : bool :=
  match err with
  | ErrInvalidToken => true
  | Errorf _ l => existsb isInvalidToken l
  | Foreign _ => false
  end.

(** A token as the library gives it to its callers. *)
Record Token := mkToken { Header : gmap bytes any; Alg : bytes; Valid : bool }.

(** Header values that JSON brings back as they were. *)
Definition isText (v : any) : Prop := match v with AString _ => True | _ => False end.

(** dgrijalva/jwt-go over RSA keys.  [now] is the time of the check; [Public] is the public
    part of a private key. *)
Class JWT `{!KeyFormat} := {
  Claims : Type;
  claimsValid : Z → Claims → Prop;
  Public : RSAPrivateKey → PublicKey;
  registered : bytes → bool;                                   (** [GetSigningMethod] is not nil *)
  NewHeader : bytes → gmap bytes any;                           (** header of [NewWithClaims] *)
  SignedString : Token → Claims → RSAPrivateKey → bytes + goerror;
  ParseWithClaims : Z → bytes → (Token → PublicKey + autherror) → option Token * option Claims * option autherror;
  (** header, algorithm and claims that a text carries, signed or not *)
  Unverified : bytes → option (gmap bytes any * bytes * Claims);
  (** the signature of a text is right for the key under an algorithm *)
  Verified : bytes → bytes → PublicKey → Prop;
  (** Parsing without an error means that the callback gave a key for what the text
      carries, that the signature is right for it and that the claims are valid now. *)
  parse_sound now s kf tok c : ParseWithClaims now s kf = (tok, c, None) →
    ∃ t k cl, tok = Some t ∧ c = Some cl ∧ Unverified s = Some (Header t, Alg t, cl) ∧
              kf (mkToken (Header t) (Alg t) false) = inl k ∧ Verified (Alg t) s k ∧ claimsValid now cl;
  (** The header of a new token names its type and algorithm. *)
  header_texts alg : map_Forall (λ _ v, isText v) (NewHeader alg);
  (** A token with texts in its header that was signed parses: to the claims when the callback gives the public
      part of the key and they are valid; it is an error when the callback fails. *)
  parse_signed now s kf t cl priv : map_Forall (λ _ v, isText v) (Header t) → SignedString t cl priv = inl s →
    (kf (mkToken (Header t) (Alg t) false) = inl (Public priv) → claimsValid now cl →
     ParseWithClaims now s kf = (Some (mkToken (Header t) (Alg t) true), Some cl, None)) ∧
    (∀ e, kf (mkToken (Header t) (Alg t) false) = inr e →
     ∃ tok c e', ParseWithClaims now s kf = (tok, c, Some e')) }.

(** ** jwt.go *)
Section checker.
Context `{!KeyFormat, !UUID, !JWT}.

(** [GetKey] of the interface [KeyStore] *)
Definition KeyStore : Type := uuid → PublicKey + goerror.
Record JWTChecker := mkChecker { keys : KeyStore; method : bytes }.

(** [KeyStoreWrapper.GetKey] *)
Definition KeyStoreWrapper_GetKey (Fn : KeyStore) (keyUUID : uuid) : PublicKey + goerror := Fn keyUUID.

Definition NewJWTChecker (keyKeeper : KeyStore) : go autherror JWTChecker :=
  if negb (registered jwtSigningMethod) then Err (Errorf (txt "signing method is not supported: " ++ jwtSigningMethod) [])
  else Ok (mkChecker keyKeeper jwtSigningMethod).

Definition keyHelper (instance : JWTChecker) (token : Token) : PublicKey + autherror :=
  match Header token !! jwtKeyID with
  | None => inr ErrInvalidToken
  | Some (AString keyID) =>
      match UParse keyID with
      | None => inr ErrInvalidToken
      | Some keyUUID =>
          match keys instance keyUUID with
          | inr err => inr (Foreign err)
          | inl key => inl key
          end
      end
  | Some _ => inr (Errorf (txt ": got unexpected key value instead of string") [ErrInvalidToken])
  end.

(** What [claims] points to afterwards, and the result; reading a nil token panics. *)
Definition Parse (instance : JWTChecker) (now : Z) (tokenString : bytes) : option Claims * go autherror unit :=
  let '(token, claims, err) := ParseWithClaims now tokenString (keyHelper instance) in
  (claims,
   match err with
   | Some err => Err (Errorf (txt ": ") [ErrInvalidToken; err])
   | None =>
       match token with
       | None => Panic
       | Some token =>
           if negb (Valid token) then Err ErrInvalidToken
           else if negb (bool_decide (Alg token = method instance))
                then Err (Errorf (txt ": invalid signing method: " ++ Alg token) [ErrInvalidToken])
           else Ok tt
       end
   end).

(** ** master.go *)
Record JWTMaster := mkMaster { keyID : option uuid; private : RSAPrivateKey; mmethod : bytes }.

(** [newRandom] and [generate] are what [uuid.NewRandom] and [xcrypto.GenerateKey] return. *)
Definition NewJWTMaster (priv : option RSAPrivateKey) (privateId : option uuid)
    (newRandom : uuid + goerror) (generate : RSAPrivateKey + goerror) : go autherror JWTMaster :=
  '(priv, privateId) ← match priv with
    | None =>
        if bool_decide (privateId ≠ None) then Err (Errorf (txt "privateId must be nil when private is nil") [])
        else match newRandom with
        | inr err => Err (Foreign err)
        | inl vPrivateId =>
            match generate with
            | inr err => Err (Errorf (txt "can't generate JWT key pair: ") [Foreign err])
            | inl priv => Ok (priv, Some vPrivateId)
            end
        end
    | Some priv =>
        if bool_decide (privateId = None) then Err (Errorf (txt "privateId must be set when private is set") [])
        else Ok (priv, privateId)
    end;
  if negb (registered jwtSigningMethod) then Err (Errorf (txt "signing method is not supported: " ++ jwtSigningMethod) [])
  else Ok (mkMaster privateId priv jwtSigningMethod).

(** In JSON a key id is its text, and a nil pointer is null. *)
Definition kidValue (id : option uuid) : any := match id with Some u => AString (UString u) | None => ANil end.

Definition Master_Token (instance : JWTMaster) (claims : Claims) : go autherror bytes :=
  let token := mkToken (<[jwtKeyID := kidValue (keyID instance)]> (NewHeader (mmethod instance))) (mmethod instance) false in
  match SignedString token claims (private instance) with
  | inr err => Err (Errorf (txt "can't sign token: ") [Foreign err])
  | inl signedToken => Ok signedToken
  end.

Definition Master_Parse (instance : JWTMaster) (now : Z) (tokenString : bytes) : option Claims * go autherror unit :=
  let '(token, claims, err) := ParseWithClaims now tokenString (λ _, inl (Public (private instance))) in
  (claims,
   match err, token with
   | None, Some token =>
       if negb (Valid token) then Err (Errorf (txt "token is not valid") [])
       else if negb (bool_decide (Alg token = mmethod instance)) then Err (Errorf (txt "invalid signine method: " ++ Alg token) [])
       else Ok tt
   | Some err, _ => Err (Errorf (txt "invalid token: ") [err])
   | None, None => Err (Errorf (txt "invalid token: ") [])
   end).
End checker.

(** ** userid.go *)

(** [FindStringSubmatch] of [userIDRegexp]: the part up to the first slash, the part up to
    the second, and the rest, in which the dot does not match a line feed. *)
Definition userIDMatch (v : bytes) : option (bytes * bytes * bytes) :=
  '(project, v) ← cutAt 47 v;
  '(auth, userID) ← cutAt 47 v;
  if containsByte 10 userID then None else Some (project, auth, userID).
Definition ParseUserID (v : bytes) : go autherror (bytes * bytes * bytes) :=
  match userIDMatch v with
  | None => Err (Errorf (txt "invalid user id format") [])
  | Some m => Ok m
  end.
