(* ===== verification/AuthProps.v ===== *)
(** * auth: what a checked token proves, and what an issued token is good for *)
From S2P Require Import Prelude Text XError XErrorProps Entitlements Keys KeysProps Auth.
Import RSA RSAProps.

Local Open Scope Z_scope.

Lemma Has_spec l e : Has l e = true ↔ e ∈ l.
Proof.
  induction l as [|x l IH]; cbn [Has]; [split; [done|by intros ?%elem_of_nil]|]. rewrite elem_of_cons, <-IH.
  case_bool_decide as E; [subst; tauto|]. split; [by right|]. by intros [->|].
Qed.

Section auth.
Context {env : Env} `{!KeyFormat, !UUID, !JWT}.
Implicit Types (d : dir) (id : uuid) (c : JWTChecker).

Lemma keyHelper_ok c t key : keyHelper c t = inl key →
  ∃ kid id, Header t !! jwtKeyID = Some (AString kid) ∧ UParse kid = Some id ∧ keys c id = inl key.
Proof.
  unfold keyHelper. destruct (Header t !! jwtKeyID) as [[]|] eqn:E; try done.
  destruct (UParse _) as [id|] eqn:Eu; [|done]. destruct (keys c id) as [k|] eqn:Ek; [|done]. intros [= ->]. by eauto 6.
Qed.

(** C15: a token that the checker accepts names a key of its store, and carries an RS256
    signature that is right for that key; the claims handed out are the ones the token
    carries and they are valid now. *)
Theorem checked_token (ks : KeyStore) c now s claims :
  NewJWTChecker ks = Ok c → Parse c now s = (claims, Ok tt) →
  ∃ cl header kid id key, claims = Some cl ∧ Unverified s = Some (header, txt "RS256", cl) ∧
    header !! jwtKeyID = Some (AString kid) ∧ UParse kid = Some id ∧ ks id = inl key ∧
    Verified (txt "RS256") s key ∧ claimsValid now cl.
Proof.
  unfold NewJWTChecker, Parse. destruct (registered _); [|done]. intros [= <-].
  destruct (ParseWithClaims now s _) as [[tok cs] err] eqn:E. intros [= <- Hr].
  destruct err; [done|]. apply parse_sound in E as (t & k & cl & -> & -> & Hu & Hk & Hv & Hc).
  destruct (Valid t); [|done]. cbn [negb method] in Hr. case_bool_decide as Ha; [|done].
  apply keyHelper_ok in Hk as (kid & id & ? & ? & ?). rewrite Ha in Hu, Hv. by eauto 12.
Qed.

(** Whatever is wrong with a token, the checker's error is an invalid-token error, and it
    never panics on a token: the result is a success or such an error. *)
Theorem checker_errors c now s :
  (Parse c now s).2 = Ok tt ∨ ∃ e, (Parse c now s).2 = Err e ∧ isInvalidToken e = true.
Proof.
  unfold Parse. destruct (ParseWithClaims now s _) as [[tok cs] [err|]] eqn:E; cbn [snd]; [right; eexists; split; reflexivity|].
  apply parse_sound in E as (t & k & cl & -> & _). destruct (Valid t); cbn [negb]; [|right; eexists; split; reflexivity].
  case_bool_decide; cbn [negb]; [by left|right; eexists; split; reflexivity].
Qed.

(** The store of a checker is the keeper over the directory: it returns what [GetKey]
    returns. *)
Definition serves (d : dir) (ks : KeyStore) : Prop := ∀ id,
  match GetKey id d with Ok k => ks id = inl k | Err e => ks id = inr e | Panic => True end.

Lemma getKey_after_delete id d r d' : DeleteKey id d = (r, d') → r = Ok tt → ∃ e, GetKey id d' = Err e.
Proof.
  intros Hd Hr. destruct (keeper_delete _ _ _ _ Hd) as [Hg _]. rewrite (Hg Hr). by eexists.
Qed.

Lemma master_method priv pid nr gen m : NewJWTMaster priv pid nr gen = Ok m →
  mmethod m = jwtSigningMethod ∧ registered jwtSigningMethod = true ∧ is_Some (keyID m).
Proof.
  unfold NewJWTMaster. intros Hm. destruct (registered jwtSigningMethod).
  2:{ destruct priv; repeat case_match; done. }
  destruct priv as [p|].
  - case_bool_decide as E; [done|]. cbn in Hm. injection Hm as <-. split_and!; try done. by destruct pid.
  - case_bool_decide as E; [done|]. destruct nr, gen; try done. cbn in Hm. injection Hm as <-. by split_and!.
Qed.

Lemma keyHelper_kid c h id alg v : keyHelper c (mkToken (<[jwtKeyID := AString (UString id)]> h) alg v) =
  match keys c id with inl k => inl k | inr e => inr (Foreign e) end.
Proof. unfold keyHelper. cbn [Header]. by rewrite lookup_insert_eq, uuid_law. Qed.

(** C14: a token of a master is accepted by every checker whose key directory had the
    master's public key added under its id, with the claims it was issued for, as long
    as these are valid; once the key is deleted it is refused. *)
Theorem issued_token_life priv pid nr gen m id cl s d d1 ks c now :
  NewJWTMaster priv pid nr gen = Ok m → keyID m = Some id → Master_Token m cl = Ok s →
  AddKey id (Public (private m)) d = (Ok tt, d1) → serves d1 ks → NewJWTChecker ks = Ok c →
  (claimsValid now cl → Parse c now s = (Some cl, Ok tt) ∧ Master_Parse m now s = (Some cl, Ok tt)) ∧
  ∀ d2 ks2 c2, DeleteKey id d1 = (Ok tt, d2) → serves d2 ks2 → NewJWTChecker ks2 = Ok c2 →
    ∃ e, (Parse c2 now s).2 = Err e ∧ isInvalidToken e = true.
Proof.
  intros Hm Hid Ht Ha Hs Hc. destruct (master_method _ _ _ _ _ Hm) as (Hmm & Hreg & _).
  unfold Master_Token in Ht. rewrite Hid, Hmm in Ht. cbn [kidValue] in Ht.
  destruct (SignedString _ cl (private m)) as [s'|] eqn:Es; [|done]. injection Ht as ->.
  assert (map_Forall (λ _ v, isText v) (Header (mkToken (<[jwtKeyID := AString (UString id)]> (NewHeader jwtSigningMethod)) jwtSigningMethod false))) as Hx
    by (by apply map_Forall_insert_2, header_texts).
  assert (GetKey id d1 = Ok (Public (private m))) as Hk.
  { destruct (write_inv _ _ _ _ _ _ Ha) as (Hw & _ & _). destruct (Hw eq_refl) as (Hn & Hb & rest & ->).
    unfold GetKey, readKey. cbn [files broken setFile]. rewrite bool_decide_eq_false_2, Hb, lookup_insert_eq by done. apply unmarshal_marshal. }
  unfold NewJWTChecker in *. rewrite Hreg in *. cbn [negb] in *. injection Hc as <-. split.
  - intros Hv. unfold Parse, Master_Parse. split.
    + rewrite (proj1 (parse_signed now s (keyHelper _) _ _ _ Hx Es)); [by cbn; rewrite bool_decide_eq_true_2| |done].
      cbn [Header Alg]. rewrite keyHelper_kid. cbn [keys]. specialize (Hs id). rewrite Hk in Hs. by rewrite Hs.
    + rewrite (proj1 (parse_signed now s (λ _, inl (Public (private m))) _ _ _ Hx Es)); [|done..].
      cbn [Valid Alg negb]. by rewrite Hmm, bool_decide_eq_true_2.
  - intros d2 ks2 c2 Hd Hs2 [= <-]. destruct (getKey_after_delete _ _ _ _ Hd eq_refl) as [e He].
    destruct (proj2 (parse_signed now s (keyHelper (mkChecker ks2 jwtSigningMethod)) _ _ _ Hx Es) (Foreign e)) as (tok & c & e' & Hp).
    { cbn [Header Alg]. rewrite keyHelper_kid. cbn [keys]. specialize (Hs2 id). rewrite He in Hs2. by rewrite Hs2. }
    unfold Parse. rewrite Hp. eexists; split; reflexivity.
Qed.

End auth.

(** User ids come back from the text of their three parts exactly when the first two
    have no slash and the last no line feed, and the text determines the parts. *)
Theorem userid_spec v project auth userID :
  ParseUserID v = Ok (project, auth, userID) ↔
  v = (project ++ 47 :: (auth ++ 47 :: userID)) ∧ (47 ∉ project) ∧ (47 ∉ auth) ∧ (10 ∉ userID).
Proof.
  unfold ParseUserID, userIDMatch. split.
  - destruct (cutAt 47 v) as [[p w]|] eqn:E1; [|done]. cbn [mbind option_bind].
    destruct (cutAt 47 w) as [[a u]|] eqn:E2; [|done]. cbn [mbind option_bind].
    destruct (containsByte 10 u) eqn:E3; [done|]. intros [= <- <- <-].
    apply cutAt_inv in E1 as [-> ?], E2 as [-> ?]. split_and!; try done. intros Hu%containsByte_spec. congruence.
  - intros (-> & Hp & Ha & Hu). rewrite cutAt_app by done. cbn [mbind option_bind]. rewrite cutAt_app by done. cbn [mbind option_bind].
    destruct (containsByte 10 userID) eqn:E; [|done]. by apply containsByte_spec in E.
Qed.

(** ** A concrete token library

    Tokens that only carry a key id, claims that are the time they end, texts that list
    the parts and the private key. *)
#[local] Existing Instance XErrorProps.test_env.
#[local] Existing Instances toy_keys toy_uuid.

Definition toyToken (s : bytes) : option (bytes * bytes * Z * bytes) :=
  q ← bitsDecode s; (decode q : option (bytes * bytes * Z * bytes)).
Definition toyHeader (x : bytes) : gmap bytes any := <[jwtKeyID := AString x]> ∅.
Definition toyParse (now : Z) (s : bytes) (kf : Token → bytes + autherror) : option Token * option Z * option autherror :=
  match toyToken s with
  | None => (None, None, Some ErrInvalidToken)
  | Some (x, alg, c, priv) =>
      match kf (mkToken (toyHeader x) alg false) with
      | inr e => (Some (mkToken (toyHeader x) alg false), Some c, Some e)
      | inl k => if decide (k = priv ∧ now < c) then (Some (mkToken (toyHeader x) alg true), Some c, None)
                 else (Some (mkToken (toyHeader x) alg false), Some c, Some ErrInvalidToken)
      end
  end.
Definition toySign (t : Token) (c : Z) (priv : bytes) : bytes + goerror :=
  match Header t !! jwtKeyID with
  | Some (AString x) =>
      if decide (dom (Header t) = {[ jwtKeyID ]}) then inl (bitsEncode (encode (x, Alg t, c, priv))) else inr NilXErr
  | _ => inr NilXErr
  end.
Lemma toySign_inv t c priv s : toySign t c priv = inl s →
  ∃ x, Header t = toyHeader x ∧ toyToken s = Some (x, Alg t, c, priv).
Proof.
  unfold toySign. destruct (Header t !! jwtKeyID) as [[]|] eqn:E; try done. case_decide as Hd; [|done]. intros [= <-].
  exists s0. split.
  - apply map_eq. intros k. unfold toyHeader. destruct (decide (k = jwtKeyID)) as [->|Hk]; [by rewrite lookup_insert_eq|].
    rewrite lookup_insert_ne, lookup_empty by done. apply not_elem_of_dom. rewrite Hd. by apply not_elem_of_singleton.
  - unfold toyToken. rewrite <-(app_nil_r (bitsEncode _)), bitsEncode_roundtrip. cbn [mbind option_bind]. apply decode_encode.
Qed.

#[local] Instance toy_jwt : JWT.
Proof.
  refine {| Claims := Z; claimsValid := λ now c, now < c; Public := λ k, k; registered := λ _, true; NewHeader := λ _, ∅;
            SignedString := toySign; ParseWithClaims := toyParse;
            Unverified := λ s, '(x, alg, c, _) ← toyToken s; Some (toyHeader x, alg, c); header_texts := λ _, map_Forall_empty _;
            Verified := λ alg s k, ∃ x c, toyToken s = Some (x, alg, c, k) |}.
  - intros now s kf tok c. unfold toyParse. destruct (toyToken s) as [[[[x alg] cl] priv]|] eqn:E; [|done].
    destruct (kf _) as [k|] eqn:Ek; [|done]. case_decide as Hd; [|done]. destruct Hd as [-> Hd]. intros [= <- <-].
    exists (mkToken (toyHeader x) alg true), priv, cl. cbn [Header Alg mbind option_bind]. split_and!; eauto.
  - intros now s kf t cl priv _ (x & Hx & Ht)%toySign_inv. unfold toyParse. rewrite Ht, <-Hx. split.
    + intros -> Hv. by rewrite decide_True.
    + intros e ->. by eauto.
Defined.

Definition toy_claims : Claims (JWT := toy_jwt) := 100.
Definition toy_dir : dir := mkDir ∅ (λ _, None) (λ _, None).
Definition toy_store (d : dir) : KeyStore := λ id, match GetKey id d with Ok k => inl k | Err e => inr e | Panic => inr NilError end.
Lemma toy_serves d : serves d (toy_store d).
Proof. intros id. unfold toy_store. by destruct (GetKey id d). Qed.
Definition toy_master : JWTMaster := mkMaster (Some (txt "u1")) (txt "key") jwtSigningMethod.
Definition toy_text : bytes := bitsEncode (encode (txt "u1", jwtSigningMethod, 100, txt "key")).
Definition toy_dir1 : dir := (AddKey (txt "u1") (txt "key") toy_dir).2.
Definition toy_checker : JWTChecker := mkChecker (toy_store toy_dir1) jwtSigningMethod.

Lemma issued_token_life_witness : Parse toy_checker 5 toy_text = (Some toy_claims, Ok tt).
Proof.
  refine (proj1 (proj1 (issued_token_life (Some (txt "key")) (Some (txt "u1")) (inr NilXErr) (inr NilXErr) toy_master (txt "u1") toy_claims toy_text
    toy_dir toy_dir1 (toy_store toy_dir1) toy_checker 5 eq_refl eq_refl _ _ (toy_serves _) eq_refl) _)).
  - vm_compute. reflexivity.
  - vm_compute. reflexivity.
  - vm_compute. reflexivity.
Defined.

Lemma checked_token_witness : ∃ key, toy_store toy_dir1 (txt "u1") = inl key ∧ Verified (txt "RS256") toy_text key.
Proof.
  destruct (checked_token (toy_store toy_dir1) toy_checker 5 toy_text (Some toy_claims) eq_refl) as (cl & h & kid & id & key & H1 & H2 & H3 & H4 & H5 & H6 & _).
  - vm_compute. reflexivity.
  - exists key. split; [|exact H6]. vm_compute in H2. injection H2 as <- <-.
    vm_compute in H3. injection H3 as <-. cbn in H4. injection H4 as <-. exact H5.
Defined.
