(* ===== verification/Capabilities.v ===== *)
(** * capabilities: what a client says it can do

    Models [src/capabilities/capabilities.go].  A capability is the pair of its id and its
    name; the pointers of the source only ever point to the constants.  [None] is a nil
    [*CapabilitySet] or a nil [*string]. *)
From S2P Require Import Prelude Text.

Local Open Scope Z_scope.

Record Capability := mkCap { cap_id : bytes; cap_name : bytes }.
#[global] Instance Capability_dec : EqDecision Capability.
Proof. solve_decision. Defined.
(** [CapabilitySet.set] *)
Abbreviation CapabilitySet := (list Capability).
Inductive caperror := ErrUnknown.

Definition CapabilityGhost : Capability := mkCap (txt "gh") (txt "Ghost").

Definition ParseCapability (str : bytes) : caperror + Capability :=
  if bool_decide (ToLower str = txt "gh") then inr CapabilityGhost else inl ErrUnknown.

Definition Cap_Is (s other : Capability) : bool := bool_decide (cap_id s = cap_id other).
Definition Cap_String (s : Capability) : bytes := cap_name s.

Fixpoint containsLoop (set : list Capability) (c : Capability) : bool :=
  match set with
  | [] => false
  | sc :: set => if Cap_Is sc c then true else containsLoop set c
  end.
Definition Contains (s : option CapabilitySet) (c : Capability) : bool :=
  match s with None => false | Some set => containsLoop set c end.
(** Adding to a nil set dereferences it. *)
Definition Set_ (s : option CapabilitySet) (c : Capability) : go caperror CapabilitySet :=
  match s with
  | None => Panic
  | Some set => Ok (if negb (Contains s c) then set ++ [c] else set)
  end.

Fixpoint setAll (caps : list Capability) (result : CapabilitySet) : go caperror CapabilitySet :=
  match caps with
  | [] => Ok result
  | c :: caps => result ← Set_ (Some result) c; setAll caps result
  end.
Definition NewCapabilitySet (caps : list Capability) : go caperror CapabilitySet := setAll caps [].

Fixpoint parseTokens (ignoreUnknown : bool) (tokens : list bytes) (result : CapabilitySet) : go caperror CapabilitySet :=
  match tokens with
  | [] => Ok result
  | t :: tokens =>
      match ParseCapability t with
      | inl _ => if ignoreUnknown then parseTokens ignoreUnknown tokens result else Err ErrUnknown
      | inr c => result ← Set_ (Some result) c; parseTokens ignoreUnknown tokens result
      end
  end.
Definition ParseCapabilitySetPtr (str : option bytes) (ignoreUnknown : bool) : go caperror (option CapabilitySet) :=
  match str with
  | None => Ok None
  | Some str => r ← parseTokens ignoreUnknown (Split 44 str) []; Ok (Some r)
  end.
Definition ParseCapabilitySet (str : bytes) (ignoreUnknown : bool) : go caperror (option CapabilitySet) :=
  ParseCapabilitySetPtr (Some str) ignoreUnknown.
(** The error is dropped: the set is nil then. *)
Definition MustParseCapabilitySetPtr (str : option bytes) : go caperror (option CapabilitySet) :=
  match ParseCapabilitySetPtr str true with Err _ => Ok None | r => r end.
Definition MustParseCapabilitySet (str : bytes) : go caperror (option CapabilitySet) :=
  match ParseCapabilitySet str true with Err _ => Ok None | r => r end.

Fixpoint stringLoop (set : list Capability) (result : bytes) : bytes :=
  match set with
  | [] => result
  | c :: set => stringLoop set (result ++ txt "," ++ cap_id c)
  end.
Definition Set_String (s : option CapabilitySet) : bytes :=
  match s with
  | None => []
  | Some [] => []
  | Some (c :: set) => stringLoop set (cap_id c)
  end.

(** ** Properties *)

(** The capabilities the parser knows. *)
Definition known (c : Capability) : Prop := ParseCapability (cap_id c) = inr c.

(** No id twice. *)
Definition unique (s : CapabilitySet) : Prop := NoDup (cap_id <$> s).

Lemma containsLoop_spec s c : containsLoop s c = true ↔ cap_id c ∈ (cap_id <$> s).
Proof.
  induction s as [|x s IH]; cbn [containsLoop fmap list_fmap]; [split; [done|by intros ?%elem_of_nil]|].
  rewrite elem_of_cons. unfold Cap_Is. case_bool_decide as E; [rewrite E; tauto|]. rewrite IH. intuition congruence.
Qed.

Lemma Set_spec s c : unique s → ∃ s', Set_ (Some s) c = Ok s' ∧ unique s' ∧
  ∀ c', Contains (Some s') c' = true ↔ Contains (Some s) c' = true ∨ cap_id c' = cap_id c.
Proof.
  intros Hu. unfold Set_, Contains. destruct (containsLoop s c) eqn:E; cbn [negb].
  - exists s. split; [done|]. split; [done|]. intros c'. rewrite !containsLoop_spec. apply containsLoop_spec in E. intuition congruence.
  - exists (s ++ [c]). split; [done|]. assert (cap_id c ∉ (cap_id <$> s)) as Hc by (rewrite <-containsLoop_spec; congruence). split.
    + unfold unique. rewrite fmap_app. apply NoDup_app. split; [done|]. split; [|apply NoDup_singleton].
      intros x Hx Hx'. cbn in Hx'. apply list_elem_of_singleton in Hx' as ->. done.
    + intros c'. rewrite !containsLoop_spec, fmap_app, elem_of_app. cbn. rewrite list_elem_of_singleton. done.
Qed.

Lemma parseTokens_spec ig tokens : ∀ s r, unique s → parseTokens ig tokens s = Ok r →
  unique r ∧ (ig = false → Forall (λ t, ∃ c, ParseCapability t = inr c) tokens) ∧
  ∀ c, Contains (Some r) c = true ↔
    Contains (Some s) c = true ∨ ∃ t c', t ∈ tokens ∧ ParseCapability t = inr c' ∧ cap_id c' = cap_id c.
Proof.
  induction tokens as [|t tokens IH]; intros s r Hu; cbn [parseTokens].
  { intros [= <-]. split; [done|]. split; [constructor|]. intros c. split; [by left|]. intros [?|(t & c' & Ht & _)]; [done|]. by apply elem_of_nil in Ht. }
  destruct (ParseCapability t) as [e|c0] eqn:Ep.
  - destruct ig; [|done]. intros Hr. destruct (IH _ _ Hu Hr) as (H1 & _ & H3). split; [done|]. split; [done|].
    intros c. rewrite H3. split; [|]; (intros [?|(t' & c' & Ht & Hp & Hi)]; [by left|right]).
    + exists t', c'. split; [by apply elem_of_cons; right|done].
    + apply elem_of_cons in Ht as [->|Ht]; [congruence|]. eauto.
  - destruct (Set_spec s c0 Hu) as (s' & Hs & Hu' & Hc'). rewrite Hs. cbn [mbind go_bind]. intros Hr.
    destruct (IH _ _ Hu' Hr) as (H1 & H2 & H3). split; [done|]. split; [intros Hig; constructor; eauto|].
    intros c. rewrite H3, Hc'. split.
    + intros [[?|?]|(t' & c' & Ht & Hp & Hi)]; [by left| |].
      * right. exists t, c0. split; [by apply elem_of_cons; left|done].
      * right. exists t', c'. split; [by apply elem_of_cons; right|done].
    + intros [?|(t' & c' & Ht & Hp & Hi)]; [by left; left|]. apply elem_of_cons in Ht as [->|Ht]; [left; right; congruence|]. right; eauto.
Qed.

(** What parsing returns: the set of the capabilities that are named in the text, without
    repetitions; when unknown names are not ignored, all names are known. *)
Theorem parse_set_spec str ig r : ParseCapabilitySet str ig = Ok (Some r) →
  unique r ∧ (ig = false → Forall (λ t, ∃ c, ParseCapability t = inr c) (Split 44 str)) ∧
  ∀ c, Contains (Some r) c = true ↔ ∃ t c', t ∈ Split 44 str ∧ ParseCapability t = inr c' ∧ cap_id c' = cap_id c.
Proof.
  unfold ParseCapabilitySet, ParseCapabilitySetPtr. destruct (parseTokens ig (Split 44 str) []) as [s|e|] eqn:E; cbn; [|done..]. intros [= ->].
  destruct (parseTokens_spec _ _ _ _ (NoDup_nil_2 : unique []) E) as (H1 & H2 & H3). split; [done|]. split; [done|].
  intros c. specialize (H3 c). rewrite H3. split; [by intros [?|?]|by right].
Qed.

Lemma stringLoop_Join c s r : stringLoop s (r ++ cap_id c) = r ++ Join 44 (cap_id <$> (c :: s)).
Proof.
  revert c r. induction s as [|c2 s IH]; intros c r; [done|]. cbn [stringLoop]. rewrite (app_assoc (r ++ _)).
  rewrite IH. rewrite <-!app_assoc. done.
Qed.
Lemma Set_String_Join s : Set_String (Some s) = Join 44 (cap_id <$> s).
Proof. destruct s as [|c s]; [done|]. cbn [Set_String]. apply (stringLoop_Join c s []). Qed.

Lemma known_nocomma c : known c → 44 ∉ cap_id c.
Proof.
  unfold known, ParseCapability. case_bool_decide as E; [|done]. intros [= <-]. cbn. rewrite !not_elem_of_cons. split; [done|]. split; [done|apply not_elem_of_nil].
Qed.

Lemma parseTokens_known ig s : ∀ acc, unique (acc ++ s) → Forall known s → parseTokens ig (cap_id <$> s) acc = Ok (acc ++ s).
Proof.
  induction s as [|c s IH]; intros acc Hu Hk; cbn [parseTokens fmap list_fmap]; [by rewrite app_nil_r|].
  apply Forall_cons in Hk as [Hc Hk]. rewrite Hc. unfold Set_, Contains.
  destruct (containsLoop acc c) eqn:E.
  { exfalso. apply containsLoop_spec in E. unfold unique in Hu. rewrite fmap_app in Hu. apply NoDup_app in Hu as (_ & Hd & _).
    apply (Hd _ E). by apply elem_of_cons; left. }
  cbn [negb mbind go_bind]. rewrite IH; [by rewrite <-app_assoc|by rewrite <-app_assoc|done].
Qed.

(** A set of known capabilities that is not empty comes back from its text, in the
    same order; the empty set does not: its text is not accepted by the strict parser. *)
Theorem set_roundtrip s ig : unique s → Forall known s →
  (s ≠ [] → ParseCapabilitySet (Set_String (Some s)) ig = Ok (Some s)) ∧
  (s = [] → ParseCapabilitySet (Set_String (Some s)) ig = if ig then Ok (Some []) else Err ErrUnknown).
Proof.
  intros Hu Hk. split; [|intros ->; by destruct ig]. intros Hne. unfold ParseCapabilitySet, ParseCapabilitySetPtr.
  rewrite Set_String_Join, Split_Join.
  - by rewrite parseTokens_known.
  - by destruct s.
  - apply Forall_fmap. apply (Forall_impl _ _ _ Hk). intros c Hc. cbn. by apply known_nocomma.
Qed.
Lemma set_roundtrip_witness : ParseCapabilitySet (Set_String (Some [CapabilityGhost])) false = Ok (Some [CapabilityGhost]).
Proof. refine (proj1 (set_roundtrip [CapabilityGhost] false _ _) _); [apply NoDup_singleton|repeat constructor|discriminate]. Defined.
