(* ===== verification/Storage.v ===== *)
(** * xstorage: requests built from the fields of a structure

    Models [src/xstorage/requests.go].  What reflection sees of a structure is the list of
    its fields; what is not exported cannot be handed out as an interface, which panics. *)
From S2P Require Import Prelude Text.

Local Open Scope Z_scope.

(** A field: its name, the tag [db], its value: a structure, a pointer (nil or not),
    or anything else (its zero value or not). *)
Inductive field := mkField (Name db : bytes) (value : fvalue)
with fvalue := Struct (fields : list field) | Ptr (nil : bool) | Other (zero : bool).

Definition isPtrNil (v : fvalue) : bool := match v with Ptr true => true | _ => false end.
(** [Value.IsZero]: of a structure, all fields are. *)
Fixpoint IsZero (v : fvalue) : bool :=
  match v with
  | Struct fs => forallb (λ f, let '(mkField _ _ v) := f in IsZero v) fs
  | Ptr n => n
  | Other z => z
  end.
(** Exported names start with a capital letter. *)
Definition isExported (name : bytes) : bool := match name with b :: _ => (65 <=? b) && (b <=? 90) | [] => false end.

(** One round of the loop, with the columns of a nested structure given by [rec]. *)
Definition fieldColumns (rec : fvalue → go unit (list bytes)) (omitNull : bool) (f : field) : go unit (list bytes) :=
  let '(mkField fName columnName v) := f in
  if bool_decide (fName = txt "ID") && IsZero v then Ok []
  else
    let own := negb (bool_decide (columnName = [])) in
    if own && (omitNull && isPtrNil v) then Ok []
    else
      nested ← match v with
               | Struct _ => if isExported fName then rec v else Panic
               | _ => Ok []
               end;
      Ok ((if own then [columnName] else []) ++ nested).

Fixpoint getFieldsV (omitNull : bool) (v : fvalue) : go unit (list bytes) :=
  match v with
  | Struct fs =>
      (fix loop (fs : list field) : go unit (list bytes) :=
         match fs with
         | [] => Ok []
         | f :: fs => c ← fieldColumns (getFieldsV omitNull) omitNull f; cs ← loop fs; Ok (c ++ cs)
         end) fs
  | _ => Panic
  end.
(** [None] is a nil pointer. *)
Definition getFields (i : option fvalue) (omitNull : bool) : go unit (list bytes) :=
  match i with None => Panic | Some v => getFieldsV omitNull v end.

(** The texts [n=:n] *)
Definition assign (n : bytes) : bytes := n ++ txt "=:" ++ n.

(** The loop that builds the conditions; [first] is [i == 0]. *)
Fixpoint selectorLoop (names : list bytes) (first : bool) (selectors : bytes) : bytes :=
  match names with
  | [] => selectors
  | n :: names => selectorLoop names false (if first then assign n else selectors ++ txt " AND " ++ assign n)
  end.
Definition GetSelectRequest (table : bytes) (i : option fvalue) : go unit bytes :=
  names ← getFields i true;
  Ok (match names with
      | [] => txt "SELECT * FROM " ++ table
      | _ => txt "SELECT * FROM " ++ table ++ txt " WHERE " ++ selectorLoop names true []
      end).

(** [strings.Join] with a separator of several bytes *)
Fixpoint JoinS (sep : bytes) (ss : list bytes) : bytes :=
  match ss with
  | [] => []
  | [s] => s
  | s :: ss => s ++ sep ++ JoinS sep ss
  end.

Definition GetInsertRequest (table : bytes) (i : option fvalue) : go unit bytes :=
  names ← getFields i false;
  Ok (match names with
      | [] => txt "INSERT INTO " ++ table
      | _ => let fields := JoinS (txt ", ") names in
             let refs := txt ":" ++ JoinS (txt ", :") names in
             txt "INSERT INTO " ++ table ++ txt " (" ++ fields ++ txt ") VALUES (" ++ refs ++ txt ")"
      end).

(** The loop that looks for the id. *)
Fixpoint haveIdLoop (names : list bytes) (idName : bytes) (haveId : bool) : bool :=
  match names with
  | [] => haveId
  | n :: names => haveIdLoop names idName (if bool_decide (n = idName) then true else haveId)
  end.
Fixpoint valuesLoop (names : list bytes) (idName : bytes) (skippedMap : gset bytes) (values : bytes) : bytes :=
  match names with
  | [] => values
  | n :: names =>
      valuesLoop names idName skippedMap
        (if bool_decide (n ∈ skippedMap ∨ n = idName) then values
         else if zlen values =? 0 then assign n else values ++ txt ", " ++ assign n)
  end.
Definition GetUpdateRequest (table idName : bytes) (i : option fvalue) (skipped : list bytes) : go unit bytes :=
  allNames ← getFields i false;
  notNullNames ← getFields i true;
  if negb (haveIdLoop notNullNames idName false) then Err tt
  else
    let values := valuesLoop allNames idName (list_to_set skipped) [] in
    Ok (txt "UPDATE " ++ table ++ txt " SET " ++ values ++ txt " WHERE " ++ idName ++ txt "=:" ++ idName).

(** ** Properties *)

Lemma selectorLoop_acc names acc : selectorLoop names false acc = acc ++ mjoin ((λ n, txt " AND " ++ assign n) <$> names).
Proof.
  revert acc. induction names as [|n names IH]; intros acc; cbn [selectorLoop]; [by rewrite app_nil_r|].
  rewrite IH. cbn [fmap list_fmap mjoin list_join]. by rewrite <-!app_assoc.
Qed.
Lemma JoinS_cons sep s ss : JoinS sep (s :: ss) = s ++ mjoin ((λ x, sep ++ x) <$> ss).
Proof.
  revert s. induction ss as [|s2 ss IH]; intros s; [by rewrite app_nil_r|].
  change (JoinS sep (s :: s2 :: ss)) with (s ++ sep ++ JoinS sep (s2 :: ss)). rewrite IH. cbn. by rewrite <-!app_assoc.
Qed.
Lemma selectorLoop_Join names : selectorLoop names true [] = JoinS (txt " AND ") (assign <$> names).
Proof.
  destruct names as [|n names]; [done|]. cbn [selectorLoop fmap list_fmap]. rewrite selectorLoop_acc, JoinS_cons. f_equal.
  rewrite <-list_fmap_compose. done.
Qed.

Lemma haveIdLoop_spec names id h : haveIdLoop names id h = true ↔ h = true ∨ id ∈ names.
Proof.
  revert h. induction names as [|n names IH]; intros h; cbn [haveIdLoop].
  - split; [by left|]. intros [?|?%elem_of_nil]; done.
  - rewrite IH, elem_of_cons. case_bool_decide; naive_solver.
Qed.

(** The columns an update assigns. *)
Definition updated (idName : bytes) (skipped : list bytes) (names : list bytes) : list bytes :=
  filter (λ n, ¬ (n ∈ skipped ∨ n = idName)) names.

Lemma assign_nonempty n acc : (zlen (acc ++ assign n) =? 0) = false.
Proof. apply Z.eqb_neq. unfold assign. rewrite !zlen_app. pose proof (zlen_nonneg acc). pose proof (zlen_nonneg n). change (zlen (txt "=:")) with 2. lia. Qed.

Lemma valuesLoop_acc id skipped names acc : (zlen acc =? 0) = false →
  valuesLoop names id (list_to_set skipped) acc = acc ++ mjoin ((λ n, txt ", " ++ assign n) <$> updated id skipped names).
Proof.
  revert acc. induction names as [|n names IH]; intros acc Ha; cbn [valuesLoop]; [by rewrite app_nil_r|].
  unfold updated. rewrite filter_cons. case_bool_decide as E; rewrite elem_of_list_to_set in E.
  - rewrite decide_False by tauto. by apply IH.
  - rewrite decide_True, Ha by done. rewrite app_assoc, IH by apply assign_nonempty. cbn [fmap list_fmap mjoin list_join]. by rewrite <-!app_assoc.
Qed.
Lemma valuesLoop_Join id skipped names :
  valuesLoop names id (list_to_set skipped) [] = JoinS (txt ", ") (assign <$> updated id skipped names).
Proof.
  induction names as [|n names IH]; cbn [valuesLoop]; [done|]. unfold updated. rewrite filter_cons.
  case_bool_decide as E; rewrite elem_of_list_to_set in E.
  - rewrite decide_False by tauto. apply IH.
  - rewrite decide_True by done. cbn [zlen length Z.of_nat Z.eqb]. change (zlen ([] : bytes) =? 0) with true. cbv iota.
    rewrite valuesLoop_acc by apply (assign_nonempty n []). cbn [fmap list_fmap]. rewrite JoinS_cons, <-list_fmap_compose. done.
Qed.

(** The requests for a structure whose columns are [all], and [set] without the nil
    pointers.  A select asks for equality on every column that is set; an insert names
    every column and refers to every value, in the same order; an update assigns, in
    order, every column but the id and the skipped ones, and is refused exactly when the
    structure does not have the id. *)
Theorem request_texts table idName skipped i all set :
  getFields i false = Ok all → getFields i true = Ok set →
  GetSelectRequest table i = Ok (txt "SELECT * FROM " ++ table ++
    (if bool_decide (set = []) then [] else txt " WHERE " ++ JoinS (txt " AND ") (assign <$> set))) ∧
  (all ≠ [] → GetInsertRequest table i = Ok (txt "INSERT INTO " ++ table ++ txt " (" ++ JoinS (txt ", ") all ++
     txt ") VALUES (" ++ JoinS (txt ", ") ((λ n, txt ":" ++ n) <$> all) ++ txt ")")) ∧
  (idName ∈ set → GetUpdateRequest table idName i skipped = Ok (txt "UPDATE " ++ table ++ txt " SET " ++
     JoinS (txt ", ") (assign <$> updated idName skipped all) ++ txt " WHERE " ++ assign idName)) ∧
  (idName ∉ set → GetUpdateRequest table idName i skipped = Err tt).
Proof.
  intros Ha Hs. unfold GetSelectRequest, GetInsertRequest, GetUpdateRequest. rewrite Ha, Hs. cbn [mbind go_bind].
  assert (idName ∈ set ↔ haveIdLoop set idName false = true) as Hid by (rewrite haveIdLoop_spec; naive_solver).
  split_and!.
  - rewrite <-selectorLoop_Join. destruct set; [by rewrite app_nil_r|]. by rewrite bool_decide_eq_false_2.
  - intros Hne. destruct all as [|n all]; [done|]. cbn [fmap list_fmap]. rewrite !JoinS_cons, <-list_fmap_compose.
    cbv beta iota zeta. rewrite <-!app_assoc. done.
  - rewrite Hid. intros ->. cbn [negb]. by rewrite valuesLoop_Join.
  - rewrite Hid. by destruct (haveIdLoop set idName false).
Qed.

Lemma loop_app om fs : getFieldsV om (Struct fs) = foldr (λ f r, c ← fieldColumns (getFieldsV om) om f; cs ← r; Ok (c ++ cs)) (Ok []) fs.
Proof. induction fs as [|f fs IH]; [done|]. cbn [getFieldsV foldr] in *. by rewrite <-IH. Qed.

Definition fval (f : field) : fvalue := let '(mkField _ _ v) := f in v.
(** Induction that reaches the structures inside structures. *)
Fixpoint fvalue_deep_ind (P : fvalue → Prop) (HS : ∀ fs, Forall (λ f, P (fval f)) fs → P (Struct fs))
    (HP : ∀ n, P (Ptr n)) (HO : ∀ z, P (Other z)) (v : fvalue) : P v :=
  match v with
  | Struct fs => HS fs ((fix go fs := match fs return Forall (λ f, P (fval f)) fs with
                         | [] => @List.Forall_nil field (λ f, P (fval f))
                         | f :: fs => @List.Forall_cons field (λ f, P (fval f)) f fs
                             (match f return P (fval f) with mkField n c v => fvalue_deep_ind P HS HP HO v end) (go fs)
                         end) fs)
  | Ptr n => HP n
  | Other z => HO z
  end.

Lemma fieldColumns_sublist f a b :
  (∀ all set, getFieldsV false (fval f) = Ok all → getFieldsV true (fval f) = Ok set → set `sublist_of` all) →
  fieldColumns (getFieldsV false) false f = Ok a → fieldColumns (getFieldsV true) true f = Ok b → b `sublist_of` a.
Proof.
  destruct f as [n c v]. unfold fieldColumns, fval. intros Hv.
  destruct (bool_decide (n = txt "ID") && IsZero v); [by intros [= <-] [= <-]|].
  destruct (bool_decide (c = [])), v as [fs|[]|z]; cbn [negb andb isPtrNil mbind go_bind app];
    try (intros [= <-] [= <-]; auto using sublist_cons, sublist_skip, sublist_nil_l; fail);
    (destruct (isExported n); [|done]);
    (destruct (getFieldsV false (Struct fs)) as [x| |] eqn:E1; [|done..]); (destruct (getFieldsV true (Struct fs)) as [y| |] eqn:E2; [|done..]);
    cbn; intros [= <-] [= <-]; auto using sublist_skip.
Qed.

Lemma cons_ok om f fs r : getFieldsV om (Struct (f :: fs)) = Ok r →
  ∃ a b, fieldColumns (getFieldsV om) om f = Ok a ∧ getFieldsV om (Struct fs) = Ok b ∧ r = a ++ b.
Proof.
  rewrite !loop_app. cbn [foldr]. destruct (fieldColumns _ _ f) as [a| |]; [|done..]. rewrite <-loop_app.
  destruct (getFieldsV om (Struct fs)) as [b| |]; [|done..]. intros [= <-]. by exists a, b.
Qed.

(** What is asked for is always part of all columns, in their order: leaving out the nil
    pointers only removes columns, at any depth. *)
Theorem set_columns_sublist v : ∀ all set, getFieldsV false v = Ok all → getFieldsV true v = Ok set → set `sublist_of` all.
Proof.
  induction v as [fs Hfs|n|z] using fvalue_deep_ind; [|done..]. induction Hfs as [|f fs Hf Hfs IH]; intros all set H1 H2.
  - injection H1 as <-. injection H2 as <-. done.
  - apply cons_ok in H1 as (a1 & b1 & ? & ? & ->), H2 as (a2 & b2 & ? & ? & ->). apply sublist_app; [|by apply IH].
    by eapply fieldColumns_sublist.
Qed.

(** A user with a nil reference and an embedded record. *)
Definition user_value : fvalue := Struct
  [mkField (txt "ID") (txt "id") (Other false); mkField (txt "Name") (txt "name") (Other false);
   mkField (txt "Ref") (txt "ref") (Ptr true); mkField (txt "Meta") [] (Struct [mkField (txt "Created") (txt "created") (Ptr false)])].
Lemma request_texts_witness :
  GetUpdateRequest (txt "users") (txt "id") (Some user_value) [txt "created"] = Ok (txt "UPDATE users SET name=:name, ref=:ref WHERE id=:id").
Proof.
  refine (eq_trans (proj1 (proj2 (proj2 (request_texts (txt "users") (txt "id") [txt "created"] (Some user_value)
    [txt "id"; txt "name"; txt "ref"; txt "created"] [txt "id"; txt "name"; txt "created"] _ _))) _) _).
  - vm_compute. reflexivity.
  - vm_compute. reflexivity.
  - apply elem_of_cons. left. reflexivity.
  - vm_compute. reflexivity.
Defined.

(** Requests that no database accepts: an insert without columns, and an update that has
    nothing to assign. *)
Theorem empty_requests table i idName skipped set :
  (getFields i false = Ok [] → GetInsertRequest table i = Ok (txt "INSERT INTO " ++ table)) ∧
  (getFields i false = Ok [idName] → getFields i true = Ok set → idName ∈ set →
   GetUpdateRequest table idName i skipped = Ok (txt "UPDATE " ++ table ++ txt " SET  WHERE " ++ assign idName)).
Proof.
  unfold GetInsertRequest, GetUpdateRequest. split; [by intros ->|]. intros -> ->  Hid. cbn [mbind go_bind].
  rewrite (proj2 (haveIdLoop_spec set idName false)) by by right. cbn [negb].
  rewrite valuesLoop_Join. unfold updated. rewrite filter_cons, decide_False by tauto. done.
Qed.
