(* ===== verification/TLSSign.v ===== *)
(** * tlsutils: certificates with their keys, generated, stored and loaded

    Models [src/tlsutils/sign.go] and [pem.go].  What the crypto packages do is the class
    [X509], with the parts of their documentation the code relies on as laws; the
    files are a map from paths.  The dynamic types a key can have are the ones the code
    distinguishes. *)
From S2P Require Import Prelude Text XError.

Local Open Scope Z_scope.

(** ** path.Join *)

(** One component of a path onto the stack of the ones before it. *)
Definition cleanStep (rooted : bool) (stack : list bytes) (c : bytes) : list bytes :=
  if bool_decide (c = [] ∨ c = txt ".") then stack
  else if bool_decide (c = txt "..") then
    match stack with
    | [] => if rooted then [] else [txt ".."]
    | x :: rest => if bool_decide (x = txt "..") then c :: stack else rest
    end
  else c :: stack.
Definition pathClean (p : bytes) : bytes :=
  let rooted := match p with 47 :: _ => true | _ => false end in
  let out := (if rooted then [47] else []) ++ Join 47 (reverse (foldl (cleanStep rooted) [] (Split 47 p))) in
  match out with [] => txt "." | _ => out end.
(** Of two elements that are not empty. *)
Definition pathJoin (a b : bytes) : bytes := pathClean (a ++ 47 :: b).

(** ** Certificates and keys *)

(** The fields of [x509.Certificate] that the code sets. *)
Record Certificate := mkCert {
  SerialNumber : Z; NotBefore : Z; NotAfter : Z; KeyUsage : Z; ExtKeyUsage : list Z;
  BasicConstraintsValid : bool; IsCA : bool; IPAddresses : list bytes; DNSNames : list bytes; SubjectKeyId : bytes }.
Definition KeyUsageDigitalSignature : Z := 1.
Definition KeyUsageCertSign : Z := 32.
Definition KeyUsageCRLSign : Z := 64.
Definition ExtKeyUsageServerAuth : Z := 1.
Definition ExtKeyUsageClientAuth : Z := 2.

Class X509 := {
  RSAKey : Type; OtherKey : Type; PublicKey : Type;
  RSAPublic : RSAKey → PublicKey;
  MarshalPKIXPublicKey : PublicKey → bytes + goerror;
  Sum256 : bytes → bytes;
  MarshalPKCS8 : RSAKey → bytes + goerror;
  ParsePKCS1 : bytes → RSAKey + goerror;
  ParsePKCS8 : bytes → (RSAKey + OtherKey) + goerror;
  CreateCertificate (rnd : bytes) (template parent : Certificate) (pub : PublicKey) (priv : RSAKey + OtherKey) : bytes + goerror;
  ParseCertificate : bytes → Certificate + goerror;
  (** the public key a certificate (DER) is for, and whether it is signed with a key *)
  certifies : bytes → PublicKey → Prop;
  signedWith : bytes → RSAKey + OtherKey → Prop;
  pemEncode (type body : bytes) : bytes + goerror;
  pemDecode (text : bytes) : option (bytes * nat * bytes);     (** type, number of headers, body *)
  X509KeyPair (certPem keyPem : bytes) : goerror;               (** its error *)
  AppendCertsFromPEM (pem : bytes) : bool;
  pem_law type body text : pemEncode type body = inl text → pemDecode text = Some (type, 0%nat, body) ∧ text ≠ [];
  pkcs8_law k der : MarshalPKCS8 k = inl der → ParsePKCS8 der = inl (inl k) ∧ ∀ k', ParsePKCS1 der = inl k' → k' = k;
  create_law rnd t p pub priv der : CreateCertificate rnd t p pub priv = inl der →
    certifies der pub ∧ signedWith der priv ∧
    ∃ c, ParseCertificate der = inl c ∧ SerialNumber c = SerialNumber t ∧ IsCA c = IsCA t ∧ KeyUsage c = KeyUsage t ∧
         DNSNames c = DNSNames t ∧ (SubjectKeyId t ≠ [] → SubjectKeyId c = SubjectKeyId t) }.

Definition PemBlockTypeCertificate : bytes := txt "CERTIFICATE".
Definition PemBlockTypePrivateKey : bytes := txt "PRIVATE KEY".
Definition certFileName : bytes := txt "tls.cert".
Definition privateKeyFileName : bytes := txt "tls.key".

(** [errors.New], and [fmt.Errorf] with the text before the wrapped error. *)
Definition newErr (text : bytes) : goerror := OtherErr text NilError.
Definition wrapErr (text : bytes) (err : goerror) : goerror := OtherErr text err.
Definition ErrStorageDir : goerror := newErr (txt "storage directory is empty").

Definition makeName (signName fileName : bytes) : bytes :=
  if bool_decide (signName = []) then fileName else signName ++ txt "-" ++ fileName.

Definition lift {A} (r : A + goerror) : go goerror A := match r with inl a => Ok a | inr e => Err e end.
Definition liftW {A} (text : bytes) (r : A + goerror) : go goerror A := match r with inl a => Ok a | inr e => Err (wrapErr text e) end.

(** The files by path; reading or writing some of them fails, and a write that failed leaves
    some content, or the old one. *)
Record files := mkFiles {
  content : gmap bytes bytes; unreadable : bytes → option goerror; unwritable : bytes → option (goerror * option bytes) }.
Definition ReadFile (p : bytes) (fs : files) : bytes + goerror :=
  match unreadable fs p with
  | Some e => inr e
  | None => match content fs !! p with Some b => inl b | None => inr (newErr (txt "file does not exist")) end
  end.
Definition setContent (p b : bytes) (fs : files) : files := mkFiles (<[p := b]> (content fs)) (unreadable fs) (unwritable fs).
Definition WriteFile (p b : bytes) (fs : files) : option goerror * files :=
  match unwritable fs p with
  | Some (e, Some rest) => (Some e, setContent p rest fs)
  | Some (e, None) => (Some e, fs)
  | None => (None, setContent p b fs)
  end.

Section sign.
Context `{!X509}.
Abbreviation PrivateKey := (sum RSAKey OtherKey).

(** [Cert] and [PrivateKey] can be nil. *)
Record Sign := mkSign { Cert : option Certificate; CertPem : bytes; PrivKey : option PrivateKey; PrivateKeyPem : bytes }.

(** Certificates carry their times in UTC. *)
Definition Sign_String (s : Sign) : bytes :=
  match Cert s with
  | Some c => txt "cert nb: " ++ Calendar.rfc3339 (NotBefore c) ++ txt ", na: " ++ Calendar.rfc3339 (NotAfter c)
  | None => []
  end.

Definition encodePEM (data blockType : bytes) : go goerror bytes := lift (pemEncode blockType data).
Definition decodePEM (data blockType : bytes) : go goerror bytes :=
  match pemDecode data with
  | None => Err (newErr (txt "cannot parse PEM block"))
  | Some (type, headers, body) =>
      if negb (bool_decide (type = blockType)) then Err (newErr (txt "unexpected pem block " ++ type ++ txt ", expected " ++ blockType))
      else if negb (headers =? 0)%nat then Err (newErr (txt "invalid PEM block, no headers"))
      else Ok body
  end.

Definition marshalPrivateKey (privateKey : PrivateKey) : go goerror bytes :=
  match privateKey with
  | inl k => lift (MarshalPKCS8 k)
  | inr _ => Err (newErr (txt "unsupported private key type"))
  end.
Definition unmarshalPrivateKey (keyDer : bytes) : go goerror PrivateKey :=
  match ParsePKCS1 keyDer with
  | inl key => Ok (inl key)
  | inr _ =>
      match ParsePKCS8 keyDer with
      | inl (inl key) => Ok (inl key)
      | inl (inr key) => Err (newErr (txt "unknown private key type in PKCS#8 wrapping"))
      | inr _ => Err (newErr (txt "unsupported private key type"))
      end
  end.

(** ** Storing and loading *)
Definition Store (s : Sign) (storageDirectory signName : bytes) (fs : files) : go goerror unit * files :=
  if bool_decide (storageDirectory = []) then (Err ErrStorageDir, fs)
  else if bool_decide (CertPem s = []) then (Err (newErr (txt "sign cert is not set on")), fs)
  else if bool_decide (PrivateKeyPem s = []) then (Err (newErr (txt "sign private key is not set on")), fs)
  else
    let '(err, fs) := WriteFile (pathJoin storageDirectory (makeName signName certFileName)) (CertPem s) fs in
    match err with
    | Some err => (Err (wrapErr (txt "failed to store sign cert: ") err), fs)
    | None =>
        let '(err, fs) := WriteFile (pathJoin storageDirectory (makeName signName privateKeyFileName)) (PrivateKeyPem s) fs in
        match err with
        | Some err => (Err (wrapErr (txt "failed to store sign cert: ") err), fs)
        | None => (Ok tt, fs)
        end
    end.

Definition LoadSign (storageDirectory signName : bytes) (fs : files) : go goerror Sign :=
  if bool_decide (storageDirectory = []) then Err ErrStorageDir
  else
    certPem ← liftW (txt "failed to load sign cert: ") (ReadFile (pathJoin storageDirectory (makeName signName certFileName)) fs);
    crtDer ← decodePEM certPem PemBlockTypeCertificate;
    cert ← liftW (txt "failed to parse sign cert: ") (ParseCertificate crtDer);
    privateKeyPem ← liftW (txt "failed to load sign private key: ") (ReadFile (pathJoin storageDirectory (makeName signName privateKeyFileName)) fs);
    privateKeyDer ← decodePEM privateKeyPem PemBlockTypePrivateKey;
    privateKey ← unmarshalPrivateKey privateKeyDer;
    Ok (mkSign (Some cert) certPem (Some privateKey) privateKeyPem).

(** ** Credentials: the parts of the TLS configuration *)
Record TLSConfig := mkTLS { Certificates : list (bytes * bytes); ClientCAs : option bytes; RootCAs : option bytes }.
Definition GrpcServerCredentials (s : Sign) (caPem : bytes) : go goerror TLSConfig :=
  if bool_decide (CertPem s = [] ∨ PrivateKeyPem s = []) then Err (newErr (txt "incomplete/uninitialized cert and private key"))
  else
    let err := X509KeyPair (CertPem s) (PrivateKeyPem s) in
    if negb (isNil err) then Err (wrapErr (txt "failed to load TLS key pair: ") err)
    else if negb (bool_decide (caPem = [])) && negb (AppendCertsFromPEM caPem)
         then Err (wrapErr (txt "failed to create cert pool: ") err)
    else Ok (mkTLS [(CertPem s, PrivateKeyPem s)] (if bool_decide (caPem = []) then None else Some caPem) None).
Definition GrpcClientCredentials (s : Sign) : go goerror TLSConfig :=
  if bool_decide (CertPem s = []) then Err (newErr (txt "incomplete/uninitialized cert"))
  else if negb (AppendCertsFromPEM (CertPem s)) then Err (newErr (txt "failed to add server CA's certificate"))
  else Ok (mkTLS [] None (Some (CertPem s))).

(** ** Generating *)
Record SignGenOptions := mkOpts { parentSign : option Sign; templateCert : Certificate; signer : option RSAKey }.
Definition SignGenOption : Type := SignGenOptions → SignGenOptions + goerror.

Definition onTemplate (f : Certificate → Certificate) : SignGenOption := λ o, inl (mkOpts (parentSign o) (f (templateCert o)) (signer o)).
Definition WithCA : SignGenOption := onTemplate (λ t,
  mkCert (SerialNumber t) (NotBefore t) (NotAfter t)
    (Z.lor (Z.lor KeyUsageDigitalSignature KeyUsageCertSign) KeyUsageCRLSign)
    (ExtKeyUsage t) (BasicConstraintsValid t) true (IPAddresses t) (DNSNames t) (SubjectKeyId t)).
Definition addIPs (ips : list bytes) (t : Certificate) : Certificate :=
  mkCert (SerialNumber t) (NotBefore t) (NotAfter t) (KeyUsage t) (ExtKeyUsage t) (BasicConstraintsValid t) (IsCA t)
    (IPAddresses t ++ ips) (DNSNames t) (SubjectKeyId t).
Definition WithIPAddresses (ips : list bytes) : SignGenOption := onTemplate (addIPs ips).
Definition WithDNSNames (dnsNames : list bytes) : SignGenOption := onTemplate (λ t,
  mkCert (SerialNumber t) (NotBefore t) (NotAfter t) (KeyUsage t) (ExtKeyUsage t) (BasicConstraintsValid t) (IsCA t)
    (IPAddresses t) dnsNames (SubjectKeyId t)).
(** [net.IPv4] is the 16-byte form. *)
Definition WithLocalIPAddresses : SignGenOption :=
  onTemplate (addIPs [repeat 0 10 ++ [255; 255; 127; 0; 0; 1]; repeat 0 15 ++ [1]]).
(** [generated] is what [rsa.GenerateKey] returns. *)
Definition WithRsaSigner (generated : RSAKey + goerror) : SignGenOption := λ o,
  match generated with
  | inr err => inr err
  | inl k => inl (mkOpts (parentSign o) (templateCert o) (Some k))
  end.
Definition WithParentSign (sign : option Sign) : SignGenOption := λ o,
  match sign with
  | Some s =>
      if bool_decide (Cert s = None) then inr (newErr (txt "parent sign is invalid"))
      else match PrivKey s with
      | None => inr (newErr (txt "parent sign is invalid"))
      | Some _ => inl (mkOpts (Some s) (templateCert o) (signer o))
      end
  | None => inr (newErr (txt "parent sign is invalid"))
  end.

Fixpoint applyOptions (opts : list SignGenOption) (o : SignGenOptions) : go goerror SignGenOptions :=
  match opts with
  | [] => Ok o
  | opt :: opts => match opt o with inl o => applyOptions opts o | inr err => Err err end
  end.

Definition generateSubjectKeyID (publicKey : PublicKey) : go goerror bytes :=
  data ← lift (MarshalPKIXPublicKey publicKey); Ok (Sum256 data).

Definition getPublicKey (privateKey : RSAKey) : go goerror PublicKey := Ok (RSAPublic privateKey).

Definition setSubjectKeyId (id : bytes) (t : Certificate) : Certificate :=
  mkCert (SerialNumber t) (NotBefore t) (NotAfter t) (KeyUsage t) (ExtKeyUsage t) (BasicConstraintsValid t) (IsCA t)
    (IPAddresses t) (DNSNames t) id.

(** The two readings of the clock, in seconds since the year 1, UTC. *)
Definition newTemplate (serialNumber now later : Z) : Certificate :=
  mkCert serialNumber (now - 600) (Calendar.addYears 86400 1 later) (Z.lor KeyUsageDigitalSignature KeyUsageCertSign)
    [ExtKeyUsageClientAuth; ExtKeyUsageServerAuth] true false [] [] [].

(** Certificate and key of the one who signs, and the public key to be signed; a parent
    without a certificate would be a nil pointer. *)
Definition chooseSigner (g : SignGenOptions) (k : RSAKey) : go goerror (Certificate * PrivateKey * PublicKey) :=
  if IsCA (templateCert g) then Ok (templateCert g, inl k, RSAPublic k)
  else match parentSign g with
  | Some p =>
      publicKey ← getPublicKey k;
      match Cert p, PrivKey p with
      | Some c, Some pk => Ok (c, pk, publicKey)
      | _, _ => Panic
      end
  | None => Err (newErr (txt "incomplete sign options"))
  end.

Definition GenerateSign (opts : list SignGenOption) (serial : Z + goerror) (now later : Z) (rnd : bytes) : go goerror Sign :=
  serialNumber ← lift serial;
  g ← applyOptions opts (mkOpts None (newTemplate serialNumber now later) None);
  match signer g with
  | None => Err (newErr (txt "signer is not set"))
  | Some k =>
      '(signerCert, privateKey, publicKey) ← chooseSigner g k;
      keyId ← generateSubjectKeyID publicKey;
      (* the certificate of the signer may be the template itself: it gets the id too *)
      let template := setSubjectKeyId keyId (templateCert g) in
      let signerCert := if IsCA (templateCert g) then template else signerCert in
      cert ← lift (CreateCertificate rnd template signerCert publicKey privateKey);
      certPem ← encodePEM cert PemBlockTypeCertificate;
      certPrivateKey ← marshalPrivateKey (inl k);
      certPrivateKeyPem ← encodePEM certPrivateKey PemBlockTypePrivateKey;
      Ok (mkSign (Some template) certPem (Some (inl k)) certPrivateKeyPem)
  end.
End sign.
