(* ===== verification/TLSSignProps.v ===== *)
(** * tlsutils: what comes back from the files, and who signed what *)
From S2P Require Import Prelude Text XError KeysProps TLSSign.

Local Open Scope Z_scope.

(** ** Paths *)
Lemma Split_last sep s b : last s = Some b → b ≠ sep → ∃ ws c, Split sep s = ws ++ [c] ∧ last c = Some b.
Proof.
  intros Hl Hb. induction s as [|x s IH]; [done|]. rewrite last_cons in Hl. cbn [Split].
  destruct (last s) as [y|] eqn:E.
  - destruct (IH Hl) as (ws & c & -> & Hc). destruct (x =? sep); [by exists ([] :: ws), c|].
    destruct ws as [|w ws]; [|by exists ((x :: w) :: ws), c]. exists [], (x :: c). split; [done|]. by rewrite last_cons, Hc.
  - apply last_None in E as ->. injection Hl as ->. rewrite (proj2 (Z.eqb_neq b sep)) by done. by exists [], [b].
Qed.

Lemma Join_last (ss : list bytes) c b : last c = Some b → last (Join 47 (ss ++ [c])) = Some b.
Proof.
  intros Hc. induction ss as [|s ss IH]; [done|]. cbn [app].
  assert (∃ x r, ss ++ [c] = x :: r) as (x & r & E) by (destruct ss; cbn; eauto). rewrite E in IH |- *.
  change (Join 47 (s :: x :: r)) with (s ++ 47 :: Join 47 (x :: r)). by rewrite last_app, last_cons, IH.
Qed.

(** The last byte of a joined path is the one of the name, unless that is a slash or a dot. *)
Lemma pathJoin_last d name b : last name = Some b → b ≠ 47 → b ≠ 46 → last (pathJoin d name) = Some b.
Proof.
  intros Hl Hb1 Hb2. unfold pathJoin, pathClean.
  assert (last (d ++ 47 :: name) = Some b) as Hp by (by rewrite last_app, last_cons, Hl).
  set (rooted := match d ++ 47 :: name with 47 :: _ => true | _ => false end). clearbody rooted.
  destruct (Split_last 47 _ b Hp Hb1) as (ws & c & -> & Hc). rewrite foldl_app. cbn [foldl].
  assert (cleanStep rooted (foldl (cleanStep rooted) [] ws) c = c :: foldl (cleanStep rooted) [] ws) as ->.
  { unfold cleanStep at 1. rewrite bool_decide_eq_false_2 by (intros [->| ->]; vm_compute in Hc; congruence).
    rewrite bool_decide_eq_false_2; [done|]. intros ->. vm_compute in Hc. congruence. }
  rewrite reverse_cons. pose proof (Join_last (reverse (foldl (cleanStep rooted) [] ws)) c b Hc) as Hj.
  assert (last ((if rooted then [47] else []) ++ Join 47 (reverse (foldl (cleanStep rooted) [] ws) ++ [c])) = Some b) as Hout
    by (by rewrite last_app, Hj).
  destruct ((if rooted then _ else _) ++ _); [done|]. exact Hout.
Qed.

Lemma makeName_last n f b : last f = Some b → last (makeName n f) = Some b.
Proof. intros Hf. unfold makeName. case_bool_decide; [done|]. by rewrite !last_app, Hf. Qed.

Lemma paths_differ d n : pathJoin d (makeName n certFileName) ≠ pathJoin d (makeName n privateKeyFileName).
Proof.
  intros E. apply (f_equal last) in E.
  rewrite (pathJoin_last d (makeName n certFileName) 116), (pathJoin_last d (makeName n privateKeyFileName) 121) in E;
    first [by apply makeName_last|congruence|done].
Qed.

Section sign.
Context `{!X509}.
Implicit Types (s : Sign) (fs : files).

Lemma bind_Ok {E A B} (m : go E A) (f : A → go E B) b : m ≫= f = Ok b → ∃ a, m = Ok a ∧ f a = Ok b.
Proof. destruct m; [|done..]. eauto. Qed.
Lemma lift_Ok {A} (r : A + goerror) a : lift r = Ok a → r = inl a.
Proof. destruct r; cbn; congruence. Qed.

(** The pieces of a generated sign. *)
Lemma generate_inv opts serial now year rnd s : GenerateSign opts serial now year rnd = Ok s →
  ∃ sn g k signerCert privateKey publicKey keyId certDer keyDer,
    serial = inl sn ∧ applyOptions opts (mkOpts None (newTemplate sn now year) None) = Ok g ∧ signer g = Some k ∧
    chooseSigner g k = Ok (signerCert, privateKey, publicKey) ∧ generateSubjectKeyID publicKey = Ok keyId ∧
    let template := setSubjectKeyId keyId (templateCert g) in
    CreateCertificate rnd template (if IsCA (templateCert g) then template else signerCert) publicKey privateKey = inl certDer ∧
    pemEncode PemBlockTypeCertificate certDer = inl (CertPem s) ∧ MarshalPKCS8 k = inl keyDer ∧
    pemEncode PemBlockTypePrivateKey keyDer = inl (PrivateKeyPem s) ∧ Cert s = Some template ∧ PrivKey s = Some (inl k).
Proof.
  unfold GenerateSign. intros (sn & Hsn & Hg)%bind_Ok. apply lift_Ok in Hsn. apply bind_Ok in Hg as (g & Hg & Hk).
  destruct (signer g) as [k|] eqn:Ek; [|done]. apply bind_Ok in Hk as ([[sc pk] pub] & Hc & Hk).
  apply bind_Ok in Hk as (keyId & Hid & Hk). cbv zeta in Hk.
  apply bind_Ok in Hk as (der & Hder%lift_Ok & Hk). apply bind_Ok in Hk as (pem & Hpem & Hk).
  apply bind_Ok in Hk as (kd & Hkd & Hk). apply bind_Ok in Hk as (kpem & Hkpem & [= <-]).
  unfold encodePEM in *. apply lift_Ok in Hpem, Hkpem, Hkd. exists sn, g, k, sc, pk, pub, keyId, der, kd. by split_and!.
Qed.

(** Reading what was stored. *)
Lemma store_read s d n fs fs' : Store s d n fs = (Ok tt, fs') →
  d ≠ [] ∧ CertPem s ≠ [] ∧ PrivateKeyPem s ≠ [] ∧ unreadable fs' = unreadable fs ∧
  content fs' !! pathJoin d (makeName n certFileName) = Some (CertPem s) ∧
  content fs' !! pathJoin d (makeName n privateKeyFileName) = Some (PrivateKeyPem s).
Proof.
  unfold Store. case_bool_decide as Hd; [done|]. case_bool_decide as Hc; [done|]. case_bool_decide as Hk; [done|].
  pose proof (paths_differ d n) as Hne. unfold WriteFile.
  destruct (unwritable fs _) as [[e [l|]]|]; [done..|]. cbn [unwritable setContent].
  destruct (unwritable fs _) as [[e [l|]]|]; [done..|]. intros [= <-]. split_and!; try done; cbn [content setContent].
  - by rewrite lookup_insert_ne, lookup_insert_eq.
  - by rewrite lookup_insert_eq.
Qed.

Lemma decode_encoded type body text : pemEncode type body = inl text → decodePEM text type = Ok body.
Proof. intros [E _]%pem_law. unfold decodePEM. by rewrite E, bool_decide_eq_true_2. Qed.
Lemma unmarshal_marshaled k der : MarshalPKCS8 k = inl der → unmarshalPrivateKey der = Ok (inl k).
Proof.
  intros [H8 H1]%pkcs8_law. unfold unmarshalPrivateKey. destruct (ParsePKCS1 der) as [k'|] eqn:E; [by rewrite (H1 k' eq_refl)|].
  by rewrite H8.
Qed.

(** What the loaded certificate has in common with the template. *)
Definition same_identity (t c : Certificate) : Prop :=
  SerialNumber c = SerialNumber t ∧ IsCA c = IsCA t ∧ KeyUsage c = KeyUsage t ∧ DNSNames c = DNSNames t ∧
  (SubjectKeyId t ≠ [] → SubjectKeyId c = SubjectKeyId t).

(** C29: a generated sign that was stored is loaded again: the same texts, the same private
    key, and a certificate with the serial number, names, usage and key id it was
    generated with. *)
Theorem sign_store_load opts serial now year rnd s d n fs fs' :
  GenerateSign opts serial now year rnd = Ok s → Store s d n fs = (Ok tt, fs') → (∀ p, unreadable fs p = None) →
  ∃ t c, Cert s = Some t ∧ same_identity t c ∧
         LoadSign d n fs' = Ok (mkSign (Some c) (CertPem s) (PrivKey s) (PrivateKeyPem s)).
Proof.
  intros Hg Hs Hr. destruct (generate_inv _ _ _ _ _ _ Hg) as (sn & g & k & sc & pk & pub & id & der & kd & _ & _ & _ & _ & _ & Hder & Hpem & Hkd & Hkpem & Hc & Hk).
  destruct (store_read _ _ _ _ _ Hs) as (Hd & _ & _ & Hu & H1 & H2).
  destruct (create_law _ _ _ _ _ _ Hder) as (_ & _ & c & Hp & Hid).
  exists (setSubjectKeyId id (templateCert g)), c. split; [done|]. split; [done|].
  unfold LoadSign, ReadFile. rewrite bool_decide_eq_false_2, Hu, !Hr, H1, H2 by done. cbn [liftW mbind go_bind].
  rewrite (decode_encoded _ _ _ Hpem). cbn [mbind go_bind]. rewrite Hp. cbn [liftW mbind go_bind].
  rewrite (decode_encoded _ _ _ Hkpem). cbn [mbind go_bind]. rewrite (unmarshal_marshaled _ _ Hkd). by rewrite Hk.
Qed.

(** A generated certificate is for the public part of the sign's own private key; it is
    signed with that key when the template became one of an authority (whatever parent
    was given), and with the parent's key otherwise; without either, or without a
    signer, nothing is generated. *)
Theorem sign_issuer opts serial now year rnd s :
  GenerateSign opts serial now year rnd = Ok s →
  ∃ sn g k t der issuer, serial = inl sn ∧ applyOptions opts (mkOpts None (newTemplate sn now year) None) = Ok g ∧
    signer g = Some k ∧ PrivKey s = Some (inl k) ∧ Cert s = Some t ∧
    decodePEM (CertPem s) PemBlockTypeCertificate = Ok der ∧ certifies der (RSAPublic k) ∧ signedWith der issuer ∧
    (IsCA t = true → issuer = inl k) ∧ (IsCA t = false → ∃ p, parentSign g = Some p ∧ PrivKey p = Some issuer).
Proof.
  intros Hg. destruct (generate_inv _ _ _ _ _ _ Hg) as (sn & g & k & sc & pk & pub & id & der & kd & Hsn & Ha & Hk & Hch & _ & Hder & Hpem & _ & _ & Hc & Hpk).
  destruct (create_law _ _ _ _ _ _ Hder) as (Hcert & Hsig & _).
  assert (pub = RSAPublic k ∧ (IsCA (templateCert g) = true → pk = inl k) ∧
          (IsCA (templateCert g) = false → ∃ p, parentSign g = Some p ∧ PrivKey p = Some pk)) as (-> & H1 & H2).
  { unfold chooseSigner in Hch. destruct (IsCA (templateCert g)); [by injection Hch as <- <- <-|].
    destruct (parentSign g) as [p|]; [|done]. cbn in Hch. destruct (Cert p), (PrivKey p) eqn:E; try done.
    injection Hch as <- <- <-. split; [done|]. split; [done|]. intros _. by exists p. }
  exists sn, g, k, (setSubjectKeyId id (templateCert g)), der, pk. split_and!; try done. by apply decode_encoded.
Qed.

(** ** Validity *)

(** Options that leave the times of the template alone, as all of the package do. *)
Definition keeps_times (opt : SignGenOption) : Prop := ∀ o o', opt o = inl o' →
  NotBefore (templateCert o') = NotBefore (templateCert o) ∧ NotAfter (templateCert o') = NotAfter (templateCert o).

Lemma package_options_keep ips names generated parent :
  Forall keeps_times [WithCA; WithIPAddresses ips; WithDNSNames names; WithLocalIPAddresses; WithRsaSigner generated; WithParentSign parent].
Proof.
  rewrite !Forall_cons, Forall_nil. unfold keeps_times, WithCA, WithIPAddresses, WithDNSNames, WithLocalIPAddresses, onTemplate.
  split_and!; try done; intros o o'; [by intros [= <-]..| |].
  - unfold WithRsaSigner. destruct generated; [by intros [= <-]|done].
  - unfold WithParentSign. destruct parent as [p|]; [|by intros [= <-]]. case_bool_decide; [done|]. destruct (PrivKey p); [by intros [= <-]|done].
Qed.

Lemma applyOptions_times opts : Forall keeps_times opts → ∀ o g, applyOptions opts o = Ok g →
  NotBefore (templateCert g) = NotBefore (templateCert o) ∧ NotAfter (templateCert g) = NotAfter (templateCert o).
Proof.
  induction 1 as [|opt opts Hk _ IH]; intros o g; cbn [applyOptions]; [by intros [= ->]|].
  destruct (opt o) as [o1|] eqn:E; [|done]. intros Hg. destruct (IH _ _ Hg) as [-> ->]. by apply Hk.
Qed.

(** A certificate is valid from ten minutes before it was made until the same date and
    time of the next year, 365 or 366 days later. *)
Lemma sign_validity opts serial now later rnd s t : Forall keeps_times opts →
  GenerateSign opts serial now later rnd = Ok s → Cert s = Some t →
  NotBefore t = now - 600 ∧ (NotAfter t = later + 365 * 86400 ∨ NotAfter t = later + 366 * 86400).
Proof.
  intros Hk Hg Hc. destruct (generate_inv _ _ _ _ _ _ Hg) as (sn & g & k & sc & pk & pub & id & der & kd & Hsn & Ha & _ & _ & _ & _ & _ & _ & _ & Hc' & _).
  rewrite Hc in Hc'. injection Hc' as ->. destruct (applyOptions_times _ Hk _ _ Ha) as [H1 H2].
  cbn [setSubjectKeyId NotBefore NotAfter]. rewrite H1, H2. cbn [templateCert newTemplate NotBefore NotAfter].
  split; [done|]. apply Calendar.addYears_year. lia.
Qed.

(** Storing is not atomic: when the key cannot be written over an older sign, the new
    certificate stays there with the old key, and loading accepts the pair. *)
Theorem store_mixes opts0 serial0 now0 year0 rnd0 s0 opts serial now year rnd s d n fs0 fs err :
  GenerateSign opts0 serial0 now0 year0 rnd0 = Ok s0 → GenerateSign opts serial now year rnd = Ok s →
  Store s0 d n fs0 = (Ok tt, fs) → (∀ p, unreadable fs0 p = None) →
  let broken := mkFiles (content fs) (unreadable fs) (λ p, if bool_decide (p = pathJoin d (makeName n privateKeyFileName)) then Some (err, None) else None) in
  ∃ fs' c, Store s d n broken = (Err (wrapErr (txt "failed to store sign cert: ") err), fs') ∧
           LoadSign d n fs' = Ok (mkSign (Some c) (CertPem s) (PrivKey s0) (PrivateKeyPem s0)).
Proof.
  intros Hg0 Hg Hs0 Hr broken.
  destruct (generate_inv _ _ _ _ _ _ Hg0) as (_ & _ & k0 & _ & _ & _ & _ & _ & kd0 & _ & _ & _ & _ & _ & _ & _ & Hkd & Hkpem & _ & Hk).
  destruct (generate_inv _ _ _ _ _ _ Hg) as (? & g & ? & ? & ? & ? & id & der & ? & _ & _ & _ & _ & _ & Hder & Hpem & _ & Hkpem1 & Hc & _).
  destruct (store_read _ _ _ _ _ Hs0) as (Hd & _ & _ & Hu & H1 & H2).
  destruct (create_law _ _ _ _ _ _ Hder) as (_ & _ & c & Hp & Hid).
  pose proof (paths_differ d n) as Hne. eexists _, c. split.
  - destruct (pem_law _ _ _ Hpem) as [_ Hc1], (pem_law _ _ _ Hkpem1) as [_ Hc2]. unfold Store.
    rewrite (bool_decide_eq_false_2 (d = [])), (bool_decide_eq_false_2 (CertPem s = [])), (bool_decide_eq_false_2 (PrivateKeyPem s = [])) by done.
    unfold WriteFile. cbn [unwritable broken setContent].
    rewrite bool_decide_eq_false_2 by done. cbn [unwritable setContent broken]. rewrite bool_decide_eq_true_2 by done. reflexivity.
  - unfold LoadSign, ReadFile. cbn [unreadable broken setContent content].
    rewrite bool_decide_eq_false_2, Hu, !Hr, lookup_insert_eq, lookup_insert_ne, H2 by done. cbn [liftW mbind go_bind].
    rewrite (decode_encoded _ _ _ Hpem). cbn [mbind go_bind]. rewrite Hp. cbn [liftW mbind go_bind].
    rewrite (decode_encoded _ _ _ Hkpem). cbn [mbind go_bind]. rewrite (unmarshal_marshaled _ _ Hkd). by rewrite Hk.
Qed.
End sign.

(** ** A concrete crypto library: keys and certificates are their own encodings *)
Definition toyCert : Type := Z * bool * Z * list bytes * bytes * bytes * (bytes + unit).
Definition toyRead (der : bytes) : option toyCert := q ← bitsDecode der; (decode q : option toyCert).
Definition toyCreate (rnd : bytes) (t p : Certificate) (pub : bytes) (priv : bytes + unit) : bytes + goerror :=
  inl (bitsEncode (encode ((SerialNumber t, IsCA t, KeyUsage t, DNSNames t, SubjectKeyId t, pub, priv) : toyCert))).
Lemma toyRead_create rnd t p pub priv der : toyCreate rnd t p pub priv = inl der →
  toyRead der = Some (SerialNumber t, IsCA t, KeyUsage t, DNSNames t, SubjectKeyId t, pub, priv).
Proof. intros [= <-]. unfold toyRead. rewrite <-(app_nil_r (bitsEncode _)), bitsEncode_roundtrip. cbn [mbind option_bind]. apply decode_encode. Qed.

#[local] Instance toy_x509 : X509.
Proof.
  refine {| RSAKey := bytes; OtherKey := unit; PublicKey := bytes; RSAPublic := λ k, k; MarshalPKIXPublicKey := inl; Sum256 := λ b, 1 :: b;
            MarshalPKCS8 := inl; ParsePKCS1 := λ _, inr NilXErr; ParsePKCS8 := λ b, inl (inl b);
            CreateCertificate := toyCreate;
            ParseCertificate := λ der, match toyRead der with
              | Some (sn, ca, ku, dns, id, _, _) => inl (mkCert sn 0 0 ku [] true ca [] dns id) | None => inr NilXErr end;
            certifies := λ der pub, ∃ c, toyRead der = Some c ∧ c.1.2 = pub;
            signedWith := λ der priv, ∃ c, toyRead der = Some c ∧ c.2 = priv;
            pemEncode := λ t b, inl (bitsEncode (encode (t, b)));
            pemDecode := λ l, q ← bitsDecode l; '(t, b) ← (decode q : option (bytes * bytes)); Some (t, 0%nat, b);
            X509KeyPair := λ _ _, NilError; AppendCertsFromPEM := λ _, true |}.
  - intros t b text [= <-]. split; [|by destruct (encode (t, b))].
    rewrite <-(app_nil_r (bitsEncode _)), bitsEncode_roundtrip. cbn [mbind option_bind]. by rewrite decode_encode.
  - intros k der [= <-]. done.
  - intros rnd t p pub priv der Hd%toyRead_create. rewrite Hd. split; [by eexists|]. split; [by eexists|]. eexists. by split_and!.
Defined.

Definition toy_opts : list SignGenOption := [WithCA; WithDNSNames [txt "vpn"]; WithRsaSigner (inl (txt "key"))].
Definition toy_sign : Sign := match GenerateSign toy_opts (inl 77) 1000 2000 [] with Ok s => s | _ => mkSign None [] None [] end.
Definition toy_files : files := mkFiles ∅ (λ _, None) (λ _, None).

Lemma sign_store_load_witness :
  ∃ c, IsCA c = true ∧ LoadSign (txt "/d") (txt "ca") (Store toy_sign (txt "/d") (txt "ca") toy_files).2 =
       Ok (mkSign (Some c) (CertPem toy_sign) (Some (inl (txt "key"))) (PrivateKeyPem toy_sign)).
Proof.
  destruct (sign_store_load toy_opts (inl 77) 1000 2000 [] toy_sign (txt "/d") (txt "ca") toy_files
              (Store toy_sign (txt "/d") (txt "ca") toy_files).2) as (t & c & Ht & Hs & Hl).
  - vm_compute. reflexivity.
  - vm_compute. reflexivity.
  - intros p. reflexivity.
  - exists c. split; [|exact Hl]. destruct Hs as (_ & -> & _). injection Ht as <-. vm_compute. reflexivity.
Defined.

Lemma sign_issuer_witness : ∃ der, decodePEM (CertPem toy_sign) PemBlockTypeCertificate = Ok der ∧ signedWith der (inl (txt "key" : RSAKey)).
Proof.
  destruct (sign_issuer toy_opts (inl 77) 1000 2000 [] toy_sign) as (sn & g & k & t & der & iss & _ & _ & _ & Hp & Hc & Hd & _ & Hs & Hca & _).
  - vm_compute. reflexivity.
  - exists der. split; [exact Hd|]. injection Hc as <-. rewrite Hca in Hs by (vm_compute; reflexivity).
    injection Hp as <-. exact Hs.
Defined.
