(* ===== verification/DNSServer.v ===== *)
(** * xdns/server: the filtering name server

    Models [src/xdns/server/server.go], [plugin/blockreq.go] and [dnsbase/pihole_ftl.go]: a
    request for a name of the block list is answered that the name does not exist, all
    others go on to the next handler.  The name server itself and the database are outside:
    the next handler's result, what the packages compute from a message, the
    answers of the database and of starting a server are parameters. *)
From S2P Require Import Prelude Text XError DomainBase.

Local Open Scope Z_scope.

(** ** dnsbase/pihole_ftl.go *)

(** The table [gravity] of an open database, or the error every query ends with. *)
Definition gravity : Type := gset bytes + goerror.
Inductive ftlerror := FTLWrap (text : bytes) (err : goerror) | FTLLookup (noRows : bool).

(** [stat] and [open_] are the errors of [os.Stat] and [sql.Open]. *)
Definition NewFTLReader (stat open_ : goerror) (db : gravity) : go ftlerror gravity :=
  if negb (isNil stat) then Err (FTLWrap (txt "ftl: failed to stat the DB at path") stat)
  else if negb (isNil open_) then Err (FTLWrap (txt "ftl: failed to open DNS database at") open_)
  else Ok db.

Definition ftl_Lookup (ftl : gravity) (name : bytes) : go ftlerror Domain :=
  match normalizeDomain name with
  | Ok name =>
      match ftl with
      | inr _ => Err (FTLLookup false)
      | inl rows => if bool_decide (name ∈ rows) then Ok (mkDomain 0 0 name None None) else Err (FTLLookup true)
      end
  | _ => Panic
  end.

(** ** plugin/blockreq.go *)

(** The parts of a message the plugin reads or sets. *)
Record Msg := mkMsg {
  Id : Z; Response : bool; Rcode : Z; RecursionAvailable : bool; RecursionDesired : bool;
  Question : list bytes; Answer : list bytes }.
Definition RcodeNameError : Z := 3.
Definition RcodeRefused : Z := 5.
Definition setReplyFlags (rcode : Z) (ra rd : bool) (m : Msg) : Msg :=
  mkMsg (Id m) (Response m) rcode ra rd (Question m) (Answer m).

(** What the plugin does to the outside. *)
Inductive effect :=
  | ObserveLookup                     (** the duration of a lookup is recorded *)
  | CountBlocked                      (** the counter of blocked requests *)
  | LogBlocked (question : bytes)
  | WriteMsg (m : Msg)
  | CallNext (r : Msg).

(** miekg/dns and coredns: the reply to a request, and its lower-cased name with the
    closing dot, or a dot alone when there is not one question. *)
Class DNSLib := {
  SetReply : Msg → Msg;
  StateName : Msg → bytes;
  reply_law r : Id (SetReply r) = Id r ∧ Response (SetReply r) = true ∧ Answer (SetReply r) = [];
  name_law r : ∃ n, StateName r = n ++ [46] }.

Section plugin.
Context `{!DNSLib}.

(** With the results of the next handler. *)
Record blocklistPlugin := mkPlugin { Next : Msg → Z * goerror; looq : gravity }.

(** [mustPass]: [None] is a panic. *)
Definition mustPass (b : blocklistPlugin) (name : bytes) : option bool :=
  match ftl_Lookup (looq b) name with
  | Ok _ => Some false
  | Err _ => Some true
  | Panic => None
  end.

(** [logBlock]: the first question, if there is one. *)
Definition logBlock (r : Msg) : option effect := LogBlocked <$> head (Question r).

(** [ServeDNS]: what happened, in order, and the result; [None] is a panic.  An error of writing the
    reply is only printed. *)
Definition ServeDNS (b : blocklistPlugin) (r : Msg) : list effect * option (Z * goerror) :=
  match mustPass b (StateName r) with
  | None => ([ObserveLookup], None)
  | Some true => ([ObserveLookup; CallNext r], Some (Next b r))
  | Some false =>
      match logBlock r with
      | None => ([ObserveLookup; CountBlocked], None)
      | Some logged =>
          let m := setReplyFlags RcodeNameError false false (SetReply r) in
          ([ObserveLookup; CountBlocked; logged; WriteMsg m], Some (RcodeRefused, NilError))
      end
  end.
End plugin.

(** What is registered with the name server: the names of the plugins, the order of the
    directives, and the database the plugin got. *)
Record registry := mkReg { others : list bytes; Directives : list bytes; installed : option gravity }.
Definition pluginName : bytes := txt "blocklist".
Fixpoint isRegisteredIn (list : list bytes) : bool :=
  match list with
  | [] => false
  | name :: list => if bool_decide (name = txt "dns." ++ pluginName) then true else isRegisteredIn list
  end.
Definition isRegistered (reg : registry) : bool := isRegisteredIn (others reg).
Definition New (stat open_ : goerror) (db : gravity) (reg : registry) : go ftlerror unit * registry :=
  if isRegistered reg then (Ok tt, reg)
  else match NewFTLReader stat open_ db with
  | Ok rd => (Ok tt, mkReg (others reg ++ [txt "dns." ++ pluginName]) (pluginName :: Directives reg) (Some rd))
  | Err err => (Err (FTLWrap (txt "failed to initialize blacklist db") NilError), reg)
  | Panic => (Panic, reg)
  end.

(** ** server.go *)
Record Config := mkConfig { PromListenAddr : bytes; ForwardServers : list bytes }.

Definition intoCaddyfile (c : Config) : bytes :=
  let head := txt ".:53 {" ++ [10] in
  let tail := [10] ++ txt "}" in
  let opts := [txt "errors"; txt "blocklist"] in
  let servers := match ForwardServers c with
                 | [] => [txt "1.1.1.1"; txt "8.8.8.8"; txt "9.9.9.9"]
                 | l => l
                 end in
  let forward := txt "forward . " ++ Join 32 servers ++ [10] ++ txt "cache" in
  let opts := opts ++ [forward] in
  let opts := if 0 <? zlen (PromListenAddr c) then (txt "prometheus " ++ PromListenAddr c) :: opts else opts in
  head ++ Join 10 opts ++ tail.

(** A server with its instance; [stop] is the error of stopping it, and a server that was
    stopped has none: stopping it again dereferences nil. *)
Record server := mkServer { instance : option Z }.
Definition server_Shutdown (stop : Z → goerror) (s : server) : go goerror unit * server :=
  match instance s with
  | None => (Panic, s)
  | Some i => if negb (isNil (stop i)) then (Err (stop i), s) else (Ok tt, mkServer None)
  end.
Definition server_Running (s : server) : bool := bool_decide (instance s ≠ None).

(** [start] is what the name server makes of the configuration text. *)
Definition NewFilteringServer (cfg : Config) (stat open_ : goerror) (db : gravity)
    (start : bytes → registry → Z + goerror) (reg : registry) : go (ftlerror + goerror) server * registry :=
  let '(r, reg) := New stat open_ db reg in
  match r with
  | Err e => (Err (inl e), reg)
  | Panic => (Panic, reg)
  | Ok _ =>
      match start (intoCaddyfile cfg) reg with
      | inr err => (Err (inr err), reg)
      | inl i => (Ok (mkServer (Some i)), reg)
      end
  end.

(** ** Properties *)
Section filtering.
Context `{!DNSLib}.
Implicit Types (b : blocklistPlugin) (r : Msg).

Lemma normalize_dot n : normalizeDomain (n ++ [46]) = Ok n.
Proof. unfold normalizeDomain. rewrite last_snoc. change (46 =? dot) with true. cbv iota. by rewrite removelast_last. Qed.

(** C24: a request for a listed name is never passed on: it is counted, logged and answered
    with a reply to it that says that the name does not exist and carries no answer.  A
    request for any other name goes to the next handler, whose result is the result,
    and nothing is written.  When the database fails, all names pass. *)
Theorem filter_exact b r n :
  StateName r = n ++ [46] →
  (∀ rows q qs, looq b = inl rows → n ∈ rows → Question r = q :: qs →
     ∃ m, ServeDNS b r = ([ObserveLookup; CountBlocked; LogBlocked q; WriteMsg m], Some (RcodeRefused, NilError)) ∧
          Id m = Id r ∧ Response m = true ∧ Rcode m = RcodeNameError ∧ Answer m = [] ∧
          RecursionAvailable m = false ∧ RecursionDesired m = false) ∧
  ((∃ rows, looq b = inl rows ∧ n ∉ rows) ∨ (∃ e, looq b = inr e) →
     ServeDNS b r = ([ObserveLookup; CallNext r], Some (Next b r))).
Proof.
  intros Hn. unfold ServeDNS, mustPass, ftl_Lookup. rewrite Hn, normalize_dot. split.
  - intros rows q qs Hl Hin Hq. rewrite Hl, bool_decide_eq_true_2 by done. unfold logBlock. rewrite Hq. cbn [head fmap option_fmap option_map].
    eexists. split; [reflexivity|]. destruct (reply_law r) as (H1 & H2 & H3). cbn. by split_and!.
  - intros [(rows & -> & Hin)|[e ->]]; [by rewrite bool_decide_eq_false_2|done].
Qed.
End filtering.

Lemma isRegisteredIn_spec l : isRegisteredIn l = true ↔ (txt "dns." ++ pluginName) ∈ l.
Proof.
  induction l as [|x l IH]; cbn [isRegisteredIn]; [split; [done|by intros ?%elem_of_nil]|]. rewrite elem_of_cons, <-IH.
  case_bool_decide as E; [subst; tauto|]. split; [by right|]. by intros [?|?].
Qed.

Lemma New_registered stat open_ db reg : isRegistered reg = true → New stat open_ db reg = (Ok tt, reg).
Proof. intros E. unfold New. by rewrite E. Qed.

(** The first database that was installed stays: registering again, with any database,
    succeeds and changes nothing, also when the new database cannot be opened. *)
Theorem first_database_stays stat open_ db reg reg1 stat2 open2 db2 :
  isRegistered reg = false → New stat open_ db reg = (Ok tt, reg1) →
  installed reg1 = Some db ∧ head (Directives reg1) = Some pluginName ∧ New stat2 open2 db2 reg1 = (Ok tt, reg1).
Proof.
  intros Hr. unfold New at 1. rewrite Hr. unfold NewFTLReader at 1.
  destruct (isNil stat), (isNil open_); cbn [negb]; try done. intros [= <-]. split; [done|]. split; [done|].
  apply New_registered, isRegisteredIn_spec, elem_of_app. right. by apply list_elem_of_singleton.
Qed.

(** The lines of the configuration: the filter comes before forwarding and the cache, and
    there are always servers to forward to. *)
Theorem caddyfile_lines c :
  10 ∉ PromListenAddr c → Forall (λ s, 10 ∉ s) (ForwardServers c) →
  ∃ servers, Split 10 (intoCaddyfile c) =
    [txt ".:53 {"] ++ (if 0 <? zlen (PromListenAddr c) then [txt "prometheus " ++ PromListenAddr c] else []) ++
    [txt "errors"; txt "blocklist"; txt "forward . " ++ Join 32 servers; txt "cache"; txt "}"] ∧
    servers ≠ [] ∧ (ForwardServers c ≠ [] → servers = ForwardServers c).
Proof.
  intros Hp Hf. set (servers := match ForwardServers c with [] => [txt "1.1.1.1"; txt "8.8.8.8"; txt "9.9.9.9"] | l => l end).
  exists servers. split; [|split; [subst servers; by destruct (ForwardServers c)|subst servers; by destruct (ForwardServers c)]].
  assert (10 ∉ Join 32 servers) as Hs.
  { assert (Forall (λ s, 10 ∉ s) servers) as Hall.
    { subst servers. destruct (ForwardServers c); [|done]. repeat constructor; by apply (bool_decide_unpack (_ ∉ _)). }
    clear -Hall. induction Hall as [|s l Hs Hl IH]; [apply not_elem_of_nil|]. destruct l as [|x l]; [done|].
    change (Join 32 (s :: x :: l)) with (s ++ 32 :: Join 32 (x :: l)). apply not_elem_of_app. split; [done|]. by apply not_elem_of_cons. }
  unfold intoCaddyfile. fold servers. cbv zeta.
  assert (∀ a b', 10 ∉ a → Split 10 (a ++ [10] ++ b') = a :: Split 10 b') as Hcut by (intros; by apply Split_cons).
  rewrite <-app_assoc, Hcut by (by apply (bool_decide_unpack (_ ∉ _))). cbn [app]. f_equal.
  assert (Split 10 (Join 10 [txt "errors"; txt "blocklist"; txt "forward . " ++ Join 32 servers ++ [10] ++ txt "cache"] ++ [10] ++ txt "}") =
    [txt "errors"; txt "blocklist"; txt "forward . " ++ Join 32 servers; txt "cache"; txt "}"]) as Hrest.
  { change (Join 10 [txt "errors"; txt "blocklist"; txt "forward . " ++ Join 32 servers ++ [10] ++ txt "cache"]) with
      (txt "errors" ++ [10] ++ (txt "blocklist" ++ [10] ++ (txt "forward . " ++ Join 32 servers ++ [10] ++ txt "cache"))).
    rewrite <-!app_assoc. rewrite Hcut by (by apply (bool_decide_unpack (_ ∉ _))). rewrite Hcut by (by apply (bool_decide_unpack (_ ∉ _))).
    rewrite (app_assoc (txt "forward . ")), Hcut; [done|]. apply not_elem_of_app. split; [by apply (bool_decide_unpack (_ ∉ _))|done]. }
  destruct (0 <? zlen (PromListenAddr c)); [|exact Hrest]. cbn [app].
  match goal with |- context [Join 10 (?a :: ?b :: ?l)] => change (Join 10 (a :: b :: l)) with (a ++ [10] ++ Join 10 (b :: l)) end.
  rewrite <-!(app_assoc (txt "prometheus " ++ _)), <-(app_assoc [10]), Hcut; [by f_equal|].
  apply not_elem_of_app; split; [by apply (bool_decide_unpack (_ ∉ _))|done].
Qed.

(** ** A concrete message library *)
#[local] Instance toy_dns : DNSLib.
Proof.
  refine {| SetReply := λ r, mkMsg (Id r) true 0 false (RecursionDesired r) (Question r) [];
            StateName := λ r, match Question r with [q] => ToLower (removelast q) | _ => [] end ++ [46] |}.
  - done.
  - intros r. by eexists.
Defined.
Definition toy_plugin : blocklistPlugin := mkPlugin (λ _, (0, NilError)) (inl {[ txt "ads.example" ]}).
Definition toy_request : Msg := mkMsg 7 false 0 false true [txt "Ads.example."] [].
Lemma filter_exact_witness : ∃ m, Id m = 7 ∧ Rcode m = RcodeNameError ∧
  (ServeDNS toy_plugin toy_request).1 = [ObserveLookup; CountBlocked; LogBlocked (txt "Ads.example."); WriteMsg m].
Proof.
  assert (StateName toy_request = txt "ads.example" ++ [46]) as Hn by (vm_compute; reflexivity).
  destruct (proj1 (filter_exact toy_plugin toy_request (txt "ads.example") Hn) {[ txt "ads.example" ]} (txt "Ads.example.") [])
    as (m & H1 & H2 & H3 & H4 & _).
  - reflexivity.
  - set_solver.
  - reflexivity.
  - exists m. rewrite H1. exact (conj H2 (conj H4 eq_refl)).
Defined.
