(* ===== verification/Small.v ===== *)
(** * Small: packages of a few lines

    Models [src/xtime], [src/xutils], [src/sentry], [src/rapidoc], [src/xap],
    [src/xnet/ip_external_unix.go], [src/xstorage/sqlite3.go], the metrics of
    [src/xdns/server/plugin/metrics.go] and the debug listings of [src/ipam/nft_linux.go] and
    [src/ipam/tc_linux.go], each in a module.  The libraries they configure
    (sentry-go, zap, chi, netlink, sqlx, sql-migrate) are parameters. *)
From Stdlib Require Import Sorted.
From S2P Require Import Prelude Text Human Net IPText XError.

Local Open Scope Z_scope.

(** ** xtime: a time as a column of seconds *)
Module XTime.
(** [time.Time]: the seconds since year 1, in 64 bits, and the nanoseconds within. *)
Record Time := mkTime { sec : Z; nsec : Z }.
Definition unixToInternal : Z := 62135596800.
Definition time_Unix (s : Z) : Time := mkTime (i64 (s + unixToInternal)) 0.
Definition Unix (t : Time) : Z := i64 (sec t - unixToInternal).

(** The value of a column: an [int64] or something else. *)
Inductive column := CInt64 (n : Z) | COther.
Definition Scan (src : column) : go unit Time := match src with CInt64 n => Ok (time_Unix n) | COther => Panic end.
Definition Value (lt : option Time) : option Z := match lt with None => None | Some t => Some (Unix t) end.
Definition Now (clock : Time) : Time := clock.
Definition FromTimePtr (t : option Time) : option Time := match t with None => None | Some t => Some t end.
Definition TimePtr (lt : option Time) : option Time := match lt with None => None | Some lt => Some lt end.

(** Whatever is in the column is written back; a time loses its fraction of a second. *)
Lemma column_roundtrip n : in_i64 n → ∃ t, Scan (CInt64 n) = Ok t ∧ Value (Some t) = Some n.
Proof.
  intros Hn. eexists. split; [done|]. unfold Value, Unix, time_Unix, unixToInternal. cbn [sec]. do 2 f_equal. unfold i64, in_i64 in *.
  Z.to_euclidean_division_equations. lia.
Qed.
Lemma time_roundtrip t : in_i64 (sec t) → Scan (CInt64 (Unix t)) = Ok (mkTime (sec t) 0).
Proof.
  intros Ht. unfold Scan, time_Unix, Unix, unixToInternal. do 2 f_equal. unfold i64, in_i64 in *. Z.to_euclidean_division_equations. lia.
Qed.
End XTime.

(** ** xutils: strings and slices that share their bytes *)
Module XUtils.
(** The arrays in memory; a slice and a string are a part of one. *)
Abbreviation memory := (gmap nat bytes).
Record slice := mkSl { s_arr : nat; s_off : nat; s_len : nat; s_cap : nat }.
Record str := mkStr { t_arr : nat; t_off : nat; t_len : nat }.
Definition sliceBytes (m : memory) (s : slice) : bytes := take (s_len s) (drop (s_off s) (default [] (m !! s_arr s))).
Definition strBytes (m : memory) (s : str) : bytes := take (t_len s) (drop (t_off s) (default [] (m !! t_arr s))).

Definition BytesToString (bytes : slice) : str := mkStr (s_arr bytes) (s_off bytes) (s_len bytes).
Definition StringToBytes (string_ : str) : slice := mkSl (t_arr string_) (t_off string_) (t_len string_) (t_len string_).

(** In every state of the memory, also after the slice was changed, the string is what the slice is. *)
Lemma shared m b : strBytes m (BytesToString b) = sliceBytes m b ∧ sliceBytes m (StringToBytes (BytesToString b)) = sliceBytes m b.
Proof. done. Qed.
End XUtils.

(** ** sentry *)
Module Sentry.
Record Config := mkConfig { DSN : bytes; Environment : bytes }.
Section init.
(** An integration of the library, and its name; [sentry.Init]. *)
Context {Integration Err : Type} (Name : Integration → bytes).
Record ClientOptions := mkOptions {
  Dsn : bytes; Debug_ : bool; AttachStacktrace : bool; SampleRate : float; Release : bytes; OptEnvironment : bytes;
  Integrations : list Integration → list Integration }.
Context (Init : ClientOptions → option Err).

Definition useIntegrations (integrations : list Integration) : list Integration :=
  foldl (λ use i, if bool_decide (Name i = txt "Modules") then use else use ++ [i]) [] integrations.
Definition ConfigureGlobal (config : Config) (release : bytes) : option Err :=
  if zlen (DSN config) =? 0 then None
  else Init (mkOptions (DSN config) false true (ofZ 1) release (Environment config) useIntegrations).

(** All integrations but the one, in their order. *)
Lemma useIntegrations_spec l : useIntegrations l = filter (λ i, Name i ≠ txt "Modules") l.
Proof.
  unfold useIntegrations. set (f := λ use i, _). assert (∀ acc, foldl f acc l = acc ++ filter (λ i, Name i ≠ txt "Modules") l) as ->; [|done].
  induction l as [|i l IH]; intros acc; [by rewrite app_nil_r|]. cbn [foldl]. rewrite IH. unfold f. case_bool_decide.
  - by rewrite filter_cons_False by (by intros []).
  - by rewrite filter_cons_True, <-app_assoc.
Qed.
End init.
End Sentry.

(** ** rapidoc: the documentation pages *)
Module RapiDoc.
(** What serves a route: the embedded files, or one page with its content type. *)
Inductive handler := FileServer | Page (contentType body : bytes).
(** The routes in the order of registration; [ReadFile] is the page in the embedded files. *)
Definition RegisterHandlers (b : Version.build) (ReadFile : bytes → option bytes) : list (bytes * handler) :=
  [(txt "/schemas/*", FileServer)] ++
  (if Version.IsPersonal b then
     match ReadFile (txt "rapidoc/tunnel_admin.html") with
     | None => []
     | Some index => [(txt "/rapidoc/", Page (txt "text/html") index)]
     end
   else [(txt "/rapidoc/*", FileServer)]).
End RapiDoc.

(** ** xap: loggers *)
Module XAp.
(** A text field of a log entry, and the one with a value's type name, which fmt gives. *)
Record field := mkField { fieldKey : bytes; fieldString : bytes }.
Definition ZapType {V} (typeName : V → bytes) (v : V) : field := mkField (txt "type") (typeName v).

Section loggers.
(** zap's levels, encoder settings and loggers. *)
Context {Level Encoder Logger : Type} (UnmarshalText : bytes → option Level) (developmentEncoder productionEncoder : Encoder) (capitalColor : Encoder → Encoder).
Record zapConfig := mkZap {
  Development : bool; zLevel : Level; OutputPaths : list bytes; ErrorOutputPaths : list bytes; Encoding : bytes;
  EncoderConfig : Encoder; DisableStacktrace : bool }.
(** [Build] of a configuration; zap's configuration for production, with a level. *)
Context (Build : zapConfig → option Logger) (productionConfig : Level → zapConfig).

Definition HumanReadableLogger (level : bytes) : go unit Logger :=
  let level := if bool_decide (level = []) then txt "info" else level in
  match UnmarshalText level with
  | None => Panic
  | Some logLevel =>
      match Build (mkZap false logLevel [txt "stdout"] [txt "stderr"] (txt "console") (capitalColor developmentEncoder) false) with
      | None => Panic
      | Some z => Ok z
      end
  end.
Definition JSONFormattedLogger (lvl : Level) : go unit Logger :=
  match Build (productionConfig lvl) with None => Panic | Some z => Ok z end.
End loggers.
End XAp.

(** ** The buckets of the plugin's histogram *)
Module DNSMetrics.
Definition Microsecond : Z := 1000.
Definition Buckets : list float :=
  (λ n, ofZ (n * Microsecond)) <$> [500; 1000; 5000; 10000; 50000; 100000; 250000; 500000; 1000000].

(** A metric as it is declared; the histogram has buckets, a counter none.  The namespace is
    that of CoreDNS's plugins. *)
Record metric := mkMetric {
  Namespace : bytes; Subsystem : bytes; MetricName : bytes; Help : bytes; MetricBuckets : list float; LabelNames : list bytes }.
Section declarations.
Context (pluginNamespace : bytes).
Definition blockedCount : metric :=
  mkMetric pluginNamespace (txt "blocklist") (txt "request_blocked_total") (txt "Counter of requests blocked.") [] [txt "server"].
Definition lookupDurationHist : metric :=
  mkMetric pluginNamespace (txt "blocklist") (txt "lookup_duration") (txt "Distribution of the lookup duration") Buckets [txt "server"].
End declarations.

(** The client library panics on bounds that do not ascend; these are exact and do. *)
Lemma buckets_ascend : forallb (λ x, num x =? ftrunc x * den x) Buckets = true ∧
  ftrunc <$> Buckets = [500000; 1000000; 5000000; 10000000; 50000000; 100000000; 250000000; 500000000; Second] ∧
  StronglySorted Z.lt (ftrunc <$> Buckets).
Proof. split; [by vm_compute|]. assert (ftrunc <$> Buckets = [500000; 1000000; 5000000; 10000000; 50000000; 100000000; 250000000; 500000000; Second]) as -> by (by vm_compute). split; [done|]. unfold Second. repeat constructor. Qed.
End DNSMetrics.

(** ** xnet/ip_external_unix.go *)
Module External.
Definition AF_INET : Z := 2.
Definition AF_INET6 : Z := 10.
Definition To16 (ip : IP) : option IP :=
  if zlen ip =? 4 then Some (v4InV6Prefix ++ ip) else if zlen ip =? 16 then Some ip else None.

Section external.
Context {Err : Type}.
Inductive exterr := FromDial (e : Err) | UnexpectedAddr | UnknownFamily (family : Z) | NoRoute (e : Err) | EmptyRoute.
(** The socket's local address when [net.Dial] succeeds, if it is one of UDP. *)
Definition GetOutboundAddr (Dial : bytes → bytes → Err + option IP) : exterr + IP :=
  match Dial (txt "udp") (txt "8.8.8.8:53") with
  | inl err => inl (FromDial err)
  | inr None => inl UnexpectedAddr
  | inr (Some ip) => inr ip
  end.
(** [netlink.RouteGet]: the source addresses of the routes to an address, which may be nil. *)
Context (RouteGet : option IP → Err + list IP).
Definition getExternalAddr (family : Z) : exterr + IP :=
  let routes :=
    if family =? AF_INET then Some (RouteGet (net_ParseIP (txt "1.1.1.1") ≫= To4))
    else if family =? AF_INET6 then Some (RouteGet (net_ParseIP (txt "2606:4700:4700::1111") ≫= To16))
    else None in
  match routes with
  | None => inl (UnknownFamily family)
  | Some (inl err) => inl (NoRoute err)
  | Some (inr []) => inl EmptyRoute
  | Some (inr (src :: _)) => inr src
  end.
Definition GetExternalIPv4Addr : exterr + IP := getExternalAddr AF_INET.

(** On other systems, for tests. *)
Definition other_GetExternalIPv4Addr : option IP := net_ParseIP (txt "10.0.0.1").

(** The route is asked for with an address of the family's width. *)
Lemma external_asks ip : RouteGet (Some [1; 1; 1; 1]) = inr [ip] → GetExternalIPv4Addr = inr ip.
Proof. intros Hr. unfold GetExternalIPv4Addr, getExternalAddr. change (net_ParseIP (txt "1.1.1.1") ≫= To4) with (Some [1; 1; 1; 1]). by rewrite Hr. Qed.
End external.
End External.

(** ** xstorage/sqlite3.go *)
Module Sqlite3.
Section sqlite3.
Context {env : Env} {DB : Type}.
(** [sqlx.Connect] and [migrate.Exec], which changes the database. *)
Context (Connect : bytes → goerror + DB) (Exec : DB → DB * goerror).
Definition NewSqlite3 (path : bytes) : go goerror DB :=
  match Connect path with
  | inl err => throw (EStorageError (txt "can't open database") err [])
  | inr db =>
      let '(db, err) := Exec db in
      if negb (isNil err) then throw (EStorageError (txt "can't perform migration") err []) else Ok db
  end.
End sqlite3.
End Sqlite3.

(** ** ipam: the listing of the packet filter

    Models the debug output of [src/ipam/nft_linux.go]: [listNFTObjects], [policyText] and
    [hookText].  What is printed is the sequence of lines, each with its values; the
    listing of the kernel's objects is a parameter.  Hooks are pointers: those of the
    library's variables, and those a listing allocates. *)
Module NetFilterDebug.
(** [*nftables.ChainHook]: the address of one of the library's five variables, or another one. *)
Inductive hookVar := ChainHookPrerouting | ChainHookInput | ChainHookForward | ChainHookOutput | ChainHookPostrouting.
Inductive hookPtr := HookVar (v : hookVar) | HookAt (address : Z).

Definition hookText (h : hookPtr) : bytes :=
  match h with
  | HookVar ChainHookPrerouting => txt "prerouting"
  | HookVar ChainHookInput => txt "input"
  | HookVar ChainHookForward => txt "forward"
  | HookVar ChainHookOutput => txt "output"
  | HookVar ChainHookPostrouting => txt "postrouting"
  | HookAt address => txt "UNKNOWN v=" ++ itoa address
  end.

(** [*nftables.ChainPolicy]; [None] is nil. *)
Definition ChainPolicyDrop : Z := 0.
Definition ChainPolicyAccept : Z := 1.
Definition policyText (v : option Z) : bytes :=
  match v with
  | None => txt "<nil>"
  | Some v =>
      if v =? ChainPolicyDrop then txt "DROP"
      else if v =? ChainPolicyAccept then txt "ACCEPT"
      else txt "UNKNOWN v=" ++ itoa v
  end.

Section listing.
(** Tables, rules, expressions, sets and their elements as the library gives them. *)
Context {Table Rule Expr NftSet Elem Err : Type} (Exprs : Rule → list Expr).
Record nftChain := mkNftChain { c_name : bytes; c_table : Table; c_hook : hookPtr; c_policy : option Z }.
Record nftConn := mkConn {
  ListTables : Err + list Table; ListChains : Err + list nftChain; GetRule : nftChain → Err + list Rule;
  GetSets : Table → Err + list NftSet; GetSetElements : NftSet → Err + list Elem }.

Inductive line :=
  | LTable (t : Table) | LStars | LChain (name hook policy : bytes) | LRule (r : Rule) | LExpr (e : Expr) | LSet (s : NftSet) | LElem (e : Elem).

(** [%T] and [%#v] of an element or an expression. *)
Definition goText (T GoSyntax : bytes) : bytes := T ++ txt " :: " ++ GoSyntax.
Definition setElementText (describe : Elem → bytes * bytes) (e : Elem) : bytes := goText (describe e).1 (describe e).2.
Definition expressionText (describe : Expr → bytes * bytes) (e : Expr) : bytes := goText (describe e).1 (describe e).2.

(** Errors of the first calls panic; those of sets and elements are ignored. *)
Definition or_empty {A} (x : Err + list A) : list A := match x with inl _ => [] | inr l => l end.
Fixpoint chainLines (conn : nftConn) (chains : list nftChain) : go Err (list line) :=
  match chains with
  | [] => Ok []
  | c :: chains =>
      match GetRule conn c with
      | inl _ => Panic
      | inr rules =>
          let ls := [LChain (c_name c) (hookText (c_hook c)) (policyText (c_policy c))] ++
                    (rules ≫= λ r, LRule r :: (LExpr <$> Exprs r)) ++
                    (or_empty (GetSets conn (c_table c)) ≫= λ s, LSet s :: (LElem <$> or_empty (GetSetElements conn s))) in
          rest ← chainLines conn chains; Ok (ls ++ rest)
      end
  end.
Definition listNFTObjects (conn : nftConn) : go Err (list line) :=
  match ListTables conn with
  | inl _ => Panic
  | inr tables =>
      match ListChains conn with
      | inl _ => Panic
      | inr chains => rest ← chainLines conn chains; Ok ((LTable <$> tables) ++ [LStars] ++ rest)
      end
  end.

Definition print (conn : nftConn) : go Err (list line) := listNFTObjects conn.

(** Without errors the listing is complete: every chain is there, in order. *)
Definition chainOf (l : line) : option bytes := match l with LChain name _ _ => Some name | _ => None end.
Lemma omap_none (ls : list line) : Forall (λ l, chainOf l = None) ls → omap chainOf ls = [].
Proof. induction 1 as [|l ls Hl _ IH]; [done|]. cbn. by rewrite Hl. Qed.
Lemma list_complete conn tables chains : ListTables conn = inr tables → ListChains conn = inr chains →
  (∀ c, c ∈ chains → ∃ rules, GetRule conn c = inr rules) →
  ∃ ls, listNFTObjects conn = Ok ls ∧ omap chainOf ls = c_name <$> chains.
Proof.
  intros Ht Hc Hr. assert (∃ ls, chainLines conn chains = Ok ls ∧ omap chainOf ls = c_name <$> chains) as (ls & E & Hn).
  { clear Hc. induction chains as [|c chains IH]; [by exists []|]. destruct (Hr c) as [rules Er]; [by left|]. destruct IH as (ls & E & Hn); [intros c' Hc'; apply Hr; by right|].
    cbn [chainLines]. rewrite Er, E. cbn [mbind go_bind]. eexists. split; [done|]. rewrite !omap_app, Hn. cbn [omap list_omap app chainOf fmap list_fmap]. rewrite (omap_none (rules ≫= _)), (omap_none (or_empty _ ≫= _)); [done|..].
    - apply Forall_bind, Forall_true. intros s. constructor; [done|]. by apply Forall_fmap, Forall_true.
    - apply Forall_bind, Forall_true. intros r. constructor; [done|]. by apply Forall_fmap, Forall_true. }
  unfold listNFTObjects. rewrite Ht, Hc, E. cbn [mbind go_bind]. eexists. split; [done|]. rewrite !omap_app, Hn. rewrite omap_none; [done|]. by apply Forall_fmap, Forall_true.
Qed.

(** A chain that comes from a listing has a hook of its own: no name is printed for it. *)
Lemma listed_hook_unknown address : hookText (HookAt address) = txt "UNKNOWN v=" ++ itoa address.
Proof. done. Qed.
End listing.
End NetFilterDebug.

(** ** The listing of [ipam/tc_linux.go] *)
Module TCDebug.
(** [%x] of a [uint32]; it has at most eight digits. *)
Fixpoint hexRev (fuel : nat) (n : Z) : bytes :=
  match fuel with
  | O => []
  | S fuel => hexDigit (n mod 16) :: (if n <? 16 then [] else hexRev fuel (n / 16))
  end.
Definition hex (n : Z) : bytes := reverse (hexRev 8 n).

Section listing.
(** The parts of a handle, as netlink computes them. *)
Context (MajorMinor : Z → Z * Z).
(** A filter: its Go type, its type and attributes as netlink prints them, and the u32
    filter it is, if it is one, with the JSON of its selector and its actions' texts. *)
Record u32 := mkU32 {
  u_Parent : Z; u_Handle : Z; u_Hash : Z; u_ClassId : Z; u_Sel : bytes; u_Actions : list (bytes * bytes) }.
Record tcFilter := mkTcFilter { f_goType : bytes; f_Type : bytes; f_Attrs : bytes; f_u32 : option u32 }.
Record qdisc := mkQd { qd_Type : bytes; qd_Attrs : bytes }.

Definition handleStrDec (v : Z) : bytes := let '(ma, mi) := MajorMinor v in itoa ma ++ [58] ++ itoa mi.
Definition handleLine (name : bytes) (v : Z) : bytes :=
  txt "  u32." ++ name ++ txt " = " ++ itoa v ++ txt " " ++ hex v ++ txt " " ++ handleStrDec v.
Definition actionLine (i : nat) (act : bytes * bytes) : bytes :=
  txt "    u32.action." ++ itoa (Z.of_nat i) ++ txt " = type=" ++ act.1 ++ txt " attrs=" ++ act.2.
Definition u32Lines (u : u32) : list bytes :=
  [handleLine (txt "parent") (u_Parent u); handleLine (txt "handle") (u_Handle u);
   txt "  u32.hash = " ++ itoa (u_Hash u) ++ txt " " ++ hex (u_Hash u);
   handleLine (txt "classid") (u_ClassId u);
   txt "  u32.sel = " ++ u_Sel u] ++ imap actionLine (u_Actions u).

(** What is printed, and whether the end was reached: the type assertion panics at a
    filter of another kind. *)
Fixpoint filterLines (fs : list tcFilter) : list bytes * bool :=
  match fs with
  | [] => ([], true)
  | f :: fs =>
      let head := [txt "type = " ++ f_goType f ++ txt ", " ++ f_Type f; txt "  attrs = " ++ f_Attrs f] in
      match f_u32 f with
      | None => (head, false)
      | Some u => let '(rest, ok) := filterLines fs in (head ++ u32Lines u ++ rest, ok)
      end
  end.

(** The answers of [FilterList] and [QdiscList]: a list, or the text of the error. *)
Definition debugTcPrintFilters (filters : bytes + list tcFilter) : list bytes * bool :=
  match filters with
  | inl err => ([txt "failed to list filters :: " ++ err], true)
  | inr fs => filterLines fs
  end.

Definition tcList (linkName : bytes) (linkIndex : Z) (qdiscs : bytes + list qdisc) (filters : bytes + list tcFilter) : list bytes * bool :=
  match qdiscs with
  | inl _ => ([], false)
  | inr qds =>
      let head := (txt "qdiscs on " ++ linkName ++ txt " (" ++ itoa linkIndex ++ txt "):") ::
                  ((λ qd, txt "  typ=" ++ qd_Type qd ++ txt ", " ++ qd_Attrs qd) <$> qds) in
      let '(lines, ok) := debugTcPrintFilters filters in
      (head ++ lines ++ (if ok then [[]; []; []] else []), ok)
  end.

(** The listing ends early exactly when there is a filter that is not a u32 filter, which
    [findFilter] of the traffic control skips. *)
Lemma filterLines_ends fs : (filterLines fs).2 = true ↔ Forall (λ f, is_Some (f_u32 f)) fs.
Proof.
  induction fs as [|f fs IH]; [by split|]. cbn [filterLines]. rewrite Forall_cons. destruct (f_u32 f) as [u|].
  - destruct (filterLines fs) as [rest ok]. cbn in *. rewrite IH. split; [intros H; split; [by eexists|done]|by intros [_ ?]].
  - split; [done|by intros [[? ?] _]].
Qed.
End listing.
End TCDebug.
